(* ===== verification/_CoqProject ===== *)
-Q . S2P
Prelude.v
Float64.v
Prog.v
Owned.v
Types.v
Config.v
World.v
Invariant.v
Send.v
Client.v
Rooms.v
RoomSpec.v
Registry.v
RegistrySpec.v
UnregisterSpec.v
Pool.v
Broadcast.v
BroadcastSpec.v
ParallelSpec.v
DeliverySpec.v
Pump.v
PumpSpec.v
ReadSpec.v
Presence.v
PresenceSpec.v
Cluster.v
ClusterSpec.v
Origin.v
Options.v
Lifecycle.v
Watch.v
DrainSpec.v
LifecycleSpec.v
Handlers.v
Metrics.v
MetricsString.v
Prometheus.v
PrometheusSpec.v
Loadtest.v
LoadtestSpec.v
LoadtestRooms.v
LoadtestPool.v
Nats.v
NatsSpec.v
NatsPool.v
Network.v
Gossip.v
Redis.v
RedisSpec.v
RedisPool.v
System.v
Demo.v
DemoCluster.v
LoadtestDemo.v
Sha256.v
Base64.v
Auth.v
Notify.v
Chat.v
Examples.v
AuthDemo.v
Races.v
Witnesses.v
