(* ===== verification/Prelude.v ===== *)
(** * wshub: a WebSocket hub, verified

    wshub (Go) keeps the set of connected WebSocket clients of one server,
    groups them in rooms and by user, fans messages out to them, relays between
    nodes through an adapter, and starts and drains gracefully.  This library
    models the package as it is written and proves what makes it correct.

    ** The program and its model

    Goroutines share a hub (hub.go), its clients (client.go) and rooms through
    mutexes, atomics and channels.  [Prog] gives programs over a shared state
    as sequences of atomic blocks: the region a mutex protects, an atomic
    access or a channel operation is one block, and other goroutines may run
    between any two.  The same text of an operation is read in two ways: [run]
    executes it alone, [pool_step] interleaves any number of goroutines.
    [World] is the shared state: the structs as records, pointers as addresses
    into heaps, and the trace of everything that leaves the package (metrics,
    log lines, hooks, frames, HTTP errors, publications, goroutines started).

    - [Prelude]: Go's 64-bit integers and durations, bytes, generic lemmas,
      automation.  [Float64]: float64 as binary64 numbers, with the roundings
      the proofs need.
    - [Prog], [Watch], [Owned]: the semantics and its program logics, [keeps]
      (invariants of every block), [rg] (rely/guarantee, for code that is the
      only writer of a field), [watched] (no lost wake-ups) and [owned]
      (responsibilities handed from goroutine to goroutine, and what a pool
      that cannot move looks like).
    - [Types]: errors.go, message.go, limits.go, wire messages of adapter.go,
      states of hub.go.  [Config]: config.go.  [Options]: options.go, [NewHub].
    - [World], [Invariant]: the state, the environment of a hub (hooks.go,
      adapter.go, logger.go, metrics.go as interfaces), and the invariant [wf].
    - [Send], [Client]: the bounded send queue with its drop policies, the
      close protocol and the token bucket (client.go, [trySendErr] of hub.go).
    - [Rooms], [RoomSpec]: joins, leaves and queries, and the abstract
      membership relation they implement.
    - [Registry], [RegistrySpec], [UnregisterSpec]: registration, the user
      index, unregistration, as the Run goroutine performs them.
    - [Pool], [Broadcast], [BroadcastSpec], [DeliverySpec]: workerpool.go and
      every broadcast and send, and who receives what; [ParallelSpec]:
      delivery through the worker pool, under every schedule.
    - [Pump], [PumpSpec], [ReadSpec]: the write and read goroutines.
    - [Presence], [PresenceSpec], [Cluster], [ClusterSpec]: presence.go and the
      messages of other nodes.
    - [Origin]: handshake logging and the origin check.
    - [Lifecycle], [LifecycleSpec], [DrainSpec]: [Run], [UpgradeConnection],
      [Drain] and its reaper, [Shutdown], health.go.
    - [Handlers]: router.go, middleware.go.  [Metrics], [MetricsString]:
      [DebugMetrics] and the summary it prints (metrics.go).  [Prometheus],
      [PrometheusSpec]: prometheus/prometheus.go over the client library's
      interface, and its agreement with [DebugMetrics].
    - [Network]: several nodes joined by a bus, each handling what the others
      publish; [Gossip]: their presence reports.
    - [Nats], [NatsSpec], [NatsPool]: adapter/nats, and [Redis], [RedisSpec],
      [RedisPool]: adapter/redis, each over a state of its own: its
      operations, the tokens and invariant of a pool of calls, the theorems.
    - [Loadtest], [LoadtestSpec], [LoadtestRooms], [LoadtestPool]:
      cmd/loadtest/main.go, its goroutines over the variables they share, its
      measurements, its rooms, and the parallel dialling.
    - The examples: [Auth] (examples/auth) with [Sha256] and [Base64], the
      parts of Go's library its tokens are made of; [Notify]
      (examples/notifications); [Chat] (examples/chat), programs over the hub
      and the server's own map; [Examples]: simple, metrics and multinode.
    - [System]: all goroutines and calls together.  [Demo], [DemoCluster],
      [LoadtestDemo], [AuthDemo], [Witnesses]: concrete hubs and clusters and
      the theorems at them.  [Races]: schedules that defeat an operation's
      intent.

    Go names are kept; a record field carries a prefix ([c_], [r_], [h_], [p_],
    [w_]) for the struct it belongs to.  Critical sections of an operation are
    definitions of their own where they are shared or long ([join_section] of
    [JoinRoom]).  Map iteration order, the case a [select] takes among the
    ready ones, fresh UUIDs and ticks are choices of the class [Runtime], a
    parameter of every theorem.

    ** What is proved

    - Under every schedule: the invariant of a whole hub ([System]), the
      connection limit and that a drain's completion signal is never lost
      ([DrainSpec]), that relayed messages are not published again ([Cluster]),
      that handshake log lines keep their distance ([Origin]), that the cached
      middleware chain is the right one ([Handlers]).
    - The adapters, however their calls overlap: every call returns, and a
      closed adapter leaves no subscription and no goroutine behind; NATS
      never drains a subscription twice ([NatsPool]); the Redis adapter's
      [WaitGroup] is never negative, and no handler runs after [Close]
      ([RedisPool]).
    - Refinement of abstract specifications: rooms as a relation ([RoomSpec]),
      the send queue as a bounded queue ([Send]).
    - Each operation on each branch, without interference: registration and
      unregistration, user IDs, sends, upgrade, drain, shutdown, reaper tick,
      read step, write pump, presence tick.
    - Parallel delivery ([ParallelSpec]): fan-outs through the worker pool
      deliver what the serial loop delivers and always return, with the pool
      shut down at any moment.
    - Delivery: each broadcast reaches exactly its targets, once; a relayed
      broadcast reaches what a local one would; coalesced frames read back as
      the messages sent.
    - Bounds: 64-bit wrap-around of totals and counters, the token bucket in
      binary64 arithmetic, the length and UTF-8 validity of logged origins,
      configurations after defaulting.
    - Across nodes: a message cast by one node is delivered exactly once to
      everyone its audience names on every node, in whatever order the nodes
      handle their messages, and the cluster comes to rest ([Network]); when
      every node has reported and no message is left, all nodes report the
      cluster's sums ([Gossip]).
    - The two collectors agree call by call, and counters that are floats are
      exact up to 2^53 ([PrometheusSpec]); the printed summary does not depend
      on the iteration order of its map ([MetricsString]).
    - The load test: at most two hundred handshakes at a time, every dial
      answered ([LoadtestPool]); rooms dealt evenly and messages reaching
      exactly the room-mates ([LoadtestRooms]); what a reader records is the
      time travelled, and the quantiles are order statistics
      ([LoadtestSpec]).
    - The examples: base64 decodes what it encodes, and a request is let in
      exactly when its token is signed, decodes and has not expired ([Auth]);
      a pushed notification reaches exactly the connections it is addressed
      to, and the answer counts them ([Notify]); joins, announcements and
      chat messages over the room relation, and a departure whose announcement
      may have lost the name ([Chat]).
    - [Races] replays schedules on which the lock discipline is too weak: a
      join that ends in a deleted room, a join or a user ID that outlives the
      client, a client accepted after a drain has completed.

    ** Fuel

    A loop that runs as long as its goroutine lives ([Run], the pumps, the
    workers, the reaper, presence) takes the number of its turns as fuel, and
    running out is an explicit stuck program; theorems about interleavings
    quantify over all fuels.  Loops that end by themselves are shown to end:
    emptying a queue takes its length, the event loop body more than the number
    of pending events ([drainAndRebuildSnapshot_drains]), UTF-8 repair the
    length of the string, a Redis receiver the number of messages delivered
    ([redis_calls_return]), a worker the number of batches
    ([parallelSend_returns]).  The load test's readers, senders and churner
    run until they are stopped and take fuel like the pumps; its dials have no
    loop.

    ** What is not modelled, and why

    - Code outside the repository is a parameter with documented hypotheses:
      gorilla's [Upgrade] and [ReadMessage], the answers of a connection's
      peer (the load test's included), the adapter behind the interface, the
      NATS connection, the Redis client (whose [Receive] answers once its
      context is done), the Prometheus client library (a class with its laws).
      Nothing is assumed of them beyond that and that they keep the hub's
      invariant.  [encoding/json] and [net/url] are parameters too: the code
      relies on their round trips only.
    - The clock does not advance inside a program run alone; theorems about
      time quantify over the clock and the recorded times.
    - Lock acquisition is not a block of its own: a region is entered when its
      block runs, so lock-order deadlocks are out of scope ([sendMu], which is
      held across blocks, is modelled as a flag).
    - The text of log lines' key-value arguments and what programs print to
      the standard logger; doc.go (comments).
    - The scenario functions of cmd/loadtest, which string the modelled parts
      together around sleeps and print a report, and in the examples the pages
      they serve and the start and end of the process.
    - [NodeID], [WithLogger], [WithMetrics], [Message.JSON] and the no-op
      logger and collector, which have nothing to state. *)
From stdpp Require Export prelude gmap sets list strings.
From Stdlib Require Export ZArith Lia.
From Stdlib.Strings Require Byte.

(** ** Go's fixed-width integers *)

(** [int64] (and [int], 64 bits wide on every supported target): the value
    modulo 2^64 in two's complement. *)
Definition wrap64 (z : Z) : Z := ((z + 2 ^ 63) mod 2 ^ 64 - 2 ^ 63)%Z.

Definition min_int64 : Z := (- 2 ^ 63)%Z.
Definition max_int64 : Z := (2 ^ 63 - 1)%Z.

Definition in_int64 (z : Z) : Prop := (min_int64 <= z <= max_int64)%Z.

Lemma wrap64_small z : in_int64 z -> wrap64 z = z.
Proof.
  unfold in_int64, min_int64, max_int64, wrap64. intros H.
  rewrite Z.mod_small by lia. lia.
Qed.

Lemma wrap64_range z : in_int64 (wrap64 z).
Proof.
  unfold in_int64, min_int64, max_int64, wrap64.
  pose proof (Z.mod_pos_bound (z + 2 ^ 63) (2 ^ 64) ltac:(lia)). lia.
Qed.

(** Wrapping an operand changes nothing modulo 2^64: a counter that has
    wrapped keeps counting modulo 2^64. *)
Lemma wrap64_add_l a b : wrap64 (wrap64 a + b) = wrap64 (a + b).
Proof.
  unfold wrap64. f_equal.
  replace ((a + 2 ^ 63) mod 2 ^ 64 - 2 ^ 63 + b + 2 ^ 63)%Z
    with ((a + 2 ^ 63) mod 2 ^ 64 + b)%Z by lia.
  rewrite Zplus_mod_idemp_l. f_equal. lia.
Qed.

Lemma wrap64_add_r a b : wrap64 (a + wrap64 b) = wrap64 (a + b).
Proof. rewrite Z.add_comm, wrap64_add_l. f_equal. lia. Qed.

(** ** Time: instants and durations in nanoseconds *)
Definition Nanosecond : Z := 1.
Definition Millisecond : Z := 1000000.
Definition Second : Z := 1000000000.
Definition Minute : Z := 60000000000.

(** [t.Sub(u)]: saturates at the bounds of [Duration]. *)
Definition time_Sub (t u : Z) : Z := Z.max min_int64 (Z.min max_int64 (t - u)).

(** [time.Duration] products wrap; quotients truncate towards zero. *)
Definition dur_mul (a b : Z) : Z := wrap64 (a * b).
Definition dur_div (a b : Z) : Z := Z.quot a b.

(** ** Lists *)
Lemma list_to_set_elements_perm `{Countable K} (l : list K) (X : gset K) :
  l ≡ₚ elements X -> (list_to_set l : gset K) = X.
Proof.
  intros Hl. apply leibniz_equiv. rewrite Hl. apply list_to_set_elements.
Qed.

Lemma elem_of_perm_elements `{Countable K} (l : list K) (X : gset K) k :
  l ≡ₚ elements X -> k ∈ l <-> k ∈ X.
Proof. intros ->. apply elem_of_elements. Qed.

Lemma NoDup_perm_elements `{Countable K} (l : list K) (X : gset K) :
  l ≡ₚ elements X -> NoDup l.
Proof. intros ->. apply NoDup_elements. Qed.

Lemma length_perm_elements `{Countable K} (l : list K) (X : gset K) :
  l ≡ₚ elements X -> length l = size X.
Proof. intros ->. done. Qed.

(** Sizes of sets under insertion and removal of one element. *)
Lemma size_insert_new `{Countable K} (X : gset K) k : k ∉ X -> size (X ∪ {[k]}) = S (size X).
Proof. intros H1. rewrite size_union, size_singleton; [lia|set_solver]. Qed.

Lemma size_delete_elem `{Countable K} (X : gset K) k :
  k ∈ X -> S (size (X ∖ {[k]})) = size X.
Proof.
  intros Hk. rewrite size_difference, size_singleton by set_solver.
  assert (size X ≠ 0) by (rewrite size_empty_iff; set_solver). lia.
Qed.

Lemma size_difference_le `{Countable K} (X Y : gset K) : size (X ∖ Y) <= size X.
Proof. apply subseteq_size. set_solver. Qed.

Lemma union_elem_id `{Countable K} (X : gset K) k : k ∈ X -> X ∪ {[k]} = X.
Proof. set_solver. Qed.

Lemma map_size_delete_elem `{Countable K} {V} (m : gmap K V) k v :
  m !! k = Some v -> size m = S (size (delete k m)).
Proof.
  intros Hk. rewrite <-(map_size_insert_None k v (delete k m)) by apply lookup_delete_eq.
  by rewrite insert_delete_id.
Qed.

(** ** Bytes *)
Definition byte_of (z : Z) : Byte.byte := default Byte.x00 (Byte.of_N (Z.to_N (z mod 256)%Z)).
Definition byte_val (b : Byte.byte) : Z := Z.of_N (Byte.to_N b).

Lemma byte_val_of z : byte_val (byte_of z) = (z mod 256)%Z.
Proof.
  unfold byte_val, byte_of. pose proof (Z.mod_pos_bound z 256 ltac:(lia)) as Hz.
  destruct (Byte.of_N (Z.to_N (z mod 256))) as [b|] eqn:Hb; simpl.
  - apply Byte.to_of_N in Hb. lia.
  - apply Byte.of_N_None_iff in Hb. lia.
Qed.

Lemma byte_val_range b : (0 <= byte_val b < 256)%Z.
Proof. unfold byte_val. pose proof (Byte.to_N_bounded b). lia. Qed.

Lemma byte_of_val b : byte_of (byte_val b) = b.
Proof.
  unfold byte_of. rewrite Z.mod_small by apply byte_val_range.
  unfold byte_val. by rewrite N2Z.id, Byte.of_to_N.
Qed.

(** ** Automation *)

(** Turn boolean guards of the code into the propositions they decide. *)
Ltac bool_to_prop :=
  repeat match goal with
  | H : _ && _ = true |- _ => apply andb_true_iff in H; destruct H
  | H : _ || _ = false |- _ => apply orb_false_iff in H; destruct H
  | H : _ && _ = false |- _ => apply andb_false_iff in H
  | H : _ || _ = true |- _ => apply orb_true_iff in H
  | H : negb _ = true |- _ => apply negb_true_iff in H
  | H : negb _ = false |- _ => apply negb_false_iff in H
  | H : bool_decide _ = true |- _ => apply bool_decide_eq_true in H
  | H : bool_decide _ = false |- _ => apply bool_decide_eq_false in H
  end.

(** Destruct the scrutinee of a [match] or [if] of the goal, keeping the
    equation. *)
Ltac case_goal :=
  match goal with
  | |- context [match ?x with _ => _ end] =>
      lazymatch x with
      | context [match _ with _ => _ end] => fail
      | _ => let E := fresh "Hc" in destruct x eqn:E
      end
  end.
