(* ===== verification/Float64.v ===== *)
(** * Float64: binary64 arithmetic

    Go's [float64] as the standard library's executable specification of IEEE
    754 with a 53-bit mantissa; the integers below 2^53 are exact in it, and so
    is their division by a power of two. *)

From S2P Require Import Prelude.
From Stdlib.Floats Require Import SpecFloat.

Definition f64_of_Z (z : Z) : spec_float := binary_normalize 53 1024 z 0 false.
Definition f64_add := SFadd 53 1024.
Definition f64_sub := SFsub 53 1024.
Definition f64_mul := SFmul 53 1024.
Definition f64_div := SFdiv 53 1024.

(** [d.Seconds()]: whole seconds plus the fraction. *)
Definition dur_Seconds (d : Z) : spec_float :=
  f64_add (f64_of_Z (Z.quot d Second))
          (f64_div (f64_of_Z (Z.rem d Second)) (f64_of_Z 1000000000)).

(** ** Exactness *)

Lemma digits2_bounds p :
  (2 ^ (Zpos (digits2_pos p) - 1) <= Zpos p < 2 ^ Zpos (digits2_pos p))%Z.
Proof.
  induction p as [p IH|p IH|]; [..|done]; cbn [digits2_pos]; rewrite Pos2Z.inj_succ;
    (replace (Z.succ (Zpos (digits2_pos p)) - 1)%Z with (Z.succ (Zpos (digits2_pos p) - 1)) by lia);
    rewrite !Z.pow_succ_r by lia; lia.
Qed.

Lemma digits2_le p n : (Zpos p < 2 ^ n)%Z -> (0 <= n)%Z -> (Zpos (digits2_pos p) <= n)%Z.
Proof.
  intros Hp Hn. destruct (digits2_bounds p) as [Hl _].
  destruct (Z.le_gt_cases (Zpos (digits2_pos p)) n) as [|Hgt]; [done|].
  assert (2 ^ n <= 2 ^ (Zpos (digits2_pos p) - 1))%Z by (apply Z.pow_le_mono_r; lia). lia.
Qed.

Lemma iter_xO p d :
  Zpos (Pos.iter xO p d) = (Zpos p * 2 ^ Zpos d)%Z /\
  Zpos (digits2_pos (Pos.iter xO p d)) = (Zpos (digits2_pos p) + Zpos d)%Z.
Proof.
  induction d as [|d [IH1 IH2]] using Pos.peano_ind; [cbn; lia|].
  rewrite Pos.iter_succ, Pos2Z.inj_succ, Z.pow_succ_r by lia.
  rewrite Pos2Z.inj_xO, IH1. cbn [digits2_pos]. rewrite Pos2Z.inj_succ, IH2. lia.
Qed.

(** A normal mantissa with an exponent in range is already rounded. *)
Lemma round_normal m e :
  Zpos (digits2_pos m) = 53%Z -> (-1074 <= e <= 971)%Z ->
  binary_round_aux 53 1024 false (Zpos m) e loc_Exact = S754_finite false m e.
Proof.
  intros Hd He.
  assert (shr_fexp 53 1024 (Zpos m) e loc_Exact = (Build_shr_record (Zpos m) false false, e)) as Hs.
  { unfold shr_fexp, Zdigits2, fexp, emin. rewrite Hd.
    replace (Z.max _ _ - e)%Z with 0%Z by lia. done. }
  unfold binary_round_aux. rewrite Hs. cbn [loc_of_shr_record shr_m round_nearest_even].
  rewrite Hs. cbn [shr_m]. by rewrite (proj2 (Z.leb_le e (1024 - 53))) by lia.
Qed.

Lemma f64_of_pos p :
  (Zpos p < 2 ^ 53)%Z ->
  ∃ m e, f64_of_Z (Zpos p) = S754_finite false m e /\ Zpos (digits2_pos m) = 53%Z /\
    (-52 <= e <= 0)%Z /\ Zpos m = (Zpos p * 2 ^ (- e))%Z.
Proof.
  intros Hp. apply digits2_le in Hp; [|lia].
  assert (fexp 53 1024 (Zpos (digits2_pos p) + 0) = Zpos (digits2_pos p) - 53)%Z as Hf
    by (unfold fexp, emin; lia).
  unfold f64_of_Z, binary_normalize, binary_round, shl_align. rewrite Hf.
  destruct (Zpos (digits2_pos p) - 53 - 0)%Z as [|d|d] eqn:Hd; [|lia|].
  - exists p, 0%Z. rewrite round_normal by lia. split_and!; try lia. done.
  - destruct (iter_xO p d) as [H1 H2].
    exists (Pos.iter xO p d), (Zpos (digits2_pos p) - 53)%Z. rewrite round_normal by lia.
    split_and!; try lia; [done|]. rewrite H1. do 2 f_equal. lia.
Qed.

(** One bit too many, and it is zero. *)
Lemma round_even m e :
  Zpos (digits2_pos m) = 53%Z -> (-1075 <= e <= 970)%Z ->
  binary_round_aux 53 1024 false (Zpos m~0) e loc_Exact = S754_finite false m (e + 1).
Proof.
  intros Hd He.
  assert (shr_fexp 53 1024 (Zpos m~0) e loc_Exact = (Build_shr_record (Zpos m) false false, e + 1)%Z)
    as Hs.
  { unfold shr_fexp, Zdigits2, fexp, emin. cbn [digits2_pos]. rewrite Pos2Z.inj_succ, Hd.
    replace (Z.max _ _ - e)%Z with 1%Z by lia. done. }
  rewrite <-round_normal by lia. unfold binary_round_aux at 1. rewrite Hs.
  unfold binary_round_aux.
  assert (shr_fexp 53 1024 (Zpos m) (e + 1) loc_Exact = (Build_shr_record (Zpos m) false false, (e + 1)%Z))
    as Hs2.
  { unfold shr_fexp, Zdigits2, fexp, emin. rewrite Hd.
    replace (Z.max _ _ - (e + 1))%Z with 0%Z by lia. done. }
  by rewrite Hs2.
Qed.

Lemma div_eucl_exact a b q : (0 < b)%Z -> a = (b * q)%Z -> Z.div_eucl a b = (q, 0%Z).
Proof.
  intros Hb Ha. rewrite (surjective_pairing (Z.div_eucl a b)).
  assert ((Z.div_eucl a b).1 = a / b)%Z as -> by (unfold Z.div; by destruct (Z.div_eucl a b)).
  assert ((Z.div_eucl a b).2 = a mod b)%Z as -> by (unfold Z.modulo; by destruct (Z.div_eucl a b)).
  rewrite Ha, Z.mul_comm, Z.div_mul, Z.mod_mul by lia. done.
Qed.

(** Dividing by a power of two only moves the exponent. *)
Lemma f64_div_normal m e m2 e2 :
  Zpos (digits2_pos m) = 53%Z -> Zpos m2 = (2 ^ 52)%Z -> Zpos (digits2_pos m2) = 53%Z ->
  (-500 <= e - e2 - 52 <= 500)%Z ->
  f64_div (S754_finite false m e) (S754_finite false m2 e2) = S754_finite false m (e - e2 - 52).
Proof.
  intros Hd Hm2 Hd2 Hr. unfold f64_div, SFdiv, SFdiv_core_binary, Zdigits2. rewrite Hd, Hd2.
  replace (Z.min (fexp 53 1024 (53 + e - (53 + e2))) (e - e2))%Z with (e - e2 - 53)%Z
    by (unfold fexp, emin; lia).
  replace (e - e2 - (e - e2 - 53))%Z with 53%Z by lia. rewrite Hm2.
  assert (Z.div_eucl (Z.shiftl (Zpos m) 53) (2 ^ 52) = (Zpos m~0, 0%Z)) as ->.
  { apply div_eucl_exact; [done|]. rewrite Z.shiftl_mul_pow2, (Pos2Z.inj_xO m) by done.
    change (2 ^ 53)%Z with (2 * 2 ^ 52)%Z.
    by rewrite Z.mul_assoc, (Z.mul_comm (Zpos m)), (Z.mul_comm (2 ^ 52)). }
  cbn [xorb]. rewrite (round_even m) by lia. f_equal. lia.
Qed.

(** A positive integer below 2^53 over a power of two, exactly. *)
Lemma f64_div_pow2 p k m2 :
  (Zpos p < 2 ^ 53)%Z -> (0 <= k <= 52)%Z ->
  f64_of_Z (2 ^ k) = S754_finite false m2 (k - 52) -> Zpos m2 = (2 ^ 52)%Z ->
  Zpos (digits2_pos m2) = 53%Z ->
  ∃ m e, f64_div (f64_of_Z (Zpos p)) (f64_of_Z (2 ^ k)) = S754_finite false m e /\
    (-104 <= e <= 0)%Z /\ (Zpos m * 2 ^ k = Zpos p * 2 ^ (- e))%Z.
Proof.
  intros Hp Hk Hf Hm2 Hd2. destruct (f64_of_pos p Hp) as (m & e & -> & Hd & He & Hm).
  rewrite Hf, f64_div_normal by (done || lia). exists m, (e - k)%Z.
  split; [f_equal; lia|]. split; [lia|].
  rewrite Hm, <-Z.mul_assoc, <-Z.pow_add_r by lia. do 2 f_equal. lia.
Qed.
