(* ===== verification/Prog.v ===== *)
(** * Prog: programs as sequences of atomic critical sections

    The Go code is written against mutexes, atomics and channels.  Every region
    that a mutex protects, every atomic load or store and every channel
    operation is one [Atomic] block here; whatever happens between two blocks
    is a point where other goroutines may run.  One text of an operation
    therefore has two readings:

    - [run] executes it alone, as the sequential callers and tests do;
    - [pool_step] interleaves any number of goroutines block by block.

    A block returns [None] when the goroutine is blocked in it (a channel
    send on a full buffer, a receive on an empty one, a wait for a context).

    The second half is a small program logic for the interleaving semantics:
    [keeps] for invariants that every block preserves on its own, and the
    rely/guarantee judgement [rg] for code whose safety rests on being the
    only writer of a field (the hub's Run goroutine). *)

From S2P Require Import Prelude.

Section prog.
Context {W : Type}.

Inductive prog (A : Type) : Type :=
  | Ret (a : A)
  | Atomic (X : Type) (f : W -> option (X * W)) (k : X -> prog A).

Fixpoint pbind {A B : Type} (k : A -> prog B) (p : prog A) : prog B :=
  match p with
  | Ret _ a => k a
  | Atomic _ X f c => Atomic _ X f (fun x => pbind k (c x))
  end.

#[global] Instance prog_mret : MRet prog := Ret.
#[global] Instance prog_mbind : MBind prog := @pbind.

(** The block that is always enabled, and its two common special cases. *)
Definition atomically {X : Type} (f : W -> X * W) : prog X :=
  Atomic _ X (fun w => Some (f w)) (Ret _).

Definition gets {X : Type} (f : W -> X) : prog X :=
  atomically (fun w => (f w, w)).

Definition modify (f : W -> W) : prog unit :=
  atomically (fun w => (tt, f w)).

(** A block that may have to wait. *)
Definition await {X : Type} (f : W -> option (X * W)) : prog X :=
  Atomic _ X f (Ret _).

(** A loop that has used up its fuel: it would go on, so it never returns. *)
Definition out_of_fuel {X : Type} : prog X := await (fun _ => None).

(** [for _, x := range l { body }]: the body's value is discarded. *)
Fixpoint for_each {A : Type} (l : list A) (body : A -> prog unit) : prog unit :=
  match l with
  | [] => mret tt
  | x :: l' => body x ≫= fun _ => for_each l' body
  end.

(** The same loop with [continue]/collect: the bodies' results in order. *)
Fixpoint for_collect {A B : Type} (l : list A) (body : A -> prog (option B))
  : prog (list B) :=
  match l with
  | [] => mret []
  | x :: l' =>
      body x ≫= fun o => for_collect l' body ≫= fun acc =>
        mret match o with Some b => b :: acc | None => acc end
  end.

(** The same loop with an early [return e]: the first [Some] ends it. *)
Fixpoint for_until {A E : Type} (l : list A) (body : A -> prog (option E))
  : prog (option E) :=
  match l with
  | [] => mret None
  | x :: l' =>
      body x ≫= fun o =>
        match o with Some e => mret (Some e) | None => for_until l' body end
  end.

(** ** Sequential execution *)
Fixpoint run {A : Type} (p : prog A) (w : W) : option (A * W) :=
  match p with
  | Ret _ a => Some (a, w)
  | Atomic _ X f k =>
      match f w with
      | Some (x, w') => run (k x) w'
      | None => None
      end
  end.

Lemma run_ret {A} (a : A) w : run (mret a) w = Some (a, w).
Proof. done. Qed.

Lemma run_bind {A B} (p : prog A) (k : A -> prog B) w :
  run (p ≫= k) w = match run p w with
                   | Some (a, w') => run (k a) w'
                   | None => None
                   end.
Proof.
  unfold mbind, prog_mbind. revert w.
  induction p as [a|X f c IH]; intros w; [done|].
  simpl. destruct (f w) as [[x w']|]; [apply IH|done].
Qed.

Lemma run_bind_Some {A B} (p : prog A) (k : A -> prog B) w a w' :
  run p w = Some (a, w') -> run (p ≫= k) w = run (k a) w'.
Proof. intros H. by rewrite run_bind, H. Qed.

Lemma run_atomically {X} (f : W -> X * W) w : run (atomically f) w = Some (f w).
Proof. simpl. by destruct (f w). Qed.

Lemma run_gets {X} (f : W -> X) w : run (gets f) w = Some (f w, w).
Proof. done. Qed.

Lemma run_modify (f : W -> W) w : run (modify f) w = Some (tt, f w).
Proof. done. Qed.

Lemma run_await {X} (f : W -> option (X * W)) w : run (await f) w = f w.
Proof. simpl. by destruct (f w) as [[??]|]. Qed.

(** A loop of programs that never block never blocks; an invariant of the
    bodies is an invariant of the loop. *)
Lemma run_for_each_inv {A} (I : list A -> W -> Prop) (l : list A) body w :
  I l w ->
  (∀ x l' w, I (x :: l') w -> ∃ w', run (body x) w = Some (tt, w') ∧ I l' w') ->
  ∃ w', run (for_each l body) w = Some (tt, w') ∧ I [] w'.
Proof.
  intros HI Hstep. revert w HI.
  induction l as [|x l IH]; intros w HI; simpl; [by eauto|].
  destruct (Hstep _ _ _ HI) as (w' & Hr & HI').
  rewrite (run_bind_Some _ _ _ _ _ Hr). by apply IH.
Qed.

(** ** Total correctness of sequential execution: from [P] the program returns
    and ends in [Q]. *)
Definition total {A : Type} (P : W -> Prop) (p : prog A) (Q : A -> W -> Prop) : Prop :=
  ∀ w, P w -> ∃ a w', run p w = Some (a, w') ∧ Q a w'.

Lemma total_ret {A} (P : W -> Prop) (a : A) (Q : A -> W -> Prop) :
  (∀ w, P w -> Q a w) -> total P (mret a) Q.
Proof. intros H w HP. exists a, w. auto. Qed.

Lemma total_bind {A B} P (p : prog A) (k : A -> prog B) Q Q' :
  total P p Q -> (∀ a, total (Q a) (k a) Q') -> total P (p ≫= k) Q'.
Proof.
  intros Hp Hk w HP. destruct (Hp w HP) as (a & w1 & Hr & HQ).
  rewrite (run_bind_Some _ _ _ _ _ Hr). by apply Hk.
Qed.

Lemma total_atomically {X} (P : W -> Prop) (f : W -> X * W) (Q : X -> W -> Prop) :
  (∀ w, P w -> Q (f w).1 (f w).2) -> total P (atomically f) Q.
Proof.
  intros H w HP. rewrite run_atomically. exists (f w).1, (f w).2.
  split; [by destruct (f w)|auto].
Qed.

Lemma total_gets {X} (P : W -> Prop) (f : W -> X) (Q : X -> W -> Prop) :
  (∀ w, P w -> Q (f w) w) -> total P (gets f) Q.
Proof. intros H. by apply total_atomically. Qed.

Lemma total_modify (P : W -> Prop) (f : W -> W) (Q : unit -> W -> Prop) :
  (∀ w, P w -> Q tt (f w)) -> total P (modify f) Q.
Proof. intros H. by apply total_atomically. Qed.

Lemma total_conseq {A} (P P' : W -> Prop) (p : prog A) (Q Q' : A -> W -> Prop) :
  (∀ w, P w -> P' w) -> (∀ a w, Q' a w -> Q a w) -> total P' p Q' -> total P p Q.
Proof. intros HP HQ H w Hw. destruct (H w (HP w Hw)) as (a & w' & ? & ?); eauto. Qed.

(** A fact known of the state before may be used as a hypothesis. *)
Lemma total_intro {A} (P : W -> Prop) (p : prog A) Q :
  (∀ w0, P w0 -> total (fun w => w = w0) p Q) -> total P p Q.
Proof. intros H w HP. by apply (H w HP w). Qed.

Lemma total_pure {A} (φ : Prop) (P : W -> Prop) (p : prog A) Q :
  (φ -> total P p Q) -> total (fun w => φ /\ P w) p Q.
Proof. intros H w [Hφ HP]. by apply H. Qed.

Lemma total_fact {A} (φ : Prop) (P : W -> Prop) (p : prog A) Q :
  (∀ w, P w -> φ) -> (φ -> total P p Q) -> total P p Q.
Proof. intros Hφ H w HP. apply H; eauto. Qed.

Lemma total_for_each {A} (I : list A -> W -> Prop) (l : list A) body :
  (∀ x l', total (I (x :: l')) (body x) (fun _ => I l')) ->
  total (I l) (for_each l body) (fun _ => I []).
Proof.
  intros H. induction l as [|x l IH]; simpl; [by apply total_ret|].
  eapply total_bind; [apply H|]. intros []. apply IH.
Qed.

(** A collecting loop whose bodies all succeed returns all the values. *)
Lemma total_for_collect {A B} (I : list A -> W -> Prop) (g : A -> B) (l : list A) body :
  (∀ x l', total (I (x :: l')) (body x) (fun o w => o = Some (g x) /\ I l' w)) ->
  total (I l) (for_collect l body) (fun acc w => acc = g <$> l /\ I [] w).
Proof.
  intros H. induction l as [|x l IH]; simpl; [by apply total_ret|].
  eapply total_bind; [apply H|]. intros o. simpl. apply total_pure. intros ->.
  eapply total_bind; [apply IH|]. intros acc. apply total_pure. intros ->.
  by apply total_ret.
Qed.

(** What a sequential run leaves invariant. *)
Definition preserves {A : Type} (I : W -> Prop) (p : prog A) : Prop :=
  ∀ w a w', I w -> run p w = Some (a, w') -> I w'.

Lemma preserves_ret {A} I (a : A) : preserves I (mret a).
Proof. by intros w b w' HI [= _ <-]. Qed.

Lemma preserves_bind {A B} I (p : prog A) (k : A -> prog B) :
  preserves I p -> (∀ a, preserves I (k a)) -> preserves I (p ≫= k).
Proof.
  intros Hp Hk w b w' HI. rewrite run_bind.
  destruct (run p w) as [[a w1]|] eqn:Hr; [|done]. eapply Hk, Hp; eauto.
Qed.

Lemma preserves_atomically {X} (I : W -> Prop) (f : W -> X * W) :
  (∀ w, I w -> I (f w).2) -> preserves I (atomically f).
Proof.
  intros H w a w' HI. rewrite run_atomically. intros [= Hf].
  specialize (H w HI). by rewrite Hf in H.
Qed.

Lemma preserves_gets {X} I (f : W -> X) : preserves I (gets f).
Proof. by apply preserves_atomically. Qed.

Lemma preserves_modify (I : W -> Prop) (f : W -> W) :
  (∀ w, I w -> I (f w)) -> preserves I (modify f).
Proof. intros H. by apply preserves_atomically. Qed.

Lemma preserves_for_each {A} I (l : list A) body :
  (∀ x, preserves I (body x)) -> preserves I (for_each l body).
Proof.
  intros H. induction l as [|x l IH]; simpl; [by apply preserves_ret|].
  by apply preserves_bind.
Qed.

Lemma preserves_for_collect {A B} I (l : list A) (body : A -> prog (option B)) :
  (∀ x, preserves I (body x)) -> preserves I (for_collect l body).
Proof.
  intros H. induction l as [|x l IH]; simpl; [by apply preserves_ret|].
  apply preserves_bind; [done|]. intros o.
  apply preserves_bind; [done|]. intros acc. apply preserves_ret.
Qed.

(** An observing program preserves everything. *)
Lemma preserves_observe {A} I (p : prog A) :
  (∀ w, ∃ a, run p w = Some (a, w)) -> preserves I p.
Proof. intros Hp w a w' HI Hr. destruct (Hp w) as [b Hb]. congruence. Qed.

Lemma total_preserves {A} (P I : W -> Prop) (p : prog A) (Q : A -> W -> Prop) :
  total P p Q -> preserves I p -> total (fun w => P w /\ I w) p (fun a w => Q a w /\ I w).
Proof.
  intros Ht Hp w [HP HI]. destruct (Ht w HP) as (a & w' & Hr & HQ).
  exists a, w'. eauto 6.
Qed.

(** ** Interleaving semantics: a pool of goroutines over one shared state *)
Inductive pool_step : list (prog unit) * W -> list (prog unit) * W -> Prop :=
  | pool_step_at l1 l2 X f (k : X -> prog unit) x w w' :
      f w = Some (x, w') ->
      pool_step (l1 ++ Atomic _ X f k :: l2, w) (l1 ++ k x :: l2, w').

Definition pool_reach := rtc pool_step.

(** One goroutine's own steps: pool reachability for a pool of one, used to
    lift a sequential run into any pool. *)
Lemma pool_run_thread l1 l2 (p : prog unit) w w' :
  run p w = Some (tt, w') ->
  pool_reach (l1 ++ p :: l2, w) (l1 ++ mret tt :: l2, w').
Proof.
  revert w. induction p as [[]|X f k IH]; intros w; simpl.
  - intros [= ->]. apply rtc_refl.
  - destruct (f w) as [[x w1]|] eqn:Hf; [|done]. intros Hr.
    eapply rtc_l; [by constructor|]. by apply IH.
Qed.

(** A schedule: which goroutine takes each step.  [None] when the goroutine it
    names has returned or is blocked. *)
Definition step_at (i : nat) (s : list (prog unit) * W) : option (list (prog unit) * W) :=
  match s.1 !! i with
  | Some (Atomic _ X f k) =>
      match f s.2 with
      | Some (x, w') => Some (<[i := k x]> s.1, w')
      | None => None
      end
  | _ => None
  end.

Fixpoint exec (sched : list nat) (s : list (prog unit) * W) : option (list (prog unit) * W) :=
  match sched with
  | [] => Some s
  | i :: sched' => match step_at i s with Some s' => exec sched' s' | None => None end
  end.

Lemma step_at_step i s s' : step_at i s = Some s' -> pool_step s s'.
Proof.
  destruct s as [ps w]. unfold step_at. simpl. intros H.
  destruct (ps !! i) as [[a|X f k]|] eqn:Hi; try done.
  destruct (f w) as [[x w']|] eqn:Hf; simplify_eq.
  rewrite <-(take_drop_middle _ _ _ Hi) at 1.
  rewrite insert_take_drop by (by eapply lookup_lt_Some). by constructor.
Qed.

Lemma exec_reach sched s s' : exec sched s = Some s' -> pool_reach s s'.
Proof.
  revert s. induction sched as [|i sched IH]; intros s; simpl.
  - intros [= ->]. apply rtc_refl.
  - destruct (step_at i s) as [s1|] eqn:Hs; [|done]. intros H.
    eapply rtc_l; [by eapply step_at_step|]. by apply IH.
Qed.

Definition has_returned (p : prog unit) : bool :=
  match p with Ret _ _ => true | Atomic _ _ _ _ => false end.

Lemma has_returned_ret p : has_returned p = true -> p = mret tt.
Proof. by destruct p as [[]|]. Qed.

(** Replay a schedule and look at the state it ends in. *)
Lemma replay (sched : list nat) (s : list (prog unit) * W)
    (obs : list (prog unit) -> W -> bool) :
  match exec sched s with Some s' => obs s'.1 s'.2 | None => false end = true ->
  ∃ ps' w', pool_reach s (ps', w') /\ obs ps' w' = true.
Proof.
  destruct (exec sched s) as [[ps' w']|] eqn:He; [|done]. intros H.
  exists ps', w'. split; [by eapply exec_reach|done].
Qed.

(** ** Invariants preserved by every block *)
Fixpoint keeps {A : Type} (I : W -> Prop) (p : prog A) : Prop :=
  match p with
  | Ret _ _ => True
  | Atomic _ X f k => ∀ w x w', I w -> f w = Some (x, w') -> I w' ∧ keeps I (k x)
  end.

Lemma keeps_ret {A} I (a : A) : keeps I (mret a).
Proof. done. Qed.

Lemma keeps_bind {A B} I (p : prog A) (k : A -> prog B) :
  keeps I p -> (∀ a, keeps I (k a)) -> keeps I (p ≫= k).
Proof.
  unfold mbind, prog_mbind. intros Hp Hk.
  induction p as [a|X f c IH]; simpl; [by apply Hk|].
  intros w x w' HI Hf. destruct (Hp w x w' HI Hf) as [HI' Hc].
  split; [done|]. by apply IH.
Qed.

Lemma keeps_atomically {X} (I : W -> Prop) (f : W -> X * W) :
  (∀ w, I w -> I (f w).2) -> keeps I (atomically f).
Proof.
  intros H w x w' HI [= Hf]. split; [|done].
  specialize (H w HI). by rewrite Hf in H.
Qed.

Lemma keeps_gets {X} I (f : W -> X) : keeps I (gets f).
Proof. by apply keeps_atomically. Qed.

Lemma keeps_modify (I : W -> Prop) (f : W -> W) :
  (∀ w, I w -> I (f w)) -> keeps I (modify f).
Proof. intros H. by apply keeps_atomically. Qed.

Lemma keeps_await {X} (I : W -> Prop) (f : W -> option (X * W)) :
  (∀ w x w', I w -> f w = Some (x, w') -> I w') -> keeps I (await f).
Proof. intros H w x w' HI Hf. split; [by eapply H|done]. Qed.

Lemma keeps_out_of_fuel {X} I : keeps I (@out_of_fuel X).
Proof. by apply keeps_await. Qed.

Lemma keeps_for_each {A} I (l : list A) body :
  (∀ x, keeps I (body x)) -> keeps I (for_each l body).
Proof.
  intros H. induction l as [|x l IH]; simpl; [done|].
  by apply keeps_bind.
Qed.

Lemma keeps_for_collect {A B} I (l : list A) (body : A -> prog (option B)) :
  (∀ x, keeps I (body x)) -> keeps I (for_collect l body).
Proof.
  intros H. induction l as [|x l IH]; simpl; [done|].
  apply keeps_bind; [done|]. intros o. by apply keeps_bind.
Qed.

Lemma keeps_for_until {A E} I (l : list A) (body : A -> prog (option E)) :
  (∀ x, keeps I (body x)) -> keeps I (for_until l body).
Proof.
  intros H. induction l as [|x l IH]; simpl; [done|].
  apply keeps_bind; [done|]. by intros [].
Qed.

Lemma keeps_run {A} I (p : prog A) w a w' :
  keeps I p -> I w -> run p w = Some (a, w') -> I w'.
Proof.
  revert w. induction p as [b|X f k IH]; simpl; intros w Hk HI.
  - by intros [= _ <-].
  - destruct (f w) as [[x w1]|] eqn:Hf; [|done].
    destruct (Hk w x w1 HI Hf). by apply IH.
Qed.

(** Soundness: an invariant kept by every goroutine of a pool holds in every
    state the pool can reach, under every schedule. *)
Lemma keeps_pool I ps w ps' w' :
  Forall (keeps I) ps -> I w -> pool_reach (ps, w) (ps', w') ->
  Forall (keeps I) ps' ∧ I w'.
Proof.
  intros Hps HI Hr. remember (ps, w) as s eqn:Hs. remember (ps', w') as s' eqn:Hs'.
  revert ps w Hs Hps HI. induction Hr as [s|s1 s2 s3 Hstep Hr IH]; intros ps w Hs Hps HI.
  - by simplify_eq.
  - subst s1. inversion Hstep as [l1 l2 X f k x w0 w1 Hf]; subst.
    apply Forall_app in Hps as [H1 [Hk H2]%Forall_cons].
    destruct (Hk w x w1 HI Hf) as [HI1 Hk1].
    eapply (IH eq_refl); [done| |done].
    apply Forall_app; split; [done|]. by constructor.
Qed.

(** ** Rely/guarantee *)

(** [rg R G p Q w]: started in [w], with other goroutines doing any number of
    [R]-steps before each block, every block of [p] is a [G]-step, and [p]
    ends with [Q]. *)
Fixpoint rg {A : Type} (R G : W -> W -> Prop) (p : prog A) (Q : A -> W -> Prop)
    (w : W) : Prop :=
  match p with
  | Ret _ a => ∀ w1, rtc R w w1 -> Q a w1
  | Atomic _ X f k =>
      ∀ w1 x w2, rtc R w w1 -> f w1 = Some (x, w2) -> G w1 w2 ∧ rg R G (k x) Q w2
  end.

Lemma rg_env {A} R G (p : prog A) Q w w1 : rtc R w w1 -> rg R G p Q w -> rg R G p Q w1.
Proof.
  destruct p as [a|X f k]; simpl; intros Hw H.
  - intros w2 H2. apply H. by etrans.
  - intros w2 x w3 H2 Hf. apply (H w2); [by etrans|done].
Qed.

Lemma rg_bind {A B} R G (p : prog A) (k : A -> prog B) Q Q' w :
  rg R G p Q w -> (∀ a w1, Q a w1 -> rg R G (k a) Q' w1) -> rg R G (p ≫= k) Q' w.
Proof.
  unfold mbind, prog_mbind. revert w.
  induction p as [a|X f c IH]; simpl; intros w Hp Hk.
  - apply Hk. by apply Hp.
  - intros w1 x w2 Hw Hf. destruct (Hp w1 x w2 Hw Hf) as [HG Hc].
    split; [done|]. by apply IH.
Qed.

Lemma rg_impl {A} R G (p : prog A) (Q Q' : A -> W -> Prop) w :
  (∀ a w1, Q a w1 -> Q' a w1) -> rg R G p Q w -> rg R G p Q' w.
Proof.
  intros HQ. revert w. induction p as [a|X f k IH]; simpl; intros w H.
  - eauto.
  - intros w1 x w2 Hw Hf. destruct (H w1 x w2 Hw Hf) as [HG Hk]. eauto.
Qed.

(** One block against a rely [R] under which [P] is stable. *)
Lemma rg_atomically {X} (R G : W -> W -> Prop) (P : W -> Prop) (f : W -> X * W)
    (Q : X -> W -> Prop) w :
  (∀ w1 w2, R w1 w2 -> P w1 -> P w2) ->
  P w ->
  (∀ w1, P w1 -> G w1 (f w1).2 ∧ ∀ w2, rtc R (f w1).2 w2 -> Q (f w1).1 w2) ->
  rg R G (atomically f) Q w.
Proof.
  intros Hst HP Hf w1 x w2 Hw [= Hfw].
  assert (P w1) as HP1 by (clear -Hst HP Hw; induction Hw; eauto).
  specialize (Hf w1 HP1). rewrite Hfw in Hf. done.
Qed.

(** A pool whose first goroutine runs under [rg R G] and whose other
    goroutines' blocks are all [R]-steps: every [G]- and [R]-invariant holds
    in every reachable state. *)
Definition guarantees {A : Type} (R : W -> W -> Prop) (p : prog A) : Prop :=
  (fix go (p : prog A) : Prop :=
     match p with
     | Ret _ _ => True
     | Atomic _ X f k => ∀ w x w', f w = Some (x, w') -> R w w' ∧ go (k x)
     end) p.

Lemma rg_pool R G (p : prog unit) ps w p' ps' w' Q (I : W -> Prop) :
  rg R G p Q w -> Forall (guarantees R) ps ->
  I w -> (∀ w1 w2, G w1 w2 -> I w1 -> I w2) -> (∀ w1 w2, R w1 w2 -> I w1 -> I w2) ->
  pool_reach (p :: ps, w) (p' :: ps', w') -> I w'.
Proof.
  intros Hp Hps HI HG HR Hr.
  remember (p :: ps, w) as s eqn:Hs. remember (p' :: ps', w') as s' eqn:Hs'.
  revert p ps w Hs Hp Hps HI.
  induction Hr as [s|s1 s2 s3 Hstep Hr IH]; intros p ps w Hs Hp Hps HI.
  - by simplify_eq.
  - subst s1. inversion Hstep as [l1 l2 X f k x w0 w1 Hf Heq]; subst.
    destruct l1 as [|q l1]; simpl in *; simplify_eq.
    + destruct (Hp w x w1 (rtc_refl _ _) Hf) as [HG1 Hk].
      apply (IH eq_refl _ _ _ eq_refl); eauto.
    + apply Forall_app in Hps as [H1 [Hk H2]%Forall_cons].
      destruct (Hk w x w1 Hf) as [HR1 Hk1].
      apply (IH eq_refl _ _ _ eq_refl); [| |by eauto].
      * apply (rg_env _ _ _ _ w); [by apply rtc_once|done].
      * apply Forall_app; split; [done|]. by constructor.
Qed.
End prog.

Arguments prog : clear implicits.
Arguments Ret {W A} a.
Arguments Atomic {W A X} f k.

#[global] Arguments run : simpl never.
#[global] Arguments keeps : simpl never.
#[global] Arguments rg : simpl never.
#[global] Arguments total : simpl never.
#[global] Arguments preserves : simpl never.
#[global] Arguments mbind : simpl never.
#[global] Arguments mret : simpl never.
#[global] Arguments atomically : simpl never.
#[global] Arguments gets : simpl never.
#[global] Arguments modify : simpl never.
#[global] Arguments await : simpl never.

(** Run the next blocks of a program symbolically. *)
Ltac run_simpl := repeat (rewrite run_bind || rewrite run_ret || rewrite run_gets
  || rewrite run_modify || rewrite run_await || rewrite run_atomically); cbn beta iota.

Create HintDb keeps discriminated.
Create Rewrite HintDb run.
#[export] Hint Resolve keeps_ret keeps_out_of_fuel keeps_bind keeps_gets keeps_for_each
  keeps_for_collect keeps_for_until : keeps.
#[export] Hint Rewrite @run_bind @run_ret @run_atomically @run_gets @run_modify
  @run_await : run.
