(* ===== verification/Owned.v ===== *)
(** * Owned: who is responsible for what, under interleaving

    A program logic for resources that pass from hand to hand between the
    goroutines of a pool: a subscription that somebody must drain, a slot of a
    wait group that somebody must give back, a client that somebody must send
    to.  A resource is a token; a goroutine holds a multiset of them, and
    [Inv] relates all the tokens held by anybody to the shared state.  Each
    block may change the tokens of the goroutine that runs it, whatever the
    others hold, as long as [Inv] holds again.  [Blocked] says what a goroutine
    that has to wait may hold, so that a pool in which nothing can move can be
    analysed; [K] bounds what one goroutine ever holds. *)

From stdpp Require Export gmultiset.
From S2P Require Import Prelude Prog.

(** ** All the tokens held by anybody *)
Section Held.
Context {R : Type} `{Countable R}.
Abbreviation tokens := (gmultiset R).

Definition held (rs : list tokens) : tokens := foldr (⊎) ∅ rs.

Lemma held_app l1 r l2 : held (l1 ++ r :: l2) = r ⊎ held (l1 ++ l2).
Proof. induction l1 as [|x l1 IH]; simpl; [done|]. rewrite IH. multiset_solver. Qed.

Lemma elem_of_held x rs : x ∈ held rs -> ∃ i r, rs !! i = Some r /\ x ∈ r.
Proof.
  induction rs as [|r rs IH]; simpl; [multiset_solver|].
  rewrite gmultiset_elem_of_disj_union. intros [Hx|Hx]; [by exists 0, r|].
  destruct (IH Hx) as (i & r' & Hi & Hr). by exists (S i), r'.
Qed.

Lemma elem_of_held_2 x rs i r : rs !! i = Some r -> x ∈ r -> x ∈ held rs.
Proof.
  intros Hi Hx. rewrite <-(take_drop_middle _ _ _ Hi), held_app. multiset_solver.
Qed.

Lemma multiplicity_held_app x l1 l2 :
  multiplicity x (held (l1 ++ l2)) = multiplicity x (held l1) + multiplicity x (held l2).
Proof.
  induction l1 as [|r l1 IH]; simpl; [by rewrite multiplicity_empty|].
  rewrite !multiplicity_disj_union, IH. lia.
Qed.

(** Tokens handed out by position. *)
Lemma multiplicity_held_imap_at {B} x (f : nat -> B -> tokens) (l : list B) i :
  (∀ j b, j <> i -> multiplicity x (f j b) = 0) ->
  multiplicity x (held (imap f l)) = from_option (fun b => multiplicity x (f i b)) 0 (l !! i).
Proof.
  revert f i. induction l as [|b l IH]; intros f i Hf; simpl; [by rewrite multiplicity_empty|].
  rewrite multiplicity_disj_union. destruct i as [|i]; simpl.
  - assert (multiplicity x (held (imap (f ∘ S) l)) = 0) as ->; [|lia].
    rewrite (IH (f ∘ S) (length l)); [|intros; by apply Hf].
    by rewrite lookup_ge_None_2.
  - rewrite Hf by done. apply (IH (f ∘ S)). intros. apply Hf. lia.
Qed.

Lemma multiplicity_held_imap_zero {B} x (f : nat -> B -> tokens) (l : list B) :
  (∀ j b, multiplicity x (f j b) = 0) -> multiplicity x (held (imap f l)) = 0.
Proof.
  intros Hf. rewrite (multiplicity_held_imap_at _ _ _ (length l)); [|intros; apply Hf].
  by rewrite lookup_ge_None_2.
Qed.

Lemma multiplicity_held_imap_le {B} x (f : nat -> B -> tokens) (l : list B) :
  (∀ j b, multiplicity x (f j b) <= 1) -> multiplicity x (held (imap f l)) <= length l.
Proof.
  revert f. induction l as [|b l IH]; intros f Hf; simpl; [by rewrite multiplicity_empty|].
  rewrite multiplicity_disj_union. specialize (IH (f ∘ S) (fun j b => Hf (S j) b)).
  specialize (Hf 0 b). lia.
Qed.

End Held.

(** ** Weights: what all the tokens held amount to *)
Definition weigh {R : Type} `{Countable R} (f : R -> nat) (T : gmultiset R) : nat :=
  sum_list_with f (elements T).

Section Weigh.
Context {R : Type} `{Countable R}.
Implicit Types (f : R -> nat) (T : gmultiset R).

Lemma sum_list_with_perm {A} (g : A -> nat) l l' :
  l ≡ₚ l' -> sum_list_with g l = sum_list_with g l'.
Proof. induction 1; simpl; lia. Qed.

Lemma weigh_empty f : weigh f ∅ = 0.
Proof. unfold weigh. by rewrite gmultiset_elements_empty. Qed.

Lemma weigh_singleton f x : weigh f {[+ x +]} = f x.
Proof. unfold weigh. rewrite gmultiset_elements_singleton. simpl. lia. Qed.

Lemma weigh_disj_union f T T' : weigh f (T ⊎ T') = weigh f T + weigh f T'.
Proof.
  unfold weigh. rewrite (sum_list_with_perm _ _ _ (gmultiset_elements_disj_union T T')).
  apply sum_list_with_app.
Qed.

Lemma weigh_elem f T x : x ∈ T -> f x <= weigh f T.
Proof. rewrite <-gmultiset_elem_of_elements. apply sum_list_with_in. Qed.

Lemma weigh_pos f T : 0 < weigh f T -> ∃ x, x ∈ T /\ 0 < f x.
Proof.
  unfold weigh. setoid_rewrite <-gmultiset_elem_of_elements. generalize (elements T). intros l.
  induction l as [|y l IH]; simpl; [lia|]. intros Hl. destruct (decide (0 < f y)).
  - exists y. split; [by left|done].
  - destruct IH as (x & Hx & Hf); [lia|]. exists x. split; [by right|done].
Qed.

Lemma weigh_zero f T : (∀ x, x ∈ T -> f x = 0) -> weigh f T = 0.
Proof.
  intros Hf. destruct (weigh f T) eqn:Ht; [done|].
  destruct (weigh_pos f T) as (x & Hx & Hp); [lia|]. rewrite Hf in Hp by done. lia.
Qed.

Lemma weigh_mono f g T : (∀ x, f x <= g x) -> weigh f T <= weigh g T.
Proof.
  intros Hfg. unfold weigh. induction (elements T) as [|x l IH]; simpl; [done|].
  specialize (Hfg x). lia.
Qed.

Lemma weigh_plus f g T : weigh (fun x => f x + g x) T = weigh f T + weigh g T.
Proof. unfold weigh. induction (elements T) as [|x l IH]; simpl; lia. Qed.

Lemma weigh_held f rs : weigh f (held rs) = sum_list_with (weigh f) rs.
Proof.
  induction rs as [|r rs IH]; simpl; [apply weigh_empty|]. by rewrite weigh_disj_union, IH.
Qed.
End Weigh.

(** Decide a goal about who holds how much of what. *)
Ltac mult :=
  repeat first [ rewrite multiplicity_disj_union in * | rewrite multiplicity_empty in *
               | rewrite multiplicity_singleton in * ];
  repeat (case_decide; simplify_eq/=); try done; try lia.

(** Evaluate the tokens of a goal whose tokens are syntactically equal or not. *)
Ltac eval_tokens :=
  rewrite ?multiplicity_disj_union, ?multiplicity_empty;
  repeat match goal with
         | |- context [multiplicity ?x {[+ ?y +]}] =>
             first [ rewrite (multiplicity_singleton_ne x y) by discriminate
                   | rewrite (multiplicity_singleton_eq x) ]
         end.

(** ** Counting the entries of a heap *)
Definition count_if {A} (f : A -> bool) (mp : gmap nat A) : nat :=
  size (filter (fun p => f p.2 = true) mp).

Definition one_if {A} (f : A -> bool) (x : A) : nat := if f x then 1 else 0.

Lemma count_if_insert {A} (f : A -> bool) i s (mp : gmap nat A) :
  count_if f (<[i := s]> mp) + from_option (one_if f) 0 (mp !! i) = count_if f mp + one_if f s.
Proof.
  unfold count_if. rewrite <-insert_delete_eq. set (m0 := delete i mp).
  assert (m0 !! i = None) as H0 by apply lookup_delete_eq.
  assert (∀ x, size (filter (fun p : nat * A => f p.2 = true) (<[i := x]> m0)) =
               size (filter (fun p => f p.2 = true) m0) + one_if f x) as Hx.
  { intros x. rewrite map_filter_insert. unfold one_if. destruct (f x) eqn:Hc.
    - rewrite decide_True by done. rewrite map_size_insert_None; [lia|].
      apply map_lookup_filter_None. by left.
    - rewrite decide_False by (simpl; congruence). rewrite delete_id; [lia|done]. }
  rewrite Hx. destruct (mp !! i) as [x|] eqn:Hi; simpl.
  - rewrite <-(insert_delete_id mp i x Hi) at 1. fold m0. rewrite Hx. lia.
  - unfold m0. rewrite delete_id by done. lia.
Qed.

Lemma alter_lookup `{Countable K} {A} (f : A -> A) (k : K) (x : A) (mp : gmap K A) :
  mp !! k = Some x -> alter f k mp = <[k := f x]> mp.
Proof.
  intros Hx. apply map_eq. intros k'. destruct (decide (k' = k)) as [->|Hne].
  - by rewrite lookup_alter_eq, lookup_insert_eq, Hx.
  - by rewrite lookup_alter_ne, lookup_insert_ne.
Qed.

Lemma count_if_alter {A} (f : A -> bool) g i s (mp : gmap nat A) :
  mp !! i = Some s ->
  count_if f (alter g i mp) + one_if f s = count_if f mp + one_if f (g s).
Proof.
  intros Hs. rewrite (alter_lookup _ _ _ _ Hs).
  pose proof (count_if_insert f i (g s) mp) as Hl. rewrite Hs in Hl. exact Hl.
Qed.

Lemma count_if_alter_same {A} (f : A -> bool) g i s (mp : gmap nat A) :
  mp !! i = Some s -> f (g s) = f s -> count_if f (alter g i mp) = count_if f mp.
Proof.
  intros Hs Hf. pose proof (count_if_alter f g i s mp Hs) as Hl. unfold one_if in Hl.
  rewrite Hf in Hl. lia.
Qed.

Lemma count_if_pos {A} (f : A -> bool) (mp : gmap nat A) :
  0 < count_if f mp <-> ∃ i x, mp !! i = Some x /\ f x = true.
Proof.
  unfold count_if. split.
  - intros Hp. destruct (map_choose (filter (fun p => f p.2 = true) mp)) as (i & x & Hx).
    { intros Hn. rewrite Hn, map_size_empty in Hp. lia. }
    apply map_lookup_filter_Some in Hx as [Hx Hf]. eauto.
  - intros (i & x & Hx & Hf). destruct (decide (size (filter (fun p => f p.2 = true) mp) = 0)) as [Hz|]; [|lia].
    apply map_size_empty_iff in Hz.
    assert (filter (fun p => f p.2 = true) mp !! i = Some x) as Hc by by apply map_lookup_filter_Some.
    by rewrite Hz in Hc.
Qed.

(** ** The judgement *)
Section Owned.
Context {W R : Type} `{Countable R}.
Abbreviation tokens := (gmultiset R).
Context (Inv Blocked : tokens -> W -> Prop).

Fixpoint owned {A : Type} (K : tokens -> Prop) (r : tokens) (p : prog W A)
    (Q : A -> tokens -> Prop) : Prop :=
  K r /\
  match p with
  | Ret a => Q a r
  | Atomic f k =>
      ∀ F w, Inv (r ⊎ F) w ->
        match f w with
        | Some (x, w') => ∃ r', Inv (r' ⊎ F) w' /\ owned K r' (k x) Q
        | None => Blocked r w
        end
  end.

Lemma owned_K {A} K r (p : prog W A) Q : owned K r p Q -> K r.
Proof. destruct p; by intros [? _]. Qed.

Lemma owned_ret {A} (K : tokens -> Prop) r (a : A) (Q : A -> tokens -> Prop) :
  K r -> Q a r -> owned K r (mret a) Q.
Proof. done. Qed.

Lemma owned_bind {A B} K r (p : prog W A) (k : A -> prog W B) Q Q' :
  owned K r p Q' -> (∀ a r', K r' -> Q' a r' -> owned K r' (k a) Q) -> owned K r (p ≫= k) Q.
Proof.
  unfold mbind, prog_mbind. intros Hp Hk. revert r Hp.
  induction p as [a|X f c IH]; intros r [HK Hp]; [by apply Hk|].
  split; [done|]. intros F w HI. specialize (Hp F w HI).
  destruct (f w) as [[x w']|]; [|done]. destruct Hp as (r' & HI' & Hc).
  exists r'. split; [done|]. by apply IH.
Qed.

(** A block followed by the rest, the shape of every Go statement. *)
Lemma owned_await {X B} (K : tokens -> Prop) r (f : W -> option (X * W)) (k : X -> prog W B) Q :
  K r ->
  (∀ F w, Inv (r ⊎ F) w ->
     match f w with
     | Some (x, w') => ∃ r', Inv (r' ⊎ F) w' /\ owned K r' (k x) Q
     | None => Blocked r w
     end) ->
  owned K r (await f ≫= k) Q.
Proof. done. Qed.

Lemma owned_atomically {X B} (K : tokens -> Prop) r (f : W -> X * W) (k : X -> prog W B) Q :
  K r ->
  (∀ F w, Inv (r ⊎ F) w -> ∃ r', Inv (r' ⊎ F) (f w).2 /\ owned K r' (k (f w).1) Q) ->
  owned K r (atomically f ≫= k) Q.
Proof. intros HK H1. split; [done|]. intros F w HI. specialize (H1 F w HI). by destruct (f w). Qed.

Lemma owned_modify {B} (K : tokens -> Prop) r (f : W -> W) (k : unit -> prog W B) Q :
  K r -> (∀ F w, Inv (r ⊎ F) w -> ∃ r', Inv (r' ⊎ F) (f w) /\ owned K r' (k tt) Q) ->
  owned K r (modify f ≫= k) Q.
Proof. intros HK H1. by apply owned_atomically. Qed.

(** The last block of a program. *)
Lemma owned_last {X} (K : tokens -> Prop) r (f : W -> option (X * W)) Q :
  K r ->
  (∀ F w, Inv (r ⊎ F) w ->
     match f w with
     | Some (x, w') => ∃ r', Inv (r' ⊎ F) w' /\ K r' /\ Q x r'
     | None => Blocked r w
     end) ->
  owned K r (await f) Q.
Proof. done. Qed.

Lemma owned_last_atomically {X} (K : tokens -> Prop) r (f : W -> X * W) Q :
  K r -> (∀ F w, Inv (r ⊎ F) w -> ∃ r', Inv (r' ⊎ F) (f w).2 /\ K r' /\ Q (f w).1 r') ->
  owned K r (atomically f) Q.
Proof. intros HK H1. split; [done|]. intros F w HI. specialize (H1 F w HI). by destruct (f w). Qed.

(** ** Pools *)
Lemma Forall3_imap {A B C D} (P : A -> B -> C -> Prop) f g h (l : list D) :
  (∀ i x, P (f i x) (g i x) (h i x)) -> Forall3 P (imap f l) (imap g l) (imap h l).
Proof.
  revert f g h. induction l as [|x l IH]; intros f g h HP; simpl; constructor; [done|].
  apply IH. intros i y. apply HP.
Qed.

(** A goroutine ends with nothing in its hands. *)
Definition thread_ok (K : tokens -> Prop) (p : prog W unit) (r : tokens) : Prop :=
  owned K r p (fun _ r => r = ∅).

Definition pool_owned (Ks : list (tokens -> Prop)) (s : list (prog W unit) * W) : Prop :=
  ∃ rs, Forall3 thread_ok Ks s.1 rs /\ Inv (held rs) s.2.

Lemma pool_owned_step Ks s s' : pool_step s s' -> pool_owned Ks s -> pool_owned Ks s'.
Proof.
  destruct 1 as [l1 l2 X f k x w w' Hf]. intros (rs & HF & HI). simpl in *.
  apply Forall3_app_inv_m in HF as (K1 & K2 & r1 & r2 & -> & -> & HF1 & HF2).
  apply Forall3_cons_inv_m in HF2 as (K & Ks' & r & r2' & -> & -> & Hp & HF2).
  unfold thread_ok in Hp. cbn [owned] in Hp. destruct Hp as [HK Hp].
  rewrite held_app in HI. specialize (Hp _ _ HI). rewrite Hf in Hp.
  destruct Hp as (r' & HI' & Hk). exists (r1 ++ r' :: r2'). simpl. rewrite held_app.
  split; [|done]. apply Forall3_app; [done|]. by constructor.
Qed.

Theorem pool_owned_reach Ks s s' : pool_reach s s' -> pool_owned Ks s -> pool_owned Ks s'.
Proof. induction 1; eauto using pool_owned_step. Qed.

(** When nothing can move, every goroutine has returned with empty hands or is
    blocked with what [Blocked] allows. *)
Lemma pool_owned_stuck Ks ps w rs i r :
  Forall3 thread_ok Ks ps rs -> Inv (held rs) w ->
  (∀ s, ¬ pool_step (ps, w) s) -> rs !! i = Some r ->
  (r = ∅ /\ ps !! i = Some (mret tt)) \/ Blocked r w.
Proof.
  intros HF HI Hstuck Hi.
  destruct (Forall3_lookup_r _ _ _ _ _ _ HF Hi) as (K & p & _ & Hp & Hok).
  rewrite <-(take_drop_middle _ _ _ Hi), held_app in HI.
  unfold thread_ok in Hok. destruct p as [[]|X f k]; cbn [owned] in Hok; destruct Hok as [_ Hok].
  - by left.
  - specialize (Hok _ _ HI). destruct (f w) as [[x w']|] eqn:Hf; [|by right].
    exfalso. rewrite <-(take_drop_middle _ _ _ Hp) in Hstuck. by eapply Hstuck, pool_step_at.
Qed.
End Owned.

(** ** Termination

    Programs are well-founded trees, so a pool cannot run for ever: every
    schedule ends in a state where nobody can move. *)
Section Termination.
Context {W : Type}.

Definition unfolds (q p : prog W unit) : Prop :=
  match p with Ret _ => False | Atomic _ k => ∃ x, q = k x end.

Definition pool_unfolds (qs ps : list (prog W unit)) : Prop :=
  ∃ i p q, ps !! i = Some p /\ unfolds q p /\ qs = <[i := q]> ps.

Lemma pool_unfolds_acc ps : Acc pool_unfolds ps.
Proof.
  induction ps as [|p ps IH]; [constructor; by intros ? (? & ? & ? & [=] & ?)|].
  revert ps IH. induction p as [[]|X f k IHk]; intros ps Hps.
  - induction Hps as [ps _ IH]. constructor. intros qs ([|i] & p & q & Hi & Hu & ->); simpl in *.
    + by simplify_eq.
    + apply IH. by exists i, p, q.
  - induction Hps as [ps Hps IH]. constructor. intros qs ([|i] & p & q & Hi & Hu & ->); simpl in *.
    + injection Hi as <-. destruct Hu as [x ->]. apply IHk. by constructor.
    + apply IH. by exists i, p, q.
Qed.

Lemma pool_step_unfolds (s s' : list (prog W unit) * W) : pool_step s s' -> pool_unfolds s'.1 s.1.
Proof.
  destruct 1 as [l1 l2 X f k x w w' Hf]. simpl. exists (length l1), (Atomic f k), (k x).
  rewrite list_lookup_middle by done. split; [done|]. split; [by exists x|].
  by rewrite insert_app_r_alt, Nat.sub_diag.
Qed.

Theorem pool_step_acc (s : list (prog W unit) * W) : Acc (fun s' s => pool_step s s') s.
Proof.
  destruct s as [ps w]. revert w. induction (pool_unfolds_acc ps) as [ps _ IH].
  intros w. constructor. intros [qs w'] Hs. eapply IH, (pool_step_unfolds _ _ Hs).
Qed.
End Termination.
