(* ===== verification/Types.v ===== *)
(** * Types: the plain data of the package

    The sentinel errors (errors.go), message types and messages (config.go,
    message.go), the queued send item (client.go), limits (limits.go), the
    adapter wire message (adapter.go), hub states and drop policies (hub.go)
    and the calls on the metrics interface (metrics.go).  Everything here is
    first-order data with decidable equality. *)

From S2P Require Import Prelude.
From Stdlib.Strings Require Import Byte.

(** Bytes of a message. *)
Abbreviation bytes := (list Byte.byte).

#[export] Instance byte_eq_dec : EqDecision Byte.byte := Byte.byte_eq_dec.

(** Pointers to clients and rooms: [*Client] and [*Room] are compared by
    identity, so they are addresses into the heaps of [World]. *)
Definition cref := nat.
Definition rref := nat.

(** ** errors.go *)
Inductive error :=
  | ErrConnectionClosed | ErrInvalidMessage | ErrSendBufferFull
  | ErrClientNotFound
  | ErrEmptyRoomName | ErrRoomNotFound | ErrAlreadyInRoom | ErrNotInRoom | ErrRoomFull
  | ErrMaxConnectionsReached | ErrMaxRoomsReached | ErrRateLimitExceeded
  | ErrMaxUserConnectionsReached
  | ErrHubNotStarted | ErrHubDraining | ErrHubStopped
  | ErrAuthenticationFailed | ErrUnauthorized
  | ErrContext                         (** [ctx.Err()] of a cancelled context *)
  | ErrExternal (code : nat)           (** an error made outside the package *)
  | ErrWrap (what subject : string) (e : error).  (** [fmt.Errorf("what subject: %w", e)] *)

#[export] Instance error_eq_dec : EqDecision error.
Proof. solve_decision. Defined.

(** [errors.Is(err, target)]: walk the chain of wrapped errors. *)
Fixpoint errors_Is (e target : error) : bool :=
  bool_decide (e = target) ||
  match e with ErrWrap _ _ e' => errors_Is e' target | _ => false end.

(** [err.Error()]; [external] gives the text of errors made elsewhere, [quote]
    is the [%q] verb of the room errors. *)
Fixpoint error_text (external : nat -> string) (quote : string -> string) (e : error) : string :=
  match e with
  | ErrConnectionClosed => "wshub: connection closed"
  | ErrInvalidMessage => "wshub: invalid message"
  | ErrSendBufferFull => "wshub: send buffer full"
  | ErrClientNotFound => "wshub: client not found"
  | ErrEmptyRoomName => "wshub: empty room name"
  | ErrRoomNotFound => "wshub: room not found"
  | ErrAlreadyInRoom => "wshub: client already in room"
  | ErrNotInRoom => "wshub: client not in room"
  | ErrRoomFull => "wshub: room is full"
  | ErrMaxConnectionsReached => "wshub: max connections reached"
  | ErrMaxRoomsReached => "wshub: max rooms per client reached"
  | ErrRateLimitExceeded => "wshub: rate limit exceeded"
  | ErrMaxUserConnectionsReached => "wshub: max connections per user reached"
  | ErrHubNotStarted => "wshub: hub not started"
  | ErrHubDraining => "wshub: hub is draining"
  | ErrHubStopped => "wshub: hub is stopped"
  | ErrAuthenticationFailed => "wshub: authentication failed"
  | ErrUnauthorized => "wshub: unauthorized"
  | ErrContext => "context canceled"
  | ErrExternal n => external n
  | ErrWrap what subject e' =>
      what +:+ " " +:+ (if bool_decide (what = "room") then quote subject else subject) +:+ ": "
        +:+ error_text external quote e'
  end%string.

(** A recovered panic value, as far as [isChanSendPanic] distinguishes them. *)
Inductive panic_value :=
  | PanicNil
  | PanicError (msg : string)
  | PanicString (msg : string)
  | PanicOther.

(** [strings.Contains(s, sub)]. *)
Definition contains (s sub : string) : bool :=
  match String.index 0 sub s with Some _ => true | None => false end.

Definition isChanSendPanic (r : panic_value) : bool :=
  match r with
  | PanicNil => false
  | PanicError msg => contains msg "send on closed channel"
  | PanicString msg => contains msg "send on closed channel"
  | PanicOther => false
  end.

(** ** Message types (config.go), with the opcodes of RFC 6455 *)
Definition TextMessage : Z := 1.
Definition BinaryMessage : Z := 2.
Definition CloseMessage : Z := 8.
Definition PingMessage : Z := 9.
Definition PongMessage : Z := 10.

(** Close codes of RFC 6455 used by the hub. *)
Definition CloseNormalClosure : Z := 1000.
Definition CloseGoingAway : Z := 1001.
Definition CloseAbnormalClosure : Z := 1006.
Definition CloseTryAgainLater : Z := 1013.

(** ** message.go *)
Record Message := mkMessage {
  Type_ : Z;
  Data : bytes;
  ClientID : string;
  Time : Z
}.

#[export] Instance Message_eq_dec : EqDecision Message.
Proof. solve_decision. Defined.

(** The constructors take the clock as an argument; [ClientID] stays empty. *)
Definition NewMessage (now : Z) (data : bytes) : Message :=
  mkMessage TextMessage data "" now.

Definition NewTextMessage (now : Z) (text : string) : Message :=
  mkMessage TextMessage (String.list_byte_of_string text) "" now.

Definition NewBinaryMessage (now : Z) (data : bytes) : Message :=
  mkMessage BinaryMessage data "" now.

(** [json.Marshal] is an argument: it gives the encoding or an error. *)
Definition NewJSONMessage {V : Type} (marshal : V -> error + bytes) (now : Z) (v : V)
    : error + Message :=
  match marshal v with
  | inl e => inl e
  | inr data => inr (mkMessage TextMessage data "" now)
  end.

Definition NewRawJSONMessage (now : Z) (data : bytes) : Message :=
  mkMessage TextMessage data "" now.

Definition Text (m : Message) : string := String.string_of_list_byte (Data m).

(** ** The item carried by a client's send channel (client.go) *)
Record sendItem := mkSendItem { msgType : Z; data : bytes }.

#[export] Instance sendItem_eq_dec : EqDecision sendItem.
Proof. solve_decision. Defined.

(** ** limits.go *)
Record Limits := mkLimits {
  MaxConnections : Z;
  MaxConnectionsPerUser : Z;
  MaxRoomsPerClient : Z;
  MaxClientsPerRoom : Z;
  MaxMessageRate : Z
}.

#[export] Instance Limits_eq_dec : EqDecision Limits.
Proof. solve_decision. Defined.

Definition DefaultLimits : Limits := mkLimits 0 0 0 0 0.

Definition WithMaxConnections (l : Limits) (max : Z) : Limits :=
  mkLimits max (MaxConnectionsPerUser l) (MaxRoomsPerClient l) (MaxClientsPerRoom l)
    (MaxMessageRate l).

Definition WithMaxConnectionsPerUser (l : Limits) (max : Z) : Limits :=
  mkLimits (MaxConnections l) max (MaxRoomsPerClient l) (MaxClientsPerRoom l)
    (MaxMessageRate l).

Definition WithMaxRoomsPerClient (l : Limits) (max : Z) : Limits :=
  mkLimits (MaxConnections l) (MaxConnectionsPerUser l) max (MaxClientsPerRoom l)
    (MaxMessageRate l).

Definition WithMaxClientsPerRoom (l : Limits) (max : Z) : Limits :=
  mkLimits (MaxConnections l) (MaxConnectionsPerUser l) (MaxRoomsPerClient l) max
    (MaxMessageRate l).

Definition WithMaxMessageRate (l : Limits) (rate : Z) : Limits :=
  mkLimits (MaxConnections l) (MaxConnectionsPerUser l) (MaxRoomsPerClient l)
    (MaxClientsPerRoom l) rate.

(** [limit > 0 && n >= limit], the shape of every limit check of the hub: a
    limit of 0 (or less) means unlimited. *)
Definition limit_hit (limit : Z) (n : nat) : bool :=
  bool_decide (0 < limit)%Z && bool_decide (limit <= Z.of_nat n)%Z.

(** The bound the check maintains. *)
Definition within (limit : Z) (n : nat) : Prop :=
  (0 < limit)%Z -> (Z.of_nat n <= limit)%Z.

(** A limit that is not positive is none. *)
Lemma limit_off limit n : (limit <= 0)%Z -> limit_hit limit n = false.
Proof. intros Hl. unfold limit_hit. by rewrite bool_decide_eq_false_2 by lia. Qed.

Lemma within_S limit n : limit_hit limit n = false -> within limit n -> within limit (S n).
Proof.
  unfold limit_hit, within. rewrite andb_false_iff, !bool_decide_eq_false. lia.
Qed.

Lemma within_0 limit : within limit 0.
Proof. unfold within. lia. Qed.

Lemma within_le limit n m : within limit n -> m <= n -> within limit m.
Proof. unfold within. lia. Qed.

#[export] Hint Resolve within_S within_0 within_le : core.

(** ** adapter.go *)
Inductive AdapterType :=
  | AdapterBroadcast | AdapterBroadcastExcept | AdapterRoom | AdapterRoomExcept
  | AdapterUser | AdapterClient | AdapterPresence
  | AdapterUnknown (s : string).    (** any other [Type] string on the wire *)

#[export] Instance AdapterType_eq_dec : EqDecision AdapterType.
Proof. solve_decision. Defined.

Definition adapterTypeString (t : AdapterType) : string :=
  match t with
  | AdapterBroadcast => "broadcast"
  | AdapterBroadcastExcept => "broadcast_except"
  | AdapterRoom => "room"
  | AdapterRoomExcept => "room_except"
  | AdapterUser => "user"
  | AdapterClient => "client"
  | AdapterPresence => "presence"
  | AdapterUnknown s => s
  end.

Record AdapterMessage := mkAdapterMessage {
  am_NodeID : string;
  am_Type : AdapterType;
  am_Room : string;
  am_UserID : string;
  am_ClientID : string;
  am_ExceptClientIDs : list string;
  am_MsgType : Z;
  am_Data : bytes
}.

#[export] Instance AdapterMessage_eq_dec : EqDecision AdapterMessage.
Proof. solve_decision. Defined.

(** [msg.NodeID = id]. *)
Definition am_withNode (id : string) (m : AdapterMessage) : AdapterMessage :=
  mkAdapterMessage id (am_Type m) (am_Room m) (am_UserID m) (am_ClientID m)
    (am_ExceptClientIDs m) (am_MsgType m) (am_Data m).

(** ** Hub states and drop policies (hub.go) *)
Inductive HubState := StateRunning | StateDraining | StateStopped.

#[export] Instance HubState_eq_dec : EqDecision HubState.
Proof. solve_decision. Defined.

(** The [int32] behind each constant, and [String], which is total on [int32]. *)
Definition HubState_code (s : HubState) : Z :=
  match s with StateRunning => 0 | StateDraining => 1 | StateStopped => 2 end.

Definition HubState_String (s : Z) : string :=
  if bool_decide (s = HubState_code StateRunning) then "running"
  else if bool_decide (s = HubState_code StateDraining) then "draining"
  else if bool_decide (s = HubState_code StateStopped) then "stopped"
  else "unknown".

Inductive DropPolicy := DropNewest | DropOldest.

#[export] Instance DropPolicy_eq_dec : EqDecision DropPolicy.
Proof. solve_decision. Defined.

(** ** The calls of the [MetricsCollector] interface (metrics.go) *)
Inductive metric :=
  | IncrementConnections | DecrementConnections
  | IncrementMessagesReceived | IncrementMessagesSent (count : Z)
  | IncrementMessagesDropped
  | RecordMessageSize (size : Z) | RecordLatency (duration : Z)
  | RecordBroadcastDuration (duration : Z)
  | IncrementRoomJoins | IncrementRoomLeaves | IncrementRooms | DecrementRooms
  | IncrementErrors (errorType : string).

#[export] Instance metric_eq_dec : EqDecision metric.
Proof. solve_decision. Defined.

(** ** The part of an [http.Request] the hub reads *)
Record Request := mkRequest {
  req_Origin : string;       (** [r.Header.Get("Origin")] *)
  req_Host : string;
  req_RemoteAddr : string
}.

#[export] Instance Request_eq_dec : EqDecision Request.
Proof. solve_decision. Defined.
