(* ===== verification/Config.v ===== *)
(** * Config: connection configuration and origin checks (config.go)

    [Config] with its defaulting, validation and builders.  [url.Parse] is a
    parameter of the origin check: it gives the host part of an origin, or
    [None] for an origin that does not parse. *)

From S2P Require Import Prelude Types.
From stdpp Require Import pretty.

Record Config := mkConfig {
  ReadBufferSize : Z;
  WriteBufferSize : Z;
  WriteWait : Z;
  PongWait : Z;
  PingPeriod : Z;
  MaxMessageSize : Z;
  SendChannelSize : Z;
  EnableCompression : bool;
  CoalesceWrites : bool;
  CheckOrigin : option (Request -> bool);
  Subprotocols : list string
}.

(** ** Origin checks *)
Definition AllowAllOrigins (r : Request) : bool := true.

Section Origin.
Context (url_Parse : string -> option string).

Definition AllowSameOrigin (r : Request) : bool :=
  let origin := req_Origin r in
  if bool_decide (origin = "") then true
  else match url_Parse origin with
       | None => false
       | Some host => bool_decide (host = req_Host r)
       end.

Definition AllowOrigins (origins : list string) : Request -> bool :=
  let allowed : gset string := list_to_set origins in
  fun r =>
    let origin := req_Origin r in
    if bool_decide (origin = "") then true else bool_decide (origin ∈ allowed).

(** ** Defaults and validation *)
Definition DefaultConfig : Config := {|
  ReadBufferSize := 1024;
  WriteBufferSize := 1024;
  WriteWait := dur_mul 10 Second;
  PongWait := dur_mul 60 Second;
  PingPeriod := dur_mul 54 Second;
  MaxMessageSize := 512 * 1024;
  SendChannelSize := 256;
  EnableCompression := false;
  CoalesceWrites := false;
  CheckOrigin := Some AllowSameOrigin;
  Subprotocols := []
|}.

(** [if v <= 0 { v = d }]. *)
Definition default_pos (v d : Z) : Z := if bool_decide (v <= 0)%Z then d else v.

Definition applyConfigDefaults (c : Config) : Config :=
  let d := DefaultConfig in
  let pongWait := default_pos (PongWait c) (PongWait d) in
  let pingPeriod := default_pos (PingPeriod c) (PingPeriod d) in
  {|
    ReadBufferSize := default_pos (ReadBufferSize c) (ReadBufferSize d);
    WriteBufferSize := default_pos (WriteBufferSize c) (WriteBufferSize d);
    WriteWait := default_pos (WriteWait c) (WriteWait d);
    PongWait := pongWait;
    PingPeriod :=
      if bool_decide (pongWait <= pingPeriod)%Z
      then dur_div (dur_mul pongWait 9) 10 else pingPeriod;
    MaxMessageSize := default_pos (MaxMessageSize c) (MaxMessageSize d);
    SendChannelSize := default_pos (SendChannelSize c) (SendChannelSize d);
    EnableCompression := EnableCompression c;
    CoalesceWrites := CoalesceWrites c;
    CheckOrigin := match CheckOrigin c with None => CheckOrigin d | o => o end;
    Subprotocols := Subprotocols c
  |}.

Definition small_buffer (v : Z) : bool :=
  bool_decide (0 < v)%Z && bool_decide (v < 128)%Z.

Definition validateConfig (c : Config) : list string :=
  let warn name v :=
    if small_buffer v
    then [(name +:+ " (" +:+ pretty v +:+ ") is very small (< 128 bytes)")%string]
    else [] in
  warn "ReadBufferSize" (ReadBufferSize c) ++ warn "WriteBufferSize" (WriteBufferSize c).

(** ** Builders *)
Definition WithBufferSizes (c : Config) (read write : Z) : Config :=
  mkConfig read write (WriteWait c) (PongWait c) (PingPeriod c) (MaxMessageSize c)
    (SendChannelSize c) (EnableCompression c) (CoalesceWrites c) (CheckOrigin c)
    (Subprotocols c).

Definition WithTimeouts (c : Config) (writeWait pongWait pingPeriod : Z) : Config :=
  mkConfig (ReadBufferSize c) (WriteBufferSize c) writeWait pongWait pingPeriod
    (MaxMessageSize c) (SendChannelSize c) (EnableCompression c) (CoalesceWrites c)
    (CheckOrigin c) (Subprotocols c).

Definition WithMaxMessageSize (c : Config) (size : Z) : Config :=
  mkConfig (ReadBufferSize c) (WriteBufferSize c) (WriteWait c) (PongWait c)
    (PingPeriod c) size (SendChannelSize c) (EnableCompression c) (CoalesceWrites c)
    (CheckOrigin c) (Subprotocols c).

Definition WithSendChannelSize (c : Config) (size : Z) : Config :=
  mkConfig (ReadBufferSize c) (WriteBufferSize c) (WriteWait c) (PongWait c)
    (PingPeriod c) (MaxMessageSize c) size (EnableCompression c) (CoalesceWrites c)
    (CheckOrigin c) (Subprotocols c).

Definition WithCompression (c : Config) (enabled : bool) : Config :=
  mkConfig (ReadBufferSize c) (WriteBufferSize c) (WriteWait c) (PongWait c)
    (PingPeriod c) (MaxMessageSize c) (SendChannelSize c) enabled (CoalesceWrites c)
    (CheckOrigin c) (Subprotocols c).

Definition WithCoalesceWrites (c : Config) (enabled : bool) : Config :=
  mkConfig (ReadBufferSize c) (WriteBufferSize c) (WriteWait c) (PongWait c)
    (PingPeriod c) (MaxMessageSize c) (SendChannelSize c) (EnableCompression c) enabled
    (CheckOrigin c) (Subprotocols c).

Definition WithCheckOrigin (c : Config) (fn : option (Request -> bool)) : Config :=
  mkConfig (ReadBufferSize c) (WriteBufferSize c) (WriteWait c) (PongWait c)
    (PingPeriod c) (MaxMessageSize c) (SendChannelSize c) (EnableCompression c)
    (CoalesceWrites c) fn (Subprotocols c).

Definition WithSubprotocols (c : Config) (protocols : list string) : Config :=
  mkConfig (ReadBufferSize c) (WriteBufferSize c) (WriteWait c) (PongWait c)
    (PingPeriod c) (MaxMessageSize c) (SendChannelSize c) (EnableCompression c)
    (CoalesceWrites c) (CheckOrigin c) protocols.

(** ** Properties *)

Lemma default_pos_pos v d : (0 < d)%Z -> (0 < default_pos v d)%Z.
Proof. unfold default_pos. case_bool_decide; lia. Qed.

Lemma default_pos_id v d : (0 < v)%Z -> default_pos v d = v.
Proof. unfold default_pos. case_bool_decide; lia. Qed.

Lemma default_pos_idemp v d : (0 < d)%Z -> default_pos (default_pos v d) d = default_pos v d.
Proof. intros. by apply default_pos_id, default_pos_pos. Qed.

(** Nine tenths of a wait that neither wraps nor truncates to zero. *)
Lemma ping_fraction p :
  (2 <= p <= max_int64 `div` 9)%Z -> (0 < dur_div (dur_mul p 9) 10 < p)%Z.
Proof.
  intros [Hl Hu]. unfold dur_div, dur_mul.
  change (max_int64 `div` 9)%Z with 1024819115206086200%Z in Hu.
  rewrite wrap64_small by (unfold in_int64, min_int64, max_int64; lia).
  rewrite Z.quot_div_nonneg by lia. split.
  - apply Z.div_str_pos. lia.
  - apply Z.div_lt_upper_bound; lia.
Qed.


(** Filling defaults twice is filling them once. *)
Theorem applyConfigDefaults_idemp (c : Config)
    (Hm : (PongWait c <= max_int64 `div` 9)%Z) :
  applyConfigDefaults (applyConfigDefaults c) = applyConfigDefaults c.
Proof.
  unfold applyConfigDefaults at 1. simpl.
  rewrite !default_pos_idemp by (vm_compute; reflexivity).
  unfold applyConfigDefaults. f_equal; [|by destruct (CheckOrigin c)]. simpl.
  set (p := default_pos (PongWait c) (dur_mul 60 Second)).
  assert (p = 1 \/ 2 <= p <= max_int64 `div` 9)%Z as Hrange.
  { subst p. unfold default_pos. case_bool_decide; [|lia].
    right. vm_compute. split; discriminate. }
  destruct (decide (p <= default_pos (PingPeriod c) (dur_mul 54 Second))%Z) as [Hc|Hc].
  - rewrite (bool_decide_eq_true_2 _ Hc).
    destruct Hrange as [->|Hrange]; [reflexivity|].
    pose proof (ping_fraction p Hrange).
    rewrite default_pos_id by lia. rewrite bool_decide_eq_false_2 by lia. done.
  - rewrite (bool_decide_eq_false_2 _ Hc).
    rewrite default_pos_idemp by (vm_compute; reflexivity).
    by rewrite bool_decide_eq_false_2.
Qed.
End Origin.

(** The [url.Parse] of a witness: the origin without its ["https://"]. *)
Definition parse_https (s : string) : option string :=
  if String.prefix "https://" s then Some (String.substring 8 (String.length s - 8) s)
  else None.


Lemma applyConfigDefaults_idemp_witness :
  applyConfigDefaults parse_https
    (applyConfigDefaults parse_https (WithBufferSizes (DefaultConfig parse_https) 4096 0)) =
  applyConfigDefaults parse_https (WithBufferSizes (DefaultConfig parse_https) 4096 0).
Proof.
  exact (applyConfigDefaults_idemp parse_https
           (WithBufferSizes (DefaultConfig parse_https) 4096 0)
           ltac:(vm_compute; discriminate)).
Defined.

(** A pong wait of one nanosecond is defaulted to a ping period of zero. *)
Lemma tiny_pong_period (parse : string -> option string) (c : Config) :
  PongWait c = 1%Z -> PingPeriod (applyConfigDefaults parse c) = 0%Z.
Proof.
  intros Hp. unfold applyConfigDefaults. simpl. rewrite Hp.
  change (default_pos 1 _) with 1%Z.
  pose proof (default_pos_pos (PingPeriod c) (dur_mul 54 Second) eq_refl).
  by rewrite bool_decide_eq_true_2 by lia.
Qed.

(** The allow-list check accepts exactly the listed origins, whatever
    their order and multiplicity, and requests without an origin. *)
Theorem AllowOrigins_spec (origins : list string) (r : Request) :
  AllowOrigins origins r = true <-> req_Origin r = "" \/ req_Origin r ∈ origins.
Proof.
  unfold AllowOrigins. cbn zeta. case_bool_decide as H1; [naive_solver|].
  rewrite bool_decide_eq_true, elem_of_list_to_set. naive_solver.
Qed.
