(* ===== verification/World.v ===== *)
(** * World: the shared state of a hub

    The structs of client.go and hub.go with their mutable fields, the heaps
    they live in, the trace of calls that leave the package (metrics, logs,
    hooks, adapter, connection), and the immutable configuration that
    [NewHub] fixes (options.go).  Every operation of the later files is a
    [prog world]. *)

From S2P Require Import Prelude Prog Types Config.
From stdpp Require Import pretty.
From Stdlib.Floats Require Import SpecFloat.

(** ** client.go: [Client] *)

(** A stored interface value ([any]) and a registered callback: opaque handles. *)
Inductive any := AnyHandle (n : nat).
Definition callback := nat.

Record Client := mkClient {
  c_ID : string;
  c_send : list sendItem;            (** the buffered channel, oldest first *)
  c_config : Config;
  c_userID : string;
  c_metadata : option (gmap string any);   (** [None]: the nil map *)
  c_rooms : gset string;
  c_closed : bool;
  c_connectedAt : Z;
  c_closedAt : option Z;             (** [None]: the zero time *)
  c_request : Request;
  c_tokens : spec_float;             (** [float64] *)
  c_lastRefill : Z;
  c_closeCode : Z;
  c_closeReason : string;
  c_graceful : bool;
  c_connClosed : bool;               (** [closeOnce] has run: [conn.Close] was called *)
  c_done : bool;                     (** [done] is closed *)
  c_sendMu : bool;                   (** [sendMu] is held *)
  c_readDone : bool;                 (** the read pump's local [done] is closed *)
  c_onMessage : option callback;
  c_onClose : option callback;
  c_onError : option callback
}.

(** ** hub.go: [Room], [hubSnapshot], [Hub] *)
Record Room := mkRoom {
  r_clients : gset cref;
  r_snapshot : option (list cref)    (** the [atomic.Value]; [None] before the first store *)
}.

Record hubSnapshot := mkHubSnapshot {
  hs_set : gset cref;
  hs_slice : list cref
}.

(** presence.go: the cached report of one remote node. *)
Record nodeStats := mkNodeStats {
  ns_clientCount : Z;
  ns_rooms : gmap string Z;
  ns_lastSeen : Z
}.

Record Hub := mkHub {
  h_clients : gset cref;
  h_clientIndex : gmap string cref;
  h_clientsSnapshot : option hubSnapshot;
  h_clientCount : Z;                 (** [atomic.Int64] *)
  h_rooms : gmap string rref;
  h_roomVersion : Z;                 (** [atomic.Int64] *)
  h_userIndex : gmap string (gset cref);
  h_register : list cref;            (** pending registration requests *)
  h_results : gmap cref (option error);   (** the result channel of each request *)
  h_unregister : list cref;
  h_state : HubState;
  h_alive : bool;
  h_startedAt : option Z;
  h_ctxDone : bool;                  (** [h.ctx] is cancelled *)
  h_drainDone : bool;                (** [drainDone] is closed *)
  h_originRejectLog : Z;             (** [logLimiter.last] *)
  h_upgradeFailLog : Z;
  h_presenceCache : option (gmap string nodeStats);  (** [None]: the nil map *)
  h_wg : Z                           (** [wg]: the hub's running goroutines *)
}.

(** ** Calls that leave the package *)
Inductive level := Debug | Info | Warn | Error.

Inductive hook_call :=
  | HBeforeConnect (r : Request)
  | HAfterConnect (c : cref)
  | HBeforeDisconnect (c : cref)
  | HAfterDisconnect (c : cref)
  | HBeforeMessage (c : cref) (m : Message)
  | HAfterMessage (c : cref) (m : Message) (e : option error)
  | HOnError (c : cref) (e : error)
  | HOnSendDropped (c : cref) (d : bytes)
  | HBeforeRoomJoin (c : cref) (room : string)
  | HAfterRoomJoin (c : cref) (room : string)
  | HBeforeRoomLeave (c : cref) (room : string)
  | HAfterRoomLeave (c : cref) (room : string)
  | HMessageHandler (c : cref) (m : Message)      (** the hub's [onMessage] *)
  | HClientOnMessage (cb : callback) (c : cref) (m : Message)
  | HClientOnClose (cb : callback) (c : cref)
  | HClientOnError (cb : callback) (c : cref) (e : error).

Inductive conn_op :=
  | SetWriteDeadline (t : Z)
  | WriteMessage (t : Z) (d : bytes)
  | WriteClose (code : Z) (reason : string)  (** a close frame; code 0 has an empty body *)
  | NextWriter (t : Z)
  | WriterWrite (d : bytes)
  | WriterClose
  | SetReadLimit (n : Z)
  | SetReadDeadline (t : Z).

(** The goroutines the hub starts. *)
Inductive goroutine :=
  | GReadPump (c : cref) | GReadWatcher (c : cref) | GWritePump (c : cref) | GDrainReaper | GPresence | GWorker.

Inductive event :=
  | EvMetric (m : metric)
  | EvLog (l : level) (msg : string)
  | EvHook (h : hook_call)          (** called in the running goroutine *)
  | EvGo (h : hook_call)            (** [go h(...)]: launched in a goroutine of its own *)
  | EvPublish (m : AdapterMessage)  (** handed to the adapter *)
  | EvAdapterClose
  | EvConn (c : cref) (o : conn_op)
  | EvConnClose (c : cref)
  | EvHTTPError (status : Z) (msg : string)
  | EvSpawn (g : goroutine).

(** ** workerpool.go, and the other objects that goroutines wait on

    A [context.Context] of a caller is a handle, cancelled or not;
    [context.Background] never is.  [WaitGroup]s and [contextResult]s live in
    heaps of their own. *)
Inductive context := Background | Ctx (n : nat).

#[export] Instance context_eq_dec : EqDecision context.
Proof. solve_decision. Defined.

Record broadcastTask := mkBroadcastTask {
  t_clients : list cref;
  t_item : sendItem;
  t_ctx : option (context * nat);    (** the context and its [contextResult] *)
  t_wg : nat
}.

Record Par := mkPar {
  p_once : bool;                     (** [poolOnce] has run *)
  p_started : bool;                  (** [h.pool] is not nil *)
  p_tasks : list broadcastTask;      (** the buffered channel, oldest first *)
  p_stopped : bool;
  p_closed : bool;                   (** the channel is closed *)
  p_workers : nat;                   (** the pool's own [wg]: live workers *)
  p_waits : gmap nat nat;
  p_results : gmap nat (option error);
  p_cancelled : gset nat
}.

Record world := mkWorld {
  w_hub : Hub;
  w_clients : gmap cref Client;
  w_rooms : gmap rref Room;
  w_trace : list event;             (** newest first *)
  w_now : Z;                        (** the clock, in nanoseconds *)
  w_nonce : nat;                    (** counts the runtime's free choices *)
  w_par : Par
}.

(** ** Zero values and pointer access

    A pointer obtained from the hub is never nil, so a load is total; the
    zero struct is what an address that was never allocated reads as. *)
Definition zero_config : Config := mkConfig 0 0 0 0 0 0 0 false false None [].

Definition zero_client : Client := {|
  c_ID := ""; c_send := []; c_config := zero_config; c_userID := "";
  c_metadata := None; c_rooms := ∅; c_closed := false; c_connectedAt := 0;
  c_closedAt := None; c_request := mkRequest "" "" ""; c_tokens := S754_zero false;
  c_lastRefill := 0; c_closeCode := 0; c_closeReason := ""; c_graceful := false;
  c_connClosed := false; c_done := false;
  c_sendMu := false; c_readDone := false; c_onMessage := None; c_onClose := None;
  c_onError := None
|}.

#[export] Instance Client_inhabited : Inhabited Client := populate zero_client.
#[export] Instance Room_inhabited : Inhabited Room := populate (mkRoom ∅ None).

Definition client (w : world) (c : cref) : Client := w_clients w !!! c.
Definition room (w : world) (r : rref) : Room := w_rooms w !!! r.

(** ** Field updates *)
Definition set_c_send (x : list sendItem) (c : Client) : Client :=
  mkClient (c_ID c) x (c_config c) (c_userID c) (c_metadata c) (c_rooms c) (c_closed c)
    (c_connectedAt c) (c_closedAt c) (c_request c) (c_tokens c) (c_lastRefill c)
    (c_closeCode c) (c_closeReason c) (c_graceful c) (c_connClosed c) (c_done c)
    (c_sendMu c) (c_readDone c) (c_onMessage c) (c_onClose c) (c_onError c).

Definition set_c_userID (x : string) (c : Client) : Client :=
  mkClient (c_ID c) (c_send c) (c_config c) x (c_metadata c) (c_rooms c) (c_closed c)
    (c_connectedAt c) (c_closedAt c) (c_request c) (c_tokens c) (c_lastRefill c)
    (c_closeCode c) (c_closeReason c) (c_graceful c) (c_connClosed c) (c_done c)
    (c_sendMu c) (c_readDone c) (c_onMessage c) (c_onClose c) (c_onError c).

Definition set_c_metadata (x : option (gmap string any)) (c : Client) : Client :=
  mkClient (c_ID c) (c_send c) (c_config c) (c_userID c) x (c_rooms c) (c_closed c)
    (c_connectedAt c) (c_closedAt c) (c_request c) (c_tokens c) (c_lastRefill c)
    (c_closeCode c) (c_closeReason c) (c_graceful c) (c_connClosed c) (c_done c)
    (c_sendMu c) (c_readDone c) (c_onMessage c) (c_onClose c) (c_onError c).

Definition set_c_rooms (x : gset string) (c : Client) : Client :=
  mkClient (c_ID c) (c_send c) (c_config c) (c_userID c) (c_metadata c) x (c_closed c)
    (c_connectedAt c) (c_closedAt c) (c_request c) (c_tokens c) (c_lastRefill c)
    (c_closeCode c) (c_closeReason c) (c_graceful c) (c_connClosed c) (c_done c)
    (c_sendMu c) (c_readDone c) (c_onMessage c) (c_onClose c) (c_onError c).

Definition set_c_closed (x : bool) (c : Client) : Client :=
  mkClient (c_ID c) (c_send c) (c_config c) (c_userID c) (c_metadata c) (c_rooms c) x
    (c_connectedAt c) (c_closedAt c) (c_request c) (c_tokens c) (c_lastRefill c)
    (c_closeCode c) (c_closeReason c) (c_graceful c) (c_connClosed c) (c_done c)
    (c_sendMu c) (c_readDone c) (c_onMessage c) (c_onClose c) (c_onError c).

Definition set_c_closedAt (x : option Z) (c : Client) : Client :=
  mkClient (c_ID c) (c_send c) (c_config c) (c_userID c) (c_metadata c) (c_rooms c)
    (c_closed c) (c_connectedAt c) x (c_request c) (c_tokens c) (c_lastRefill c)
    (c_closeCode c) (c_closeReason c) (c_graceful c) (c_connClosed c) (c_done c)
    (c_sendMu c) (c_readDone c) (c_onMessage c) (c_onClose c) (c_onError c).

Definition set_c_tokens (x : spec_float) (c : Client) : Client :=
  mkClient (c_ID c) (c_send c) (c_config c) (c_userID c) (c_metadata c) (c_rooms c)
    (c_closed c) (c_connectedAt c) (c_closedAt c) (c_request c) x (c_lastRefill c)
    (c_closeCode c) (c_closeReason c) (c_graceful c) (c_connClosed c) (c_done c)
    (c_sendMu c) (c_readDone c) (c_onMessage c) (c_onClose c) (c_onError c).

Definition set_c_lastRefill (x : Z) (c : Client) : Client :=
  mkClient (c_ID c) (c_send c) (c_config c) (c_userID c) (c_metadata c) (c_rooms c)
    (c_closed c) (c_connectedAt c) (c_closedAt c) (c_request c) (c_tokens c) x
    (c_closeCode c) (c_closeReason c) (c_graceful c) (c_connClosed c) (c_done c)
    (c_sendMu c) (c_readDone c) (c_onMessage c) (c_onClose c) (c_onError c).

Definition set_c_closeCode (x : Z) (c : Client) : Client :=
  mkClient (c_ID c) (c_send c) (c_config c) (c_userID c) (c_metadata c) (c_rooms c)
    (c_closed c) (c_connectedAt c) (c_closedAt c) (c_request c) (c_tokens c)
    (c_lastRefill c) x (c_closeReason c) (c_graceful c) (c_connClosed c) (c_done c)
    (c_sendMu c) (c_readDone c) (c_onMessage c) (c_onClose c) (c_onError c).

Definition set_c_closeReason (x : string) (c : Client) : Client :=
  mkClient (c_ID c) (c_send c) (c_config c) (c_userID c) (c_metadata c) (c_rooms c)
    (c_closed c) (c_connectedAt c) (c_closedAt c) (c_request c) (c_tokens c)
    (c_lastRefill c) (c_closeCode c) x (c_graceful c) (c_connClosed c) (c_done c)
    (c_sendMu c) (c_readDone c) (c_onMessage c) (c_onClose c) (c_onError c).

Definition set_c_graceful (x : bool) (c : Client) : Client :=
  mkClient (c_ID c) (c_send c) (c_config c) (c_userID c) (c_metadata c) (c_rooms c)
    (c_closed c) (c_connectedAt c) (c_closedAt c) (c_request c) (c_tokens c)
    (c_lastRefill c) (c_closeCode c) (c_closeReason c) x (c_connClosed c) (c_done c)
    (c_sendMu c) (c_readDone c) (c_onMessage c) (c_onClose c) (c_onError c).

Definition set_c_connClosed (x : bool) (c : Client) : Client :=
  mkClient (c_ID c) (c_send c) (c_config c) (c_userID c) (c_metadata c) (c_rooms c)
    (c_closed c) (c_connectedAt c) (c_closedAt c) (c_request c) (c_tokens c)
    (c_lastRefill c) (c_closeCode c) (c_closeReason c) (c_graceful c) x (c_done c)
    (c_sendMu c) (c_readDone c) (c_onMessage c) (c_onClose c) (c_onError c).

Definition set_c_done (x : bool) (c : Client) : Client :=
  mkClient (c_ID c) (c_send c) (c_config c) (c_userID c) (c_metadata c) (c_rooms c)
    (c_closed c) (c_connectedAt c) (c_closedAt c) (c_request c) (c_tokens c)
    (c_lastRefill c) (c_closeCode c) (c_closeReason c) (c_graceful c) (c_connClosed c) x
    (c_sendMu c) (c_readDone c) (c_onMessage c) (c_onClose c) (c_onError c).

Definition set_c_sendMu (x : bool) (c : Client) : Client :=
  mkClient (c_ID c) (c_send c) (c_config c) (c_userID c) (c_metadata c) (c_rooms c)
    (c_closed c) (c_connectedAt c) (c_closedAt c) (c_request c) (c_tokens c)
    (c_lastRefill c) (c_closeCode c) (c_closeReason c) (c_graceful c) (c_connClosed c)
    (c_done c) x (c_readDone c) (c_onMessage c) (c_onClose c) (c_onError c).

Definition set_c_readDone (x : bool) (c : Client) : Client :=
  mkClient (c_ID c) (c_send c) (c_config c) (c_userID c) (c_metadata c) (c_rooms c)
    (c_closed c) (c_connectedAt c) (c_closedAt c) (c_request c) (c_tokens c)
    (c_lastRefill c) (c_closeCode c) (c_closeReason c) (c_graceful c) (c_connClosed c)
    (c_done c) (c_sendMu c) x (c_onMessage c) (c_onClose c) (c_onError c).

Definition set_c_onMessage (x : option callback) (c : Client) : Client :=
  mkClient (c_ID c) (c_send c) (c_config c) (c_userID c) (c_metadata c) (c_rooms c)
    (c_closed c) (c_connectedAt c) (c_closedAt c) (c_request c) (c_tokens c)
    (c_lastRefill c) (c_closeCode c) (c_closeReason c) (c_graceful c) (c_connClosed c)
    (c_done c) (c_sendMu c) (c_readDone c) x (c_onClose c) (c_onError c).

Definition set_c_onClose (x : option callback) (c : Client) : Client :=
  mkClient (c_ID c) (c_send c) (c_config c) (c_userID c) (c_metadata c) (c_rooms c)
    (c_closed c) (c_connectedAt c) (c_closedAt c) (c_request c) (c_tokens c)
    (c_lastRefill c) (c_closeCode c) (c_closeReason c) (c_graceful c) (c_connClosed c)
    (c_done c) (c_sendMu c) (c_readDone c) (c_onMessage c) x (c_onError c).

Definition set_c_onError (x : option callback) (c : Client) : Client :=
  mkClient (c_ID c) (c_send c) (c_config c) (c_userID c) (c_metadata c) (c_rooms c)
    (c_closed c) (c_connectedAt c) (c_closedAt c) (c_request c) (c_tokens c)
    (c_lastRefill c) (c_closeCode c) (c_closeReason c) (c_graceful c) (c_connClosed c)
    (c_done c) (c_sendMu c) (c_readDone c) (c_onMessage c) (c_onClose c) x.

Definition set_r_clients (x : gset cref) (r : Room) : Room :=
  mkRoom x (r_snapshot r).

Definition set_r_snapshot (x : option (list cref)) (r : Room) : Room :=
  mkRoom (r_clients r) x.

Definition set_h_clients (x : gset cref) (h : Hub) : Hub :=
  mkHub x (h_clientIndex h) (h_clientsSnapshot h) (h_clientCount h) (h_rooms h)
    (h_roomVersion h) (h_userIndex h) (h_register h) (h_results h) (h_unregister h)
    (h_state h) (h_alive h) (h_startedAt h) (h_ctxDone h) (h_drainDone h)
    (h_originRejectLog h) (h_upgradeFailLog h) (h_presenceCache h) (h_wg h).

Definition set_h_clientIndex (x : gmap string cref) (h : Hub) : Hub :=
  mkHub (h_clients h) x (h_clientsSnapshot h) (h_clientCount h) (h_rooms h)
    (h_roomVersion h) (h_userIndex h) (h_register h) (h_results h) (h_unregister h)
    (h_state h) (h_alive h) (h_startedAt h) (h_ctxDone h) (h_drainDone h)
    (h_originRejectLog h) (h_upgradeFailLog h) (h_presenceCache h) (h_wg h).

Definition set_h_clientsSnapshot (x : option hubSnapshot) (h : Hub) : Hub :=
  mkHub (h_clients h) (h_clientIndex h) x (h_clientCount h) (h_rooms h)
    (h_roomVersion h) (h_userIndex h) (h_register h) (h_results h) (h_unregister h)
    (h_state h) (h_alive h) (h_startedAt h) (h_ctxDone h) (h_drainDone h)
    (h_originRejectLog h) (h_upgradeFailLog h) (h_presenceCache h) (h_wg h).

Definition set_h_clientCount (x : Z) (h : Hub) : Hub :=
  mkHub (h_clients h) (h_clientIndex h) (h_clientsSnapshot h) x (h_rooms h)
    (h_roomVersion h) (h_userIndex h) (h_register h) (h_results h) (h_unregister h)
    (h_state h) (h_alive h) (h_startedAt h) (h_ctxDone h) (h_drainDone h)
    (h_originRejectLog h) (h_upgradeFailLog h) (h_presenceCache h) (h_wg h).

Definition set_h_rooms (x : gmap string rref) (h : Hub) : Hub :=
  mkHub (h_clients h) (h_clientIndex h) (h_clientsSnapshot h) (h_clientCount h) x
    (h_roomVersion h) (h_userIndex h) (h_register h) (h_results h) (h_unregister h)
    (h_state h) (h_alive h) (h_startedAt h) (h_ctxDone h) (h_drainDone h)
    (h_originRejectLog h) (h_upgradeFailLog h) (h_presenceCache h) (h_wg h).

Definition set_h_roomVersion (x : Z) (h : Hub) : Hub :=
  mkHub (h_clients h) (h_clientIndex h) (h_clientsSnapshot h) (h_clientCount h)
    (h_rooms h) x (h_userIndex h) (h_register h) (h_results h) (h_unregister h)
    (h_state h) (h_alive h) (h_startedAt h) (h_ctxDone h) (h_drainDone h)
    (h_originRejectLog h) (h_upgradeFailLog h) (h_presenceCache h) (h_wg h).

Definition set_h_userIndex (x : gmap string (gset cref)) (h : Hub) : Hub :=
  mkHub (h_clients h) (h_clientIndex h) (h_clientsSnapshot h) (h_clientCount h)
    (h_rooms h) (h_roomVersion h) x (h_register h) (h_results h) (h_unregister h)
    (h_state h) (h_alive h) (h_startedAt h) (h_ctxDone h) (h_drainDone h)
    (h_originRejectLog h) (h_upgradeFailLog h) (h_presenceCache h) (h_wg h).

Definition set_h_register (x : list cref) (h : Hub) : Hub :=
  mkHub (h_clients h) (h_clientIndex h) (h_clientsSnapshot h) (h_clientCount h)
    (h_rooms h) (h_roomVersion h) (h_userIndex h) x (h_results h) (h_unregister h)
    (h_state h) (h_alive h) (h_startedAt h) (h_ctxDone h) (h_drainDone h)
    (h_originRejectLog h) (h_upgradeFailLog h) (h_presenceCache h) (h_wg h).

Definition set_h_results (x : gmap cref (option error)) (h : Hub) : Hub :=
  mkHub (h_clients h) (h_clientIndex h) (h_clientsSnapshot h) (h_clientCount h)
    (h_rooms h) (h_roomVersion h) (h_userIndex h) (h_register h) x (h_unregister h)
    (h_state h) (h_alive h) (h_startedAt h) (h_ctxDone h) (h_drainDone h)
    (h_originRejectLog h) (h_upgradeFailLog h) (h_presenceCache h) (h_wg h).

Definition set_h_unregister (x : list cref) (h : Hub) : Hub :=
  mkHub (h_clients h) (h_clientIndex h) (h_clientsSnapshot h) (h_clientCount h)
    (h_rooms h) (h_roomVersion h) (h_userIndex h) (h_register h) (h_results h) x
    (h_state h) (h_alive h) (h_startedAt h) (h_ctxDone h) (h_drainDone h)
    (h_originRejectLog h) (h_upgradeFailLog h) (h_presenceCache h) (h_wg h).

Definition set_h_state (x : HubState) (h : Hub) : Hub :=
  mkHub (h_clients h) (h_clientIndex h) (h_clientsSnapshot h) (h_clientCount h)
    (h_rooms h) (h_roomVersion h) (h_userIndex h) (h_register h) (h_results h)
    (h_unregister h) x (h_alive h) (h_startedAt h) (h_ctxDone h) (h_drainDone h)
    (h_originRejectLog h) (h_upgradeFailLog h) (h_presenceCache h) (h_wg h).

Definition set_h_alive (x : bool) (h : Hub) : Hub :=
  mkHub (h_clients h) (h_clientIndex h) (h_clientsSnapshot h) (h_clientCount h)
    (h_rooms h) (h_roomVersion h) (h_userIndex h) (h_register h) (h_results h)
    (h_unregister h) (h_state h) x (h_startedAt h) (h_ctxDone h) (h_drainDone h)
    (h_originRejectLog h) (h_upgradeFailLog h) (h_presenceCache h) (h_wg h).

Definition set_h_startedAt (x : option Z) (h : Hub) : Hub :=
  mkHub (h_clients h) (h_clientIndex h) (h_clientsSnapshot h) (h_clientCount h)
    (h_rooms h) (h_roomVersion h) (h_userIndex h) (h_register h) (h_results h)
    (h_unregister h) (h_state h) (h_alive h) x (h_ctxDone h) (h_drainDone h)
    (h_originRejectLog h) (h_upgradeFailLog h) (h_presenceCache h) (h_wg h).

Definition set_h_ctxDone (x : bool) (h : Hub) : Hub :=
  mkHub (h_clients h) (h_clientIndex h) (h_clientsSnapshot h) (h_clientCount h)
    (h_rooms h) (h_roomVersion h) (h_userIndex h) (h_register h) (h_results h)
    (h_unregister h) (h_state h) (h_alive h) (h_startedAt h) x (h_drainDone h)
    (h_originRejectLog h) (h_upgradeFailLog h) (h_presenceCache h) (h_wg h).

Definition set_h_drainDone (x : bool) (h : Hub) : Hub :=
  mkHub (h_clients h) (h_clientIndex h) (h_clientsSnapshot h) (h_clientCount h)
    (h_rooms h) (h_roomVersion h) (h_userIndex h) (h_register h) (h_results h)
    (h_unregister h) (h_state h) (h_alive h) (h_startedAt h) (h_ctxDone h) x
    (h_originRejectLog h) (h_upgradeFailLog h) (h_presenceCache h) (h_wg h).

Definition set_h_originRejectLog (x : Z) (h : Hub) : Hub :=
  mkHub (h_clients h) (h_clientIndex h) (h_clientsSnapshot h) (h_clientCount h)
    (h_rooms h) (h_roomVersion h) (h_userIndex h) (h_register h) (h_results h)
    (h_unregister h) (h_state h) (h_alive h) (h_startedAt h) (h_ctxDone h)
    (h_drainDone h) x (h_upgradeFailLog h) (h_presenceCache h) (h_wg h).

Definition set_h_upgradeFailLog (x : Z) (h : Hub) : Hub :=
  mkHub (h_clients h) (h_clientIndex h) (h_clientsSnapshot h) (h_clientCount h)
    (h_rooms h) (h_roomVersion h) (h_userIndex h) (h_register h) (h_results h)
    (h_unregister h) (h_state h) (h_alive h) (h_startedAt h) (h_ctxDone h)
    (h_drainDone h) (h_originRejectLog h) x (h_presenceCache h) (h_wg h).

Definition set_h_presenceCache (x : option (gmap string nodeStats)) (h : Hub) : Hub :=
  mkHub (h_clients h) (h_clientIndex h) (h_clientsSnapshot h) (h_clientCount h)
    (h_rooms h) (h_roomVersion h) (h_userIndex h) (h_register h) (h_results h)
    (h_unregister h) (h_state h) (h_alive h) (h_startedAt h) (h_ctxDone h)
    (h_drainDone h) (h_originRejectLog h) (h_upgradeFailLog h) x (h_wg h).

Definition set_h_wg (x : Z) (h : Hub) : Hub :=
  mkHub (h_clients h) (h_clientIndex h) (h_clientsSnapshot h) (h_clientCount h)
    (h_rooms h) (h_roomVersion h) (h_userIndex h) (h_register h) (h_results h)
    (h_unregister h) (h_state h) (h_alive h) (h_startedAt h) (h_ctxDone h)
    (h_drainDone h) (h_originRejectLog h) (h_upgradeFailLog h) (h_presenceCache h) x.

Definition set_p_once (x : bool) (p : Par) : Par :=
  mkPar x (p_started p) (p_tasks p) (p_stopped p) (p_closed p) (p_workers p) (p_waits p)
    (p_results p) (p_cancelled p).

Definition set_p_started (x : bool) (p : Par) : Par :=
  mkPar (p_once p) x (p_tasks p) (p_stopped p) (p_closed p) (p_workers p) (p_waits p)
    (p_results p) (p_cancelled p).

Definition set_p_tasks (x : list broadcastTask) (p : Par) : Par :=
  mkPar (p_once p) (p_started p) x (p_stopped p) (p_closed p) (p_workers p) (p_waits p)
    (p_results p) (p_cancelled p).

Definition set_p_stopped (x : bool) (p : Par) : Par :=
  mkPar (p_once p) (p_started p) (p_tasks p) x (p_closed p) (p_workers p) (p_waits p)
    (p_results p) (p_cancelled p).

Definition set_p_closed (x : bool) (p : Par) : Par :=
  mkPar (p_once p) (p_started p) (p_tasks p) (p_stopped p) x (p_workers p) (p_waits p)
    (p_results p) (p_cancelled p).

Definition set_p_workers (x : nat) (p : Par) : Par :=
  mkPar (p_once p) (p_started p) (p_tasks p) (p_stopped p) (p_closed p) x (p_waits p)
    (p_results p) (p_cancelled p).

Definition set_p_waits (x : gmap nat nat) (p : Par) : Par :=
  mkPar (p_once p) (p_started p) (p_tasks p) (p_stopped p) (p_closed p) (p_workers p) x
    (p_results p) (p_cancelled p).

Definition set_p_results (x : gmap nat (option error)) (p : Par) : Par :=
  mkPar (p_once p) (p_started p) (p_tasks p) (p_stopped p) (p_closed p) (p_workers p)
    (p_waits p) x (p_cancelled p).

Definition set_p_cancelled (x : gset nat) (p : Par) : Par :=
  mkPar (p_once p) (p_started p) (p_tasks p) (p_stopped p) (p_closed p) (p_workers p)
    (p_waits p) (p_results p) x.

Definition set_w_nonce (x : nat) (w : world) : world :=
  mkWorld (w_hub w) (w_clients w) (w_rooms w) (w_trace w) (w_now w) x (w_par w).

Definition upd_hub (f : Hub -> Hub) (w : world) : world :=
  mkWorld (f (w_hub w)) (w_clients w) (w_rooms w) (w_trace w) (w_now w) (w_nonce w) (w_par w).

Definition upd_client (c : cref) (f : Client -> Client) (w : world) : world :=
  mkWorld (w_hub w) (<[c := f (client w c)]> (w_clients w)) (w_rooms w) (w_trace w)
    (w_now w) (w_nonce w) (w_par w).

Definition upd_room (r : rref) (f : Room -> Room) (w : world) : world :=
  mkWorld (w_hub w) (w_clients w) (<[r := f (room w r)]> (w_rooms w)) (w_trace w)
    (w_now w) (w_nonce w) (w_par w).

Definition upd_par (f : Par -> Par) (w : world) : world :=
  mkWorld (w_hub w) (w_clients w) (w_rooms w) (w_trace w) (w_now w) (w_nonce w) (f (w_par w)).

Definition emit (e : event) (w : world) : world :=
  mkWorld (w_hub w) (w_clients w) (w_rooms w) (e :: w_trace w) (w_now w) (w_nonce w) (w_par w).

Definition bump (w : world) : world := set_w_nonce (S (w_nonce w)) w.

(** A list in which every element of a set appears once, in some order. *)
Definition enumerates `{Countable K} (l : list K) (X : gset K) : Prop := l ≡ₚ elements X.

Lemma enumerates_nil `{Countable K} : enumerates [] (∅ : gset K).
Proof. unfold enumerates. by rewrite elements_empty. Qed.

(** ** The Go runtime and the network peer

    Free choices are functions of a counter in the state, so that two uses may
    resolve differently: the iteration order of a map, which of several ready
    [select] cases runs, and whether a connection operation fails. *)
Class Runtime := {
  rt_range : ∀ {K : Type} `{Countable K}, nat -> gset K -> list K;
  rt_range_perm : ∀ {K : Type} `{Countable K} n (X : gset K), enumerates (rt_range n X) X;
  rt_select : nat -> bool;
  rt_pick : nat -> nat;              (** the same choice among more than two *)
  rt_tick : nat -> bool;             (** a ticker's channel is ready *)
  rt_late : nat -> nat;              (** sends that overtake a receiver emptying a queue *)
  rt_uuid : nat -> string;           (** [uuid.New().String()] *)
  rt_conn : nat -> cref -> conn_op -> option error
}.

(** [ctx.Done()] is closed. *)
Definition ctxDone (w : world) (ctx : context) : bool :=
  match ctx with
  | Background => false
  | Ctx n => bool_decide (n ∈ p_cancelled (w_par w))
  end.

Abbreviation prg := (prog world).

(** ** The immutable part of a hub *)
Record Hooks := mkHooks {
  BeforeConnect : option (Request -> prg (option error));
  AfterConnect : option (cref -> prg unit);
  BeforeDisconnect : option (cref -> prg unit);
  AfterDisconnect : option (cref -> prg unit);
  BeforeMessage : option (cref -> Message -> prg (option Message * option error));
  AfterMessage : option (cref -> Message -> option error -> prg unit);
  OnError : option (cref -> error -> prg unit);
  OnSendDropped : option (cref -> bytes -> prg unit);
  BeforeRoomJoin : option (cref -> string -> prg (option error));
  AfterRoomJoin : option (cref -> string -> prg unit);
  BeforeRoomLeave : option (cref -> string -> prg unit);
  AfterRoomLeave : option (cref -> string -> prg unit)
}.

Definition no_hooks : Hooks :=
  mkHooks None None None None None None None None None None None None.

(** The [Adapter] interface (adapter.go). *)
Record Adapter := mkAdapter {
  ad_Subscribe : prg (option error);
  ad_Publish : AdapterMessage -> prg (option error);
  ad_Close : prg (option error)
}.

Record HubEnv := mkHubEnv {
  config : Config;
  limits : Limits;
  hooks : Hooks;
  onMessage : option (cref -> Message -> prg (option error));
  clientCallback : callback -> cref -> Message -> prg unit;  (** a client's [onMessage] *)
  errorCallback : callback -> cref -> error -> prg unit;     (** a client's [onError] *)
  drainTimeout : Z;
  parallelBatchSize : Z;
  useParallel : bool;
  poolSize : Z;
  dropPolicy : DropPolicy;
  skipHandlerLatency : bool;
  adapter : option Adapter;
  nodeID : string;
  hookTimeout : Z;
  presenceInterval : Z;
  presenceTTL : Z
}.

(** ** Elementary blocks *)
Definition metrics (m : metric) : prg unit := modify (emit (EvMetric m)).
Definition logger (l : level) (msg : string) : prg unit := modify (emit (EvLog l msg)).
Definition time_Now : prg Z := gets w_now.

(** [go h(...)] for a hook that may be nil. *)
Definition go_hook {A : Type} (h : option A) (call : hook_call) : prg unit :=
  match h with
  | Some _ => modify (emit (EvGo call))
  | None => mret tt
  end.

(** A nil-checked synchronous hook without a result. *)
Definition call_hook (h : option (prg unit)) (call : hook_call) : prg unit :=
  match h with
  | Some body => modify (emit (EvHook call)) ;; body
  | None => mret tt
  end.

(** A nil-checked synchronous hook that may veto. *)
Definition call_veto (h : option (prg (option error))) (call : hook_call)
    : prg (option error) :=
  match h with
  | Some body => modify (emit (EvHook call)) ;; body
  | None => mret None
  end.

(** A nil dereference outside every recover: the process ends here. *)
Definition crash {X : Type} : prg X := await (fun _ => None).

(** [time.NewTicker], which panics on an interval that is not positive. *)
Definition new_ticker (interval : Z) : prg unit :=
  if bool_decide (0 < interval)%Z then mret tt else crash.

Lemma run_new_ticker {A} interval (k : unit -> prg A) w :
  (0 < interval)%Z -> run (new_ticker interval ≫= k) w = run (k tt) w.
Proof. intros H. unfold new_ticker. by rewrite bool_decide_eq_true_2, run_bind, run_ret. Qed.

Lemma run_new_ticker_crash {A} interval (k : unit -> prg A) w :
  (interval <= 0)%Z -> run (new_ticker interval ≫= k) w = None.
Proof.
  intros H. unfold new_ticker. rewrite bool_decide_eq_false_2 by lia. by rewrite run_bind.
Qed.

Lemma keeps_new_ticker I interval : keeps I (new_ticker interval).
Proof. unfold new_ticker, crash. case_bool_decide; [done|]. by apply keeps_await. Qed.
#[export] Hint Resolve keeps_new_ticker : keeps.

Section Runtime.
Context {RT : Runtime}.

(** [for k := range X], as part of a block. *)
Definition range_keys `{Countable K} (X : gset K) (w : world) : list K :=
  rt_range (w_nonce w) X.

(** A call on the websocket connection: recorded, with the peer's outcome. *)
Definition conn_call (c : cref) (o : conn_op) : prg (option error) :=
  atomically (fun w => (rt_conn (w_nonce w) c o, bump (emit (EvConn c o) w))).

Lemma elem_of_range `{Countable K} (X : gset K) w k : k ∈ range_keys X w <-> k ∈ X.
Proof. apply elem_of_perm_elements, rt_range_perm. Qed.

Lemma NoDup_range `{Countable K} (X : gset K) w : NoDup (range_keys X w).
Proof. eapply NoDup_perm_elements, rt_range_perm. Qed.

Lemma length_range `{Countable K} (X : gset K) w : length (range_keys X w) = size X.
Proof. apply length_perm_elements, rt_range_perm. Qed.

Lemma range_empty `{Countable K} w : range_keys (∅ : gset K) w = [].
Proof. apply length_zero_iff_nil. by rewrite length_range, size_empty. Qed.
End Runtime.

(** ** Reading after writing *)
Lemma client_upd_client_eq w c f : client (upd_client c f w) c = f (client w c).
Proof. unfold client, upd_client. simpl. apply lookup_total_insert_eq. Qed.

Lemma client_upd_client_ne w c c' f :
  c <> c' -> client (upd_client c f w) c' = client w c'.
Proof. intros. unfold client, upd_client. simpl. by rewrite lookup_total_insert_ne. Qed.

Lemma client_upd_client w c c' f :
  client (upd_client c f w) c' = if decide (c = c') then f (client w c) else client w c'.
Proof.
  case_decide; subst; [apply client_upd_client_eq|by apply client_upd_client_ne].
Qed.

Lemma room_upd_room_eq w r f : room (upd_room r f w) r = f (room w r).
Proof. unfold room, upd_room. simpl. apply lookup_total_insert_eq. Qed.

Lemma room_upd_room_ne w r r' f : r <> r' -> room (upd_room r f w) r' = room w r'.
Proof. intros. unfold room, upd_room. simpl. by rewrite lookup_total_insert_ne. Qed.

Lemma room_upd_room w r r' f :
  room (upd_room r f w) r' = if decide (r = r') then f (room w r) else room w r'.
Proof. case_decide; subst; [apply room_upd_room_eq|by apply room_upd_room_ne]. Qed.

Lemma client_upd_hub w f c : client (upd_hub f w) c = client w c.
Proof. done. Qed.
Lemma client_upd_room w r f c : client (upd_room r f w) c = client w c.
Proof. done. Qed.
Lemma client_emit w e c : client (emit e w) c = client w c.
Proof. done. Qed.
Lemma client_bump w c : client (bump w) c = client w c.
Proof. done. Qed.
Lemma room_upd_hub w f r : room (upd_hub f w) r = room w r.
Proof. done. Qed.
Lemma room_upd_client w c f r : room (upd_client c f w) r = room w r.
Proof. done. Qed.
Lemma room_emit w e r : room (emit e w) r = room w r.
Proof. done. Qed.
Lemma room_bump w r : room (bump w) r = room w r.
Proof. done. Qed.
Lemma hub_upd_client w c f : w_hub (upd_client c f w) = w_hub w.
Proof. done. Qed.
Lemma hub_upd_room w r f : w_hub (upd_room r f w) = w_hub w.
Proof. done. Qed.
Lemma hub_emit w e : w_hub (emit e w) = w_hub w.
Proof. done. Qed.
Lemma hub_bump w : w_hub (bump w) = w_hub w.
Proof. done. Qed.
Lemma hub_upd_hub w f : w_hub (upd_hub f w) = f (w_hub w).
Proof. done. Qed.

Lemma trace_upd_client w c f : w_trace (upd_client c f w) = w_trace w.
Proof. done. Qed.
Lemma trace_upd_room w r f : w_trace (upd_room r f w) = w_trace w.
Proof. done. Qed.
Lemma trace_upd_hub w f : w_trace (upd_hub f w) = w_trace w.
Proof. done. Qed.
Lemma trace_emit w e : w_trace (emit e w) = e :: w_trace w.
Proof. done. Qed.
Lemma trace_bump w : w_trace (bump w) = w_trace w.
Proof. done. Qed.
Lemma now_upd_client w c f : w_now (upd_client c f w) = w_now w.
Proof. done. Qed.
Lemma now_upd_room w r f : w_now (upd_room r f w) = w_now w.
Proof. done. Qed.
Lemma now_upd_hub w f : w_now (upd_hub f w) = w_now w.
Proof. done. Qed.
Lemma now_emit w e : w_now (emit e w) = w_now w.
Proof. done. Qed.
Lemma now_bump w : w_now (bump w) = w_now w.
Proof. done. Qed.

Lemma client_upd_par w f c : client (upd_par f w) c = client w c.
Proof. done. Qed.
Lemma room_upd_par w f r : room (upd_par f w) r = room w r.
Proof. done. Qed.
Lemma hub_upd_par w f : w_hub (upd_par f w) = w_hub w.
Proof. done. Qed.
Lemma trace_upd_par w f : w_trace (upd_par f w) = w_trace w.
Proof. done. Qed.
Lemma now_upd_par w f : w_now (upd_par f w) = w_now w.
Proof. done. Qed.
Lemma par_upd_par w f : w_par (upd_par f w) = f (w_par w).
Proof. done. Qed.
Lemma par_upd_hub w f : w_par (upd_hub f w) = w_par w.
Proof. done. Qed.
Lemma par_upd_client w c f : w_par (upd_client c f w) = w_par w.
Proof. done. Qed.
Lemma par_upd_room w r f : w_par (upd_room r f w) = w_par w.
Proof. done. Qed.
Lemma par_emit w e : w_par (emit e w) = w_par w.
Proof. done. Qed.
Lemma par_bump w : w_par (bump w) = w_par w.
Proof. done. Qed.

Create Rewrite HintDb world.
#[export] Hint Rewrite client_upd_par room_upd_par hub_upd_par trace_upd_par now_upd_par
  par_upd_par par_upd_hub par_upd_client par_upd_room par_emit par_bump : world.
#[export] Hint Rewrite trace_upd_client trace_upd_room trace_upd_hub trace_emit trace_bump
  now_upd_client now_upd_room now_upd_hub now_emit now_bump : world.
#[export] Hint Rewrite client_upd_client_eq client_upd_hub client_upd_room client_emit
  client_bump room_upd_room_eq room_upd_hub room_upd_client room_emit room_bump
  hub_upd_client hub_upd_room hub_emit hub_bump hub_upd_hub : world.

#[global] Arguments upd_client : simpl never.
#[global] Arguments upd_room : simpl never.
#[global] Arguments upd_hub : simpl never.
#[global] Arguments upd_par : simpl never.
#[global] Arguments emit : simpl never.
#[global] Arguments bump : simpl never.
#[global] Arguments client : simpl never.
#[global] Arguments room : simpl never.

(** Normalise reads of a state built by updates. *)
Ltac world_simpl := repeat first [ progress (autorewrite with world) | progress simpl ].
Ltac world_simpl_in H :=
  repeat first [ progress (autorewrite with world in H) | progress simpl in H ].

(** A runtime for witnesses: maps in key order, the first ready case, and a
    peer that never fails. *)
Definition calm_range {K : Type} `{Countable K} (n : nat) (X : gset K) : list K := elements X.

#[export] Instance calm_runtime : Runtime | 100 := {
  rt_range := @calm_range;
  rt_range_perm := fun K _ _ n X => Permutation_refl (elements X);
  rt_select := fun _ => true;
  rt_pick := fun _ => 0;
  rt_tick := fun _ => false;
  rt_late := fun _ => 0;
  rt_uuid := fun n => ("uuid-" +:+ pretty n)%string;
  rt_conn := fun _ _ _ => None
}.
