(* ===== verification/Invariant.v ===== *)
(** * Invariant: what holds between any two critical sections

    [wf] collects the facts about a hub's shared state that every critical
    section of the package re-establishes before it releases its locks, so
    that they hold at every point where another goroutine can look.  Each
    component proves that its operations keep [wf]; [System] concludes that it
    holds in every state reachable under every schedule. *)

From S2P Require Import Prelude Prog Types Config World.

(** The gauge a collector computes from increments and decrements. *)
Fixpoint gauge (inc dec : metric) (t : list event) : Z :=
  match t with
  | [] => 0
  | EvMetric m :: t' =>
      (if bool_decide (m = inc) then 1 else if bool_decide (m = dec) then -1 else 0)
      + gauge inc dec t'
  | _ :: t' => gauge inc dec t'
  end%Z.

(** [rooms_active] and [connections_active]. *)
Definition rooms_gauge : list event -> Z := gauge IncrementRooms DecrementRooms.
Definition conns_gauge : list event -> Z := gauge IncrementConnections DecrementConnections.

(** Events that are not counted by [rooms_gauge]. *)
Definition neutral (e : event) : Prop :=
  e <> EvMetric IncrementRooms /\ e <> EvMetric DecrementRooms.

Definition snapshot_ok (r : Room) : Prop :=
  match r_snapshot r with
  | None => r_clients r = ∅
  | Some l => enumerates l (r_clients r)
  end.

Definition queue_ok (cl : Client) : Prop :=
  length (c_send cl) <= Z.to_nat (SendChannelSize (c_config cl)).

Section wf.
Context (lim : Limits).

Definition client_ok (cl : Client) : Prop :=
  queue_ok cl /\ within (MaxRoomsPerClient lim) (size (c_rooms cl)).

Definition room_ok (r : Room) : Prop :=
  snapshot_ok r /\ within (MaxClientsPerRoom lim) (size (r_clients r)).

Definition user_ok (u : string) (s : gset cref) : Prop :=
  u <> "" /\ s <> ∅ /\ within (MaxConnectionsPerUser lim) (size s).

Record wf (w : world) : Prop := {
  wf_client : ∀ c, client_ok (client w c);
  wf_room : ∀ r, room_ok (room w r);
  wf_rooms_alloc : ∀ n r, h_rooms (w_hub w) !! n = Some r -> is_Some (w_rooms w !! r);
  wf_rooms_inj : ∀ n1 n2 r, h_rooms (w_hub w) !! n1 = Some r ->
                            h_rooms (w_hub w) !! n2 = Some r -> n1 = n2;
  wf_user : ∀ u s, h_userIndex (w_hub w) !! u = Some s -> user_ok u s;
  wf_gauge : rooms_gauge (w_trace w) = Z.of_nat (size (h_rooms (w_hub w)))
}.

(** ** Updates that keep [wf] *)
Lemma wf_upd_client c f w :
  wf w -> (client_ok (client w c) -> client_ok (f (client w c))) -> wf (upd_client c f w).
Proof.
  intros [Hc Hr Ha Hi Hu Hg] Hf. split; try done. intros c'.
  rewrite client_upd_client. case_decide; [apply Hf|]; apply Hc.
Qed.

(** Updates of a client that leave its queue and rooms alone. *)
Lemma wf_upd_client_frame c f w :
  wf w -> (∀ cl, c_send (f cl) = c_send cl /\ c_config (f cl) = c_config cl /\
                 c_rooms (f cl) = c_rooms cl) -> wf (upd_client c f w).
Proof.
  intros Hw Hf. apply wf_upd_client; [done|]. unfold client_ok, queue_ok.
  destruct (Hf (client w c)) as (-> & -> & ->). done.
Qed.

Lemma wf_upd_room r f w :
  wf w -> (room_ok (room w r) -> room_ok (f (room w r))) -> wf (upd_room r f w).
Proof.
  intros [Hc Hr Ha Hi Hu Hg] Hf. split; try done.
  - intros r'. rewrite room_upd_room. case_decide; [apply Hf|]; apply Hr.
  - intros n r' Hn. unfold upd_room. simpl. apply lookup_insert_is_Some.
    destruct (decide (r = r')); [by left|right; split; [done|by eapply Ha]].
Qed.

(** Updates of the hub that leave rooms and user index alone. *)
Lemma wf_upd_hub f w :
  wf w -> (∀ h, h_rooms (f h) = h_rooms h /\ h_userIndex (f h) = h_userIndex h) ->
  wf (upd_hub f w).
Proof.
  intros [Hc Hr Ha Hi Hu Hg] Hf. destruct (Hf (w_hub w)) as [H1 H2].
  split; try done; rewrite hub_upd_hub, ?H1, ?H2; done.
Qed.

Lemma wf_set_userIndex m w :
  wf w -> (∀ u s, m !! u = Some s -> user_ok u s) ->
  wf (upd_hub (set_h_userIndex m) w).
Proof. intros [Hc Hr Ha Hi Hu Hg] Hm. by split. Qed.

Lemma wf_emit e w : wf w -> neutral e -> wf (emit e w).
Proof.
  intros [Hc Hr Ha Hi Hu Hg] [H1 H2]. split; try done.
  rewrite hub_emit, <-Hg, trace_emit. unfold rooms_gauge. destruct e; simpl; try done.
  rewrite !bool_decide_eq_false_2 by congruence. lia.
Qed.

Lemma wf_upd_par f w : wf w -> wf (upd_par f w).
Proof. by intros [Hc Hr Ha Hi Hu Hg]. Qed.

Lemma wf_bump w : wf w -> wf (bump w).
Proof. by intros [Hc Hr Ha Hi Hu Hg]. Qed.

(** ** Blocks that keep [wf] *)
Lemma keeps_emit e : neutral e -> keeps wf (modify (emit e)).
Proof. intros He. apply keeps_modify. intros w Hw. by apply wf_emit. Qed.

Lemma keeps_metrics m :
  m <> IncrementRooms -> m <> DecrementRooms -> keeps wf (metrics m).
Proof. intros H1 H2. apply keeps_emit. split; congruence. Qed.

Lemma keeps_logger l msg : keeps wf (logger l msg).
Proof. by apply keeps_emit. Qed.

Lemma keeps_time_Now : keeps wf time_Now.
Proof. apply keeps_gets. Qed.

Lemma keeps_go_hook {A} (h : option A) call : keeps wf (go_hook h call).
Proof. destruct h; [by apply keeps_emit|done]. Qed.

Lemma keeps_call_hook h call :
  (∀ b, h = Some b -> keeps wf b) -> keeps wf (call_hook h call).
Proof.
  intros H. destruct h; [|done]. apply keeps_bind; [by apply keeps_emit|]. eauto.
Qed.

Lemma keeps_call_veto h call :
  (∀ b, h = Some b -> keeps wf b) -> keeps wf (call_veto h call).
Proof.
  intros H. destruct h; [|done]. apply keeps_bind; [by apply keeps_emit|]. eauto.
Qed.

Lemma keeps_conn_call `{!Runtime} c o : keeps wf (conn_call c o).
Proof. apply keeps_atomically. intros w Hw. simpl. by apply wf_bump, wf_emit. Qed.

Lemma keeps_upd_hub f :
  (∀ h, h_rooms (f h) = h_rooms h /\ h_userIndex (f h) = h_userIndex h) ->
  keeps wf (modify (upd_hub f)).
Proof. intros Hf. apply keeps_modify. intros w Hw. by apply wf_upd_hub. Qed.

Lemma keeps_upd_par f : keeps wf (modify (upd_par f)).
Proof. apply keeps_modify. intros w. apply wf_upd_par. Qed.

Lemma keeps_upd_client_frame c f :
  (∀ cl, c_send (f cl) = c_send cl /\ c_config (f cl) = c_config cl /\
         c_rooms (f cl) = c_rooms cl) ->
  keeps wf (modify (upd_client c f)).
Proof. intros Hf. apply keeps_modify. intros w Hw. by apply wf_upd_client_frame. Qed.
End wf.

#[export] Hint Resolve keeps_upd_par keeps_logger keeps_time_Now keeps_go_hook keeps_conn_call : keeps.
#[export] Hint Extern 1 (keeps (wf _) (metrics _)) => by apply keeps_metrics : keeps.
#[export] Hint Extern 1 (keeps (wf _) (modify (emit _))) => by apply keeps_emit : keeps.
#[export] Hint Extern 2 (keeps (wf _) (modify (upd_hub _))) =>
  by apply keeps_upd_hub : keeps.
#[export] Hint Extern 2 (keeps (wf _) (modify (upd_client _ _))) =>
  by apply keeps_upd_client_frame : keeps.

(** The hooks of the application are programs too: the invariant holds around
    them when their own blocks keep it, as those of the package do. *)
Record hooks_keep (lim : Limits) (env : HubEnv) : Prop := {
  hk_beforeConnect : ∀ h, BeforeConnect (hooks env) = Some h -> ∀ r, keeps (wf lim) (h r);
  hk_beforeDisconnect : ∀ h, BeforeDisconnect (hooks env) = Some h -> ∀ c, keeps (wf lim) (h c);
  hk_beforeMessage : ∀ h, BeforeMessage (hooks env) = Some h -> ∀ c m, keeps (wf lim) (h c m);
  hk_afterMessage : ∀ h, AfterMessage (hooks env) = Some h -> ∀ c m e, keeps (wf lim) (h c m e);
  hk_onError : ∀ h, OnError (hooks env) = Some h -> ∀ c e, keeps (wf lim) (h c e);
  hk_onSendDropped : ∀ h, OnSendDropped (hooks env) = Some h -> ∀ c d, keeps (wf lim) (h c d);
  hk_beforeRoomJoin : ∀ h, BeforeRoomJoin (hooks env) = Some h -> ∀ c n, keeps (wf lim) (h c n);
  hk_beforeRoomLeave : ∀ h, BeforeRoomLeave (hooks env) = Some h -> ∀ c n, keeps (wf lim) (h c n);
  hk_onMessage : ∀ h, onMessage env = Some h -> ∀ c m, keeps (wf lim) (h c m);
  hk_clientCallback : ∀ cb c m, keeps (wf lim) (clientCallback env cb c m);
  hk_errorCallback : ∀ cb c e, keeps (wf lim) (errorCallback env cb c e);
  hk_adapter : ∀ a, adapter env = Some a -> keeps (wf lim) (ad_Subscribe a) /\
    (∀ m, keeps (wf lim) (ad_Publish a m)) /\ keeps (wf lim) (ad_Close a)
}.

(** Split a composed program into its blocks and discharge the routine ones. *)
Ltac keeps_step :=
  lazymatch goal with
  | |- keeps _ (_ ≫= _) => apply keeps_bind; [|intros ?]
  | |- keeps _ (mret _) => apply keeps_ret
  | |- keeps _ (if ?b then _ else _) => destruct b
  | |- keeps _ (match ?x with _ => _ end) => destruct x
  | |- keeps _ (for_each _ _) => apply keeps_for_each; intros ?
  | |- keeps _ (for_until _ _) => apply keeps_for_until; intros ?
  | |- keeps _ (for_collect _ _) => apply keeps_for_collect; intros ?
  | |- keeps _ (gets _) => apply keeps_gets
  | |- keeps _ (call_hook _ _) => apply keeps_call_hook; intros ? ?
  | |- keeps _ (call_veto _ _) => apply keeps_call_veto; intros ? ?
  end.

Ltac keeps_auto := repeat (first [ solve [ eauto 3 with keeps ] | keeps_step ]).
