(* ===== verification/Send.v ===== *)
(** * Send: a client's bounded send queue (hub.go, client.go)

    The channel operations on [Client.send], the drop policies of
    [trySendErr], and the blocking sends that wait for a context.  The
    abstract specification is [bounded_send], a pure bounded queue; the
    theorems show that the code refines it, that the queue never exceeds its
    capacity under any interleaving, and what each blocking send does on every
    branch. *)

From S2P Require Import Prelude Prog Types Config World Invariant.

(** ** The channel *)
Definition cap (cl : Client) : nat := Z.to_nat (SendChannelSize (c_config cl)).

Definition chan_full (cl : Client) : bool := bool_decide (cap cl <= length (c_send cl)).

Definition enqueue (item : sendItem) (cl : Client) : Client :=
  set_c_send (c_send cl ++ [item]) cl.

(** [select { case c.send <- item: true; default: false }]. *)
Definition chan_send (c : cref) (item : sendItem) : prg bool :=
  atomically (fun w =>
    if chan_full (client w c) then (false, w) else (true, upd_client c (enqueue item) w)).

(** [select { case item := <-c.send: Some item; default: None }]. *)
Definition chan_recv (c : cref) : prg (option sendItem) :=
  atomically (fun w =>
    match c_send (client w c) with
    | [] => (None, w)
    | d :: q => (Some d, upd_client c (set_c_send q) w)
    end).

(** [sendMu.Lock()] waits while another goroutine holds the mutex. *)
Definition sendMu_Lock (c : cref) : prg unit :=
  await (fun w =>
    if c_sendMu (client w c) then None else Some (tt, upd_client c (set_c_sendMu true) w)).

Definition sendMu_Unlock (c : cref) : prg unit :=
  modify (upd_client c (set_c_sendMu false)).

Section Send.
Context (env : HubEnv).

(** ** Non-blocking sends (hub.go) *)
Definition notifySendDropped (c : cref) (d : bytes) : prg unit :=
  logger Warn "Client send buffer full, message dropped" ;;
  metrics IncrementMessagesDropped ;;
  call_hook ((fun h => h c d) <$> OnSendDropped (hooks env)) (HOnSendDropped c d).

(** The body of [for range n]: evict, then enqueue. *)
Fixpoint evict_loop (n : nat) (c : cref) (item : sendItem) : prg bool :=
  match n with
  | 0 => mret false
  | S n' =>
      d ← chan_recv c ;
      match d with
      | Some dropped => notifySendDropped c (data dropped)
      | None => mret tt
      end ;;
      ok ← chan_send c item ;
      if (ok : bool) then mret true else evict_loop n' c item
  end.

Definition trySendDropOldest (c : cref) (item : sendItem) : prg bool :=
  sendMu_Lock c ;;
  ok ← chan_send c item ;
  res ← (if (ok : bool) then mret true else evict_loop 2 c item) ;
  sendMu_Unlock c ;;
  mret res.

Definition trySendErr (c : cref) (item : sendItem) : prg bool :=
  closed ← gets (fun w => c_closed (client w c)) ;
  if (closed : bool) then mret false else
  ok ← chan_send c item ;
  if (ok : bool) then mret true else
  sent ← match dropPolicy env with
         | DropOldest => trySendDropOldest c item
         | DropNewest => mret false
         end ;
  if (sent : bool) then mret true else
  notifySendDropped c (data item) ;;
  mret false.

Definition trySend (c : cref) (item : sendItem) : prg unit :=
  _ ← trySendErr c item ; mret tt.

(** ** Client.SendMessage and its callers (client.go) *)
Definition SendMessage (c : cref) (mt : Z) (d : bytes) : prg (option error) :=
  closed ← gets (fun w => c_closed (client w c)) ;
  if (closed : bool) then mret (Some ErrConnectionClosed) else
  ok ← trySendErr c (mkSendItem mt d) ;
  mret (if (ok : bool) then None else Some ErrSendBufferFull).

Definition SendRaw (c : cref) (d : bytes) : prg (option error) := SendMessage c TextMessage d.

Definition SendText (c : cref) (text : string) : prg (option error) :=
  SendRaw c (String.list_byte_of_string text).

Definition SendBinary (c : cref) (d : bytes) : prg (option error) :=
  SendMessage c BinaryMessage d.

Definition SendRawJSON (c : cref) (d : bytes) : prg (option error) := SendRaw c d.

Definition SendJSON {V : Type} (marshal : V -> error + bytes) (c : cref) (v : V)
    : prg (option error) :=
  now ← time_Now ;
  match NewJSONMessage marshal now v with
  | inl e => mret (Some e)
  | inr msg => SendRaw c (Data msg)
  end.

(** ** Blocking sends *)
Context {RT : Runtime}.

(** [select { case c.send <- item: true; case <-ctx.Done(): false }]: either
    case when both are ready, a wait when neither is. *)
Definition trySendWithContext (ctx : context) (c : cref) (item : sendItem) : prg bool :=
  await (fun w =>
    match chan_full (client w c), ctxDone w ctx with
    | false, false => Some (true, upd_client c (enqueue item) w)
    | true, true => Some (false, w)
    | false, true =>
        if rt_select (w_nonce w) then Some (true, bump (upd_client c (enqueue item) w))
        else Some (false, bump w)
    | true, false => None
    end).

Definition SendMessageWithContext (ctx : context) (c : cref) (mt : Z) (d : bytes)
    : prg (option error) :=
  closed ← gets (fun w => c_closed (client w c)) ;
  if (closed : bool) then mret (Some ErrConnectionClosed) else
  ok ← trySendWithContext ctx c (mkSendItem mt d) ;
  mret (if (ok : bool) then None else Some ErrContext).

Definition SendWithContext (ctx : context) (c : cref) (d : bytes) : prg (option error) :=
  SendMessageWithContext ctx c TextMessage d.
End Send.

(** ** Abstract specification: a bounded queue with a drop policy *)

(** Result, queue afterwards, items dropped (oldest first). *)
Definition bounded_send (p : DropPolicy) (n : nat) (q : list sendItem) (x : sendItem)
    : bool * list sendItem * list sendItem :=
  if bool_decide (length q < n) then (true, q ++ [x], [])
  else match p, q with
       | DropOldest, d :: q' => (true, q' ++ [x], [d])
       | _, _ => (false, q, [x])
       end.

(** What a drop leaves in the trace (newest first). *)
Definition drop_events (env : HubEnv) (c : cref) (x : sendItem) : list event :=
  match OnSendDropped (hooks env) with
  | Some _ => [EvHook (HOnSendDropped c (data x))]
  | None => []
  end ++ [EvMetric IncrementMessagesDropped;
          EvLog Warn "Client send buffer full, message dropped"].

(** [trace] extended with further events. *)
Definition emits (evs : list event) (w : world) : world :=
  mkWorld (w_hub w) (w_clients w) (w_rooms w) (evs ++ w_trace w) (w_now w) (w_nonce w) (w_par w).

(** The hook, when set, only observes. *)
Definition silent_drop_hook (env : HubEnv) : Prop :=
  match OnSendDropped (hooks env) with
  | Some h => ∀ c d w, run (h c d) w = Some (tt, w)
  | None => True
  end.

Definition allocated (w : world) (c : cref) : Prop := is_Some (w_clients w !! c).

(** ** Lemmas on the channel *)
Lemma upd_client_comp c f g w :
  upd_client c f (upd_client c g w) = upd_client c (fun cl => f (g cl)) w.
Proof.
  unfold upd_client, client. simpl. f_equal.
  by rewrite lookup_total_insert_eq, insert_insert_eq.
Qed.

Lemma upd_client_ext c f g w :
  f (client w c) = g (client w c) -> upd_client c f w = upd_client c g w.
Proof. unfold upd_client. by intros ->. Qed.

Lemma upd_client_id c f w :
  allocated w c -> f (client w c) = client w c -> upd_client c f w = w.
Proof.
  unfold upd_client. intros [cl Hc] ->. destruct w; simpl in *. f_equal.
  apply insert_id. unfold client. simpl. rewrite Hc. f_equal. symmetry.
  by apply lookup_total_correct.
Qed.

Lemma upd_client_emits c f evs w :
  upd_client c f (emits evs w) = emits evs (upd_client c f w).
Proof. done. Qed.

Lemma emit_emits e evs w : emit e (emits evs w) = emits (e :: evs) w.
Proof. done. Qed.

Lemma emits_nil w : emits [] w = w.
Proof. by destruct w. Qed.

Lemma emits_app a b w : emits a (emits b w) = emits (a ++ b) w.
Proof. unfold emits. simpl. by rewrite app_assoc. Qed.

Lemma client_emits evs w c : client (emits evs w) c = client w c.
Proof. done. Qed.

Lemma hub_emits evs w : w_hub (emits evs w) = w_hub w.
Proof. done. Qed.

Lemma room_emits evs w r : room (emits evs w) r = room w r.
Proof. done. Qed.

#[export] Hint Rewrite client_emits hub_emits room_emits : world.

Lemma chan_full_length cl : chan_full cl = bool_decide (cap cl <= length (c_send cl)).
Proof. done. Qed.

Lemma run_chan_send_space c x w :
  length (c_send (client w c)) < cap (client w c) ->
  run (chan_send c x) w = Some (true, upd_client c (enqueue x) w).
Proof.
  intros H. unfold chan_send. rewrite run_atomically, chan_full_length.
  by rewrite bool_decide_eq_false_2 by lia.
Qed.

Lemma run_chan_send_full c x w :
  cap (client w c) <= length (c_send (client w c)) ->
  run (chan_send c x) w = Some (false, w).
Proof.
  intros H. unfold chan_send. rewrite run_atomically, chan_full_length.
  by rewrite bool_decide_eq_true_2.
Qed.

Lemma run_chan_recv c w :
  run (chan_recv c) w =
    Some match c_send (client w c) with
         | [] => (None, w)
         | d :: q => (Some d, upd_client c (set_c_send q) w)
         end.
Proof. unfold chan_recv. by rewrite run_atomically. Qed.

Lemma run_notifySendDropped env c x w :
  silent_drop_hook env ->
  run (notifySendDropped env c (data x)) w = Some (tt, emits (drop_events env c x) w).
Proof.
  unfold silent_drop_hook, notifySendDropped, drop_events, call_hook, logger, metrics.
  intros Hs. destruct (OnSendDropped (hooks env)) as [h|]; simpl; run_simpl; [|done].
  by rewrite Hs.
Qed.

(** ** Sequential behaviour *)
Section Sequential.
Context (env : HubEnv) (Hhook : silent_drop_hook env).

Lemma set_send_sendMu cl q :
  c_sendMu cl = false ->
  set_c_sendMu false (set_c_send q (set_c_sendMu true cl)) = set_c_send q cl.
Proof. destruct cl; simpl. by intros ->. Qed.

Lemma set_send_same cl : set_c_send (c_send cl) cl = cl.
Proof. by destruct cl. Qed.

Lemma run_evict_loop_some n c x d q w :
  c_send (client w c) = d :: q -> length q < cap (client w c) ->
  run (evict_loop env (S n) c x) w =
    Some (true, emits (drop_events env c d) (upd_client c (set_c_send (q ++ [x])) w)).
Proof.
  intros Hq Hlen. cbn [evict_loop]. rewrite run_bind, run_chan_recv, Hq. cbn beta iota.
  rewrite run_bind, run_notifySendDropped by done. cbn beta iota.
  rewrite run_bind, run_chan_send_space by (world_simpl; done). cbn beta iota.
  rewrite run_ret, upd_client_emits, upd_client_comp. unfold enqueue. world_simpl.
  done.
Qed.

Lemma run_evict_loop_none n c x w :
  c_send (client w c) = [] -> cap (client w c) = 0 ->
  run (evict_loop env n c x) w = Some (false, w).
Proof.
  intros Hq Hcap. induction n as [|n IH]; cbn [evict_loop]; [done|].
  rewrite run_bind, run_chan_recv, Hq. cbn beta iota. run_simpl.
  rewrite run_chan_send_full by (rewrite Hq, Hcap; simpl; lia). done.
Qed.

Lemma run_trySendDropOldest_full c x w :
  allocated w c -> c_sendMu (client w c) = false ->
  length (c_send (client w c)) = cap (client w c) ->
  run (trySendDropOldest env c x) w =
    Some match c_send (client w c) with
         | [] => (false, w)
         | d :: q => (true, emits (drop_events env c d) (upd_client c (set_c_send (q ++ [x])) w))
         end.
Proof.
  intros Ha Hmu Hlen. unfold trySendDropOldest, sendMu_Lock.
  rewrite run_bind, run_await, Hmu. rewrite run_bind, run_chan_send_full
    by (world_simpl; unfold cap in *; simpl; lia).
  rewrite run_bind. destruct (c_send (client w c)) as [|d q] eqn:Hq.
  - rewrite run_evict_loop_none by (world_simpl; done). rewrite run_bind.
    unfold sendMu_Unlock. rewrite run_modify, run_ret, upd_client_comp.
    rewrite upd_client_id; [done|done|]. destruct (client w c); simpl in *. by rewrite Hmu.
  - rewrite (run_evict_loop_some _ _ _ d q) by
      (world_simpl; unfold cap in *; simpl in *; try done; lia).
    rewrite run_bind. unfold sendMu_Unlock. rewrite run_modify, run_ret.
    rewrite upd_client_emits, !upd_client_comp. do 3 f_equal.
    apply upd_client_ext. by apply set_send_sendMu.
Qed.

Lemma run_trySendErr_open (c : cref) (x : sendItem) (w : world)
    (Ha : allocated w c) (Hopen : c_closed (client w c) = false)
    (Hmu : c_sendMu (client w c) = false)
    (Hcap : length (c_send (client w c)) <= cap (client w c)) :
  let '(ok, q', dropped) :=
    bounded_send (dropPolicy env) (cap (client w c)) (c_send (client w c)) x in
  run (trySendErr env c x) w =
    Some (ok, emits (concat (drop_events env c <$> dropped)) (upd_client c (set_c_send q') w)).
Proof.
  unfold bounded_send, trySendErr. rewrite run_bind, run_gets, Hopen, run_bind.
  case_bool_decide as Hsp.
  - rewrite run_chan_send_space by done. simpl. by rewrite emits_nil.
  - assert (length (c_send (client w c)) = cap (client w c)) as Hlen by lia.
    rewrite run_chan_send_full by lia. rewrite run_bind.
    assert (run (notifySendDropped env c (data x);; mret false) w =
            Some (false, emits (concat (drop_events env c <$> [x]))
                           (upd_client c (set_c_send (c_send (client w c))) w))) as Hdrop.
    { rewrite run_bind, run_notifySendDropped by done. rewrite run_ret.
      rewrite upd_client_id; [|done|by apply set_send_same].
      simpl. by rewrite app_nil_r. }
    destruct (dropPolicy env); [apply Hdrop|].
    rewrite run_trySendDropOldest_full by done.
    destruct (c_send (client w c)) as [|d q] eqn:Hq; [exact Hdrop|].
    rewrite run_ret. simpl. by rewrite app_nil_r.
Qed.

(** C9: A send to an open client is exactly the bounded queue of the
    configured drop policy: the same answer, the same queue afterwards, one
    drop notification per dropped item and nothing else changed. *)
Theorem trySendErr_refines_bounded_send (c : cref) (x : sendItem) (w : world)
    (Ha : allocated w c) (Hopen : c_closed (client w c) = false)
    (Hmu : c_sendMu (client w c) = false)
    (Hcap : length (c_send (client w c)) <= cap (client w c)) :
  let '(ok, q', dropped) :=
    bounded_send (dropPolicy env) (cap (client w c)) (c_send (client w c)) x in
  run (trySendErr env c x) w =
    Some (ok, emits (concat (drop_events env c <$> dropped)) (upd_client c (set_c_send q') w)).
Proof. by apply run_trySendErr_open. Qed.

(** A closed client is skipped without touching anything. *)
Lemma run_trySendErr_closed c x w :
  c_closed (client w c) = true -> run (trySendErr env c x) w = Some (false, w).
Proof. intros H. unfold trySendErr. by rewrite run_bind, run_gets, H. Qed.
End Sequential.

(** ** Every interleaving: the queue stays within its capacity *)
Section Keeps.
Context (lim : Limits) (env : HubEnv) (Hh : hooks_keep lim env).

Lemma client_ok_enqueue cl x :
  chan_full cl = false -> client_ok lim cl -> client_ok lim (enqueue x cl).
Proof.
  unfold chan_full, client_ok, queue_ok, cap, enqueue. intros Hf [Hq Hr].
  bool_to_prop. simpl. rewrite length_app. simpl. split; [lia|done].
Qed.

Lemma client_ok_dequeue cl d q :
  c_send cl = d :: q -> client_ok lim cl -> client_ok lim (set_c_send q cl).
Proof.
  unfold client_ok, queue_ok. intros Hq [Hl Hr]. rewrite Hq in Hl. simpl in *.
  split; [lia|done].
Qed.

Lemma keeps_chan_send c x : keeps (wf lim) (chan_send c x).
Proof.
  apply keeps_atomically. intros w Hw. case_match; [done|].
  apply wf_upd_client; [done|]. by apply client_ok_enqueue.
Qed.

Lemma keeps_chan_recv c : keeps (wf lim) (chan_recv c).
Proof.
  apply keeps_atomically. intros w Hw. case_match eqn:Hq; [done|].
  apply wf_upd_client; [done|]. by apply client_ok_dequeue with s.
Qed.

Lemma keeps_sendMu_Lock c : keeps (wf lim) (sendMu_Lock c).
Proof.
  apply keeps_await. intros w x w' Hw. case_match; intros [= <- <-].
  by apply wf_upd_client_frame.
Qed.

Lemma keeps_sendMu_Unlock c : keeps (wf lim) (sendMu_Unlock c).
Proof. apply keeps_modify. intros w Hw. by apply wf_upd_client_frame. Qed.

Lemma keeps_notifySendDropped c d : keeps (wf lim) (notifySendDropped env c d).
Proof.
  unfold notifySendDropped. keeps_auto.
  destruct (OnSendDropped (hooks env)) eqn:He; simplify_eq/=.
  by eapply hk_onSendDropped.
Qed.

#[local] Hint Resolve keeps_chan_send keeps_chan_recv keeps_sendMu_Lock
  keeps_sendMu_Unlock keeps_notifySendDropped : keeps.

Lemma keeps_evict_loop n c x : keeps (wf lim) (evict_loop env n c x).
Proof. induction n as [|n IH]; cbn [evict_loop]; keeps_auto. Qed.

#[local] Hint Resolve keeps_evict_loop : keeps.

Lemma keeps_trySendErr c x : keeps (wf lim) (trySendErr env c x).
Proof. unfold trySendErr, trySendDropOldest. keeps_auto. Qed.

#[local] Hint Resolve keeps_trySendErr : keeps.

Lemma keeps_trySend c x : keeps (wf lim) (trySend env c x).
Proof. unfold trySend. keeps_auto. Qed.

Lemma keeps_SendMessage c t d : keeps (wf lim) (SendMessage env c t d).
Proof. unfold SendMessage. keeps_auto. Qed.

Lemma keeps_trySendWithContext {RT : Runtime} ctx c x :
  keeps (wf lim) (trySendWithContext ctx c x).
Proof.
  apply keeps_await. intros w y w' Hw.
  destruct (chan_full (client w c)) eqn:Hf, (ctxDone w ctx); try case_match;
    intros [= <- <-]; try done; try apply wf_bump; try done;
    (apply wf_upd_client; [done|by apply client_ok_enqueue]).
Qed.

#[local] Hint Resolve keeps_trySendWithContext : keeps.

Lemma keeps_SendMessageWithContext {RT : Runtime} ctx c t d :
  keeps (wf lim) (SendMessageWithContext ctx c t d).
Proof. unfold SendMessageWithContext. keeps_auto. Qed.
End Keeps.

#[export] Hint Resolve keeps_chan_send keeps_chan_recv keeps_sendMu_Lock keeps_sendMu_Unlock
  keeps_notifySendDropped keeps_trySendErr keeps_trySend keeps_SendMessage
  keeps_trySendWithContext keeps_SendMessageWithContext : keeps.

(** ** Client.SendMessage on every branch *)

(** [SendMessage] fails with [ErrConnectionClosed] exactly on a closed
    client, with [ErrSendBufferFull] exactly when the drop policy refuses
    the message, and otherwise queues it last. *)
Theorem SendMessage_spec (env : HubEnv) (c : cref) (t : Z) (d : bytes) (w : world)
    (Hhook : silent_drop_hook env) (Ha : allocated w c)
    (Hmu : c_sendMu (client w c) = false)
    (Hcap : length (c_send (client w c)) <= cap (client w c)) :
  ∃ r w', run (SendMessage env c t d) w = Some (r, w') /\
    match r with
    | None =>
        c_closed (client w c) = false /\
        ∃ kept, c_send (client w' c) = kept ++ [mkSendItem t d] /\
                suffix kept (c_send (client w c))
    | Some e =>
        c_send (client w' c) = c_send (client w c) /\
        if c_closed (client w c) then e = ErrConnectionClosed /\ w' = w
        else e = ErrSendBufferFull /\ length (c_send (client w c)) = cap (client w c) /\
             (dropPolicy env = DropNewest \/ cap (client w c) = 0)
    end.
Proof.
  unfold SendMessage. run_simpl. destruct (c_closed (client w c)) eqn:Hcl.
  - eexists _, _. split; [done|]. done.
  - pose proof (run_trySendErr_open env Hhook c (mkSendItem t d) w Ha Hcl Hmu Hcap)
      as Href. unfold bounded_send in Href.
    run_simpl. case_bool_decide as Hsp.
    + rewrite Href. eexists None, _. split; [done|]. split; [done|].
      eexists. world_simpl. done.
    + destruct (dropPolicy env) eqn:Hp; [|destruct (c_send (client w c)) as [|x q] eqn:Hq];
        rewrite Href; (eexists _, _; split; [reflexivity|]); world_simpl.
      * split; [done|]. split_and!; [done|lia|by left].
      * split; [done|]. simpl in *. split_and!; [done|lia|right; lia].
      * split; [done|]. exists q. split; [done|]. by exists [x].
Qed.
