(* ===== verification/Client.v ===== *)
(** * Client: one connection's state (client.go)

    Construction, identity, metadata and callbacks, the close protocol
    ([CloseWithCode], [closeDone], [closeConn]) and the token-bucket rate
    limiter, in IEEE 754 binary64 arithmetic. *)

From S2P Require Import Prelude Float64 Prog Types Config World Invariant.
From Stdlib.Floats Require Import SpecFloat.

Section Ops.
Context {RT : Runtime} (env : HubEnv).

(** ** Construction *)
Definition bucket_size : spec_float :=
  let maxRate := f64_of_Z (MaxMessageRate (limits env)) in
  if SFleb maxRate (S754_zero false) then f64_of_Z 1 else maxRate.

Definition fresh_client (id : string) (cfg : Config) (now : Z) (r : Request) : Client := {|
  c_ID := id; c_send := []; c_config := cfg; c_userID := ""; c_metadata := None;
  c_rooms := ∅; c_closed := false; c_connectedAt := now; c_closedAt := None;
  c_request := r; c_tokens := bucket_size; c_lastRefill := now; c_closeCode := 0;
  c_closeReason := ""; c_graceful := false; c_connClosed := false; c_done := false;
  c_sendMu := false; c_readDone := false; c_onMessage := None; c_onClose := None; c_onError := None
|}.

Definition newClient (cfg : Config) (r : Request) : prg cref :=
  atomically (fun w =>
    let c := fresh (dom (w_clients w)) in
    (c, bump (upd_client c
           (fun _ => fresh_client (rt_uuid (w_nonce w)) cfg (w_now w) r) w))).

(** ** Accessors *)
Definition GetUserID (c : cref) : prg string := gets (fun w => c_userID (client w c)).
Definition ConnectedAt (c : cref) : prg Z := gets (fun w => c_connectedAt (client w c)).
Definition GetRequest (c : cref) : prg Request := gets (fun w => c_request (client w c)).
Definition IsClosed (c : cref) : prg bool := gets (fun w => c_closed (client w c)).
Definition ClosedAt (c : cref) : prg (option Z) := gets (fun w => c_closedAt (client w c)).
Definition isGraceful (c : cref) : prg bool := gets (fun w => c_graceful (client w c)).

Definition SetMetadata (c : cref) (key : string) (v : any) : prg unit :=
  modify (upd_client c (fun cl =>
    set_c_metadata (Some (<[key := v]> (default ∅ (c_metadata cl)))) cl)).

Definition GetMetadata (c : cref) (key : string) : prg (option any) :=
  gets (fun w => match c_metadata (client w c) with None => None | Some m => m !! key end).

Definition DeleteMetadata (c : cref) (key : string) : prg unit :=
  modify (upd_client c (fun cl => set_c_metadata (delete key <$> c_metadata cl) cl)).

Definition OnMessage (c : cref) (fn : option callback) : prg unit :=
  modify (upd_client c (set_c_onMessage fn)).
Definition OnClose (c : cref) (fn : option callback) : prg unit :=
  modify (upd_client c (set_c_onClose fn)).
Definition OnClientError (c : cref) (fn : option callback) : prg unit :=
  modify (upd_client c (set_c_onError fn)).

(** ** Closing *)
Definition closeDone (c : cref) : prg unit := modify (upd_client c (set_c_done true)).

Definition closeConn (c : cref) : prg unit :=
  modify (fun w =>
    if c_connClosed (client w c) then w
    else emit (EvConnClose c) (upd_client c (set_c_connClosed true) w)).

(** Under [mu]: the first close records code, reason and time; the answer says
    whether it was the first. *)
Definition mark_closed (c : cref) (code : Z) (reason : string) : prg bool :=
  atomically (fun w =>
    if c_closed (client w c) then (false, w)
    else (true, upd_client c (fun cl =>
      set_c_graceful true (set_c_closeReason reason (set_c_closeCode code
        (set_c_closedAt (Some (w_now w)) (set_c_closed true cl))))) w)).

Definition CloseWithCode (c : cref) (code : Z) (reason : string) : prg (option error) :=
  first ← mark_closed c code reason ;
  if negb first then mret None else
  closeDone c ;;
  mret None.

Definition Close (c : cref) : prg (option error) := CloseWithCode c CloseNormalClosure "".

(** ** Rate limiting *)

(** The body under [rateMu], at time [now], on the bucket alone. *)
Definition refill (maxRate now : Z) (tokens : spec_float) (lastRefill : Z) : spec_float :=
  let elapsed := dur_Seconds (time_Sub now lastRefill) in
  let rate := f64_of_Z maxRate in
  let tokens := f64_add tokens (f64_mul elapsed rate) in
  if SFltb rate tokens then rate else tokens.

Definition checkRateLimit (c : cref) : prg bool :=
  let maxRate := MaxMessageRate (limits env) in
  if bool_decide (maxRate <= 0)%Z then mret true else
  atomically (fun w =>
    let cl := client w c in
    let tokens := refill maxRate (w_now w) (c_tokens cl) (c_lastRefill cl) in
    if SFltb tokens (f64_of_Z 1) then
      (false, upd_client c (fun cl => set_c_tokens tokens (set_c_lastRefill (w_now w) cl)) w)
    else
      (true, upd_client c (fun cl =>
         set_c_tokens (f64_sub tokens (f64_of_Z 1)) (set_c_lastRefill (w_now w) cl)) w)).
End Ops.

(** ** Interleavings *)
Section Keeps.
Context (lim : Limits).

Lemma keeps_closeDone c : keeps (wf lim) (closeDone c).
Proof. by apply keeps_upd_client_frame. Qed.

Lemma keeps_closeConn c : keeps (wf lim) (closeConn c).
Proof.
  apply keeps_modify. intros w Hw. case_match; [done|].
  apply wf_emit; [|done]. by apply wf_upd_client_frame.
Qed.

Lemma keeps_CloseWithCode c code reason : keeps (wf lim) (CloseWithCode c code reason).
Proof.
  unfold CloseWithCode. apply keeps_bind.
  - apply keeps_atomically. intros w Hw. case_match; [done|]. by apply wf_upd_client_frame.
  - intros []; simpl; [|done]. apply keeps_bind; [apply keeps_closeDone|done].
Qed.

Lemma keeps_checkRateLimit env c : keeps (wf lim) (checkRateLimit env c).
Proof.
  unfold checkRateLimit. cbn zeta. case_bool_decide; [done|].
  apply keeps_atomically. intros w Hw. case_match; by apply wf_upd_client_frame.
Qed.

Lemma keeps_newClient `{RT : Runtime} env cfg r : keeps (wf lim) (newClient env cfg r).
Proof.
  apply keeps_atomically. intros w Hw. simpl. apply wf_bump, wf_upd_client; [done|].
  intros _. split; [unfold queue_ok; simpl; lia|apply within_0].
Qed.

Lemma keeps_SetMetadata c k v : keeps (wf lim) (SetMetadata c k v).
Proof. by apply keeps_upd_client_frame. Qed.

Lemma keeps_DeleteMetadata c k : keeps (wf lim) (DeleteMetadata c k).
Proof. by apply keeps_upd_client_frame. Qed.
End Keeps.

#[export] Hint Resolve keeps_closeDone keeps_closeConn keeps_CloseWithCode keeps_checkRateLimit
  keeps_newClient keeps_SetMetadata keeps_DeleteMetadata : keeps.

(** ** Closing once *)

(** The fields that a close fixes for good. *)
Definition close_record (cl : Client) : bool * option Z * Z * string * bool :=
  (c_closed cl, c_closedAt cl, c_closeCode cl, c_closeReason cl, c_graceful cl).

(** Closing is idempotent and the first close wins: it marks the client
    closed and graceful with its code, reason and the time, signals the
    write pump, and a later close with any code changes nothing at all. *)
Theorem CloseWithCode_first_wins (c : cref) (code1 code2 : Z) (r1 r2 : string) (w : world)
    (Hopen : c_closed (client w c) = false) :
  ∃ w1, run (CloseWithCode c code1 r1) w = Some (None, w1) /\
    close_record (client w1 c) = (true, Some (w_now w), code1, r1, true) /\
    c_done (client w1 c) = true /\ c_send (client w1 c) = c_send (client w c) /\
    (∀ c', c' <> c -> client w1 c' = client w c') /\
    run (CloseWithCode c code2 r2) w1 = Some (None, w1).
Proof.
  unfold CloseWithCode, mark_closed, closeDone. run_simpl. rewrite Hopen. run_simpl.
  eexists. split; [done|]. world_simpl. do 3 (split; [done|]). split.
  - intros c' Hc. by rewrite !client_upd_client_ne by done.
  - run_simpl. by world_simpl.
Qed.

(** Metadata behaves as a map on every client, the nil map included:
    a write is read back, a delete forgets, and other keys are untouched. *)
Theorem metadata_laws (c : cref) (k k' : string) (v : any) (w : world) :
  (∃ w1, run (SetMetadata c k v ;; GetMetadata c k) w = Some (Some v, w1)) /\
  (∃ w2, run (DeleteMetadata c k ;; GetMetadata c k) w = Some (None, w2)) /\
  (k <> k' -> ∃ w3 w4 o,
     run (GetMetadata c k') w = Some (o, w) /\
     run (SetMetadata c k v ;; GetMetadata c k') w = Some (o, w3) /\
     run (DeleteMetadata c k ;; GetMetadata c k') w = Some (o, w4)).
Proof.
  unfold SetMetadata, GetMetadata, DeleteMetadata. split; [|split].
  - run_simpl. world_simpl. rewrite lookup_insert_eq. eauto.
  - run_simpl. world_simpl. destruct (c_metadata (client w c)); simpl;
      rewrite ?lookup_delete_eq; eauto.
  - intros Hk. eexists _, _, _. run_simpl. split; [done|]. world_simpl.
    destruct (c_metadata (client w c)); simpl;
      rewrite lookup_insert_ne, ?lookup_delete_ne, ?lookup_empty by done; eauto.
Qed.

(** ** The token bucket *)

Lemma run_checkRateLimit env c w : ∃ ok w', run (checkRateLimit env c) w = Some (ok, w').
Proof.
  unfold checkRateLimit. cbn zeta. case_bool_decide; [rewrite run_ret; eauto|].
  rewrite run_atomically. cbn zeta. case_match; eauto.
Qed.

(** C34: The limiter answers by the bucket: without a limit every message
    passes and nothing changes; otherwise the bucket is refilled for the
    elapsed time, never beyond the burst size, and the message passes
    exactly when a whole token is left, which it then consumes. *)
Theorem checkRateLimit_spec (env : HubEnv) (c : cref) (w : world) :
  let maxRate := MaxMessageRate (limits env) in
  let cl := client w c in
  let t := refill maxRate (w_now w) (c_tokens cl) (c_lastRefill cl) in
  (maxRate <= 0 -> run (checkRateLimit env c) w = Some (true, w))%Z /\
  (0 < maxRate -> ∃ ok w', run (checkRateLimit env c) w = Some (ok, w') /\
     SFltb (f64_of_Z maxRate) t = false /\
     ok = negb (SFltb t (f64_of_Z 1)) /\
     c_tokens (client w' c) = (if ok then f64_sub t (f64_of_Z 1) else t) /\
     c_lastRefill (client w' c) = w_now w /\
     (∀ c', c' <> c -> client w' c' = client w c') /\ w_hub w' = w_hub w)%Z.
Proof.
  cbn zeta. unfold checkRateLimit. cbn zeta. split; intros Hr.
  - by rewrite bool_decide_eq_true_2.
  - rewrite bool_decide_eq_false_2 by lia. run_simpl.
    set (t := refill _ _ _ _).
    assert (SFltb (f64_of_Z (MaxMessageRate (limits env))) t = false) as Hcap.
    { subst t. unfold refill. cbn zeta. set (r := f64_of_Z _). set (s := f64_add _ _).
      destruct (SFltb r s) eqn:Hs; [|done]. unfold SFltb, SFcompare.
      destruct r as [[]|[]| |[] m e]; try done; by rewrite ?Z.compare_refl, ?Pos.compare_refl,
        ?Pcompare_refl. }
    destruct (SFltb t (f64_of_Z 1)); eexists _, _; (split; [done|]); world_simpl;
      (split; [done|]); repeat (split; [done|]); (split; [|done]);
      intros c' Hc'; by rewrite client_upd_client_ne.
Qed.
