(* ===== verification/Rooms.v ===== *)
(** * Rooms: membership (hub.go, client.go)

    [JoinRoom], [LeaveRoom], [LeaveAllRooms] and the room queries, each as the
    sequence of critical sections the code takes ([roomsMu], [Room.mu],
    [Client.mu]).  [RoomSpec] gives the abstract specification: a relation
    between room names and clients. *)

From S2P Require Import Prelude Prog Types Config World Invariant.

Section Ops.
Context {RT : Runtime} (env : HubEnv).

(** ** Snapshots *)
Definition emptyRoomSnapshot : list cref := [].

Definition loadRoomSnapshot (r : Room) : list cref :=
  match r_snapshot r with
  | None => emptyRoomSnapshot
  | Some l => l
  end.

(** Called with [room.mu] held: the copy iterates over the map. *)
Definition rebuildRoomSnapshot (w : world) (r : Room) : Room :=
  set_r_snapshot (Some (range_keys (r_clients r) w)) r.

(** ** Critical sections *)

(** [delete(room.clients, client); rebuildRoomSnapshot(room)]. *)
Definition room_remove (r : rref) (c : cref) (w : world) : world :=
  bump (upd_room r (fun ro =>
    rebuildRoomSnapshot w (set_r_clients (r_clients ro ∖ {[c]}) ro)) w).

(** [room.clients[client] = struct{}{}; rebuildRoomSnapshot(room)]. *)
Definition room_add (r : rref) (c : cref) (w : world) : world :=
  bump (upd_room r (fun ro =>
    rebuildRoomSnapshot w (set_r_clients (r_clients ro ∪ {[c]}) ro)) w).

Definition client_joins (c : cref) (name : string) : world -> world :=
  upd_client c (fun cl => set_c_rooms (c_rooms cl ∪ {[name]}) cl).

Definition leaveRoom (c : cref) (name : string) : world -> world :=
  upd_client c (fun cl => set_c_rooms (c_rooms cl ∖ {[name]}) cl).

Definition lookup_room (name : string) : prg (option rref) :=
  gets (fun w => h_rooms (w_hub w) !! name).

Definition in_room (r : rref) (c : cref) : prg bool :=
  gets (fun w => bool_decide (c ∈ r_clients (room w r))).

(** Under [roomsMu] and [room.mu]: remove the room if it is still the one
    registered under its name and has no members. *)
Definition deleteRoomIfEmpty (name : string) (r : rref) : prg unit :=
  modify (fun w =>
    if bool_decide (r_clients (room w r) = ∅) &&
       bool_decide (h_rooms (w_hub w) !! name = Some r)
    then emit (EvMetric DecrementRooms)
           (upd_hub (fun h => set_h_rooms (delete name (h_rooms h)) h) w)
    else w).

(** Under [roomsMu]: get the room or create it; the flag is [exists]. *)
Definition get_or_create_room (name : string) : prg (rref * bool) :=
  atomically (fun w =>
    match h_rooms (w_hub w) !! name with
    | Some r => ((r, true), w)
    | None =>
        let r := fresh (dom (w_rooms w)) in
        ((r, false),
         emit (EvMetric IncrementRooms)
           (upd_hub (fun h => set_h_rooms (<[name := r]> (h_rooms h)) h)
              (upd_room r (fun _ => mkRoom ∅ None) w)))
    end).

(** ** JoinRoom *)

(** What the section under [room.mu] (and [client.mu]) of [JoinRoom] decides:
    success with the new room size, or an error and whether [cleanupRoom] goes
    on to [deleteRoomIfEmpty]. *)
Inductive join_result :=
  | Joined (roomSize : nat)
  | JoinFailed (e : error) (cleanup : bool).

Definition join_section (c : cref) (name : string) (r : rref) (exists_ : bool)
    : prg join_result :=
  atomically (fun w =>
    let ro := room w r in
    let fail e := JoinFailed e (negb exists_ && bool_decide (r_clients ro = ∅)) in
    if limit_hit (MaxClientsPerRoom (limits env)) (size (r_clients ro)) then
      (fail (ErrWrap "room" name ErrRoomFull), w)
    else if bool_decide (c ∈ r_clients ro) then
      (fail ErrAlreadyInRoom, w)
    else if limit_hit (MaxRoomsPerClient (limits env)) (size (c_rooms (client w c))) then
      (fail (ErrWrap "client" (c_ID (client w c)) ErrMaxRoomsReached), w)
    else
      let w' := room_add r c (client_joins c name w) in
      (Joined (size (r_clients (room w' r))), w')).

Definition add_roomVersion (n : Z) : prg unit :=
  modify (upd_hub (fun h => set_h_roomVersion (wrap64 (h_roomVersion h + n)) h)).

Definition JoinRoom (c : cref) (name : string) : prg (option error) :=
  if bool_decide (name = "") then mret (Some ErrEmptyRoomName) else
  known ← gets (fun w => bool_decide (c ∈ h_clients (w_hub w))) ;
  if negb known then mret (Some ErrClientNotFound) else
  veto ← call_veto ((fun h => h c name) <$> BeforeRoomJoin (hooks env)) (HBeforeRoomJoin c name) ;
  match veto with
  | Some e => mret (Some e)
  | None =>
      re ← get_or_create_room name ;
      res ← join_section c name re.1 re.2 ;
      match res with
      | JoinFailed e cleanup =>
          (if (cleanup : bool) then deleteRoomIfEmpty name re.1 else mret tt) ;;
          mret (Some e)
      | Joined _ =>
          add_roomVersion 1 ;;
          metrics IncrementRoomJoins ;;
          logger Debug "Client joined room" ;;
          go_hook (AfterRoomJoin (hooks env)) (HAfterRoomJoin c name) ;;
          mret None
      end
  end.

(** ** LeaveRoom *)

(** The section under [room.mu]: re-check membership, remove, and report
    whether the room became empty ([None]: the client had left already).
    [LeaveRoom] also updates the client and the version inside it. *)
Definition leave_section (c : cref) (name : string) (r : rref) : prg (option bool) :=
  atomically (fun w =>
    if bool_decide (c ∈ r_clients (room w r)) then
      let w1 := leaveRoom c name (room_remove r c w) in
      let w2 := upd_hub (fun h => set_h_roomVersion (wrap64 (h_roomVersion h + 1)) h) w1 in
      (Some (bool_decide (r_clients (room w2 r) = ∅)), w2)
    else (None, w)).

Definition LeaveRoom (c : cref) (name : string) : prg (option error) :=
  if bool_decide (name = "") then mret (Some ErrEmptyRoomName) else
  found ← lookup_room name ;
  match found with
  | None => mret (Some ErrRoomNotFound)
  | Some r =>
      member ← in_room r c ;
      if negb member then mret (Some ErrNotInRoom) else
      call_hook ((fun h => h c name) <$> BeforeRoomLeave (hooks env)) (HBeforeRoomLeave c name) ;;
      left ← leave_section c name r ;
      match left with
      | None => mret (Some ErrNotInRoom)
      | Some roomEmpty =>
          (if (roomEmpty : bool) then deleteRoomIfEmpty name r else mret tt) ;;
          metrics IncrementRoomLeaves ;;
          logger Debug "Client left room" ;;
          go_hook (AfterRoomLeave (hooks env)) (HAfterRoomLeave c name) ;;
          mret None
      end
  end.

(** ** LeaveAllRooms and the disconnect path *)

(** One room of [removeClientFromAllRoomsWithHooks]: its section under
    [room.mu] leaves [client.rooms] alone. *)
Definition drop_section (c : cref) (r : rref) : prg (option bool) :=
  atomically (fun w =>
    if bool_decide (c ∈ r_clients (room w r)) then
      let w' := room_remove r c w in
      (Some (bool_decide (r_clients (room w' r) = ∅)), w')
    else (None, w)).

Definition leave_one (c : cref) (name : string) : prg (option string) :=
  found ← lookup_room name ;
  match found with
  | None => mret None
  | Some r =>
      member ← in_room r c ;
      if negb member then mret None else
      call_hook ((fun h => h c name) <$> BeforeRoomLeave (hooks env)) (HBeforeRoomLeave c name) ;;
      left ← drop_section c r ;
      match left with
      | None => mret None
      | Some roomEmpty =>
          (if (roomEmpty : bool) then deleteRoomIfEmpty name r else mret tt) ;;
          mret (Some name)
      end
  end.

Definition forget_rooms (c : cref) (names : list string) : world -> world :=
  upd_client c (fun cl => set_c_rooms (c_rooms cl ∖ list_to_set names) cl).

Definition removeClientFromAllRoomsWithHooks (c : cref) : prg unit :=
  roomNames ← atomically (fun w => (range_keys (c_rooms (client w c)) w, bump w)) ;
  match roomNames with
  | [] => mret tt
  | _ =>
      leftRooms ← for_collect roomNames (leave_one c) ;
      modify (forget_rooms c leftRooms) ;;
      add_roomVersion (Z.of_nat (length leftRooms)) ;;
      for_each leftRooms (fun _ => metrics IncrementRoomLeaves) ;;
      for_each leftRooms (fun name =>
        go_hook (AfterRoomLeave (hooks env)) (HAfterRoomLeave c name))
  end.

Definition LeaveAllRooms (c : cref) : prg unit := removeClientFromAllRoomsWithHooks c.

(** ** Queries *)
Definition RoomClients (name : string) : prg (list cref) :=
  found ← lookup_room name ;
  match found with
  | None => mret []
  | Some r => gets (fun w => loadRoomSnapshot (room w r))
  end.

Definition RoomCount (name : string) : prg nat :=
  found ← lookup_room name ;
  match found with
  | None => mret 0
  | Some r => gets (fun w => length (loadRoomSnapshot (room w r)))
  end.

Definition RoomNames : prg (list string) :=
  atomically (fun w => (range_keys (dom (h_rooms (w_hub w))) w, bump w)).

Definition RoomExists (name : string) : prg bool :=
  gets (fun w => bool_decide (is_Some (h_rooms (w_hub w) !! name))).

Definition Client_Rooms (c : cref) : prg (list string) :=
  atomically (fun w => (range_keys (c_rooms (client w c)) w, bump w)).

Definition InRoom (c : cref) (name : string) : prg bool :=
  gets (fun w => bool_decide (name ∈ c_rooms (client w c))).

Definition Client_RoomCount (c : cref) : prg nat :=
  gets (fun w => size (c_rooms (client w c))).
End Ops.

(** ** Every interleaving: limits, snapshots and the room registry *)
Section Keeps.
Context {RT : Runtime} (lim : Limits) (env : HubEnv).
Context (Hlim : limits env = lim) (Hh : hooks_keep lim env).

Lemma enumerates_snapshot r : snapshot_ok r -> enumerates (loadRoomSnapshot r) (r_clients r).
Proof.
  unfold snapshot_ok, loadRoomSnapshot, emptyRoomSnapshot. destruct (r_snapshot r); [done|].
  intros ->. apply enumerates_nil.
Qed.

Lemma snapshot_ok_rebuild w ro : snapshot_ok (rebuildRoomSnapshot w ro).
Proof. unfold snapshot_ok, rebuildRoomSnapshot. simpl. apply rt_range_perm. Qed.

Lemma room_ok_remove w c ro :
  room_ok lim ro -> room_ok lim (rebuildRoomSnapshot w (set_r_clients (r_clients ro ∖ {[c]}) ro)).
Proof.
  intros [_ Hs]. split; [apply snapshot_ok_rebuild|]. simpl.
  eapply within_le; [done|]. apply size_difference_le.
Qed.

Lemma room_ok_add w c ro :
  limit_hit (MaxClientsPerRoom lim) (size (r_clients ro)) = false ->
  c ∉ r_clients ro ->
  room_ok lim ro -> room_ok lim (rebuildRoomSnapshot w (set_r_clients (r_clients ro ∪ {[c]}) ro)).
Proof.
  intros Hl Hc [_ Hs]. split; [apply snapshot_ok_rebuild|]. simpl.
  rewrite size_insert_new by done. by apply within_S.
Qed.

Lemma client_ok_set_rooms cl X :
  client_ok lim cl -> within (MaxRoomsPerClient lim) (size X) ->
  client_ok lim (set_c_rooms X cl).
Proof. unfold client_ok, queue_ok. by intros [Hq _]. Qed.

Lemma client_ok_forget cl (X : gset string) :
  client_ok lim cl -> client_ok lim (set_c_rooms (c_rooms cl ∖ X) cl).
Proof.
  intros H. apply client_ok_set_rooms; [done|]. destruct H as [_ H].
  eapply within_le; [done|]. apply size_difference_le.
Qed.

Lemma wf_room_remove r c w : wf lim w -> wf lim (room_remove r c w).
Proof. intros Hw. apply wf_bump, wf_upd_room; [done|]. apply room_ok_remove. Qed.

Lemma wf_leaveRoom c n w : wf lim w -> wf lim (leaveRoom c n w).
Proof. intros Hw. apply wf_upd_client; [done|]. apply client_ok_forget. Qed.

Lemma keeps_lookup_room n : keeps (wf lim) (lookup_room n).
Proof. apply keeps_gets. Qed.

Lemma keeps_in_room r c : keeps (wf lim) (in_room r c).
Proof. apply keeps_gets. Qed.

Lemma keeps_add_roomVersion n : keeps (wf lim) (add_roomVersion n).
Proof. by apply keeps_upd_hub. Qed.

Lemma wf_delete_room n r w :
  wf lim w -> h_rooms (w_hub w) !! n = Some r ->
  wf lim (emit (EvMetric DecrementRooms)
            (upd_hub (fun h => set_h_rooms (delete n (h_rooms h)) h) w)).
Proof.
  intros [Hc Hr Ha Hi Hu Hg] Hn.
  assert (size (h_rooms (w_hub w)) = S (size (delete n (h_rooms (w_hub w))))) as Hsz.
  { by eapply map_size_delete_elem. }
  split; try done; world_simpl.
  - intros n' r' [_ Hn']%lookup_delete_Some. by eapply Ha.
  - intros n1 n2 r' [_ H1]%lookup_delete_Some [_ H2]%lookup_delete_Some. by eapply Hi.
  - unfold rooms_gauge in *. simpl. rewrite Hg, Hsz. lia.
Qed.

Lemma keeps_deleteRoomIfEmpty n r : keeps (wf lim) (deleteRoomIfEmpty n r).
Proof.
  apply keeps_modify. intros w Hw. case_match eqn:Hb; [|done].
  bool_to_prop. by eapply wf_delete_room.
Qed.

Lemma wf_create_room n r w :
  wf lim w -> h_rooms (w_hub w) !! n = None -> w_rooms w !! r = None ->
  wf lim (emit (EvMetric IncrementRooms)
           (upd_hub (fun h => set_h_rooms (<[n := r]> (h_rooms h)) h)
             (upd_room r (fun _ => mkRoom ∅ None) w))).
Proof.
  intros Hw Hn Hr. assert (wf lim (upd_room r (fun _ => mkRoom ∅ None) w)) as [Hc Hr' Ha Hi Hu Hg].
  { apply wf_upd_room; [done|]. intros _. split; [done|]. apply within_0. }
  assert (∀ n' r', h_rooms (w_hub w) !! n' = Some r' -> r' <> r) as Hne.
  { intros n' r' H' ->. destruct (wf_rooms_alloc _ _ Hw _ _ H'). congruence. }
  world_simpl_in Hg. split; try done; world_simpl.
  - intros n' r'. rewrite lookup_insert_Some. intros [[<- <-]|[_ H']].
    + unfold upd_room. simpl. apply lookup_insert_is_Some. by left.
    + by eapply Ha.
  - intros n1 n2 r'. rewrite !lookup_insert_Some.
    intros [[<- <-]|[? H1]] [[<- H2]|[? H2]]; try done; try (by eapply Hi);
      exfalso; eapply Hne; eauto.
  - unfold rooms_gauge in *. simpl. rewrite Hg, map_size_insert_None by done. lia.
Qed.

Lemma keeps_get_or_create_room n : keeps (wf lim) (get_or_create_room n).
Proof.
  apply keeps_atomically. intros w Hw. case_match eqn:Hn; [done|].
  simpl. apply wf_create_room; [done|done|]. apply not_elem_of_dom, is_fresh.
Qed.

Lemma wf_join c n r w :
  limit_hit (MaxClientsPerRoom lim) (size (r_clients (room w r))) = false ->
  c ∉ r_clients (room w r) ->
  limit_hit (MaxRoomsPerClient lim) (size (c_rooms (client w c))) = false ->
  wf lim w -> wf lim (room_add r c (client_joins c n w)).
Proof.
  intros H1 H2 H3 Hw. unfold room_add, client_joins.
  apply wf_bump, wf_upd_room.
  - apply wf_upd_client; [done|]. intros [Hq Hs]. apply client_ok_set_rooms; [done|].
    destruct (decide (n ∈ c_rooms (client w c))) as [Hin|Hin].
    + by rewrite union_elem_id.
    + rewrite size_insert_new by done. by apply within_S.
  - world_simpl. by apply room_ok_add.
Qed.

Lemma keeps_join_section c n r b : keeps (wf lim) (join_section env c n r b).
Proof.
  apply keeps_atomically. intros w Hw. cbn zeta. rewrite Hlim.
  case_match eqn:H1; [done|]. case_match eqn:H2; [done|]. case_match eqn:H3; [done|].
  bool_to_prop. by apply wf_join.
Qed.

Lemma keeps_leave_section c n r : keeps (wf lim) (leave_section c n r).
Proof.
  apply keeps_atomically. intros w Hw. case_match; [|done]. cbn zeta. simpl.
  apply wf_upd_hub; [|done]. by apply wf_leaveRoom, wf_room_remove.
Qed.

Lemma keeps_drop_section c r : keeps (wf lim) (drop_section c r).
Proof.
  apply keeps_atomically. intros w Hw. case_match; [|done]. by apply wf_room_remove.
Qed.

#[local] Hint Resolve keeps_lookup_room keeps_in_room keeps_add_roomVersion
  keeps_deleteRoomIfEmpty keeps_get_or_create_room keeps_join_section keeps_leave_section
  keeps_drop_section : keeps.

Lemma keeps_JoinRoom c n : keeps (wf lim) (JoinRoom env c n).
Proof.
  unfold JoinRoom. keeps_auto.
  destruct (BeforeRoomJoin (hooks env)) eqn:He; simplify_eq/=. by eapply hk_beforeRoomJoin.
Qed.

Lemma keeps_before_leave c n b :
  (fun h : cref -> string -> prg unit => h c n) <$> BeforeRoomLeave (hooks env) = Some b ->
  keeps (wf lim) b.
Proof.
  destruct (BeforeRoomLeave (hooks env)) eqn:He; intros; simplify_eq/=.
  by eapply hk_beforeRoomLeave.
Qed.

Lemma keeps_LeaveRoom c n : keeps (wf lim) (LeaveRoom env c n).
Proof. unfold LeaveRoom. keeps_auto; by eapply keeps_before_leave. Qed.

Lemma keeps_leave_one c n : keeps (wf lim) (leave_one env c n).
Proof. unfold leave_one. keeps_auto; by eapply keeps_before_leave. Qed.

#[local] Hint Resolve keeps_leave_one : keeps.

Lemma keeps_removeClientFromAllRooms c :
  keeps (wf lim) (removeClientFromAllRoomsWithHooks env c).
Proof.
  unfold removeClientFromAllRoomsWithHooks. keeps_auto.
  - apply keeps_atomically. intros w Hw. by apply wf_bump.
  - apply keeps_modify. intros w Hw. apply wf_upd_client; [done|]. apply client_ok_forget.
Qed.

Lemma keeps_RoomClients n : keeps (wf lim) (RoomClients n).
Proof. unfold RoomClients. keeps_auto. Qed.
End Keeps.

#[export] Hint Resolve keeps_JoinRoom keeps_LeaveRoom keeps_removeClientFromAllRooms
  keeps_RoomClients keeps_lookup_room : keeps.
