(* ===== verification/RoomSpec.v ===== *)
(** * RoomSpec: the abstract specification of rooms and its refinement

    Abstractly the rooms of a hub are a finite relation between room names and
    clients: a room exists exactly while it has a member.  [abs_join],
    [abs_leave] and [abs_leave_all] say what the operations promise; the
    theorems show that the code of [Rooms], run without interference,
    implements them, errors included.  [rep] is the representation relation. *)

From S2P Require Import Prelude Prog Types Config World Invariant Rooms.

Abbreviation membership := (gset (string * cref)).

Definition room_members (M : membership) (n : string) : gset cref :=
  set_map snd (filter (fun p => p.1 = n) M).

Definition client_rooms (M : membership) (c : cref) : gset string :=
  set_map fst (filter (fun p => p.2 = c) M).

Lemma elem_of_room_members M n c : c ∈ room_members M n <-> (n, c) ∈ M.
Proof.
  unfold room_members. rewrite elem_of_map. setoid_rewrite elem_of_filter.
  split; [|by exists (n, c)]. by intros ([n' c'] & -> & <- & ?).
Qed.

Lemma elem_of_client_rooms M n c : n ∈ client_rooms M c <-> (n, c) ∈ M.
Proof.
  unfold client_rooms. rewrite elem_of_map. setoid_rewrite elem_of_filter.
  split; [|by exists (n, c)]. by intros ([n' c'] & -> & <- & ?).
Qed.

(** ** The specification *)
Section Spec.
Context (lim : Limits) (known : gset cref) (id : cref -> string).
Context (veto : cref -> string -> option error).   (** the BeforeRoomJoin policy *)

(** The checks made under the room's lock, in their order. *)
Definition join_check (M : membership) (c : cref) (n : string) : option error :=
if limit_hit (MaxClientsPerRoom lim) (size (room_members M n)) then
  Some (ErrWrap "room" n ErrRoomFull)
else if bool_decide ((n, c) ∈ M) then Some ErrAlreadyInRoom
else if limit_hit (MaxRoomsPerClient lim) (size (client_rooms M c)) then
  Some (ErrWrap "client" (id c) ErrMaxRoomsReached)
else None.

Definition abs_join (M : membership) (c : cref) (n : string) : option error * membership :=
  if bool_decide (n = "") then (Some ErrEmptyRoomName, M)
  else if negb (bool_decide (c ∈ known)) then (Some ErrClientNotFound, M)
  else match veto c n with
  | Some e => (Some e, M)
  | None =>
      match join_check M c n with
      | Some e => (Some e, M)
      | None => (None, M ∪ {[(n, c)]})
      end
  end.

Definition abs_leave (M : membership) (c : cref) (n : string) : option error * membership :=
  if bool_decide (n = "") then (Some ErrEmptyRoomName, M)
  else if bool_decide (room_members M n = ∅) then (Some ErrRoomNotFound, M)
  else if negb (bool_decide ((n, c) ∈ M)) then (Some ErrNotInRoom, M)
  else (None, M ∖ {[(n, c)]}).

Definition abs_leave_all (M : membership) (c : cref) : membership :=
  filter (fun p => p.2 <> c) M.

(** ** Representation

    [M] is what the rooms hold and [Mc] what the clients believe; they differ
    only inside [LeaveAllRooms].  [ex] names the room that may be empty
    between two critical sections of one operation. *)
Record rep (M Mc : membership) (ex : option string) (w : world) : Prop := {
  rep_wf : wf lim w;
  rep_known : h_clients (w_hub w) = known;
  rep_id : ∀ c, c_ID (client w c) = id c;
  rep_rooms : ∀ n c, (n, c) ∈ M <->
    ∃ r, h_rooms (w_hub w) !! n = Some r /\ c ∈ r_clients (room w r);
  rep_client : ∀ c, c_rooms (client w c) = client_rooms Mc c;
  rep_nonempty : ∀ n r, h_rooms (w_hub w) !! n = Some r -> Some n <> ex ->
    r_clients (room w r) <> ∅
}.

Lemma rep_frame M Mc ex w w' :
  rep M Mc ex w -> wf lim w' ->
  h_clients (w_hub w') = h_clients (w_hub w) -> h_rooms (w_hub w') = h_rooms (w_hub w) ->
  w_rooms w' = w_rooms w ->
  (∀ c, c_ID (client w' c) = c_ID (client w c) /\ c_rooms (client w' c) = c_rooms (client w c)) ->
  rep M Mc ex w'.
Proof.
  intros [Hw Hk Hid Hr Hc Hn] Hw' E1 E2 E3 E4. split; try done.
  - by rewrite E1.
  - intros c. by rewrite (proj1 (E4 c)).
  - intros n c. rewrite E2. unfold room. rewrite E3. apply Hr.
  - intros c. by rewrite (proj2 (E4 c)).
  - intros n r. rewrite E2. unfold room. rewrite E3. apply Hn.
Qed.

Lemma rep_emit M Mc ex e w : neutral e -> rep M Mc ex w -> rep M Mc ex (emit e w).
Proof.
  intros He H. eapply rep_frame; [done|..]; try done. apply wf_emit; [apply H|done].
Qed.

Lemma rep_bump M Mc ex w : rep M Mc ex w -> rep M Mc ex (bump w).
Proof. intros H. eapply rep_frame; [done|..]; try done. apply wf_bump, H. Qed.

Lemma rep_upd_hub M Mc ex f w :
  (∀ h, h_rooms (f h) = h_rooms h /\ h_userIndex (f h) = h_userIndex h /\
        h_clients (f h) = h_clients h) ->
  rep M Mc ex w -> rep M Mc ex (upd_hub f w).
Proof.
  intros Hf H. eapply rep_frame; [done|..]; try done.
  - apply wf_upd_hub; [apply H|]. intros h. by destruct (Hf h) as (-> & -> & _).
  - world_simpl. apply Hf.
  - world_simpl. apply Hf.
Qed.

(** The members of a registered room are those of the relation. *)
Lemma rep_room_clients M Mc ex w n r :
  rep M Mc ex w -> h_rooms (w_hub w) !! n = Some r ->
  r_clients (room w r) = room_members M n.
Proof.
  intros H Hn. apply set_eq. intros c. rewrite elem_of_room_members, (rep_rooms _ _ _ _ H).
  split; [by eauto|]. intros (r' & Hn' & Hc). congruence.
Qed.

Lemma rep_no_room M Mc ex w n :
  rep M Mc ex w -> h_rooms (w_hub w) !! n = None -> room_members M n = ∅.
Proof.
  intros H Hn. apply set_eq. intros c. rewrite elem_of_room_members, (rep_rooms _ _ _ _ H).
  split; [|set_solver]. intros (r' & Hn' & Hc). congruence.
Qed.

Lemma rep_room_exists M Mc w n :
  rep M Mc None w -> is_Some (h_rooms (w_hub w) !! n) <-> room_members M n <> ∅.
Proof.
  intros H. destruct (h_rooms (w_hub w) !! n) as [r|] eqn:Hn.
  - rewrite <-(rep_room_clients _ _ _ _ _ _ H Hn). split; [|by eauto].
    intros _. by apply (rep_nonempty _ _ _ _ H n r).
  - rewrite (rep_no_room _ _ _ _ _ H Hn). split; [by intros []|done].
Qed.

(** ** The blocks against the representation *)
Lemma total_neutral M Mc ex e :
  neutral e -> total (rep M Mc ex) (modify (emit e)) (fun _ => rep M Mc ex).
Proof. intros He. apply total_modify. intros w. by apply rep_emit. Qed.

Lemma total_go_hook {A} M Mc ex (h : option A) call :
  total (rep M Mc ex) (go_hook h call) (fun _ => rep M Mc ex).
Proof. destruct h; [by apply total_neutral|by apply total_ret]. Qed.

Lemma total_roomVersion M Mc ex n :
  total (rep M Mc ex) (add_roomVersion n) (fun _ => rep M Mc ex).
Proof. apply total_modify. intros w. by apply rep_upd_hub. Qed.

Lemma rep_delete M Mc n r w :
  rep M Mc (Some n) w -> h_rooms (w_hub w) !! n = Some r -> r_clients (room w r) = ∅ ->
  rep M Mc None (emit (EvMetric DecrementRooms)
                   (upd_hub (fun h => set_h_rooms (delete n (h_rooms h)) h) w)).
Proof.
  intros H Hn Hr. destruct H as [Hw Hk Hid Hrs Hc He].
  split; world_simpl; try done; [by eapply wf_delete_room|..].
  - intros n' c. rewrite Hrs. split; intros (r' & H1 & H2); exists r'; (split; [|done]).
    + apply lookup_delete_Some. split; [|done]. intros <-.
      rewrite Hn in H1. simplify_eq. rewrite Hr in H2. set_solver.
    + by apply lookup_delete_Some in H1 as [_ ?].
  - intros n' r' [Hne H1]%lookup_delete_Some _. apply (He n'); [done|]. congruence.
Qed.

(** Deleting the possibly empty room [n] makes every room non-empty. *)
Lemma total_deleteRoomIfEmpty M Mc n r :
  total (fun w => rep M Mc (Some n) w /\ h_rooms (w_hub w) !! n = Some r)
    (deleteRoomIfEmpty n r) (fun _ => rep M Mc None).
Proof.
  apply total_modify. intros w [H Hn]. case_match eqn:Hb.
  - bool_to_prop. by eapply rep_delete.
  - apply andb_false_iff in Hb. rewrite !bool_decide_eq_false in Hb.
    destruct Hb as [Hb|Hb]; [|done]. destruct H as [Hw Hk Hid Hrs Hc He].
    split; try done. intros n' r' H1 _. destruct (decide (n' = n)) as [->|Hne].
    + congruence.
    + apply (He n'); [done|congruence].
Qed.
End Spec.

(** The hooks as the specification sees them: the join hook is a policy, the
    leave hook only observes. *)
Definition join_hook_policy (env : HubEnv) (veto : cref -> string -> option error) : Prop :=
  match BeforeRoomJoin (hooks env) with
  | None => ∀ c n, veto c n = None
  | Some h => ∀ c n w, run (h c n) w = Some (veto c n, w)
  end.

Definition leave_hook_observes (env : HubEnv) : Prop :=
  match BeforeRoomLeave (hooks env) with
  | None => True
  | Some h => ∀ c n w, run (h c n) w = Some (tt, w)
  end.

(** ** Refinement *)
Section Refinement.
Context {RT : Runtime} (env : HubEnv) (known : gset cref) (id : cref -> string).
Abbreviation lim := (limits env).
Abbreviation rep := (rep lim known id).

Section Join.
Context (veto : cref -> string -> option error).

Lemma total_join_hook M Mc ex c n (Hv : join_hook_policy env veto) :
  total (rep M Mc ex)
    (call_veto ((fun h => h c n) <$> BeforeRoomJoin (hooks env)) (HBeforeRoomJoin c n))
    (fun v w => v = veto c n /\ rep M Mc ex w).
Proof.
  unfold join_hook_policy in Hv. destruct (BeforeRoomJoin (hooks env)) as [h|]; simpl.
  - eapply total_bind; [by apply total_neutral|]. intros [] w Hw.
    rewrite Hv. eauto.
  - apply total_ret. by rewrite Hv.
Qed.

Lemma total_leave_hook (P : world -> Prop) c n (Hv : leave_hook_observes env) :
  (∀ w e, neutral e -> P w -> P (emit e w)) ->
  total P (call_hook ((fun h => h c n) <$> BeforeRoomLeave (hooks env)) (HBeforeRoomLeave c n))
    (fun _ => P).
Proof.
  unfold leave_hook_observes in Hv. intros HP.
  destruct (BeforeRoomLeave (hooks env)) as [h|]; simpl; [|by apply total_ret].
  apply (total_bind _ _ _ (fun _ => P)).
  { apply total_modify. intros w. by apply HP. }
  intros [] w Hw. rewrite Hv. eauto.
Qed.

(** A freshly created room is empty; an existing one is not. *)
Lemma total_get_or_create (M : membership) (n : string) :
  total (rep M M None) (get_or_create_room n)
    (fun re w => rep M M (if re.2 then None else Some n) w /\
                 h_rooms (w_hub w) !! n = Some re.1 /\
                 (re.2 = false -> r_clients (room w re.1) = ∅)).
Proof.
  apply total_atomically. intros w H. destruct (h_rooms (w_hub w) !! n) as [r0|] eqn:Hn; simpl.
  { by rewrite Hn. }
  set (r := fresh (dom (w_rooms w))).
  assert (w_rooms w !! r = None) as Hr by apply not_elem_of_dom, is_fresh.
  destruct H as [Hw Hk Hid Hrs Hc He].
  assert (∀ n' r', h_rooms (w_hub w) !! n' = Some r' -> r' <> r) as Hne.
  { intros n' r' H' ->. destruct (wf_rooms_alloc _ _ Hw _ _ H'). congruence. }
  split; [|split; world_simpl; [by rewrite lookup_insert_eq|done]].
  split; world_simpl; try done; [by apply wf_create_room|..].
  - intros n' c. rewrite Hrs. split; intros (r' & H1 & H2);
      [exists r'; world_simpl|world_simpl_in H1; world_simpl_in H2].
    + rewrite lookup_insert_ne by congruence.
      rewrite room_upd_room_ne by (intros <-; by eapply Hne). done.
    + apply lookup_insert_Some in H1 as [[<- <-]|[? H1]].
      * by rewrite room_upd_room_eq in H2.
      * rewrite room_upd_room_ne in H2 by (intros <-; by eapply Hne). eauto.
  - intros n' r' [[<- <-]|[? H1]]%lookup_insert_Some Hn'; [done|].
    world_simpl. rewrite room_upd_room_ne by (intros <-; by eapply Hne). by apply (He n').
Qed.

(** Adding one membership on both sides. *)
Lemma rep_join M ex n r c w :
  rep M M ex w -> h_rooms (w_hub w) !! n = Some r -> (ex = None \/ ex = Some n) ->
  (n, c) ∉ M ->
  limit_hit (MaxClientsPerRoom lim) (size (r_clients (room w r))) = false ->
  limit_hit (MaxRoomsPerClient lim) (size (c_rooms (client w c))) = false ->
  rep (M ∪ {[(n, c)]}) (M ∪ {[(n, c)]}) None (room_add r c (client_joins c n w)).
Proof.
  intros H Hn Hex Hnew H1 H2. pose proof (rep_room_clients _ _ _ _ _ _ _ _ _ H Hn) as Hrc.
  destruct H as [Hw Hk Hid Hrs Hc He].
  split; unfold room_add, client_joins; world_simpl; try done.
  - apply wf_join; try done. rewrite Hrc. by rewrite elem_of_room_members.
  - intros c'. world_simpl. rewrite client_upd_client. by case_decide; subst; simpl.
  - intros n' c'. rewrite elem_of_union, elem_of_singleton, Hrs. split.
    + intros [(r' & H' & Hr')|[= -> ->]].
      * exists r'. world_simpl. split; [done|]. rewrite room_upd_room.
        case_decide; subst; world_simpl; [|done]. set_solver.
      * exists r. world_simpl. split; [done|]. set_solver.
    + intros (r' & H' & Hr'). world_simpl_in H'. world_simpl_in Hr'. rewrite room_upd_room in Hr'. case_decide; subst; world_simpl_in Hr'.
      * assert (n' = n) as -> by (by eapply (wf_rooms_inj _ _ Hw)).
        apply elem_of_union in Hr' as [?|?%elem_of_singleton]; subst; [|by right].
        left. eauto.
      * left. eauto.
  - intros c'. world_simpl. rewrite client_upd_client. apply set_eq. intros m.
    rewrite elem_of_client_rooms. case_decide; subst; simpl.
    + rewrite elem_of_union, Hc, elem_of_client_rooms. set_solver.
    + rewrite Hc, elem_of_client_rooms. set_solver.
  - intros n' r' Hn' _. world_simpl_in Hn'. world_simpl. rewrite room_upd_room. case_decide as Hd; subst; world_simpl.
    + set_solver.
    + apply (He n'); [done|]. destruct Hex as [->| ->]; [done|]. congruence.
Qed.

Lemma total_join_section (M : membership) (c : cref) (n : string) (r : rref) (ex : bool) :
  total (fun w => rep M M (if ex then None else Some n) w /\
                  h_rooms (w_hub w) !! n = Some r /\
                  (ex = false -> r_clients (room w r) = ∅))
    (join_section env c n r ex)
    (fun res w =>
       match res, join_check lim id M c n with
       | JoinFailed e cl, Some e' =>
           e = e' /\ if cl then rep M M (Some n) w /\ h_rooms (w_hub w) !! n = Some r
                     else rep M M None w
       | Joined _, None => rep (M ∪ {[(n, c)]}) (M ∪ {[(n, c)]}) None w
       | _, _ => False
       end).
Proof.
  apply total_atomically. intros w (H & Hn & Hex). cbn zeta.
  rewrite (rep_room_clients _ _ _ _ _ _ _ _ _ H Hn) in *.
  rewrite (rep_client _ _ _ _ _ _ _ H), (rep_id _ _ _ _ _ _ _ H).
  assert (if negb ex && bool_decide (room_members M n = ∅)
          then rep M M (Some n) w /\ h_rooms (w_hub w) !! n = Some r
          else rep M M None w) as Hfail.
  { destruct ex; simpl; [done|]. by rewrite bool_decide_eq_true_2 by auto. }
  unfold join_check. rewrite (bool_decide_ext _ _ (elem_of_room_members M n c)).
  destruct (limit_hit _ (size (room_members M n))) eqn:H1; [by split|].
  destruct (bool_decide ((n, c) ∈ M)) eqn:H2; [by split|].
  destruct (limit_hit _ (size (client_rooms M c))) eqn:H3; [by split|].
  simpl. bool_to_prop.
  eapply rep_join; try done.
  - destruct ex; auto.
  - by rewrite (rep_room_clients _ _ _ _ _ _ _ _ _ H Hn).
  - by rewrite (rep_client _ _ _ _ _ _ _ H).
Qed.

Lemma total_JoinRoom (M : membership) (c : cref) (n : string)
    (Hv : join_hook_policy env veto) :
  total (rep M M None) (JoinRoom env c n)
    (fun res w => let '(e, M') := abs_join lim known id veto M c n in
                  res = e /\ rep M' M' None w).
Proof.
  unfold JoinRoom, abs_join. case_bool_decide as Hn0; [by apply total_ret|].
  apply (total_bind _ _ _ (fun b w => b = bool_decide (c ∈ known) /\ rep M M None w)).
  { apply total_gets. intros w H. by rewrite (rep_known _ _ _ _ _ _ _ H). }
  intros b. cbn beta. apply total_pure. intros ->.
  case_bool_decide; simpl; [|by apply total_ret].
  eapply total_bind; [by apply total_join_hook|].
  intros v. cbn beta. apply total_pure. intros ->.
  destruct (veto c n) as [e|]; [by apply total_ret|].
  eapply total_bind; [apply total_get_or_create|]. intros [r ex]. simpl.
  eapply total_bind; [apply total_join_section|].
  intros [size|e cl]; destruct (join_check lim id M c n) as [e'|]; try (by intros ? []).
  - eapply total_bind; [apply total_roomVersion|]. intros [].
    eapply total_bind; [by apply total_neutral|]. intros [].
    eapply total_bind; [by apply total_neutral|]. intros [].
    eapply total_bind; [apply total_go_hook|]. intros []. by apply total_ret.
  - apply total_pure. intros ->. apply (total_bind _ _ _ (fun _ => rep M M None)).
    + destruct cl; [apply total_deleteRoomIfEmpty|by apply total_ret].
    + intros []. by apply total_ret.
Qed.

(** C4: Without interference, [JoinRoom] implements [abs_join]: the same
    error on every branch, checks in the documented order, the membership
    relation extended exactly on success, and no empty room left behind. *)
Theorem JoinRoom_refines_abs_join (M : membership) (c : cref) (n : string)
    (Hv : join_hook_policy env veto) :
  total (rep M M None) (JoinRoom env c n)
    (fun res w => let '(e, M') := abs_join lim known id veto M c n in
                  res = e /\ rep M' M' None w).
Proof. by apply total_JoinRoom. Qed.

End Join.

(** ** Leaving *)

(** Removing one member from the rooms' side. *)
Lemma rep_remove M Mc n r c w :
  rep M Mc None w -> h_rooms (w_hub w) !! n = Some r ->
  rep (M ∖ {[(n, c)]}) Mc (Some n) (room_remove r c w).
Proof.
  intros [Hw Hk Hid Hrs Hc He] Hn. split; unfold room_remove; world_simpl; try done.
  - by apply wf_room_remove.
  - intros n' c'. rewrite elem_of_difference, elem_of_singleton, Hrs. split.
    + intros [(r' & H' & Hr') Hne]. exists r'. world_simpl. split; [done|].
      rewrite room_upd_room. case_decide; subst; world_simpl; [|done].
      apply elem_of_difference. split; [done|]. rewrite elem_of_singleton. intros ->.
      apply Hne. f_equal. by eapply (wf_rooms_inj _ _ Hw).
    + intros (r' & H' & Hr'). world_simpl_in H'. world_simpl_in Hr'.
      rewrite room_upd_room in Hr'. case_decide as Hd; subst; world_simpl_in Hr'.
      * apply elem_of_difference in Hr' as [? Hne]. split; [eauto|]. set_solver.
      * split; [eauto|]. intros [= -> ->]. congruence.
  - intros n' r' Hn' Hne. world_simpl_in Hn'. world_simpl.
    assert (r <> r') by (intros <-; apply Hne; f_equal; by eapply (wf_rooms_inj _ _ Hw)).
    rewrite room_upd_room_ne by done. by apply (He n').
Qed.

Lemma rep_leaveRoom M Mc ex n c w :
  rep M Mc ex w -> rep M (Mc ∖ {[(n, c)]}) ex (leaveRoom c n w).
Proof.
  intros [Hw Hk Hid Hrs Hc He]. split; unfold leaveRoom; world_simpl; try done.
  - by apply wf_leaveRoom.
  - intros c'. rewrite client_upd_client. by case_decide; subst; simpl.
  - intros c'. rewrite client_upd_client. apply set_eq. intros m.
    rewrite elem_of_client_rooms. case_decide; subst; simpl;
      rewrite ?elem_of_difference, Hc, elem_of_client_rooms; set_solver.
Qed.

(** A possibly empty room that has a member is not empty. *)
Lemma rep_close M Mc n r w :
  rep M Mc (Some n) w -> h_rooms (w_hub w) !! n = Some r -> r_clients (room w r) <> ∅ ->
  rep M Mc None w.
Proof.
  intros [Hw Hk Hid Hrs Hc He] Hn Hne. split; try done. intros n' r' H1 _.
  destruct (decide (n' = n)) as [->|]; [congruence|]. apply (He n'); [done|congruence].
Qed.

(** [rep] after a section that removed a member, with the emptiness flag the
    section returned. *)
Definition after_leave (M Mc : membership) (n : string) (r : rref)
    (res : option bool) (w : world) : Prop :=
  match res with
  | Some true => rep M Mc (Some n) w /\ h_rooms (w_hub w) !! n = Some r
  | Some false => rep M Mc None w
  | None => False
  end.

Lemma after_leave_flag M Mc n r w :
  rep M Mc (Some n) w -> h_rooms (w_hub w) !! n = Some r ->
  after_leave M Mc n r (Some (bool_decide (r_clients (room w r) = ∅))) w.
Proof. intros H Hn. case_bool_decide; simpl; [done|]. by eapply rep_close. Qed.

Lemma total_maybe_delete M Mc n r (b : bool) :
  total (after_leave M Mc n r (Some b)) (if b then deleteRoomIfEmpty n r else mret tt)
    (fun _ => rep M Mc None).
Proof. destruct b; [apply total_deleteRoomIfEmpty|by apply total_ret]. Qed.

Lemma rep_member M Mc w n r c :
  rep M Mc None w -> h_rooms (w_hub w) !! n = Some r ->
  bool_decide (c ∈ r_clients (room w r)) = bool_decide ((n, c) ∈ M).
Proof.
  intros H Hn. apply bool_decide_ext.
  rewrite (rep_room_clients _ _ _ _ _ _ _ _ _ H Hn). apply elem_of_room_members.
Qed.

Definition found_room (M Mc : membership) (n : string) (found : option rref) (w : world) : Prop :=
  rep M Mc None w /\ h_rooms (w_hub w) !! n = found /\
  (found = None <-> room_members M n = ∅).

Lemma total_lookup_room M Mc n :
  total (rep M Mc None) (lookup_room n) (found_room M Mc n).
Proof.
  apply total_gets. intros w H. split; [done|]. split; [done|].
  pose proof (rep_room_exists _ _ _ _ _ _ n H) as He.
  destruct (h_rooms (w_hub w) !! n); split; try done.
  - intros Hm. by destruct (proj1 He (ex_intro _ _ eq_refl)).
  - intros _. apply dec_stable. intros Hm. by destruct (proj2 He Hm).
Qed.

Lemma found_room_emit M Mc n f e w :
  neutral e -> found_room M Mc n f w -> found_room M Mc n f (emit e w).
Proof. intros He (H & H1 & H2). split; [by apply rep_emit|done]. Qed.

Lemma total_in_room M Mc n r c :
  total (found_room M Mc n (Some r)) (in_room r c)
    (fun b w => b = bool_decide ((n, c) ∈ M) /\ found_room M Mc n (Some r) w).
Proof.
  apply total_gets. intros w (H & Hn & Hf). split; [by eapply rep_member|done].
Qed.

Lemma total_leave_section M n r c :
  bool_decide ((n, c) ∈ M) = true ->
  total (found_room M M n (Some r)) (leave_section c n r)
    (after_leave (M ∖ {[(n, c)]}) (M ∖ {[(n, c)]}) n r).
Proof.
  intros Hm. apply total_atomically. intros w (H & Hn & _).
  rewrite (rep_member _ _ _ _ _ _ H Hn), Hm. cbn beta iota zeta. cbn [fst snd].
  apply after_leave_flag; [|by unfold leaveRoom, room_remove; world_simpl].
  apply rep_upd_hub; [done|]. by apply rep_leaveRoom, rep_remove.
Qed.

Lemma total_drop_section M Mc n r c :
  bool_decide ((n, c) ∈ M) = true ->
  total (found_room M Mc n (Some r)) (drop_section c r)
    (after_leave (M ∖ {[(n, c)]}) Mc n r).
Proof.
  intros Hm. apply total_atomically. intros w (H & Hn & _).
  rewrite (rep_member _ _ _ _ _ _ H Hn), Hm. cbn beta iota zeta. cbn [fst snd].
  apply after_leave_flag; [|by unfold leaveRoom, room_remove; world_simpl]. by apply rep_remove.
Qed.

Lemma total_LeaveRoom (M : membership) (c : cref) (n : string)
    (Hv : leave_hook_observes env) :
  total (rep M M None) (LeaveRoom env c n)
    (fun res w => let '(e, M') := abs_leave M c n in res = e /\ rep M' M' None w).
Proof.
  unfold LeaveRoom, abs_leave. case_bool_decide as Hn0; [by apply total_ret|].
  eapply total_bind; [apply total_lookup_room|]. intros found.
  apply (total_fact (found = None <-> room_members M n = ∅)); [by intros w (_ & _ & ?)|].
  intros Hf. destruct found as [r|].
  - rewrite bool_decide_eq_false_2 by (intros Hx; by apply Hf in Hx).
    eapply total_bind; [apply total_in_room|]. intros b. apply total_pure. intros ->.
    destruct (bool_decide ((n, c) ∈ M)) eqn:Hm; simpl.
    + eapply total_bind; [apply total_leave_hook; [done|]; intros; by apply found_room_emit|].
      intros []. eapply total_bind; [by apply total_leave_section|].
      intros res. apply (total_fact (is_Some res)); [by destruct res; eauto|].
      intros [b ->]. eapply total_bind; [apply total_maybe_delete|]. intros [].
      eapply total_bind; [by apply total_neutral|]. intros [].
      eapply total_bind; [by apply total_neutral|]. intros [].
      eapply total_bind; [apply total_go_hook|]. intros []. by apply total_ret.
    + apply total_ret. by intros w (? & _).
  - rewrite bool_decide_eq_true_2 by (by apply Hf). apply total_ret. by intros w (? & _).
Qed.

(** C5: Without interference, [LeaveRoom] implements [abs_leave]: an unknown
    room, a non-member and an empty name are told apart, and on success
    exactly that membership ends, with the room itself when it was the last. *)
Theorem LeaveRoom_refines_abs_leave (M : membership) (c : cref) (n : string)
    (Hv : leave_hook_observes env) :
  total (rep M M None) (LeaveRoom env c n)
    (fun res w => let '(e, M') := abs_leave M c n in res = e /\ rep M' M' None w).
Proof. by apply total_LeaveRoom. Qed.

(** ** Leaving every room *)

(** The memberships left while the rooms [l] of [c] are still to be left. *)
Definition keep_only (M : membership) (c : cref) (l : list string) : membership :=
  filter (fun p => p.2 <> c \/ p.1 ∈ l) M.

Lemma keep_only_step M c x l :
  x ∉ l -> keep_only M c (x :: l) ∖ {[(x, c)]} = keep_only M c l.
Proof.
  intros Hx. apply set_eq. intros [n c']. unfold keep_only.
  rewrite elem_of_difference, !elem_of_filter, elem_of_singleton, elem_of_cons. simpl.
  destruct (decide (c' = c)) as [->|]; [|naive_solver].
  split; [|naive_solver]. intros [[[?|[->|?]] ?] ?]; naive_solver.
Qed.

Lemma keep_only_all M c l :
  (∀ n, n ∈ client_rooms M c -> n ∈ l) -> keep_only M c l = M.
Proof.
  intros Hl. apply set_eq. intros [n c']. unfold keep_only. rewrite elem_of_filter. simpl.
  destruct (decide (c' = c)) as [->|]; [|naive_solver].
  pose proof (Hl n) as Hn. rewrite elem_of_client_rooms in Hn. naive_solver.
Qed.

Lemma keep_only_nil M c : keep_only M c [] = abs_leave_all M c.
Proof.
  apply set_eq. intros p. unfold keep_only, abs_leave_all. rewrite !elem_of_filter.
  set_solver.
Qed.

Definition leaving (M : membership) (c : cref) (l : list string) (w : world) : Prop :=
  (NoDup l /\ ∀ n, n ∈ l -> (n, c) ∈ M) /\ rep (keep_only M c l) M None w.

Lemma total_leave_one M c x l (Hv : leave_hook_observes env) :
  total (leaving M c (x :: l)) (leave_one env c x)
    (fun o w => o = Some x /\ leaving M c l w).
Proof.
  apply total_pure. intros [[Hx Hnd]%NoDup_cons Hin].
  assert ((x, c) ∈ keep_only M c (x :: l)) as Hm.
  { apply elem_of_filter. split; [right; by left|]. apply Hin. by left. }
  unfold leave_one. eapply total_bind; [apply total_lookup_room|]. intros found.
  apply (total_fact (is_Some found)).
  { intros w (_ & _ & Hf). destruct found; [by eauto|].
    apply elem_of_room_members in Hm. rewrite (proj1 Hf eq_refl) in Hm. set_solver. }
  intros [r ->]. eapply total_bind; [apply total_in_room|]. intros b.
  apply total_pure. intros ->. rewrite (bool_decide_eq_true_2 _ Hm). simpl.
  eapply total_bind; [apply total_leave_hook; [done|]; intros; by apply found_room_emit|].
  intros []. eapply total_bind; [apply total_drop_section; by apply bool_decide_eq_true_2|].
  intros res. apply (total_fact (is_Some res)); [by destruct res; eauto|].
  intros [b ->]. eapply total_bind; [apply total_maybe_delete|]. intros [].
  apply total_ret. intros w. rewrite keep_only_step by done. intros Hw.
  split; [done|]. split; [|done]. split; [done|]. intros n Hn. apply Hin. by right.
Qed.

Lemma rep_forget M M' ex c names w :
  (∀ n, n ∈ names <-> n ∈ client_rooms M c) ->
  rep M' M ex w -> rep M' (abs_leave_all M c) ex (forget_rooms c names w).
Proof.
  intros Hnames [Hw Hk Hid Hrs Hc He]. split; unfold forget_rooms; world_simpl; try done.
  - apply wf_upd_client; [done|]. apply client_ok_forget.
  - intros c'. rewrite client_upd_client. by case_decide; subst; simpl.
  - intros c'. rewrite client_upd_client. apply set_eq. intros m.
    rewrite elem_of_client_rooms. unfold abs_leave_all. rewrite elem_of_filter. simpl.
    case_decide; subst; simpl; rewrite ?elem_of_difference, Hc, ?elem_of_list_to_set, ?Hnames,
      elem_of_client_rooms; naive_solver.
Qed.

Lemma total_LeaveAllRooms (M : membership) (c : cref)
    (Hv : leave_hook_observes env) :
  total (rep M M None) (LeaveAllRooms env c)
    (fun _ => rep (abs_leave_all M c) (abs_leave_all M c) None).
Proof.
  unfold LeaveAllRooms, removeClientFromAllRoomsWithHooks.
  apply (total_bind _ _ _ (fun names w => (∀ n, n ∈ names <-> n ∈ client_rooms M c) /\
                                          leaving M c names w)).
  { apply total_atomically. intros w H. simpl. rewrite (rep_client _ _ _ _ _ _ _ H).
    split; [apply elem_of_range|]. split.
    - split; [apply NoDup_range|]. intros n. by rewrite elem_of_range, elem_of_client_rooms.
    - rewrite keep_only_all by (intros n; by rewrite elem_of_range). by apply rep_bump. }
  intros names. apply total_pure. intros Hnames. destruct names as [|n0 names].
  - apply total_ret. intros w [_ H]. rewrite keep_only_nil in H.
    enough (M = abs_leave_all M c) as Heq by (by rewrite <-Heq in H |- *).
    rewrite <-keep_only_nil, keep_only_all; [done|]. intros n. by rewrite <-Hnames.
  - eapply total_bind.
    { apply (total_for_collect (leaving M c) (fun x => x)). intros. by apply total_leave_one. }
    intros acc. cbn beta. apply total_pure. intros ->. rewrite list_fmap_id.
    apply (total_bind _ _ _ (fun _ => rep (abs_leave_all M c) (abs_leave_all M c) None)).
    { apply total_modify. intros w [_ H]. rewrite keep_only_nil in H. by apply rep_forget. }
    intros []. eapply total_bind; [apply total_roomVersion|]. intros [].
    apply (total_bind _ _ _ (fun _ => rep (abs_leave_all M c) (abs_leave_all M c) None)).
    { apply (total_for_each (fun _ => _)). intros. by apply total_neutral. }
    intros []. apply (total_for_each (fun _ => _)). intros. apply total_go_hook.
Qed.

(** Without interference, leaving all rooms (an explicit call or a
    disconnect) ends exactly the memberships of that client and deletes
    every room it was the last member of. *)
Theorem LeaveAllRooms_refines_abs_leave_all (M : membership) (c : cref)
    (Hv : leave_hook_observes env) :
  total (rep M M None) (LeaveAllRooms env c)
    (fun _ => rep (abs_leave_all M c) (abs_leave_all M c) None).
Proof. by apply total_LeaveAllRooms. Qed.

(** ** Queries *)

(** Between operations every query answers from the one relation: the
    broadcast snapshot of a room lists its members once each, the counts are
    their number, a room is listed and exists exactly while it has a member,
    and a client's own view of its rooms agrees. *)
Theorem room_queries_agree (M : membership) (n : string) (c : cref) (w : world)
    (H : rep M M None w) :
  (∃ l w1, run (RoomClients n) w = Some (l, w1) /\ enumerates l (room_members M n)) /\
  (∃ w2, run (RoomCount n) w = Some (size (room_members M n), w2)) /\
  (∃ w3, run (RoomExists n) w = Some (bool_decide (room_members M n <> ∅), w3)) /\
  (∃ l w4, run RoomNames w = Some (l, w4) /\ NoDup l /\
           ∀ m, m ∈ l <-> room_members M m <> ∅) /\
  (∃ l w5, run (Client_Rooms c) w = Some (l, w5) /\ enumerates l (client_rooms M c)) /\
  (∃ w6, run (InRoom c n) w = Some (bool_decide ((n, c) ∈ M), w6)) /\
  (∃ w7, run (Client_RoomCount c) w = Some (size (client_rooms M c), w7)).
Proof.
  assert (∀ r, h_rooms (w_hub w) !! n = Some r ->
            enumerates (loadRoomSnapshot (room w r)) (room_members M n)) as Hsnap.
  { intros r Hn. rewrite <-(rep_room_clients _ _ _ _ _ _ _ _ _ H Hn).
    destruct (wf_room _ _ (rep_wf _ _ _ _ _ _ _ H) r) as [Hs _].
    by apply enumerates_snapshot. }
  unfold RoomClients, RoomCount, RoomExists, RoomNames, Client_Rooms, InRoom, Client_RoomCount,
    lookup_room.
  repeat split; run_simpl.
  - destruct (h_rooms (w_hub w) !! n) as [r|] eqn:Hn; run_simpl; (eexists _, _; split; [done|]).
    + by apply Hsnap.
    + rewrite (rep_no_room _ _ _ _ _ _ _ _ H Hn). apply enumerates_nil.
  - destruct (h_rooms (w_hub w) !! n) as [r|] eqn:Hn; run_simpl; eexists; do 2 f_equal.
    + by apply length_perm_elements, Hsnap.
    + by rewrite (rep_no_room _ _ _ _ _ _ _ _ H Hn).
  - eexists. do 2 f_equal. apply bool_decide_ext. by eapply rep_room_exists.
  - eexists _, _. split; [done|]. split; [apply NoDup_range|]. intros m.
    rewrite elem_of_range, elem_of_dom. by eapply rep_room_exists.
  - eexists _, _. split; [done|]. rewrite (rep_client _ _ _ _ _ _ _ H). apply rt_range_perm.
  - eexists. do 2 f_equal. apply bool_decide_ext.
    by rewrite (rep_client _ _ _ _ _ _ _ H), elem_of_client_rooms.
  - eexists. by rewrite (rep_client _ _ _ _ _ _ _ H).
Qed.
End Refinement.
