(* ===== verification/Registry.v ===== *)
(** * Registry: the hub's client set and user index (hub.go)

    Registration and unregistration as the Run goroutine performs them, the
    user index with its per-user limit, the lock-free client snapshot and the
    lookups.  Only the Run goroutine writes [h_clients]; everybody else reads. *)

From S2P Require Import Prelude Prog Types Config World Invariant Send Client Rooms.

(** ** The user index as a map of sets *)
Definition user_conns (m : gmap string (gset cref)) (u : string) : gset cref :=
  default ∅ (m !! u).

Definition user_add (u : string) (c : cref) (m : gmap string (gset cref))
    : gmap string (gset cref) := <[u := user_conns m u ∪ {[c]}]> m.

(** [delete(clients, client)], dropping the entry that became empty. *)
Definition user_remove (u : string) (c : cref) (m : gmap string (gset cref))
    : gmap string (gset cref) :=
  match m !! u with
  | None => m
  | Some s =>
      if bool_decide (s ∖ {[c]} = ∅) then delete u m else <[u := s ∖ {[c]}]> m
  end.

Definition on_userIndex (f : gmap string (gset cref) -> gmap string (gset cref)) : world -> world :=
  upd_hub (fun h => set_h_userIndex (f (h_userIndex h)) h).

Section Ops.
Context {RT : Runtime} (env : HubEnv).

Definition addToUserIndex (c : cref) : prg (option error) :=
  userID ← GetUserID c ;
  if bool_decide (userID = "") then mret None else
  atomically (fun w =>
    if limit_hit (MaxConnectionsPerUser (limits env))
         (size (user_conns (h_userIndex (w_hub w)) userID))
    then (Some ErrMaxUserConnectionsReached, w)
    else (None, on_userIndex (user_add userID c) w)).

Definition removeFromUserIndex (c : cref) : prg unit :=
  userID ← GetUserID c ;
  if bool_decide (userID = "") then mret tt else
  modify (on_userIndex (user_remove userID c)).

(** Read, check, write and re-index under one hold of [userIndexMu]. *)
Definition setClientUserID (c : cref) (newUserID : string) : prg (option error) :=
  atomically (fun w =>
    let oldUserID := c_userID (client w c) in
    if bool_decide (oldUserID = newUserID) then (None, w)
    else if limit_hit (MaxConnectionsPerUser (limits env))
              (size (user_conns (h_userIndex (w_hub w)) newUserID)) &&
            negb (bool_decide (newUserID = ""))
    then (Some ErrMaxUserConnectionsReached, w)
    else
      let w1 := upd_client c (set_c_userID newUserID) w in
      let w2 := if bool_decide (oldUserID = "") then w1
                else on_userIndex (user_remove oldUserID c) w1 in
      let w3 := if bool_decide (newUserID = "") then w2
                else on_userIndex (user_add newUserID c) w2 in
      (None, w3)).

Definition SetUserID (c : cref) (userID : string) : prg (option error) :=
  setClientUserID c userID.

(** ** The client snapshot *)
Definition emptySnapshot : hubSnapshot := mkHubSnapshot ∅ [].

Definition loadSnapshot : prg hubSnapshot :=
  gets (fun w => default emptySnapshot (h_clientsSnapshot (w_hub w))).

Definition updateClientsSnapshot : prg unit :=
  modify (fun w =>
    let K := h_clients (w_hub w) in
    bump (upd_hub (set_h_clientsSnapshot (Some (mkHubSnapshot K (range_keys K w)))) w)).

(** ** Registration *)
Definition send_result (c : cref) (res : option error) : prg unit :=
  modify (upd_hub (fun h => set_h_results (<[c := res]> (h_results h)) h)).

Definition add_clientCount (n : Z) : prg unit :=
  modify (upd_hub (fun h => set_h_clientCount (wrap64 (h_clientCount h + n)) h)).

(** Under [mu]: both primary maps together. *)
Definition insert_client (c : cref) : prg unit :=
  modify (fun w =>
    upd_hub (fun h =>
      set_h_clientIndex (<[c_ID (client w c) := c]> (h_clientIndex h))
        (set_h_clients (h_clients h ∪ {[c]}) h)) w).

Definition delete_client (c : cref) : prg unit :=
  modify (fun w =>
    upd_hub (fun h =>
      set_h_clientIndex (delete (c_ID (client w c)) (h_clientIndex h))
        (set_h_clients (h_clients h ∖ {[c]}) h)) w).

Definition handleRegister (c : cref) : prg unit :=
  n ← gets (fun w => size (h_clients (w_hub w))) ;
  if limit_hit (MaxConnections (limits env)) n then
    send_result c (Some ErrMaxConnectionsReached)
  else
  err ← addToUserIndex c ;
  match err with
  | Some e => send_result c (Some e)
  | None =>
      insert_client c ;;
      add_clientCount 1 ;;
      metrics IncrementConnections ;;
      logger Info "Client registered" ;;
      send_result c None ;;
      go_hook (AfterConnect (hooks env)) (HAfterConnect c)
  end.

(** ** Unregistration *)

(** The hook runs in a goroutine of its own; the hub waits for it or for the
    timer, whichever is first. *)
Definition before_disconnect (c : cref) : prg unit :=
  match BeforeDisconnect (hooks env) with
  | None => mret tt
  | Some h =>
      done ← atomically (fun w => (rt_select (w_nonce w), bump w)) ;
      if (done : bool) then modify (emit (EvHook (HBeforeDisconnect c))) ;; h c
      else modify (emit (EvGo (HBeforeDisconnect c))) ;;
           logger Warn "BeforeDisconnect hook timed out"
  end.

(** [drainOnce.Do(func() { close(h.drainDone) })]. *)
Definition close_drainDone : prg unit := modify (upd_hub (set_h_drainDone true)).

Definition signal_drain : prg unit :=
  st ← gets (fun w => h_state (w_hub w)) ;
  if bool_decide (st = StateDraining) then
    n ← gets (fun w => h_clientCount (w_hub w)) ;
    if bool_decide (n = 0%Z) then close_drainDone else mret tt
  else mret tt.

(** Under [mu]: the close of an unregister is not graceful. *)
Definition mark_unregistered (c : cref) : prg unit :=
  modify (fun w =>
    if c_closed (client w c) then w
    else upd_client c (fun cl => set_c_closedAt (Some (w_now w)) (set_c_closed true cl)) w).

(** Receive until the buffer is empty.  The fuel is one more than the number
    of items queued when the loop starts, and as many more as senders that
    looked at [closed] before it was set still add: the runtime says how many. *)
Fixpoint drain_send (fuel : nat) (c : cref) : prg unit :=
  match fuel with
  | 0 => out_of_fuel
  | S f =>
      d ← chan_recv c ;
      match d with None => mret tt | Some _ => drain_send f c end
  end.

Definition drain_queue (c : cref) : prg unit :=
  n ← gets (fun w => length (c_send (client w c)) + rt_late (w_nonce w)) ;
  drain_send (S n) c.

Definition handleUnregister (c : cref) : prg unit :=
  before_disconnect c ;;
  present ← gets (fun w => bool_decide (c ∈ h_clients (w_hub w))) ;
  if negb present then mret tt else
  removeFromUserIndex c ;;
  removeClientFromAllRoomsWithHooks env c ;;
  delete_client c ;;
  add_clientCount (-1) ;;
  signal_drain ;;
  mark_unregistered c ;;
  closeDone c ;;
  closeConn c ;;
  drain_queue c ;;
  metrics DecrementConnections ;;
  logger Info "Client unregistered" ;;
  closeHandler ← gets (fun w => c_onClose (client w c)) ;
  match closeHandler with
  | Some cb => modify (emit (EvGo (HClientOnClose cb c)))
  | None => mret tt
  end ;;
  go_hook (AfterDisconnect (hooks env)) (HAfterDisconnect c).

(** ** The Run loop's channel events *)
Inductive hub_event := EvRegister (c : cref) | EvUnregister (c : cref).

Definition handle_event (e : hub_event) : prg unit :=
  match e with
  | EvRegister c => handleRegister c
  | EvUnregister c => handleUnregister c
  end.

Definition pop_register (w : world) : option (hub_event * world) :=
  match h_register (w_hub w) with
  | [] => None
  | c :: q => Some (EvRegister c, upd_hub (set_h_register q) w)
  end.

Definition pop_unregister (w : world) : option (hub_event * world) :=
  match h_unregister (w_hub w) with
  | [] => None
  | c :: q => Some (EvUnregister c, upd_hub (set_h_unregister q) w)
  end.

(** [select] over the two channels: a random ready one. *)
Definition next_event (w : world) : option (hub_event * world) :=
  if rt_select (w_nonce w)
  then match pop_register (bump w) with Some r => Some r | None => pop_unregister (bump w) end
  else match pop_unregister (bump w) with Some r => Some r | None => pop_register (bump w) end.

(** Handle pending events until none is left, then rebuild the snapshot once.
    The fuel bounds the number of events of one drain. *)
Fixpoint drainAndRebuildSnapshot (fuel : nat) : prg unit :=
  match fuel with
  | 0 => out_of_fuel
  | S f =>
      o ← atomically (fun w => match next_event w with
                               | Some (e, w') => (Some e, w')
                               | None => (None, w)
                               end) ;
      match o with
      | None => updateClientsSnapshot
      | Some e => handle_event e ;; drainAndRebuildSnapshot f
      end
  end.

(** ** Lookups *)
Definition Clients : prg (list cref) := snap ← loadSnapshot ; mret (hs_slice snap).

Definition ClientCount : prg Z := gets (fun w => h_clientCount (w_hub w)).

Definition GetClient (id : string) : prg (option cref) :=
  gets (fun w => h_clientIndex (w_hub w) !! id).

Definition GetClientsByUserID (userID : string) : prg (list cref) :=
  atomically (fun w => (range_keys (user_conns (h_userIndex (w_hub w)) userID) w, bump w)).

Definition GetClientByUserID (userID : string) : prg (option cref) :=
  l ← GetClientsByUserID userID ; mret (head l).
End Ops.

(** ** Emptying a queue *)

(** Enough fuel empties the queue and touches nothing else. *)
Lemma run_drain_send n c w :
  length (c_send (client w c)) < n ->
  ∃ w', run (drain_send n c) w = Some (tt, w') /\
    client w' c = set_c_send [] (client w c) /\
    (∀ c', c' <> c -> client w' c' = client w c') /\
    w_hub w' = w_hub w /\ w_rooms w' = w_rooms w /\ w_trace w' = w_trace w.
Proof.
  revert w. induction n as [|n IH]; intros w Hn; [lia|]. cbn [drain_send].
  rewrite run_bind, run_chan_recv. destruct (c_send (client w c)) as [|d q] eqn:Hq.
  - eexists. split; [done|]. split; [|done]. destruct (client w c); simpl in *. by subst.
  - destruct (IH (upd_client c (set_c_send q) w)) as (w' & Hr & E1 & E2 & E3 & E4 & E5).
    { world_simpl. simpl in Hn. lia. }
    exists w'. rewrite Hr, E1. world_simpl. split; [done|]. split; [done|].
    split_and!; try done. intros c' Hc. by rewrite E2, client_upd_client_ne.
Qed.

Lemma run_drain_queue {RT : Runtime} c w :
  ∃ w', run (drain_queue c) w = Some (tt, w') /\
    client w' c = set_c_send [] (client w c) /\
    (∀ c', c' <> c -> client w' c' = client w c') /\
    w_hub w' = w_hub w /\ w_rooms w' = w_rooms w /\ w_trace w' = w_trace w.
Proof. unfold drain_queue. rewrite run_bind, run_gets. apply run_drain_send. cbn. lia. Qed.

(** ** Every interleaving *)
Section Keeps.
Context {RT : Runtime} (lim : Limits).

Lemma user_ok_conns w u :
  wf lim w -> within (MaxConnectionsPerUser lim) (size (user_conns (h_userIndex (w_hub w)) u)).
Proof.
  intros Hw. unfold user_conns. destruct (h_userIndex (w_hub w) !! u) as [s|] eqn:Hu; simpl.
  - by destruct (wf_user _ _ Hw u s Hu) as (_ & _ & ?).
  - apply within_0.
Qed.

Lemma wf_user_add u c w :
  wf lim w -> u <> "" ->
  limit_hit (MaxConnectionsPerUser lim) (size (user_conns (h_userIndex (w_hub w)) u)) = false ->
  wf lim (on_userIndex (user_add u c) w).
Proof.
  intros Hw Hu Hl. apply (wf_set_userIndex _ (user_add u c _)); [done|].
  intros u' s. unfold user_add. rewrite lookup_insert_Some.
  intros [[<- <-]|[_ Hs]]; [|by eapply wf_user].
  split; [done|]. split; [set_solver|].
  destruct (decide (c ∈ user_conns (h_userIndex (w_hub w)) u)) as [Hc|Hc].
  - rewrite union_elem_id by done. by apply user_ok_conns.
  - rewrite size_insert_new by done. apply within_S; [done|]. by apply user_ok_conns.
Qed.

Lemma wf_user_remove u c w : wf lim w -> wf lim (on_userIndex (user_remove u c) w).
Proof.
  intros Hw. apply (wf_set_userIndex _ (user_remove u c _)); [done|]. intros u' s.
  unfold user_remove. destruct (h_userIndex (w_hub w) !! u) as [s0|] eqn:Hu;
    [|by apply wf_user].
  case_bool_decide as He.
  - intros [_ Hs]%lookup_delete_Some. by eapply wf_user.
  - intros [[<- <-]|[_ Hs]]%lookup_insert_Some; [|by eapply wf_user].
    destruct (wf_user _ _ Hw u s0 Hu) as (? & _ & Hsz). split; [done|]. split; [done|].
    eapply within_le; [done|]. apply size_difference_le.
Qed.

Lemma keeps_GetUserID c : keeps (wf lim) (GetUserID c).
Proof. apply keeps_gets. Qed.

Lemma keeps_updateClientsSnapshot : keeps (wf lim) updateClientsSnapshot.
Proof. apply keeps_modify. intros w Hw. by apply wf_bump, wf_upd_hub. Qed.

Lemma keeps_loadSnapshot : keeps (wf lim) loadSnapshot.
Proof. apply keeps_gets. Qed.

Lemma keeps_GetClient id : keeps (wf lim) (GetClient id).
Proof. apply keeps_gets. Qed.

Lemma keeps_GetClientsByUserID u : keeps (wf lim) (GetClientsByUserID u).
Proof. apply keeps_atomically. intros w Hw. by apply wf_bump. Qed.

Lemma keeps_insert_client c : keeps (wf lim) (insert_client c).
Proof. apply keeps_modify. intros w Hw. by apply wf_upd_hub. Qed.

Lemma keeps_delete_client c : keeps (wf lim) (delete_client c).
Proof. apply keeps_modify. intros w Hw. by apply wf_upd_hub. Qed.

Lemma keeps_mark_unregistered c : keeps (wf lim) (mark_unregistered c).
Proof.
  apply keeps_modify. intros w Hw. case_match; [done|]. by apply wf_upd_client_frame.
Qed.

Lemma keeps_drain_send n c : keeps (wf lim) (drain_send n c).
Proof. induction n as [|n IH]; cbn [drain_send]; keeps_auto. Qed.

#[local] Hint Resolve keeps_drain_send : keeps.

Lemma keeps_drain_queue c : keeps (wf lim) (drain_queue c).
Proof. unfold drain_queue. keeps_auto. Qed.

#[local] Hint Resolve keeps_GetUserID keeps_updateClientsSnapshot keeps_loadSnapshot
  keeps_GetClient keeps_GetClientsByUserID keeps_insert_client keeps_delete_client
  keeps_mark_unregistered keeps_drain_queue : keeps.

Context (env : HubEnv) (Hlim : limits env = lim) (Hh : hooks_keep lim env).

Lemma keeps_addToUserIndex c : keeps (wf lim) (addToUserIndex env c).
Proof.
  unfold addToUserIndex. apply keeps_bind; [apply keeps_gets|intros u].
  case_bool_decide; [done|].
  apply keeps_atomically. intros w Hw. rewrite Hlim. case_match; [done|].
  by apply wf_user_add.
Qed.

Lemma keeps_removeFromUserIndex c : keeps (wf lim) (removeFromUserIndex c).
Proof.
  unfold removeFromUserIndex. keeps_auto. apply keeps_modify. intros w Hw.
  by apply wf_user_remove.
Qed.

Lemma keeps_setClientUserID c u : keeps (wf lim) (setClientUserID env c u).
Proof.
  apply keeps_atomically. intros w Hw. cbn zeta. rewrite Hlim.
  case_bool_decide; [done|]. case_match eqn:Hl; [done|]. simpl.
  set (w1 := upd_client c (set_c_userID u) w).
  assert (wf lim w1) as Hw1 by by apply wf_upd_client_frame.
  set (w2 := if bool_decide (c_userID (client w c) = "") then w1 else _).
  assert (wf lim w2) as Hw2 
    by (subst w2; destruct (bool_decide (c_userID (client w c) = "")); [done|by apply wf_user_remove]).
  destruct (decide (u = "")) as [Hu|Hu];
    [by rewrite bool_decide_eq_true_2|rewrite bool_decide_eq_false_2 by done]. apply wf_user_add; [done|done|].
  rewrite (bool_decide_eq_false_2 _ Hu), andb_true_r in Hl. rewrite <-Hl. f_equal. f_equal.
  enough (user_conns (h_userIndex (w_hub w2)) u = user_conns (h_userIndex (w_hub w)) u) by done.
  subst w2 w1. destruct (bool_decide (c_userID (client w c) = "")); [done|]. unfold on_userIndex. world_simpl.
  unfold user_remove, user_conns. destruct (h_userIndex (w_hub w) !! _); [|done].
  case_bool_decide; [by rewrite lookup_delete_ne|by rewrite lookup_insert_ne].
Qed.

#[local] Hint Resolve keeps_addToUserIndex keeps_removeFromUserIndex : keeps.

Lemma keeps_handleRegister c : keeps (wf lim) (handleRegister env c).
Proof. unfold handleRegister, send_result, add_clientCount. keeps_auto. Qed.

Lemma keeps_before_disconnect c : keeps (wf lim) (before_disconnect env c).
Proof.
  unfold before_disconnect. destruct (BeforeDisconnect (hooks env)) eqn:He; [|done].
  keeps_auto.
  - apply keeps_atomically. intros w Hw. by apply wf_bump.
  - by eapply hk_beforeDisconnect.
Qed.

#[local] Hint Resolve keeps_before_disconnect : keeps.

Lemma keeps_handleUnregister c : keeps (wf lim) (handleUnregister env c).
Proof.
  unfold handleUnregister, signal_drain, close_drainDone, add_clientCount. keeps_auto.
Qed.

#[local] Hint Resolve keeps_handleRegister keeps_handleUnregister : keeps.

Lemma wf_pop_register w e w' : pop_register w = Some (e, w') -> wf lim w -> wf lim w'.
Proof. unfold pop_register. intros Hn Hw. case_match; simplify_eq. by apply wf_upd_hub. Qed.

Lemma wf_pop_unregister w e w' : pop_unregister w = Some (e, w') -> wf lim w -> wf lim w'.
Proof. unfold pop_unregister. intros Hn Hw. case_match; simplify_eq. by apply wf_upd_hub. Qed.

Lemma wf_next_event w e w' : next_event w = Some (e, w') -> wf lim w -> wf lim w'.
Proof.
  unfold next_event, pop_register, pop_unregister. intros Hn Hw.
  assert (wf lim (bump w)) by by apply wf_bump.
  repeat case_match; simplify_eq; by apply wf_upd_hub.
Qed.

Lemma keeps_drainAndRebuildSnapshot n : keeps (wf lim) (drainAndRebuildSnapshot env n).
Proof.
  induction n as [|n IH]; cbn [drainAndRebuildSnapshot]; [keeps_auto|].
  apply keeps_bind.
  - apply keeps_atomically. intros w Hw.
    destruct (next_event w) as [[e w']|] eqn:He; [by eapply wf_next_event|done].
  - intros [[c|c]|]; simpl; keeps_auto.
Qed.
End Keeps.

#[export] Hint Resolve keeps_setClientUserID keeps_handleRegister keeps_handleUnregister
  keeps_drainAndRebuildSnapshot keeps_loadSnapshot keeps_GetClient keeps_GetClientsByUserID
  keeps_updateClientsSnapshot : keeps.
