(* ===== verification/RegistrySpec.v ===== *)
(** * RegistrySpec: registration and unregistration, functionally

    [registry] ties the redundant records of who is connected together: the
    client set, the index by ID, the index by user, the atomic counter and the
    connections gauge of the metrics.  The theorems describe the Run
    goroutine's handlers, run without interference, on every branch. *)

From S2P Require Import Prelude Prog Types Config World Invariant Send Client Rooms RoomSpec.
From S2P Require Import Registry.

Section Registry.
Context (lim : Limits).

(** [X]: the clients that have already left the user index, inside
    [handleUnregister]; empty between operations. *)
Record registry (X : gset cref) (w : world) : Prop := {
  rg_count : h_clientCount (w_hub w) = wrap64 (Z.of_nat (size (h_clients (w_hub w))));
  rg_gauge : conns_gauge (w_trace w) = Z.of_nat (size (h_clients (w_hub w)));
  rg_index : ∀ i c, h_clientIndex (w_hub w) !! i = Some c <->
                    c ∈ h_clients (w_hub w) /\ c_ID (client w c) = i;
  rg_users : ∀ u c, c ∈ user_conns (h_userIndex (w_hub w)) u <->
                    c ∈ h_clients (w_hub w) /\ c ∉ X /\ c_userID (client w c) = u /\ u <> "";
  rg_limit : within (MaxConnections lim) (size (h_clients (w_hub w)))
}.

(** Events the connections gauge ignores. *)
Definition conn_neutral (e : event) : Prop :=
  e <> EvMetric IncrementConnections /\ e <> EvMetric DecrementConnections.

Lemma conns_gauge_emit e t : conn_neutral e -> conns_gauge (e :: t) = conns_gauge t.
Proof.
  intros [H1 H2]. unfold conns_gauge. destruct e; simpl; try done.
  rewrite !bool_decide_eq_false_2 by congruence. lia.
Qed.

(** Updates outside the registry. *)
Lemma registry_frame X w w' :
  registry X w ->
  h_clients (w_hub w') = h_clients (w_hub w) ->
  h_clientIndex (w_hub w') = h_clientIndex (w_hub w) ->
  h_clientCount (w_hub w') = h_clientCount (w_hub w) ->
  h_userIndex (w_hub w') = h_userIndex (w_hub w) ->
  conns_gauge (w_trace w') = conns_gauge (w_trace w) ->
  (∀ c, c_ID (client w' c) = c_ID (client w c) /\
        c_userID (client w' c) = c_userID (client w c)) ->
  registry X w'.
Proof.
  intros [H1 H2 H3 H4 H5] E1 E2 E3 E4 E5 E6. split; rewrite ?E1, ?E2, ?E3, ?E4, ?E5; try done.
  - intros i c. by rewrite (proj1 (E6 c)).
  - intros u c. by rewrite (proj2 (E6 c)).
Qed.

Lemma registry_emit X e w : conn_neutral e -> registry X w -> registry X (emit e w).
Proof.
  intros He H. apply (registry_frame X w); try done.
  rewrite trace_emit. by apply conns_gauge_emit.
Qed.

Lemma registry_bump X w : registry X w -> registry X (bump w).
Proof. intros H. by apply (registry_frame X w). Qed.

Lemma registry_upd_client X c f w :
  (∀ cl, c_ID (f cl) = c_ID cl /\ c_userID (f cl) = c_userID cl) ->
  registry X w -> registry X (upd_client c f w).
Proof.
  intros Hf H. apply (registry_frame X w); try done.
  intros c'. rewrite client_upd_client. case_decide; subst; [apply Hf|done].
Qed.

Lemma registry_upd_room X r f w : registry X w -> registry X (upd_room r f w).
Proof. intros H. by apply (registry_frame X w). Qed.

Lemma registry_upd_hub X f w :
  (∀ h, h_clients (f h) = h_clients h /\ h_clientIndex (f h) = h_clientIndex h /\
        h_clientCount (f h) = h_clientCount h /\ h_userIndex (f h) = h_userIndex h) ->
  registry X w -> registry X (upd_hub f w).
Proof.
  intros Hf H. destruct (Hf (w_hub w)) as (E1 & E2 & E3 & E4).
  by apply (registry_frame X w).
Qed.

(** The registry together with the state a handler of the Run loop does not
    touch on the way. *)
Definition same_core (w0 w : world) : Prop :=
  h_state (w_hub w) = h_state (w_hub w0) /\ h_drainDone (w_hub w) = h_drainDone (w_hub w0) /\
  w_now w = w_now w0 /\ ∀ c, close_record (client w c) = close_record (client w0 c).

Definition reg_at (X : gset cref) (w0 w : world) : Prop := registry X w /\ same_core w0 w.

Lemma same_core_upd_client w0 w c f :
  (∀ cl, close_record (f cl) = close_record cl) -> same_core w0 w ->
  same_core w0 (upd_client c f w).
Proof.
  intros Hf (? & ? & ? & Hc). split_and!; try done. intros c'.
  rewrite client_upd_client, <-Hc. case_decide; subst; [apply Hf|done].
Qed.

Lemma preserves_reg_emit X w0 e : conn_neutral e -> preserves (reg_at X w0) (modify (emit e)).
Proof. intros He. apply preserves_modify. intros w (? & ?). split; [by apply registry_emit|done]. Qed.

Lemma preserves_reg_go_hook {A} X w0 (h : option A) call :
  preserves (reg_at X w0) (go_hook h call).
Proof. destruct h; [by apply preserves_reg_emit|apply preserves_ret]. Qed.

Lemma preserves_reg_leave_one {RT : Runtime} env X w0 c n :
  leave_hook_observes env -> preserves (reg_at X w0) (leave_one env c n).
Proof.
  intros Hv. unfold leave_one, lookup_room, in_room.
  apply preserves_bind; [apply preserves_gets|]. intros [r|]; [|apply preserves_ret].
  apply preserves_bind; [apply preserves_gets|]. intros [|]; simpl; [|apply preserves_ret].
  apply preserves_bind.
  { unfold leave_hook_observes in Hv. destruct (BeforeRoomLeave (hooks env)); simpl;
      [|apply preserves_ret].
    apply preserves_bind; [by apply preserves_reg_emit|]. intros [].
    apply preserves_observe. eauto. }
  intros []. apply preserves_bind.
  { apply preserves_atomically. intros w (Hw & Hs). case_match; [|done].
    split; [|done]. by apply registry_bump, registry_upd_room. }
  intros [b|]; [|apply preserves_ret]. apply preserves_bind; [|intros; apply preserves_ret].
  destruct b; [|apply preserves_ret]. apply preserves_modify. intros w (Hw & Hs).
  case_match; [|done]. split; [|done]. apply registry_emit; [done|].
  by apply registry_upd_hub.
Qed.

Lemma preserves_reg_leave_all {RT : Runtime} env X w0 c :
  leave_hook_observes env ->
  preserves (reg_at X w0) (removeClientFromAllRoomsWithHooks env c).
Proof.
  intros Hv. unfold removeClientFromAllRoomsWithHooks.
  apply preserves_bind.
  { apply preserves_atomically. intros w (Hw & Hs). split; [by apply registry_bump|done]. }
  intros [|n l]; [apply preserves_ret|].
  apply preserves_bind;
    [apply preserves_for_collect; intros; by apply preserves_reg_leave_one|].
  intros acc. apply preserves_bind.
  { apply preserves_modify. intros w (Hw & Hs).
    split; [by apply registry_upd_client|by apply same_core_upd_client]. }
  intros []. apply preserves_bind.
  { apply preserves_modify. intros w (Hw & Hs). split; [by apply registry_upd_hub|done]. }
  intros []. apply preserves_bind.
  { apply preserves_for_each. intros. by apply preserves_reg_emit. }
  intros []. apply preserves_for_each. intros. apply preserves_reg_go_hook.
Qed.
End Registry.

(** ** The user index *)
Lemma user_conns_add m u c u' :
  user_conns (user_add u c m) u' =
    if decide (u = u') then user_conns m u ∪ {[c]} else user_conns m u'.
Proof.
  unfold user_add, user_conns at 1. rewrite lookup_insert. by case_decide.
Qed.

Lemma user_conns_remove m u c u' :
  user_conns (user_remove u c m) u' =
    if decide (u = u') then user_conns m u ∖ {[c]} else user_conns m u'.
Proof.
  unfold user_remove, user_conns. destruct (m !! u) as [s|] eqn:Hu; simpl.
  - case_bool_decide as Hs.
    + rewrite lookup_delete. case_decide; [by rewrite Hs|done].
    + rewrite lookup_insert. by case_decide.
  - case_decide; [subst; rewrite Hu; simpl; set_solver|done].
Qed.

(** ** SetUserID *)
Section SetUserID.
Context {RT : Runtime} (env : HubEnv).
Abbreviation lim := (limits env).

Lemma run_SetUserID (c : cref) (u : string) (w : world)
    (Hreg : registry lim ∅ w) (Hc : c ∈ h_clients (w_hub w)) :
  let old := c_userID (client w c) in
  let full := limit_hit (MaxConnectionsPerUser lim)
                (size (user_conns (h_userIndex (w_hub w)) u)) in
  ∃ e w', run (SetUserID env c u) w = Some (e, w') /\ registry lim ∅ w' /\
    match e with
    | Some err => err = ErrMaxUserConnectionsReached /\ w' = w /\
                  u <> old /\ u <> "" /\ full = true
    | None => c_userID (client w' c) = u /\ (u = old \/ u = "" \/ full = false) /\
              (∀ u', u' <> u -> u' <> old ->
                 user_conns (h_userIndex (w_hub w')) u' =
                 user_conns (h_userIndex (w_hub w)) u')
    end.
Proof.
  cbn zeta. unfold SetUserID, setClientUserID. run_simpl. cbn zeta.
  set (old := c_userID (client w c)). set (full := limit_hit _ _).
  destruct (decide (old = u)) as [Heq|Hne].
  { rewrite bool_decide_eq_true_2 by done. eexists _, _. split; [done|]. split; [done|].
    split; [done|]. split; [by left|done]. }
  rewrite (bool_decide_eq_false_2 (old = u)) by done.
  destruct (full && negb (bool_decide (u = ""))) eqn:Hf.
  { bool_to_prop. eexists _, _. split; [done|]. split; [done|]. split_and!; try done. }
  set (w3 := if bool_decide (u = "") then _ else _).
  assert (h_userIndex (w_hub w3) =
          (if bool_decide (u = "") then id else user_add u c)
            ((if bool_decide (old = "") then id else user_remove old c)
               (h_userIndex (w_hub w)))) as Hidx.
  { subst w3. unfold on_userIndex. do 2 case_bool_decide; done. }
  assert (∀ u', user_conns (h_userIndex (w_hub w3)) u' =
            if decide (u = u' /\ u' <> "") then user_conns (h_userIndex (w_hub w)) u' ∪ {[c]}
            else if decide (old = u' /\ u' <> "") then user_conns (h_userIndex (w_hub w)) u' ∖ {[c]}
            else user_conns (h_userIndex (w_hub w)) u') as Hconns.
  { intros u'. rewrite Hidx. case_bool_decide as H1; case_bool_decide as H2; unfold id;
      rewrite ?user_conns_add, ?user_conns_remove; repeat case_decide; naive_solver. }
  assert (∀ c', c_ID (client w3 c') = c_ID (client w c') /\
                c_userID (client w3 c') = if decide (c = c') then u
                                          else c_userID (client w c')) as Hcl.
  { intros c'. subst w3. unfold on_userIndex. do 2 case_bool_decide; world_simpl;
      rewrite client_upd_client; case_decide; by subst. }
  assert (h_clients (w_hub w3) = h_clients (w_hub w) /\
          h_clientIndex (w_hub w3) = h_clientIndex (w_hub w) /\
          h_clientCount (w_hub w3) = h_clientCount (w_hub w) /\
          w_trace w3 = w_trace w) as (E1 & E2 & E3 & E4).
  { subst w3. unfold on_userIndex. do 2 case_bool_decide; done. }
  eexists _, w3. split; [done|]. split; [|split; [|split]].
  - destruct Hreg as [R1 R2 R3 R4 R5]. split; rewrite ?E1, ?E2, ?E3, ?E4; try done.
    + intros i c'. by rewrite (proj1 (Hcl c')).
    + intros u' c'. rewrite (proj2 (Hcl c')), Hconns.
      pose proof (R4 u' c') as R. pose proof (R4 old c') as Ro.
      repeat case_decide; rewrite ?elem_of_union, ?elem_of_difference, ?elem_of_singleton;
        naive_solver.
  - subst w3. unfold on_userIndex. do 2 case_bool_decide; by world_simpl.
  - apply andb_false_iff in Hf as [Hf|Hf]; [by right; right|]. bool_to_prop. auto.
  - intros u' Hu1 Hu2. rewrite Hconns. repeat case_decide; naive_solver.
Qed.

(** C8: For a connected client [SetUserID] either refuses, exactly when the
    new user is another one that is already at its limit, changing nothing;
    or it makes the client that user's, moving it between the two entries of
    the user index and touching no other entry, so that the index still lists
    exactly the connected clients of each user. *)
Theorem SetUserID_spec (c : cref) (u : string) (w : world)
    (Hreg : registry lim ∅ w) (Hc : c ∈ h_clients (w_hub w)) :
  let old := c_userID (client w c) in
  let full := limit_hit (MaxConnectionsPerUser lim)
                (size (user_conns (h_userIndex (w_hub w)) u)) in
  ∃ e w', run (SetUserID env c u) w = Some (e, w') /\ registry lim ∅ w' /\
    match e with
    | Some err => err = ErrMaxUserConnectionsReached /\ w' = w /\
                  u <> old /\ u <> "" /\ full = true
    | None => c_userID (client w' c) = u /\ (u = old \/ u = "" \/ full = false) /\
              (∀ u', u' <> u -> u' <> old ->
                 user_conns (h_userIndex (w_hub w')) u' =
                 user_conns (h_userIndex (w_hub w)) u')
    end.
Proof. by apply run_SetUserID. Qed.
End SetUserID.

(** ** handleRegister *)
Section Register.
Context {RT : Runtime} (env : HubEnv).
Abbreviation lim := (limits env).

(** The answer a registration request gets: the connection limit first, then
    the per-user limit for clients that carry a user ID. *)
Definition register_answer (w : world) (c : cref) : option error :=
  let u := c_userID (client w c) in
  if limit_hit (MaxConnections lim) (size (h_clients (w_hub w))) then
    Some ErrMaxConnectionsReached
  else if negb (bool_decide (u = "")) &&
          limit_hit (MaxConnectionsPerUser lim) (size (user_conns (h_userIndex (w_hub w)) u))
  then Some ErrMaxUserConnectionsReached
  else None.

(** The registry after all the updates of an accepted registration. *)
Lemma registry_insert c w w' (m : gmap string (gset cref)) evs :
  registry lim ∅ w -> c ∉ h_clients (w_hub w) ->
  h_clientIndex (w_hub w) !! c_ID (client w c) = None ->
  limit_hit (MaxConnections lim) (size (h_clients (w_hub w))) = false ->
  (∀ u, user_conns m u = if decide (c_userID (client w c) = u /\ u <> "")
                         then user_conns (h_userIndex (w_hub w)) u ∪ {[c]}
                         else user_conns (h_userIndex (w_hub w)) u) ->
  h_clients (w_hub w') = h_clients (w_hub w) ∪ {[c]} ->
  h_clientIndex (w_hub w') = <[c_ID (client w c) := c]> (h_clientIndex (w_hub w)) ->
  h_clientCount (w_hub w') = wrap64 (h_clientCount (w_hub w) + 1) ->
  h_userIndex (w_hub w') = m ->
  w_trace w' = evs ++ EvMetric IncrementConnections :: w_trace w ->
  Forall conn_neutral evs ->
  (∀ c', client w' c' = client w c') ->
  registry lim ∅ w'.
Proof.
  intros [R1 R2 R3 R4 R5] Hc Hid Hl Hm E1 E2 E3 E4 E5 Hevs Hcl.
  assert (size (h_clients (w_hub w) ∪ {[c]}) = S (size (h_clients (w_hub w)))) as Hsz
    by by apply size_insert_new.
  split; rewrite ?E1, ?E2, ?E3, ?E4, ?E5, ?Hsz.
  - rewrite R1, wrap64_add_l. f_equal. lia.
  - clear E5. induction Hevs as [|e evs He _ IH]; simpl.
    + unfold conns_gauge in *. simpl. rewrite R2. lia.
    + by rewrite conns_gauge_emit.
  - intros i c'. rewrite Hcl, lookup_insert_Some, R3, elem_of_union, elem_of_singleton.
    split; [naive_solver|]. intros [[H1| ->] <-]; [|by left]. right. split; [|done].
    intros Heq. assert (h_clientIndex (w_hub w) !! c_ID (client w c) = Some c') as H2
      by (apply R3; naive_solver). congruence.
  - intros u c'. rewrite Hm, Hcl. pose proof (R4 u c').
    case_decide; rewrite ?elem_of_union, ?elem_of_singleton; naive_solver.
  - by apply within_S.
Qed.

Lemma rep_register known id M c w w' :
  rep lim known id M M None w -> wf lim w' ->
  h_clients (w_hub w') = known ∪ {[c]} -> h_rooms (w_hub w') = h_rooms (w_hub w) ->
  w_rooms w' = w_rooms w -> (∀ c', client w' c' = client w c') ->
  rep lim (known ∪ {[c]}) id M M None w'.
Proof.
  intros [Hw Hk Hid Hr Hc Hn] Hw' E1 E2 E3 E4. split; try done.
  - intros c'. by rewrite E4.
  - intros n c'. rewrite E2. unfold room. rewrite E3. apply Hr.
  - intros c'. by rewrite E4.
  - intros n r. rewrite E2. unfold room. rewrite E3. apply Hn.
Qed.

(** What the accepted branch does after the user index. *)
Definition accept (c : cref) : prg unit :=
  insert_client c ;;
  add_clientCount 1 ;;
  metrics IncrementConnections ;;
  logger Info "Client registered" ;;
  send_result c None ;;
  go_hook (AfterConnect (hooks env)) (HAfterConnect c).

Lemma run_accept c w :
  ∃ w' evs, run (accept c) w = Some (tt, w') /\
    h_clients (w_hub w') = h_clients (w_hub w) ∪ {[c]} /\
    h_clientIndex (w_hub w') = <[c_ID (client w c) := c]> (h_clientIndex (w_hub w)) /\
    h_clientCount (w_hub w') = wrap64 (h_clientCount (w_hub w) + 1) /\
    h_userIndex (w_hub w') = h_userIndex (w_hub w) /\
    h_rooms (w_hub w') = h_rooms (w_hub w) /\
    h_results (w_hub w') !! c = Some None /\
    w_rooms w' = w_rooms w /\ w_clients w' = w_clients w /\
    w_trace w' = evs ++ EvMetric IncrementConnections :: w_trace w /\
    Forall conn_neutral evs.
Proof.
  unfold accept, insert_client, add_clientCount, metrics, logger, send_result, go_hook.
  destruct (AfterConnect (hooks env)); run_simpl.
  - eexists _, [EvGo (HAfterConnect c); EvLog Info "Client registered"]. split; [done|]. world_simpl.
    rewrite lookup_insert_eq. split_and!; try done. repeat first [done | constructor].
  - eexists _, [EvLog Info "Client registered"]. split; [done|]. world_simpl.
    rewrite lookup_insert_eq. split_and!; try done. repeat first [done | constructor].
Qed.

(** C6: The Run goroutine answers every registration request: with
    [register_answer]'s error and nothing changed, or by adding the client
    to the client set, both indexes, the counter and the connections gauge
    together, leaving rooms and every client's own state alone. *)
Theorem handleRegister_spec known id M (c : cref) (w : world)
    (Hrep : rep lim known id M M None w) (Hreg : registry lim ∅ w)
    (Hnew : c ∉ h_clients (w_hub w))
    (Hid : h_clientIndex (w_hub w) !! c_ID (client w c) = None) :
  ∃ w', run (handleRegister env c) w = Some (tt, w') /\
    registry lim ∅ w' /\ h_results (w_hub w') !! c = Some (register_answer w c) /\
    (∀ c', client w' c' = client w c') /\
    match register_answer w c with
    | Some _ => rep lim known id M M None w'
    | None => rep lim (known ∪ {[c]}) id M M None w'
    end.
Proof.
  unfold handleRegister, register_answer. run_simpl.
  destruct (limit_hit (MaxConnections lim) _) eqn:Hl.
  { unfold send_result. run_simpl. eexists. split; [done|].
    split; [by apply registry_upd_hub|]. world_simpl. rewrite lookup_insert_eq.
    split; [done|]. split; [done|]. by apply rep_upd_hub. }
  unfold addToUserIndex, GetUserID. run_simpl.
  set (u := c_userID (client w c)). set (full := limit_hit (MaxConnectionsPerUser lim) _).
  assert (negb (bool_decide (u = "")) && full = true \/
          (negb (bool_decide (u = "")) && full = false)) as Hcase
    by (destruct (_ && _); auto).
  destruct Hcase as [Hf|Hf]; rewrite Hf.
  - bool_to_prop. rewrite bool_decide_eq_false_2 by done. run_simpl. fold u full.
    rewrite H0. unfold send_result. run_simpl. eexists. split; [done|].
    split; [by apply registry_upd_hub|]. world_simpl. rewrite lookup_insert_eq.
    split; [done|]. split; [done|]. by apply rep_upd_hub.
  - set (m := if bool_decide (u = "") then h_userIndex (w_hub w)
              else user_add u c (h_userIndex (w_hub w))).
    set (w1 := if bool_decide (u = "") then w else on_userIndex (user_add u c) w).
    assert (run (addToUserIndex env c) w = Some (None, w1)) as Hadd.
    { unfold addToUserIndex, GetUserID. run_simpl. fold u. subst w1.
      case_bool_decide; [done|]. run_simpl. simpl in Hf. subst full. by rewrite Hf. }
    unfold addToUserIndex, GetUserID in Hadd. rewrite run_bind, run_gets in Hadd. fold u in Hadd.
    rewrite Hadd. change (insert_client c;; _) with (accept c).
    destruct (run_accept c w1) as (w' & evs & Hr & E1 & E2 & E3 & E4 & E5 & E6 & E7 & E8 & E9 & E10).
    rewrite Hr. eexists. split; [done|].
    assert (h_userIndex (w_hub w1) = m /\ h_clients (w_hub w1) = h_clients (w_hub w) /\
      h_clientIndex (w_hub w1) = h_clientIndex (w_hub w) /\
      h_clientCount (w_hub w1) = h_clientCount (w_hub w) /\
      h_rooms (w_hub w1) = h_rooms (w_hub w) /\ w_rooms w1 = w_rooms w /\
      w_clients w1 = w_clients w /\ w_trace w1 = w_trace w)
      as (F1 & F2 & F3 & F4 & F5 & F6 & F7 & F8) by (subst w1 m; by destruct (bool_decide _)).
    assert (∀ c', client w' c' = client w c') as Hcl
      by (intros c'; unfold client; by rewrite E8, F7).
    split; [|split; [done|split; [done|]]].
    + eapply (registry_insert c w w' m evs); try done; try congruence.
      * intros u'. subst m. fold u. case_bool_decide; rewrite ?user_conns_add;
          repeat case_decide; naive_solver.
      * rewrite E2, F3. unfold client. by rewrite F7.
    + apply (rep_register _ _ _ _ w); try done; try congruence.
      * eapply keeps_run; [apply (keeps_handleRegister lim env eq_refl c)|apply Hrep|].
        unfold handleRegister. rewrite run_bind, run_gets, Hl, run_bind.
        unfold addToUserIndex, GetUserID. rewrite run_bind, run_gets. fold u. rewrite Hadd. exact Hr.
      * rewrite E1, F2. f_equal. apply Hrep.
Qed.
End Register.
