(* ===== verification/UnregisterSpec.v ===== *)
(** * UnregisterSpec: handleUnregister, functionally

    The teardown of one client by the Run goroutine, without interference: it
    leaves every room, every index, the counter and the gauge together, its
    queue is emptied, its connection closed, and a draining hub that loses its
    last client signals the drain. *)

From S2P Require Import Prelude Prog Types Config World Invariant Send Client Rooms RoomSpec.
From S2P Require Import Registry RegistrySpec.

(** What the teardown does to the client itself. *)
Definition torn_down (now : Z) (cl : Client) : Client :=
  set_c_send [] (set_c_connClosed true (set_c_done true
    (if c_closed cl then cl else set_c_closedAt (Some now) (set_c_closed true cl)))).

Definition disconnect_hook_observes (env : HubEnv) : Prop :=
  match BeforeDisconnect (hooks env) with
  | None => True
  | Some h => ∀ c w, run (h c) w = Some (tt, w)
  end.

Section Unregister.
Context {RT : Runtime} (env : HubEnv).
Abbreviation lim := (limits env).

(** What [handleUnregister] does after the rooms. *)
Definition finish (c : cref) : prg unit :=
  delete_client c ;;
  add_clientCount (-1) ;;
  signal_drain ;;
  mark_unregistered c ;;
  closeDone c ;;
  closeConn c ;;
  drain_queue c ;;
  metrics DecrementConnections ;;
  logger Info "Client unregistered" ;;
  closeHandler ← gets (fun w => c_onClose (client w c)) ;
  match closeHandler with
  | Some cb => modify (emit (EvGo (HClientOnClose cb c)))
  | None => mret tt
  end ;;
  go_hook (AfterDisconnect (hooks env)) (HAfterDisconnect c).

Lemma keeps_finish c : keeps (wf lim) (finish c).
Proof.
  unfold finish, add_clientCount, signal_drain, close_drainDone. keeps_auto.
  - apply keeps_delete_client.
  - apply keeps_mark_unregistered.
  - apply keeps_drain_queue.
Qed.

(** The event a closing connection adds, and the client's goroutines. *)
Definition finish_tail (c : cref) (cl : Client) : list event :=
  match AfterDisconnect (hooks env) with
  | Some _ => [EvGo (HAfterDisconnect c)] | None => [] end ++
  match c_onClose cl with Some cb => [EvGo (HClientOnClose cb c)] | None => [] end ++
  [EvLog Info "Client unregistered"].

Definition finish_head (c : cref) (cl : Client) : list event :=
  if c_connClosed cl then [] else [EvConnClose c].

Lemma run_signal_drain w :
  run signal_drain w = Some (tt, upd_hub (fun h => set_h_drainDone (h_drainDone h ||
    (bool_decide (h_state h = StateDraining) && bool_decide (h_clientCount h = 0%Z))) h) w).
Proof.
  unfold signal_drain, close_drainDone. run_simpl.
  assert (∀ b, upd_hub (set_h_drainDone (h_drainDone (w_hub w) || b)) w =
    upd_hub (fun h => set_h_drainDone (h_drainDone h || b) h) w) as Heq by done.
  destruct (bool_decide (h_state (w_hub w) = StateDraining)) eqn:Hs; run_simpl;
    [destruct (bool_decide (h_clientCount (w_hub w) = 0%Z)) eqn:Hn; run_simpl|];
    unfold upd_hub; rewrite Hs, ?Hn; simpl; rewrite ?orb_true_r, ?orb_false_r; try done;
    destruct w as [[] ? ? ? ? ?]; done.
Qed.

Lemma set_connClosed_same cl :
  c_connClosed cl = true -> set_c_connClosed true (set_c_done true cl) = set_c_done true cl.
Proof. destruct cl; simpl. by intros ->. Qed.

Lemma run_finish c w :
  ∃ w', run (finish c) w = Some (tt, w') /\
    client w' c = torn_down (w_now w) (client w c) /\
    (∀ c', c' <> c -> client w' c' = client w c') /\
    w_rooms w' = w_rooms w /\
    w_trace w' = finish_tail c (client w c) ++ EvMetric DecrementConnections ::
                 finish_head c (client w c) ++ w_trace w /\
    w_hub w' =
      (fun h => set_h_drainDone (h_drainDone h ||
         (bool_decide (h_state h = StateDraining) && bool_decide (h_clientCount h = 0%Z))) h)
      (set_h_clientCount (wrap64 (h_clientCount (w_hub w) + -1))
        (set_h_clientIndex (delete (c_ID (client w c)) (h_clientIndex (w_hub w)))
          (set_h_clients (h_clients (w_hub w) ∖ {[c]}) (w_hub w)))).
Proof.
  unfold finish, delete_client, add_clientCount. run_simpl. rewrite run_signal_drain.
  set (w0 := upd_hub _ _).
  assert (client w0 c = client w c) as Hc0 by done.
  assert (w_trace w0 = w_trace w /\ w_rooms w0 = w_rooms w /\ w_now w0 = w_now w /\
          ∀ c', client w0 c' = client w c') as (T0 & R0 & N0 & C0) by done.
  assert (∃ w1, run (mark_unregistered c) w0 = Some (tt, w1) /\ w_hub w1 = w_hub w0 /\
    w_trace w1 = w_trace w /\ w_rooms w1 = w_rooms w /\
    client w1 c = (if c_closed (client w c) then client w c else
                   set_c_closedAt (Some (w_now w)) (set_c_closed true (client w c))) /\
    ∀ c', c' <> c -> client w1 c' = client w c') as (w1 & Hr1 & H1 & T1 & R1 & C1 & D1).
  { unfold mark_unregistered. rewrite run_modify, Hc0. eexists. split; [done|].
    destruct (c_closed (client w c)); [done|]. do 3 (split; [done|]). world_simpl.
    split; [done|]. intros c' Hne. by rewrite client_upd_client_ne. }
  rewrite run_bind, Hr1. cbn beta iota. unfold closeDone. rewrite run_bind, run_modify. cbn beta iota.
  set (w2 := upd_client c (set_c_done true) w1).
  assert (∃ w3, run (closeConn c) w2 = Some (tt, w3) /\ w_hub w3 = w_hub w0 /\
    w_trace w3 = finish_head c (client w c) ++ w_trace w /\ w_rooms w3 = w_rooms w /\
    client w3 c = set_c_connClosed true (client w2 c) /\
    ∀ c', c' <> c -> client w3 c' = client w c') as (w3 & Hr3 & H3 & T3 & R3 & C3 & D3).
  { unfold closeConn, finish_head. rewrite run_modify. eexists. split; [done|].
    assert (c_connClosed (client w2 c) = c_connClosed (client w c)) as ->
      by (subst w2; world_simpl; rewrite C1; by destruct (c_closed _)).
    destruct (c_connClosed (client w c)) eqn:Hk; subst w2; world_simpl; rewrite ?T1;
      (split_and!; try done); try (intros c' Hne; rewrite ?client_emit, !client_upd_client_ne by done; auto).
    rewrite set_connClosed_same; [done|]. rewrite C1. by destruct (c_closed (client w c)). }
  rewrite run_bind, Hr3. cbn beta iota.
  destruct (run_drain_queue c w3)
    as (w4 & Hr4 & C4 & D4 & H4 & R4 & T4).
  rewrite run_bind, Hr4. unfold metrics, logger. run_simpl. world_simpl.
  assert (client w4 c = torn_down (w_now w) (client w c)) as C4'
    by (subst w2; rewrite C4, C3; world_simpl; by rewrite C1).
  assert (c_onClose (client w4 c) = c_onClose (client w c)) as ->
    by (rewrite C4'; unfold torn_down; by destruct (c_closed _)).
  assert (w_trace w4 = finish_head c (client w c) ++ w_trace w) as T by congruence.
  unfold finish_tail, go_hook.
  destruct (c_onClose (client w c)), (AfterDisconnect (hooks env)); run_simpl;
    (eexists; split; [done|]); world_simpl; rewrite T, C4';
    (split_and!; [done|intros c' Hne; rewrite ?client_emit, D4 by done; auto|change (w_rooms w4 = w_rooms w); congruence|done|by rewrite H4, H3]).
Qed.

Lemma conns_gauge_app evs t :
  Forall conn_neutral evs -> conns_gauge (evs ++ t) = conns_gauge t.
Proof. induction 1 as [|e evs He _ IH]; [done|]. simpl. by rewrite conns_gauge_emit. Qed.

(** The registry after the teardown of a client that had left the user index. *)
Lemma registry_finish c w w' :
  registry lim {[c]} w -> c ∈ h_clients (w_hub w) ->
  run (finish c) w = Some (tt, w') -> registry lim ∅ w'.
Proof.
  intros [R1 R2 R3 R4 R5] Hc Hrun.
  destruct (run_finish c w) as (w1 & Hr & C1 & D1 & _ & T1 & H1).
  rewrite Hrun in Hr. simplify_eq.
  assert (∀ c', c_ID (client w1 c') = c_ID (client w c') /\
                c_userID (client w1 c') = c_userID (client w c')) as Hcl.
  { intros c'. destruct (decide (c' = c)) as [->|Hne]; [|by rewrite D1].
    rewrite C1. unfold torn_down. by destruct (c_closed (client w c)). }
  pose proof (size_delete_elem _ _ Hc) as Hsz.
  assert (Forall conn_neutral (finish_tail c (client w c))) as Ht.
  { unfold finish_tail. rewrite !Forall_app. destruct (AfterDisconnect (hooks env)),
      (c_onClose (client w c)); split_and!; repeat first [done|constructor]. }
  assert (Forall conn_neutral (finish_head c (client w c))) as Hh.
  { unfold finish_head. destruct (c_connClosed (client w c)); repeat first [done|constructor]. }
  split; rewrite ?H1; simpl.
  - rewrite R1, wrap64_add_l. f_equal. lia.
  - rewrite T1, (conns_gauge_app _ _ Ht). unfold conns_gauge at 1. simpl.
    fold (conns_gauge (finish_head c (client w c) ++ w_trace w)).
    rewrite (conns_gauge_app _ _ Hh), R2. lia.
  - intros i c'. rewrite (proj1 (Hcl c')), lookup_delete_Some, R3, elem_of_difference,
      elem_of_singleton. split; [naive_solver|]. intros [[H2 Hne] <-]. split; [|done].
    intros Heq. apply Hne. assert (h_clientIndex (w_hub w) !! c_ID (client w c) = Some c) as E1
      by (by apply R3). assert (h_clientIndex (w_hub w) !! c_ID (client w c') = Some c') as E2
      by (by apply R3). congruence.
  - intros u c'. rewrite (proj2 (Hcl c')), R4. set_solver.
  - eapply within_le; [done|]. apply size_difference_le.
Qed.

Lemma registry_user_leaves c w :
  registry lim ∅ w ->
  registry lim {[c]} (on_userIndex (user_remove (c_userID (client w c)) c) w) /\
  (c_userID (client w c) = "" -> registry lim {[c]} w).
Proof.
  intros [R1 R2 R3 R4 R5]. split; [|intros Hu]; split; try done;
    unfold on_userIndex; world_simpl.
  - intros u c'. unfold on_userIndex. world_simpl. rewrite user_conns_remove.
    pose proof (R4 u c'). case_decide; set_solver.
  - intros u c'. rewrite R4. set_solver.
Qed.

Lemma total_before_disconnect known id M c w :
  disconnect_hook_observes env -> registry lim ∅ w -> rep lim known id M M None w ->
  ∃ w', run (before_disconnect env c) w = Some (tt, w') /\
    reg_at lim ∅ w w' /\ rep lim known id M M None w'.
Proof.
  unfold disconnect_hook_observes, before_disconnect. intros Hv Hreg Hrep.
  destruct (BeforeDisconnect (hooks env)) as [h|]; [|by exists w; split_and!].
  run_simpl. destruct (rt_select (w_nonce w)); run_simpl; rewrite ?Hv;
    unfold logger; run_simpl; (eexists; split; [done|]);
    (split; [split; [repeat apply registry_emit; try done; by apply registry_bump|done]|
             repeat apply rep_emit; try done; by apply rep_bump]).
Qed.

Lemma run_removeFromUserIndex known id M c w :
  registry lim ∅ w -> rep lim known id M M None w ->
  ∃ w', run (removeFromUserIndex c) w = Some (tt, w') /\
    reg_at lim {[c]} w w' /\ rep lim known id M M None w'.
Proof.
  intros Hreg Hrep. destruct (registry_user_leaves c w Hreg) as [H1 H2].
  unfold removeFromUserIndex, GetUserID. run_simpl. case_bool_decide as Hu; run_simpl;
    (eexists; split; [done|]); (split; [split; [auto|done]|]); [done|].
  eapply rep_frame; [done|..]; try done. apply wf_user_remove, Hrep.
Qed.

Lemma same_core_trans w1 w2 w3 : same_core w1 w2 -> same_core w2 w3 -> same_core w1 w3.
Proof.
  intros (H1 & H2 & H3 & H4) (E1 & E2 & E3 & E4). split_and!; congruence.
Qed.

(** The representation after the teardown. *)
Lemma rep_finish known id M c w w' :
  rep lim known id M M None w -> run (finish c) w = Some (tt, w') ->
  rep lim (known ∖ {[c]}) id M M None w'.
Proof.
  intros Hrep Hrun. pose proof (keeps_run _ _ _ _ _ (keeps_finish c) (rep_wf _ _ _ _ _ _ _ Hrep) Hrun).
  destruct (run_finish c w) as (w1 & Hr & C1 & D1 & R1 & _ & H1).
  rewrite Hrun in Hr. simplify_eq.
  assert (∀ c', c_ID (client w1 c') = c_ID (client w c') /\
                c_rooms (client w1 c') = c_rooms (client w c')) as Hcl.
  { intros c'. destruct (decide (c' = c)) as [->|Hne]; [|by rewrite D1].
    rewrite C1. unfold torn_down. by destruct (c_closed (client w c)). }
  destruct Hrep as [Hw Hk Hid Hrs Hc He].
  split; try done; rewrite ?H1; simpl; unfold room; rewrite ?R1; try done; try by rewrite Hk.
  - intros c'. by rewrite (proj1 (Hcl c')).
  - intros c'. by rewrite (proj2 (Hcl c')).
Qed.

Lemma handleUnregister_outcome known id M (c : cref) (w : world)
    (Hrep : rep lim known id M M None w) (Hreg : registry lim ∅ w) (Hc : c ∈ known)
    (Hd : disconnect_hook_observes env) (Hl : leave_hook_observes env) :
  ∃ w', run (handleUnregister env c) w = Some (tt, w') /\
    registry lim ∅ w' /\
    rep lim (known ∖ {[c]}) id (abs_leave_all M c) (abs_leave_all M c) None w' /\
    c_send (client w' c) = [] /\ c_done (client w' c) = true /\
    c_connClosed (client w' c) = true /\
    close_record (client w' c) =
      (if c_closed (client w c) then close_record (client w c)
       else (true, Some (w_now w), c_closeCode (client w c), c_closeReason (client w c),
             c_graceful (client w c))) /\
    h_state (w_hub w') = h_state (w_hub w) /\
    h_drainDone (w_hub w') = h_drainDone (w_hub w) ||
      (bool_decide (h_state (w_hub w) = StateDraining) &&
       bool_decide (h_clientCount (w_hub w') = 0%Z)).
Proof.
  unfold handleUnregister.
  destruct (total_before_disconnect known id M c w Hd Hreg Hrep) as (w1 & Hr1 & [G1 S1] & P1).
  rewrite run_bind, Hr1. cbn beta iota. rewrite run_bind, run_gets. cbn beta iota.
  assert (c ∈ h_clients (w_hub w1)) as Hc1 by (by rewrite (rep_known _ _ _ _ _ _ _ P1)).
  rewrite bool_decide_eq_true_2 by done. cbn [negb].
  destruct (run_removeFromUserIndex known id M c w1 G1 P1) as (w2 & Hr2 & G2 & P2).
  rewrite run_bind, Hr2. cbn beta iota.
  destruct (total_preserves _ (reg_at lim {[c]} w1) _ _
              (total_LeaveAllRooms env known id M c Hl)
              (preserves_reg_leave_all _ env {[c]} w1 c Hl) w2 (conj P2 G2))
    as ([] & w3 & Hr3 & P3 & [G3 S3]).
  unfold LeaveAllRooms in Hr3. rewrite run_bind, Hr3. cbn beta iota.
  change (delete_client c ;; _) with (finish c).
  destruct (run_finish c w3) as (w4 & Hr4 & C4 & _ & _ & _ & H4).
  rewrite Hr4. exists w4. split; [done|].
  assert (c ∈ h_clients (w_hub w3)) as Hc3 by (by rewrite (rep_known _ _ _ _ _ _ _ P3)).
  split; [by eapply registry_finish|]. split; [by eapply rep_finish|].
  destruct (same_core_trans _ _ _ S1 S3) as (Q1 & Q2 & Q3 & Q4). specialize (Q4 c).
  rewrite C4, H4. simpl. rewrite Q1, Q2, Q3. unfold torn_down, close_record in *.
  injection Q4 as K0 K1 K2 K3 K4. destruct (c_closed (client w c)) eqn:Hcl;
    rewrite K0; simpl; split_and!; congruence.
Qed.

(** C7: Handling an unregister event removes a connected client from the
    client set, both indexes, every room, the counter and the gauge; closes
    it exactly once, keeping what an earlier close recorded, empties its
    queue and closes its connection; and signals the drain exactly when the
    hub is draining and this was the last client. *)
Theorem handleUnregister_spec known id M (c : cref) (w : world)
    (Hrep : rep lim known id M M None w) (Hreg : registry lim ∅ w) (Hc : c ∈ known)
    (Hd : disconnect_hook_observes env) (Hl : leave_hook_observes env) :
  ∃ w', run (handleUnregister env c) w = Some (tt, w') /\
    registry lim ∅ w' /\
    rep lim (known ∖ {[c]}) id (abs_leave_all M c) (abs_leave_all M c) None w' /\
    c_send (client w' c) = [] /\ c_done (client w' c) = true /\
    c_connClosed (client w' c) = true /\
    close_record (client w' c) =
      (if c_closed (client w c) then close_record (client w c)
       else (true, Some (w_now w), c_closeCode (client w c), c_closeReason (client w c),
             c_graceful (client w c))) /\
    h_state (w_hub w') = h_state (w_hub w) /\
    h_drainDone (w_hub w') = h_drainDone (w_hub w) ||
      (bool_decide (h_state (w_hub w) = StateDraining) &&
       bool_decide (h_clientCount (w_hub w') = 0%Z)).
Proof. by apply handleUnregister_outcome. Qed.

(** Unregistering a client that is not connected is a no-op: after the
    hook, nothing of the hub, the clients or the rooms changes, so a client
    is torn down at most once however many unregister events it gets. *)
Theorem handleUnregister_unknown (c : cref) (w : world)
    (Hd : disconnect_hook_observes env) (Hc : c ∉ h_clients (w_hub w)) :
  ∃ w', run (handleUnregister env c) w = Some (tt, w') /\
    w_hub w' = w_hub w /\ w_clients w' = w_clients w /\ w_rooms w' = w_rooms w.
Proof.
  unfold handleUnregister.
  assert (∃ w', run (before_disconnect env c) w = Some (tt, w') /\
    w_hub w' = w_hub w /\ w_clients w' = w_clients w /\ w_rooms w' = w_rooms w)
    as (w' & Hr & H1 & H2).
  { unfold disconnect_hook_observes, before_disconnect, logger in *.
    destruct (BeforeDisconnect (hooks env)) as [h|]; [|by eexists].
    run_simpl. destruct (rt_select (w_nonce w)); run_simpl; rewrite ?Hd;
      (eexists; split; [done|]); done. }
  rewrite run_bind, Hr. run_simpl. rewrite H1, bool_decide_eq_false_2 by done.
  cbn [negb]. rewrite run_ret. eauto.
Qed.
End Unregister.
