(* ===== verification/Pool.v ===== *)
(** * Pool: the broadcast worker pool (workerpool.go)

    Tasks travel through a bounded channel to worker goroutines; the caller
    waits on a [WaitGroup].  A send on the channel that [shutdown] has closed
    panics; [submit] recovers and answers [false], so that its caller falls
    back to sending inline. *)

From S2P Require Import Prelude Prog Types Config World Invariant Send.

Section Pool.
  Context {RT : Runtime} (env : HubEnv).

(** ** WaitGroups and context results *)
Definition wg_New (n : nat) : prg nat :=
  atomically (fun w =>
    let g := fresh (dom (p_waits (w_par w))) in
    (g, upd_par (fun p => set_p_waits (<[g := n]> (p_waits p)) p) w)).

Definition wg_Done (g : nat) : prg unit :=
  modify (upd_par (fun p => set_p_waits (alter pred g (p_waits p)) p)).

Definition wg_Wait (g : nat) : prg unit :=
  await (fun w => if bool_decide (p_waits (w_par w) !!! g = 0) then Some (tt, w) else None).

Definition new_contextResult : prg nat :=
  atomically (fun w =>
    let r := fresh (dom (p_results (w_par w))) in
    (r, upd_par (fun p => set_p_results (<[r := None]> (p_results p)) p) w)).

(** Under [result.mu]: the first error stays. *)
Definition record_err (r : nat) : prg unit :=
  modify (upd_par (fun p =>
    set_p_results (alter (fun e => match e with None => Some ErrContext | Some _ => e end)
                     r (p_results p)) p)).

Definition result_err (r : nat) : prg (option error) :=
  gets (fun w => p_results (w_par w) !!! r).

(** ** Tasks *)
Definition execute (t : broadcastTask) : prg unit :=
  match t_ctx t with
  | Some (ctx, r) =>
      stopped ← for_until (t_clients t) (fun c =>
        ok ← trySendWithContext ctx c (t_item t) ;
        mret (if (ok : bool) then None else Some tt)) ;
      match stopped with
      | Some _ => record_err r
      | None => mret tt
      end
  | None => for_each (t_clients t) (fun c => trySend env c (t_item t))
  end ;;
  wg_Done (t_wg t).

(** ** The pool *)
Definition tasks_cap : nat := Z.to_nat (poolSize env * 4).

(** [poolOnce.Do(newWorkerPool)]: the workers start with the pool. *)
Definition ensurePool : prg unit :=
  modify (fun w =>
    if p_once (w_par w) then w else
    let n := Z.to_nat (poolSize env) in
    foldr emit (upd_par (fun p => set_p_workers n (set_p_started true (set_p_once true p))) w)
      (replicate n (EvSpawn GWorker))).

Definition submit (t : broadcastTask) : prg bool :=
  pool ← gets (fun w => p_started (w_par w)) ;
  if negb pool then crash else
  stopped ← gets (fun w => p_stopped (w_par w)) ;
  if (stopped : bool) then mret false else
  await (fun w =>
    if p_closed (w_par w) then Some (false, w)
    else if bool_decide (length (p_tasks (w_par w)) < tasks_cap)
    then Some (true, upd_par (fun p => set_p_tasks (p_tasks p ++ [t]) p) w)
    else None).

(** [for task := range p.tasks]: the next task, or the end of a closed and
    drained channel. *)
Definition next_task : prg (option broadcastTask) :=
  await (fun w =>
    match p_tasks (w_par w) with
    | t :: q => Some (Some t, upd_par (set_p_tasks q) w)
    | [] => if p_closed (w_par w) then Some (None, w) else None
    end).

(** A worker, for at most [fuel] tasks. *)
Fixpoint runWorker (fuel : nat) : prg unit :=
  match fuel with
  | 0 => out_of_fuel
  | S f =>
      o ← next_task ;
      match o with
      | Some t => execute t ;; runWorker f
      | None => modify (upd_par (fun p => set_p_workers (pred (p_workers p)) p))
      end
  end.

Definition pool_shutdown : prg unit :=
  modify (upd_par (set_p_stopped true)) ;;
  modify (upd_par (set_p_closed true)) ;;
  await (fun w => if bool_decide (p_workers (w_par w) = 0) then Some (tt, w) else None).

(** ** parallelSend and sendWithContext (hub.go) *)

(** Batch [i] of [clients[i*b : min((i+1)*b, len)]]. *)
Definition batch (b i : nat) (clients : list cref) : list cref :=
  let start := i * b in
  let stop := (start + b) `min` length clients in
  take (stop - start) (drop start clients).

Definition numBatches (b n : nat) : nat := (n + b - 1) / b.

(** The submission loop; when the pool refuses batch [i], [inline] sends the
    remaining clients and the loop ends. *)
Definition submit_batches (b : nat) (clients : list cref) (item : sendItem)
    (ctx : option (context * nat)) (wg : nat) (inline : list cref -> prg unit) : prg unit :=
  let n := numBatches b (length clients) in
  _ ← for_until (seq 0 n) (fun i =>
    ok ← submit (mkBroadcastTask (batch b i clients) item ctx wg) ;
    if (ok : bool) then mret None else
    for_each (seq 0 (n - i)) (fun _ => wg_Done wg) ;;
    inline (drop (i * b) clients) ;;
    mret (Some tt)) ;
  mret tt.

Definition batchSize : nat := Z.to_nat (parallelBatchSize env).

Definition parallelSend (clients : list cref) (item : sendItem) : prg unit :=
  if bool_decide (length clients = 0) then mret tt else
  if bool_decide (length clients <= batchSize) then
    for_each clients (fun c => trySend env c item)
  else
    ensurePool ;;
    wg ← wg_New (numBatches batchSize (length clients)) ;
    submit_batches batchSize clients item None wg
      (fun rest => for_each rest (fun c => trySend env c item)) ;;
    wg_Wait wg.

Definition send_all_ctx (ctx : context) (clients : list cref) (item : sendItem)
    : prg (option error) :=
  for_until clients (fun c =>
    ok ← trySendWithContext ctx c item ;
    mret (if (ok : bool) then None else Some ErrContext)).

Definition sendWithContext (ctx : context) (clients : list cref) (item : sendItem)
    : prg (option error) :=
  if bool_decide (length clients = 0) then mret None else
  if negb (useParallel env) || bool_decide (length clients <= batchSize) then
    send_all_ctx ctx clients item
  else
    ensurePool ;;
    wg ← wg_New (numBatches batchSize (length clients)) ;
    r ← new_contextResult ;
    submit_batches batchSize clients item (Some (ctx, r)) wg
      (fun rest =>
         e ← send_all_ctx ctx rest item ;
         match e with Some _ => record_err r | None => mret tt end) ;;
    wg_Wait wg ;;
    result_err r.
End Pool.

(** ** Every interleaving *)
Section Keeps.
Context {RT : Runtime} (lim : Limits) (env : HubEnv) (Hh : hooks_keep lim env).

Lemma keeps_wg_Done g : keeps (wf lim) (wg_Done g).
Proof. apply keeps_upd_par. Qed.

Lemma keeps_record_err r : keeps (wf lim) (record_err r).
Proof. apply keeps_upd_par. Qed.

Lemma keeps_wg_New n : keeps (wf lim) (wg_New n).
Proof. apply keeps_atomically. intros w Hw. by apply wf_upd_par. Qed.

Lemma keeps_new_contextResult : keeps (wf lim) new_contextResult.
Proof. apply keeps_atomically. intros w Hw. by apply wf_upd_par. Qed.

Lemma keeps_wg_Wait g : keeps (wf lim) (wg_Wait g).
Proof. apply keeps_await. intros w x w' Hw. case_match; intros [= <- <-]. done. Qed.

Lemma keeps_ensurePool : keeps (wf lim) (ensurePool env).
Proof.
  apply keeps_modify. intros w Hw. case_match; [done|]. cbn zeta.
  induction (Z.to_nat (poolSize env)) as [|n IH] at 2; simpl; [by apply wf_upd_par|].
  by apply wf_emit.
Qed.

Lemma keeps_submit t : keeps (wf lim) (submit env t).
Proof.
  unfold submit, crash. keeps_auto; (apply keeps_await). intros w x w' Hw.
  repeat case_match; intros [= <- <-]; try done. by apply wf_upd_par.
Qed.

Lemma keeps_next_task : keeps (wf lim) next_task.
Proof.
  apply keeps_await. intros w x w' Hw. repeat case_match; intros [= <- <-]; try done.
  by apply wf_upd_par.
Qed.

#[local] Hint Resolve keeps_wg_Done keeps_record_err keeps_wg_New keeps_new_contextResult
  keeps_wg_Wait keeps_ensurePool keeps_submit keeps_next_task : keeps.

Lemma keeps_execute t : keeps (wf lim) (execute env t).
Proof. unfold execute. keeps_auto. Qed.

#[local] Hint Resolve keeps_execute : keeps.

Lemma keeps_runWorker n : keeps (wf lim) (runWorker env n).
Proof. induction n as [|n IH]; cbn [runWorker]; keeps_auto. Qed.

Lemma keeps_pool_shutdown : keeps (wf lim) pool_shutdown.
Proof.
  unfold pool_shutdown. keeps_auto. apply keeps_await. intros w x w' Hw.
  case_match; intros [= <- <-]. done.
Qed.

Lemma keeps_submit_batches b cs x ctx g inline :
  (∀ l, keeps (wf lim) (inline l)) -> keeps (wf lim) (submit_batches env b cs x ctx g inline).
Proof. intros Hi. unfold submit_batches. keeps_auto. Qed.

Lemma keeps_parallelSend cs x : keeps (wf lim) (parallelSend env cs x).
Proof.
  unfold parallelSend. keeps_auto. apply keeps_submit_batches. intros l. keeps_auto.
Qed.

Lemma keeps_sendWithContext ctx cs x : keeps (wf lim) (sendWithContext env ctx cs x).
Proof.
  unfold sendWithContext, send_all_ctx, result_err. keeps_auto. apply keeps_submit_batches. intros l. keeps_auto.
Qed.
End Keeps.

#[export] Hint Resolve keeps_runWorker keeps_pool_shutdown keeps_parallelSend
  keeps_sendWithContext : keeps.
