(* ===== verification/Broadcast.v ===== *)
(** * Broadcast: fan-out to clients, rooms, users and other nodes (hub.go)

    Every public broadcast and send, the exclusion lists, and the publication
    to the adapter.  Fan-out runs over a lock-free snapshot; whether it goes
    through the worker pool is the hub's [useParallel]. *)

From S2P Require Import Prelude Prog Types Config World Invariant Send Client Rooms Registry Pool.

(** ** Exclusion lists *)
Definition buildExcludeSet (exceptIDs : list string) : option (gset string) :=
  if bool_decide (length exceptIDs <= 4) then None else Some (list_to_set exceptIDs).

Definition isExcludedByID (clientID : string) (exceptIDs : list string)
    (excludeSet : option (gset string)) : bool :=
  match excludeSet with
  | Some s => bool_decide (clientID ∈ s)
  | None => bool_decide (clientID ∈ exceptIDs)
  end.

Definition buildClientExcludeSet (except : list cref) : option (gset cref) :=
  if bool_decide (length except <= 4) then None else Some (list_to_set except).

Definition isExcludedClient (c : cref) (except : list cref) (excludeSet : option (gset cref))
    : bool :=
  match excludeSet with
  | Some s => bool_decide (c ∈ s)
  | None => bool_decide (c ∈ except)
  end.

Section Ops.
  Context {RT : Runtime} (env : HubEnv).

(** ** The adapter *)
Definition publishToAdapter (msg : AdapterMessage) : prg unit :=
  match adapter env with
  | None => mret tt
  | Some a =>
      let msg := am_withNode (nodeID env) msg in
      modify (emit (EvPublish msg)) ;;
      err ← ad_Publish a msg ;
      match err with
      | None => mret tt
      | Some _ =>
          logger Error "adapter publish failed" ;;
          metrics (IncrementErrors "adapter_publish")
      end
  end.

(** The composite literals of [AdapterMessage], by their fields. *)
Definition adapter_msg (t : AdapterType) (mt : Z) (d : bytes) : AdapterMessage :=
  mkAdapterMessage "" t "" "" "" [] mt d.
Definition adapter_msg_except (mt : Z) (d : bytes) (ids : list string) : AdapterMessage :=
  mkAdapterMessage "" AdapterBroadcastExcept "" "" "" ids mt d.
Definition adapter_msg_room (mt : Z) (d : bytes) (room : string) : AdapterMessage :=
  mkAdapterMessage "" AdapterRoom room "" "" [] mt d.
Definition adapter_msg_room_except (mt : Z) (d : bytes) (room : string) (ids : list string)
    : AdapterMessage :=
  mkAdapterMessage "" AdapterRoomExcept room "" "" ids mt d.
Definition adapter_msg_user (mt : Z) (d : bytes) (user : string) : AdapterMessage :=
  mkAdapterMessage "" AdapterUser "" user "" [] mt d.
Definition adapter_msg_client (mt : Z) (d : bytes) (id : string) : AdapterMessage :=
  mkAdapterMessage "" AdapterClient "" "" id [] mt d.

(** ** Dispatch *)
Definition send_each (clients : list cref) (item : sendItem) : prg unit :=
  for_each clients (fun c => trySend env c item).

Definition dispatch (clients : list cref) (item : sendItem) : prg unit :=
  if useParallel env then parallelSend env clients item else send_each clients item.

(** [h.metrics.RecordBroadcastDuration(time.Since(start))]. *)
Definition record_since (start : Z) : prg unit :=
  now ← time_Now ; metrics (RecordBroadcastDuration (time_Sub now start)).

Definition broadcast (item : sendItem) : prg unit :=
  start ← time_Now ;
  snap ← loadSnapshot ;
  dispatch (hs_slice snap) item ;;
  record_since start.

(** ** Broadcasts to everyone *)
Definition Broadcast (d : bytes) : prg unit :=
  broadcast (mkSendItem TextMessage d) ;;
  publishToAdapter (adapter_msg AdapterBroadcast TextMessage d).

Definition BroadcastBinary (d : bytes) : prg unit :=
  broadcast (mkSendItem BinaryMessage d) ;;
  publishToAdapter (adapter_msg AdapterBroadcast BinaryMessage d).

Definition BroadcastWithContext (ctx : context) (d : bytes) : prg (option error) :=
  snap ← loadSnapshot ;
  ctxErr ← sendWithContext env ctx (hs_slice snap) (mkSendItem TextMessage d) ;
  publishToAdapter (adapter_msg AdapterBroadcast TextMessage d) ;;
  mret ctxErr.

Definition BroadcastText (text : string) : prg unit :=
  Broadcast (String.list_byte_of_string text).

Definition BroadcastJSON {V : Type} (marshal : V -> error + bytes) (v : V)
    : prg (option error) :=
  now ← time_Now ;
  match NewJSONMessage marshal now v with
  | inl e => mret (Some e)
  | inr msg => Broadcast (Data msg) ;; mret None
  end.

Definition BroadcastRawJSON (d : bytes) : prg unit := Broadcast d.

(** ** Exclusions *)
Definition broadcastExceptClients (clients : list cref) (item : sendItem) (except : list cref)
    (excludeSet : option (gset cref)) : prg unit :=
  start ← time_Now ;
  (if useParallel env then
     parallelSend env
       (base.filter (fun c => isExcludedClient c except excludeSet = false) clients) item
   else
     for_each clients (fun c =>
       if negb (isExcludedClient c except excludeSet) then trySend env c item else mret tt)) ;;
  record_since start.

Definition client_ids (cs : list cref) : prg (list string) :=
  gets (fun w => map (fun c => c_ID (client w c)) cs).

Definition broadcastExceptWithType (d : bytes) (mt : Z) (except : list cref) : prg unit :=
  snap ← loadSnapshot ;
  broadcastExceptClients (hs_slice snap) (mkSendItem mt d) except
    (buildClientExcludeSet except) ;;
  if bool_decide (0 < length except) then
    ids ← client_ids except ;
    publishToAdapter (adapter_msg_except mt d ids)
  else publishToAdapter (adapter_msg AdapterBroadcast mt d).

Definition BroadcastExcept (d : bytes) (except : list cref) : prg unit :=
  broadcastExceptWithType d TextMessage except.

Definition BroadcastBinaryExcept (d : bytes) (except : list cref) : prg unit :=
  broadcastExceptWithType d BinaryMessage except.

(** ** Rooms *)
Definition broadcastToRoomClients (r : rref) (item : sendItem) : prg unit :=
  start ← time_Now ;
  clients ← gets (fun w => loadRoomSnapshot (room w r)) ;
  dispatch clients item ;;
  record_since start.

(** The answer of every room broadcast: unknown rooms are an error only on a
    single node. *)
Definition room_result (found : option rref) : option error :=
  match found, adapter env with
  | None, None => Some ErrRoomNotFound
  | _, _ => None
  end.

Definition broadcastToRoomWithType (name : string) (d : bytes) (mt : Z) : prg (option error) :=
  if bool_decide (name = "") then mret (Some ErrEmptyRoomName) else
  found ← lookup_room name ;
  match found with
  | Some r => broadcastToRoomClients r (mkSendItem mt d)
  | None => mret tt
  end ;;
  publishToAdapter (adapter_msg_room mt d name) ;;
  mret (room_result found).

Definition BroadcastToRoom (name : string) (d : bytes) : prg (option error) :=
  broadcastToRoomWithType name d TextMessage.

Definition BroadcastBinaryToRoom (name : string) (d : bytes) : prg (option error) :=
  broadcastToRoomWithType name d BinaryMessage.

Definition BroadcastToRoomWithContext (ctx : context) (name : string) (d : bytes)
    : prg (option error) :=
  if bool_decide (name = "") then mret (Some ErrEmptyRoomName) else
  found ← lookup_room name ;
  ctxErr ← match found with
           | Some r =>
               clients ← gets (fun w => loadRoomSnapshot (room w r)) ;
               sendWithContext env ctx clients (mkSendItem TextMessage d)
           | None => mret None
           end ;
  publishToAdapter (adapter_msg_room TextMessage d name) ;;
  mret (match ctxErr with Some e => Some e | None => room_result found end).

Definition broadcastToRoomExceptWithType (name : string) (d : bytes) (mt : Z)
    (except : list cref) : prg (option error) :=
  if bool_decide (name = "") then mret (Some ErrEmptyRoomName) else
  found ← lookup_room name ;
  match found with
  | Some r =>
      snapshot ← gets (fun w => loadRoomSnapshot (room w r)) ;
      broadcastExceptClients snapshot (mkSendItem mt d) except (buildClientExcludeSet except)
  | None => mret tt
  end ;;
  (if bool_decide (0 < length except) then
     exceptIDs ← client_ids except ;
     publishToAdapter (adapter_msg_room_except mt d name exceptIDs)
   else publishToAdapter (adapter_msg_room mt d name)) ;;
  mret (room_result found).

Definition BroadcastToRoomExcept (name : string) (d : bytes) (except : list cref)
    : prg (option error) := broadcastToRoomExceptWithType name d TextMessage except.

Definition BroadcastBinaryToRoomExcept (name : string) (d : bytes) (except : list cref)
    : prg (option error) := broadcastToRoomExceptWithType name d BinaryMessage except.

(** ** One user, one client *)
Definition sendToUserWithType (userID : string) (d : bytes) (mt : Z) : prg unit :=
  clients ← GetClientsByUserID userID ;
  send_each clients (mkSendItem mt d) ;;
  publishToAdapter (adapter_msg_user mt d userID).

Definition SendToUser (userID : string) (d : bytes) : prg unit :=
  sendToUserWithType userID d TextMessage.

Definition SendBinaryToUser (userID : string) (d : bytes) : prg unit :=
  sendToUserWithType userID d BinaryMessage.

Definition SendToUserWithContext (ctx : context) (userID : string) (d : bytes)
    : prg (option error) :=
  clients ← GetClientsByUserID userID ;
  ctxErr ← sendWithContext env ctx clients (mkSendItem TextMessage d) ;
  publishToAdapter (adapter_msg_user TextMessage d userID) ;;
  mret ctxErr.

(** Publish for a client that may live on another node. *)
Definition relay_to_client (clientID : string) (d : bytes) (mt : Z) : prg (option error) :=
  match adapter env with
  | Some _ => publishToAdapter (adapter_msg_client mt d clientID) ;; mret None
  | None => mret (Some ErrClientNotFound)
  end.

Definition sendToClientWithType (clientID : string) (d : bytes) (mt : Z) : prg (option error) :=
  found ← GetClient clientID ;
  match found with
  | Some c => SendMessage env c mt d
  | None => relay_to_client clientID d mt
  end.

Definition SendToClient (clientID : string) (d : bytes) : prg (option error) :=
  sendToClientWithType clientID d TextMessage.

Definition SendBinaryToClient (clientID : string) (d : bytes) : prg (option error) :=
  sendToClientWithType clientID d BinaryMessage.

Definition SendToClientWithContext (ctx : context) (clientID : string) (d : bytes)
    : prg (option error) :=
  found ← GetClient clientID ;
  match found with
  | Some c => SendMessageWithContext ctx c TextMessage d
  | None => relay_to_client clientID d TextMessage
  end.

(** ** Deliveries for messages of other nodes: never published again *)
Definition broadcastExceptByIDs (item : sendItem) (exceptIDs : list string) : prg unit :=
  if bool_decide (length exceptIDs = 0) then broadcast item else
  snap ← loadSnapshot ;
  let excludeSet := buildExcludeSet exceptIDs in
  for_each (hs_slice snap) (fun c =>
    id ← gets (fun w => c_ID (client w c)) ;
    if negb (isExcludedByID id exceptIDs excludeSet) then trySend env c item else mret tt).

Definition broadcastToRoomLocal (name : string) (item : sendItem) : prg unit :=
  found ← lookup_room name ;
  match found with
  | None => mret tt
  | Some r => broadcastToRoomClients r item
  end.

Definition broadcastToRoomExceptByIDs (name : string) (item : sendItem)
    (exceptIDs : list string) : prg unit :=
  if bool_decide (length exceptIDs = 0) then broadcastToRoomLocal name item else
  found ← lookup_room name ;
  match found with
  | None => mret tt
  | Some r =>
      let excludeSet := buildExcludeSet exceptIDs in
      snapshot ← gets (fun w => loadRoomSnapshot (room w r)) ;
      for_each snapshot (fun c =>
        id ← gets (fun w => c_ID (client w c)) ;
        if negb (isExcludedByID id exceptIDs excludeSet) then trySend env c item else mret tt)
  end.

Definition sendToUserLocal (userID : string) (item : sendItem) : prg unit :=
  clients ← GetClientsByUserID userID ;
  send_each clients item.

Definition sendToClientLocal (clientID : string) (d : bytes) (mt : Z) : prg (option error) :=
  found ← GetClient clientID ;
  match found with
  | None => mret (Some ErrClientNotFound)
  | Some c => SendMessage env c mt d
  end.
End Ops.

(** ** Every interleaving *)
Section Keeps.
Context {RT : Runtime} (lim : Limits) (env : HubEnv) (Hh : hooks_keep lim env).

Lemma keeps_publishToAdapter m : keeps (wf lim) (publishToAdapter env m).
Proof.
  unfold publishToAdapter. destruct (adapter env) as [a|] eqn:Ha; [|done].
  destruct (hk_adapter _ _ Hh a Ha) as (_ & Hp & _). cbn zeta. keeps_auto.
Qed.

Lemma keeps_send_each cs x : keeps (wf lim) (send_each env cs x).
Proof. unfold send_each. keeps_auto. Qed.

#[local] Hint Resolve keeps_publishToAdapter keeps_send_each : keeps.

Lemma keeps_dispatch cs x : keeps (wf lim) (dispatch env cs x).
Proof. unfold dispatch. keeps_auto. Qed.

Lemma keeps_record_since t : keeps (wf lim) (record_since t).
Proof. unfold record_since. keeps_auto. Qed.

#[local] Hint Resolve keeps_dispatch keeps_record_since : keeps.

Lemma keeps_broadcast x : keeps (wf lim) (broadcast env x).
Proof. unfold broadcast. keeps_auto. Qed.

Lemma keeps_broadcastToRoomClients r x : keeps (wf lim) (broadcastToRoomClients env r x).
Proof. unfold broadcastToRoomClients. keeps_auto. Qed.

Lemma keeps_broadcastExceptClients cs x l s :
  keeps (wf lim) (broadcastExceptClients env cs x l s).
Proof. unfold broadcastExceptClients. keeps_auto. Qed.

#[local] Hint Resolve keeps_broadcast keeps_broadcastToRoomClients
  keeps_broadcastExceptClients : keeps.

Lemma keeps_Broadcast d : keeps (wf lim) (Broadcast env d).
Proof. unfold Broadcast. keeps_auto. Qed.

Lemma keeps_BroadcastBinary d : keeps (wf lim) (BroadcastBinary env d).
Proof. unfold BroadcastBinary. keeps_auto. Qed.

Lemma keeps_BroadcastWithContext ctx d : keeps (wf lim) (BroadcastWithContext env ctx d).
Proof. unfold BroadcastWithContext. keeps_auto. Qed.

Lemma keeps_broadcastExceptWithType d mt l : keeps (wf lim) (broadcastExceptWithType env d mt l).
Proof. unfold broadcastExceptWithType, client_ids. keeps_auto. Qed.

Lemma keeps_broadcastToRoomWithType n d mt : keeps (wf lim) (broadcastToRoomWithType env n d mt).
Proof. unfold broadcastToRoomWithType. keeps_auto. Qed.

Lemma keeps_BroadcastToRoomWithContext ctx n d :
  keeps (wf lim) (BroadcastToRoomWithContext env ctx n d).
Proof. unfold BroadcastToRoomWithContext. keeps_auto. Qed.

Lemma keeps_broadcastToRoomExceptWithType n d mt l :
  keeps (wf lim) (broadcastToRoomExceptWithType env n d mt l).
Proof. unfold broadcastToRoomExceptWithType, client_ids. keeps_auto. Qed.

Lemma keeps_sendToUserWithType u d mt : keeps (wf lim) (sendToUserWithType env u d mt).
Proof. unfold sendToUserWithType. keeps_auto. Qed.

Lemma keeps_SendToUserWithContext ctx u d : keeps (wf lim) (SendToUserWithContext env ctx u d).
Proof. unfold SendToUserWithContext. keeps_auto. Qed.

Lemma keeps_sendToClientWithType i d mt : keeps (wf lim) (sendToClientWithType env i d mt).
Proof. unfold sendToClientWithType, relay_to_client. keeps_auto. Qed.

Lemma keeps_SendToClientWithContext ctx i d :
  keeps (wf lim) (SendToClientWithContext env ctx i d).
Proof. unfold SendToClientWithContext, relay_to_client. keeps_auto. Qed.

Lemma keeps_broadcastExceptByIDs x l : keeps (wf lim) (broadcastExceptByIDs env x l).
Proof. unfold broadcastExceptByIDs. keeps_auto. Qed.

Lemma keeps_broadcastToRoomLocal n x : keeps (wf lim) (broadcastToRoomLocal env n x).
Proof. unfold broadcastToRoomLocal. keeps_auto. Qed.

#[local] Hint Resolve keeps_broadcastToRoomLocal : keeps.

Lemma keeps_broadcastToRoomExceptByIDs n x l :
  keeps (wf lim) (broadcastToRoomExceptByIDs env n x l).
Proof. unfold broadcastToRoomExceptByIDs. keeps_auto. Qed.

Lemma keeps_sendToUserLocal u x : keeps (wf lim) (sendToUserLocal env u x).
Proof. unfold sendToUserLocal. keeps_auto. Qed.

Lemma keeps_sendToClientLocal i d mt : keeps (wf lim) (sendToClientLocal env i d mt).
Proof. unfold sendToClientLocal. keeps_auto. Qed.
End Keeps.

#[export] Hint Resolve keeps_publishToAdapter keeps_broadcast keeps_Broadcast
  keeps_BroadcastBinary keeps_BroadcastWithContext keeps_broadcastExceptWithType
  keeps_broadcastToRoomWithType keeps_BroadcastToRoomWithContext
  keeps_broadcastToRoomExceptWithType keeps_sendToUserWithType keeps_SendToUserWithContext
  keeps_sendToClientWithType keeps_SendToClientWithContext keeps_broadcastExceptByIDs
  keeps_broadcastToRoomLocal keeps_broadcastToRoomExceptByIDs keeps_sendToUserLocal
  keeps_sendToClientLocal : keeps.
