(* ===== verification/BroadcastSpec.v ===== *)
(** * BroadcastSpec: what a broadcast delivers, and to whom

    [deliver] is the effect of one non-blocking send on one client.  The
    theorems say that a broadcast applies it once to every client of the
    snapshot that is not excluded and to nobody else, that the exclusion set
    and the linear scan agree, and what reaches the adapter. *)

From S2P Require Import Prelude Prog Types Config World Invariant Send Client Rooms Registry Pool.
From S2P Require Import Broadcast.

(** One non-blocking send, on the client alone. *)
Definition deliver (env : HubEnv) (x : sendItem) (cl : Client) : Client :=
  if c_closed cl then cl
  else set_c_send (bounded_send (dropPolicy env) (cap cl) (c_send cl) x).1.2 cl.

(** Between operations a client's [sendMu] is free and its queue within bounds. *)
Definition ready (w : world) (c : cref) : Prop :=
  allocated w c /\ c_sendMu (client w c) = false /\
  length (c_send (client w c)) <= cap (client w c).

Definition deliver_all (env : HubEnv) (x : sendItem) (cs : list cref) (w : world) : world :=
  foldl (fun w c => upd_client c (deliver env x) w) w cs.

(** What has been handed to the adapter, newest first. *)
Definition published (t : list event) : list AdapterMessage :=
  omap (fun e => match e with EvPublish m => Some m | _ => None end) t.

Lemma published_app a b : published (a ++ b) = published a ++ published b.
Proof. apply omap_app. Qed.

Lemma published_drops env c l : published (concat (drop_events env c <$> l)) = [].
Proof.
  induction l as [|d l IH]; [done|]. rewrite fmap_cons. cbn [concat].
  rewrite published_app, IH. unfold drop_events. by destruct (OnSendDropped (hooks env)).
Qed.

(** The adapter's [Publish] answers and leaves the hub alone. *)
Definition adapter_answers (env : HubEnv) : Prop :=
  match adapter env with
  | None => True
  | Some a => ∀ m w, ∃ e, run (ad_Publish a m) w = Some (e, w)
  end.

(** A message as this node publishes it; nothing without an adapter. *)
Definition publishes (env : HubEnv) (m : AdapterMessage) : list AdapterMessage :=
  match adapter env with None => [] | Some _ => [am_withNode (nodeID env) m] end.

(** ** Exclusions *)

Lemma isExcludedClient_elem c except :
  isExcludedClient c except (buildClientExcludeSet except) = bool_decide (c ∈ except).
Proof.
  unfold isExcludedClient, buildClientExcludeSet.
  case_bool_decide; try done; apply bool_decide_ext; apply elem_of_list_to_set.
Qed.

Lemma isExcludedByID_elem i ids :
  isExcludedByID i ids (buildExcludeSet ids) = bool_decide (i ∈ ids).
Proof.
  unfold isExcludedByID, buildExcludeSet.
  case_bool_decide; try done; apply bool_decide_ext; apply elem_of_list_to_set.
Qed.

(** Excluding by the set that is built for long lists and by the linear
    scan of short ones is the same test, for clients and for their IDs, at any
    length. *)
Theorem isExcluded_is_membership (c : cref) (except : list cref) (i : string) (ids : list string) :
  isExcludedClient c except (buildClientExcludeSet except) = bool_decide (c ∈ except) /\
  isExcludedByID i ids (buildExcludeSet ids) = bool_decide (i ∈ ids).
Proof. split; [apply isExcludedClient_elem|apply isExcludedByID_elem]. Qed.

Section Sequential.
Context {RT : Runtime} (env : HubEnv) (Hhook : silent_drop_hook env).

Lemma bounded_send_length p n q x :
  length q <= n -> length (bounded_send p n q x).1.2 <= n.
Proof.
  unfold bounded_send. case_bool_decide; simpl; [rewrite length_app; simpl; lia|].
  destruct p, q; simpl; try done. rewrite length_app. simpl. lia.
Qed.

Lemma ready_deliver x c c' w : ready w c' -> ready (upd_client c (deliver env x) w) c'.
Proof.
  intros (Ha & Hm & Hq). unfold ready, allocated, upd_client. cbn [w_clients].
  change (client _ c') with (client (upd_client c (deliver env x) w) c').
  split; [apply lookup_insert_is_Some; destruct (decide (c = c')); auto|].
  rewrite client_upd_client. case_decide; [|done]. subst. unfold deliver.
  destruct (c_closed (client w c')); [done|]. split; [done|].
  unfold cap in *. simpl. by apply bounded_send_length.
Qed.

Lemma run_trySend c x w :
  ready w c ->
  ∃ evs, run (trySend env c x) w = Some (tt, emits evs (upd_client c (deliver env x) w)) /\
    published evs = [].
Proof.
  intros (Ha & Hm & Hq). unfold trySend. destruct (c_closed (client w c)) eqn:Hc.
  - exists []. split; [|done].
    rewrite run_bind, run_trySendErr_closed by done. rewrite run_ret, emits_nil.
    rewrite upd_client_id; [done|done|]. unfold deliver. by rewrite Hc.
  - pose proof (run_trySendErr_open env Hhook c x w Ha Hc Hm Hq) as H.
    destruct (bounded_send _ _ _ x) as [[ok q'] dropped] eqn:Hb.
    rewrite run_bind, H, run_ret. eexists. split.
    + do 3 f_equal. apply upd_client_ext. unfold deliver. by rewrite Hc, Hb.
    + apply published_drops.
Qed.

Lemma upd_client_deliver_all x cs evs w :
  deliver_all env x cs (emits evs w) = emits evs (deliver_all env x cs w).
Proof.
  revert w. induction cs as [|c cs IH]; intros w; [done|]. unfold deliver_all in *. simpl.
  by rewrite upd_client_emits, IH.
Qed.

(** A filtered loop of sends. *)
Lemma run_send_filtered (P : cref -> bool) cs x w :
  (∀ c, c ∈ cs -> ready w c) ->
  ∃ evs, run (for_each cs (fun c => if P c then trySend env c x else mret tt)) w =
    Some (tt, emits evs (deliver_all env x (base.filter (fun c => P c = true) cs) w)) /\
    published evs = [].
Proof.
  revert w. induction cs as [|c cs IH]; intros w Hr; simpl.
  { exists []. by rewrite emits_nil. }
  rewrite run_bind. destruct (P c) eqn:HP.
  - destruct (run_trySend c x w) as (evs & H & Hp); [apply Hr; by left|].
    rewrite H. destruct (IH (emits evs (upd_client c (deliver env x) w))) as (evs' & IH' & Hp').
    { intros c' Hc'. by apply (ready_deliver x c), Hr; right. }
    rewrite IH'. rewrite upd_client_deliver_all, emits_app. eexists.
    split; [by rewrite filter_cons_True|]. by rewrite published_app, Hp, Hp'.
  - rewrite run_ret. destruct (IH w) as (evs & IH' & Hp); [intros; apply Hr; by right|].
    rewrite IH'. exists evs. split; [|done]. by rewrite filter_cons_False by congruence.
Qed.

Lemma run_send_each cs x w :
  (∀ c, c ∈ cs -> ready w c) ->
  ∃ evs, run (send_each env cs x) w = Some (tt, emits evs (deliver_all env x cs w)) /\
    published evs = [].
Proof.
  intros Hr. destruct (run_send_filtered (fun _ => true) cs x w Hr) as (evs & H & Hp).
  exists evs. split; [|done]. unfold send_each. rewrite H. do 3 f_equal.
  f_equal. clear. induction cs as [|c cs IH]; [done|].
  rewrite filter_cons_True by done. by f_equal.
Qed.

(** With distinct clients, each is delivered to once. *)
Lemma client_deliver_all x cs w c :
  NoDup cs ->
  client (deliver_all env x cs w) c =
    if bool_decide (c ∈ cs) then deliver env x (client w c) else client w c.
Proof.
  intros Hnd. revert w. induction Hnd as [|d cs Hd Hnd IH]; intros w; [done|].
  unfold deliver_all in *. simpl. rewrite IH, client_upd_client.
  destruct (decide (d = c)) as [->|Hne].
  - rewrite (bool_decide_eq_false_2 (c ∈ cs)) by done.
    rewrite (bool_decide_eq_true_2 (c ∈ c :: cs)); [done|by left].
  - rewrite (bool_decide_ext (c ∈ d :: cs) (c ∈ cs)); [done|]. rewrite elem_of_cons. naive_solver.
Qed.

Lemma deliver_all_frame x cs w :
  w_hub (deliver_all env x cs w) = w_hub w /\ w_rooms (deliver_all env x cs w) = w_rooms w /\
  w_trace (deliver_all env x cs w) = w_trace w /\ w_now (deliver_all env x cs w) = w_now w.
Proof.
  revert w. induction cs as [|c cs IH]; intros w; [done|].
  unfold deliver_all in *. simpl. destruct (IH (upd_client c (deliver env x) w)) as (-> & -> & -> & ->).
  done.
Qed.

Lemma run_publish m w :
  adapter_answers env ->
  ∃ evs, run (publishToAdapter env m) w = Some (tt, emits evs w) /\
    published evs = publishes env m.
Proof.
  unfold adapter_answers, publishToAdapter, publishes, logger, metrics. intros Ha.
  destruct (adapter env) as [a|]; [|exists []; by rewrite emits_nil].
  run_simpl. destruct (Ha (am_withNode (nodeID env) m) (emit (EvPublish (am_withNode (nodeID env) m)) w))
    as ([e|] & ->); run_simpl;
    [by eexists [_; _; _]|by eexists [_]].
Qed.

(** ** Who gets a broadcast *)

Lemma run_record_since t w :
  ∃ e, run (record_since t) w = Some (tt, emits [e] w) /\ published [e] = [].
Proof. unfold record_since, time_Now, metrics. run_simpl. by eexists. Qed.

(** The shape of every fan-out: deliveries to distinct clients, then
    bookkeeping that ends with at most one publication. *)
Definition delivered (x : sendItem) (cs : gset cref) (pub : list AdapterMessage)
    (w w' : world) : Prop :=
  (∀ c, client w' c = if bool_decide (c ∈ cs) then deliver env x (client w c) else client w c) /\
  w_hub w' = w_hub w /\ w_rooms w' = w_rooms w /\
  published (w_trace w') = pub ++ published (w_trace w).

Lemma delivered_intro x l (cs : gset cref) evs pub w :
  NoDup l -> (∀ c, c ∈ l <-> c ∈ cs) -> published evs = pub ->
  delivered x cs pub w (emits evs (deliver_all env x l w)).
Proof.
  intros Hnd Hcs Hp. destruct (deliver_all_frame x l w) as (H1 & H2 & H3 & _).
  split; [|split; [done|split; [done|]]].
  - intros c. rewrite client_emits, client_deliver_all by done.
    by rewrite (bool_decide_ext _ _ (Hcs c)).
  - cbn [w_trace emits]. by rewrite published_app, H3, Hp.
Qed.

Definition snapshot_slice (w : world) : list cref :=
  hs_slice (default emptySnapshot (h_clientsSnapshot (w_hub w))).

(** The local half of a broadcast with exclusions. *)
Lemma run_broadcastExceptClients l x except w :
  useParallel env = false -> (∀ c, c ∈ l -> ready w c) ->
  ∃ evs, run (broadcastExceptClients env l x except (buildClientExcludeSet except)) w =
      Some (tt, emits evs (deliver_all env x (base.filter (fun c => c ∉ except) l) w)) /\
    published evs = [].
Proof.
  intros Hpar Hr. unfold broadcastExceptClients, time_Now. run_simpl. rewrite Hpar.
  destruct (run_send_filtered (fun c =>
    negb (isExcludedClient c except (buildClientExcludeSet except))) l x w Hr) as (evs & H1 & Hp1).
  rewrite H1. cbn beta iota.
  assert (base.filter (fun c => negb (isExcludedClient c except (buildClientExcludeSet except)) = true)
            l = base.filter (fun c => c ∉ except) l) as ->.
  { apply list_filter_iff. intros c.
    by rewrite isExcludedClient_elem, negb_true_iff, bool_decide_eq_false. }
  destruct (run_record_since (w_now w)
    (emits evs (deliver_all env x (base.filter (fun c => c ∉ except) l) w))) as (e & H2 & Hp2).
  rewrite H2, emits_app. eexists. split; [done|]. by rewrite published_app, Hp1, Hp2.
Qed.

(** What is published for it: the IDs, or the plain message without any. *)
Lemma run_publish_except (f : list string -> AdapterMessage) g except w :
  adapter_answers env ->
  ∃ evs, run (if bool_decide (0 < length except) then
                ids ← client_ids except ; publishToAdapter env (f ids)
              else publishToAdapter env g) w = Some (tt, emits evs w) /\
    published evs = publishes env (if bool_decide (except = []) then g
                                   else f (map (fun c => c_ID (client w c)) except)).
Proof.
  intros Ha. destruct except as [|c0 except]; cbn [length].
  - rewrite (bool_decide_eq_false_2 (0 < 0)) by lia. apply run_publish, Ha.
  - rewrite (bool_decide_eq_true_2 (0 < _)), (bool_decide_eq_false_2 (_ = [])) by (done || lia).
    unfold client_ids. rewrite run_bind, run_gets. cbn beta iota. apply run_publish, Ha.
Qed.

Lemma deliver_c_ID x cl : c_ID (deliver env x cl) = c_ID cl.
Proof. unfold deliver. by destruct (c_closed cl). Qed.

Lemma c_ID_deliver_all x evs l w c :
  c_ID (client (emits evs (deliver_all env x l w)) c) = c_ID (client w c).
Proof.
  rewrite client_emits. revert w. induction l as [|d l IH]; intros w; [done|].
  unfold deliver_all in *. simpl. rewrite IH, client_upd_client. case_decide; [|done].
  subst. apply deliver_c_ID.
Qed.

(** On the serial path a broadcast with exclusions delivers the item
    exactly once to every client of the snapshot that is not excluded, touches
    no other client, and publishes one message that carries the IDs of the
    excluded clients, or the plain broadcast when there are none. *)
Theorem broadcastExcept_delivers (d : bytes) (mt : Z) (except : list cref) (w : world)
    (Hpar : useParallel env = false) (Ha : adapter_answers env)
    (Hnd : NoDup (snapshot_slice w)) (Hr : ∀ c, c ∈ snapshot_slice w -> ready w c) :
  ∃ w', run (broadcastExceptWithType env d mt except) w = Some (tt, w') /\
    delivered (mkSendItem mt d) (list_to_set (snapshot_slice w) ∖ list_to_set except)
      (publishes env (if bool_decide (except = []) then adapter_msg AdapterBroadcast mt d
                      else adapter_msg_except mt d (map (fun c => c_ID (client w c)) except)))
      w w'.
Proof.
  unfold broadcastExceptWithType, loadSnapshot. run_simpl. fold (snapshot_slice w).
  set (x := mkSendItem mt d).
  destruct (run_broadcastExceptClients (snapshot_slice w) x except w Hpar Hr) as (evs & H1 & Hp1).
  rewrite H1. cbn beta iota. set (l := base.filter _ _) in *.
  destruct (run_publish_except (adapter_msg_except mt d) (adapter_msg AdapterBroadcast mt d) except
    (emits evs (deliver_all env x l w)) Ha) as (evs' & H2 & Hp2).
  rewrite H2, emits_app. eexists. split; [done|].
  apply delivered_intro; [by apply NoDup_filter|..].
  - intros c. subst l. rewrite list_elem_of_filter, elem_of_difference, !elem_of_list_to_set. naive_solver.
  - rewrite published_app, Hp1, app_nil_r, Hp2.
    by rewrite (map_ext _ _ (c_ID_deliver_all x evs l w)).
Qed.
End Sequential.
