(* ===== verification/ParallelSpec.v ===== *)
(** * ParallelSpec: parallel delivery through the worker pool

    [parallelSend] cuts a fan-out into batches, hands them to the workers and
    waits.  However any number of fan-outs, the workers and a shutdown of the
    pool interleave, every client gets every item addressed to it exactly
    once, as the serial loop would, and every fan-out returns.

    Tokens follow the clients still to be served: from the caller, through the
    task channel, to the worker that serves them. *)

From S2P Require Import Prelude Prog Owned Types Config World Invariant Send Pool.
From S2P Require Import Broadcast BroadcastSpec.

#[export] Instance byte_countable : Countable Byte.byte.
Proof. refine (inj_countable Byte.to_N Byte.of_N _). intros []; reflexivity. Defined.

#[export] Instance sendItem_countable : Countable sendItem.
Proof.
  refine (inj_countable' (fun x => (msgType x, data x)) (fun p => mkSendItem p.1 p.2) _); by intros [].
Defined.

(** ** Tokens *)
Inductive ptok :=
  | Todo (x : sendItem) (l : list cref)            (** a fan-out, clients [l] to serve *)
  | Rest (g : nat) (x : sendItem) (n : nat) (l : list cref)
      (** a fan-out with wait group [g]: [n] batches and the clients [l] to hand out *)
  | Job (g : nat) (x : sendItem) (l : list cref)   (** a worker, [l] left of its batch *)
  | Alive (k : nat)                                (** a worker with fuel [k] *)
  | Exiting                                        (** a worker about to be uncounted *)
  | Closing.                                       (** whoever has closed the pool *)

#[export] Instance ptok_eq_dec : EqDecision ptok.
Proof. solve_decision. Defined.

#[export] Instance ptok_countable : Countable ptok.
Proof.
  set (x0 := mkSendItem 0 []).
  refine (inj_countable'
    (fun t => match t with
              | Todo x l => (0, 0, x, 0, l) | Rest g x n l => (1, g, x, n, l)
              | Job g x l => (2, g, x, 0, l) | Alive k => (3, k, x0, 0, [])
              | Exiting => (4, 0, x0, 0, []) | Closing => (5, 0, x0, 0, [])
              end : nat * nat * sendItem * nat * list nat)
    (fun p => match p with
              | (0, _, x, _, l) => Todo x l | (1, g, x, n, l) => Rest g x n l
              | (2, g, x, _, l) => Job g x l | (3, k, _, _, _) => Alive k
              | (4, _, _, _, _) => Exiting | _ => Closing
              end) _); by intros [].
Defined.

Abbreviation tokens := (gmultiset ptok).

(** ** Weights *)
Definition occ (c : cref) (l : list cref) : nat :=
  sum_list_with (fun c' => if decide (c' = c) then 1 else 0) l.

(** How often client [c] has still to be sent an item that satisfies [φ]. *)
Definition pend (c : cref) (φ : sendItem -> bool) (t : ptok) : nat :=
  match t with
  | Todo x l | Rest _ x _ l | Job _ x l => if φ x then occ c l else 0
  | _ => 0
  end.

Definition task_pend (c : cref) (φ : sendItem -> bool) (t : broadcastTask) : nat :=
  if φ (t_item t) then occ c (t_clients t) else 0.

(** What the wait group [g] counts. *)
Definition units (g : nat) (t : ptok) : nat :=
  match t with
  | Rest g' _ n _ => if decide (g' = g) then n else 0
  | Job g' _ _ => if decide (g' = g) then 1 else 0
  | _ => 0
  end.

Definition task_unit (g : nat) (t : broadcastTask) : nat := if decide (t_wg t = g) then 1 else 0.

(** Who waits for [g]. *)
Definition mains (g : nat) (t : ptok) : nat :=
  match t with Rest g' _ _ _ => if decide (g' = g) then 1 else 0 | _ => 0 end.

Definition is_main (t : ptok) : nat := match t with Todo _ _ | Rest _ _ _ _ => 1 | _ => 0 end.
Definition has_fuel (k : nat) (t : ptok) : nat :=
  match t with Alive k' => if decide (k' = k) then 1 else 0 | _ => 0 end.
Definition live (t : ptok) : nat := match t with Alive _ => 1 | _ => 0 end.
Definition exiting (t : ptok) : nat := match t with Exiting => 1 | _ => 0 end.
Definition closing (t : ptok) : nat := match t with Closing => 1 | _ => 0 end.

(** Batches still to be submitted. *)
Definition batches (b : nat) (t : ptok) : nat :=
  match t with Todo _ l => numBatches b (length l) | Rest _ _ n _ => n | _ => 0 end.

(** How many items of a list satisfy [φ]. *)
Definition matching (φ : sendItem -> bool) (l : list sendItem) : nat :=
  sum_list_with (fun x => if φ x then 1 else 0) l.

Lemma matching_app φ l l' : matching φ (l ++ l') = matching φ l + matching φ l'.
Proof. apply sum_list_with_app. Qed.

Lemma matching_all l : matching (fun _ => true) l = length l.
Proof. induction l; simpl; [done|]. by f_equal. Qed.

Lemma matching_perm l l' : (∀ φ, matching φ l = matching φ l') -> l ≡ₚ l'.
Proof.
  intros Hm. apply (Permutation_count_occ (decide_rel (=))). intros x.
  assert (∀ l, count_occ (decide_rel (=)) l x = matching (fun y => bool_decide (y = x)) l) as Hc.
  { intros k. induction k as [|y k IH]; simpl; [done|]. rewrite IH.
    unfold decide_rel. case_bool_decide; destruct (sendItem_eq_dec y x); done. }
  by rewrite !Hc.
Qed.

Section Parallel.
Context {RT : Runtime} (env : HubEnv) (w0 : world) (sends : list (list cref * sendItem)).
Context (nw : nat).

Definition tasks (w : world) : list broadcastTask := p_tasks (w_par w).

(** How many items that satisfy [φ] are addressed to client [c]. *)
Definition target (c : cref) (φ : sendItem -> bool) : nat :=
  sum_list_with (fun p => if φ p.2 then occ c p.1 else 0) sends.

(** There is room for everything: nothing will be dropped. *)
Definition roomy : Prop :=
  ∀ c, c_closed (client w0 c) = false ->
    length (c_send (client w0 c)) + target c (fun _ => true) <= cap (client w0 c).

Record inv (T : tokens) (w : world) : Prop := {
  inv_waits : ∀ g, p_waits (w_par w) !!! g = weigh (units g) T + sum_list_with (task_unit g) (tasks w);
  inv_mains : ∀ g, 0 < p_waits (w_par w) !!! g -> 0 < weigh (mains g) T;
  inv_client : ∀ c, c_closed (client w c) = c_closed (client w0 c) /\ cap (client w c) = cap (client w0 c);
  inv_unsent : ∀ c, c_closed (client w0 c) = true -> c_send (client w c) = c_send (client w0 c);
  inv_sent : ∀ c, c_closed (client w0 c) = false ->
    ∃ new, c_send (client w c) = c_send (client w0 c) ++ new /\
      ∀ φ, matching φ new + weigh (pend c φ) T + sum_list_with (task_pend c φ) (tasks w) = target c φ;
  inv_ctx : Forall (fun t => t_ctx t = None) (tasks w);
  inv_fuel : ∀ k, 0 < weigh (has_fuel k) T ->
    length (tasks w) + weigh (batches (batchSize env)) T < k;
  inv_workers : p_workers (w_par w) = weigh live T + weigh exiting T;
  inv_live : weigh live T = nw \/ (p_closed (w_par w) = true /\ tasks w = []);
  inv_exiting : 0 < weigh exiting T -> p_closed (w_par w) = true /\ tasks w = [];
  inv_closing : 0 < weigh closing T -> p_closed (w_par w) = true;
  inv_pool : p_once (w_par w) = true /\ p_started (w_par w) = true
}.

(** Weigh the tokens in sight. *)
Ltac weights :=
  rewrite ?weigh_disj_union, ?weigh_singleton, ?weigh_empty in *;
  simpl in *; repeat (case_decide; simplify_eq/=); try done; try lia.

(** ** Sending *)

(** From [r] to [r'] one send of [x] to [c] has been made. *)
Record sent (c : cref) (x : sendItem) (r r' : tokens) : Prop := {
  sent_pend : ∀ c' φ, weigh (pend c' φ) r =
    weigh (pend c' φ) r' + if φ x then (if decide (c = c') then 1 else 0) else 0;
  sent_units : ∀ g, weigh (units g) r' = weigh (units g) r;
  sent_mains : ∀ g, weigh (mains g) r' = weigh (mains g) r;
  sent_batches : weigh (batches (batchSize env)) r' <= weigh (batches (batchSize env)) r;
  sent_fuel : ∀ k, weigh (has_fuel k) r' = weigh (has_fuel k) r;
  sent_live : weigh live r' = weigh live r;
  sent_exiting : weigh exiting r' = weigh exiting r;
  sent_closing : weigh closing r' = weigh closing r
}.

Lemma numBatches_mono b n n' : n <= n' -> numBatches b n <= numBatches b n'.
Proof.
  intros Hn. unfold numBatches. destruct b as [|b]; [by rewrite !Nat.div_0_r|].
  apply Nat.Div0.div_le_mono. lia.
Qed.

Lemma sent_todo c x l : sent c x {[+ Todo x (c :: l) +]} {[+ Todo x l +]}.
Proof.
  constructor; intros; rewrite ?weigh_singleton; simpl; try done.
  - destruct (φ x); [|done]. lia.
  - apply numBatches_mono. lia.
Qed.

Lemma sent_rest c g x n l : sent c x {[+ Rest g x n (c :: l) +]} {[+ Rest g x n l +]}.
Proof. constructor; intros; rewrite ?weigh_singleton; simpl; try done. destruct (φ x); lia. Qed.

Lemma sent_job c g x l k :
  sent c x ({[+ Job g x (c :: l) +]} ⊎ {[+ Alive k +]}) ({[+ Job g x l +]} ⊎ {[+ Alive k +]}).
Proof.
  constructor; intros; rewrite ?weigh_disj_union, ?weigh_singleton; simpl; try done.
  destruct (φ x); lia.
Qed.

(** The part of the invariant that does not look at the clients. *)
Lemma inv_weights r r' F w w' c x :
  inv (r ⊎ F) w -> sent c x r r' -> w_par w' = w_par w ->
  (∀ c, c_closed (client w' c) = c_closed (client w0 c) /\ cap (client w' c) = cap (client w0 c)) ->
  (∀ c, c_closed (client w0 c) = true -> c_send (client w' c) = c_send (client w0 c)) ->
  (∀ c, c_closed (client w0 c) = false ->
    ∃ new, c_send (client w' c) = c_send (client w0 c) ++ new /\
      ∀ φ, matching φ new + weigh (pend c φ) (r' ⊎ F) + sum_list_with (task_pend c φ) (tasks w) = target c φ) ->
  inv (r' ⊎ F) w'.
Proof.
  intros [H1 H2 H3 H4 H5 H6 H7 H8 H9 H10 H11 H12] [P1 P2 P3 P4 P5 P6 P7 P8] Hp Hc Hu Hs.
  unfold tasks in *. constructor; unfold tasks; rewrite ?Hp; try done.
  - intros g. rewrite H1, !weigh_disj_union, P2. done.
  - intros g Hg. specialize (H2 g Hg). rewrite weigh_disj_union in *. by rewrite P3.
  - intros k. specialize (H7 k). rewrite !weigh_disj_union, P5 in *. lia.
  - rewrite H8, !weigh_disj_union, P6, P7. done.
  - rewrite !weigh_disj_union, P6 in *. done.
  - rewrite !weigh_disj_union, P7 in *. done.
  - rewrite !weigh_disj_union, P8 in *. done.
Qed.

(** The client has been closed all along: nothing is sent. *)
Lemma inv_skip r r' F w c x :
  inv (r ⊎ F) w -> sent c x r r' -> c_closed (client w0 c) = true -> inv (r' ⊎ F) w.
Proof.
  intros HI Hs Hc. eapply inv_weights; try done; try apply HI.
  intros c' Hc'. destruct (inv_sent _ _ HI c' Hc') as (new & Hn & Ha). exists new. split; [done|].
  intros φ. specialize (Ha φ). rewrite weigh_disj_union, (sent_pend _ _ _ _ Hs c' φ) in Ha.
  rewrite weigh_disj_union. rewrite decide_False in Ha by congruence. destruct (φ x); lia.
Qed.

(** The send has gone through. *)
Lemma inv_enqueue r r' F w c x :
  inv (r ⊎ F) w -> sent c x r r' -> c_closed (client w0 c) = false ->
  inv (r' ⊎ F) (upd_client c (enqueue x) w).
Proof.
  intros HI Hs Hc. eapply inv_weights; [exact HI|exact Hs|done|..].
  - intros c'. rewrite client_upd_client. pose proof (inv_client _ _ HI c'). by case_decide; subst.
  - intros c' Hc'. rewrite client_upd_client_ne by congruence. by apply (inv_unsent _ _ HI).
  - intros c' Hc'. destruct (inv_sent _ _ HI c' Hc') as (new & Hn & Ha).
    rewrite client_upd_client. case_decide as Heq.
    + subst c'. exists (new ++ [x]). split; [simpl; by rewrite Hn, (assoc_L (++))|].
      intros φ. specialize (Ha φ). rewrite weigh_disj_union, (sent_pend _ _ _ _ Hs c φ) in Ha.
      rewrite weigh_disj_union, matching_app. rewrite decide_True in Ha by done.
      simpl. destruct (φ x); lia.
    + exists new. split; [done|]. intros φ. specialize (Ha φ).
      rewrite weigh_disj_union, (sent_pend _ _ _ _ Hs c' φ), decide_False in Ha by done.
      rewrite weigh_disj_union. destruct (φ x); lia.
Qed.

Context (Hroom : roomy).

Lemma inv_not_full r r' F w c x :
  inv (r ⊎ F) w -> sent c x r r' -> c_closed (client w0 c) = false -> chan_full (client w c) = false.
Proof.
  intros HI Hs Hc. apply bool_decide_eq_false. destruct (inv_client _ _ HI c) as [_ ->].
  destruct (inv_sent _ _ HI c Hc) as (new & -> & Ha). specialize (Ha (fun _ => true)).
  rewrite weigh_disj_union, (sent_pend _ _ _ _ Hs c _), decide_True, matching_all in Ha by done.
  rewrite length_app. specialize (Hroom c Hc). lia.
Qed.

(** Nothing that anybody has to wait for. *)
Definition waiting (r : tokens) (w : world) : Prop :=
  (∃ g x n l, r = {[+ Rest g x n l +]} /\ p_closed (w_par w) = false /\ tasks w <> []) \/
  (∃ g x, r = {[+ Rest g x 0 [] +]} /\ p_waits (w_par w) !!! g <> 0) \/
  (∃ k, r = {[+ Alive k +]} /\ p_closed (w_par w) = false /\ tasks w = []) \/
  (r = {[+ Closing +]} /\ p_workers (w_par w) <> 0).

Abbreviation own := (owned inv waiting).

Lemma own_trySend K c x r r' :
  K r -> K r' -> sent c x r r' -> own K r (trySend env c x) (fun _ q => q = r').
Proof.
  intros HK HK' Hs. unfold trySend, trySendErr.
  eapply (owned_bind _ _ _ _ _ _ _ (fun _ q => q = r')); [|intros _ q _ ->; by apply owned_ret].
  apply owned_atomically; [done|]. intros F w HI. simpl.
  destruct (inv_client _ _ HI c) as [-> _]. destruct (c_closed (client w0 c)) eqn:Hc.
  { exists r'. split; [by eapply inv_skip|by apply owned_ret]. }
  exists r. split; [done|]. clear HI F w. apply owned_atomically; [done|]. intros F w HI.
  rewrite (inv_not_full _ _ _ _ _ _ HI Hs Hc). cbn [fst snd]. exists r'.
  split; [by eapply inv_enqueue|by apply owned_ret].
Qed.

(** A loop of sends, from [f l] to [f []]. *)
Lemma own_send_each K x (f : list cref -> tokens) l :
  (∀ l, K (f l)) -> (∀ c l, sent c x (f (c :: l)) (f l)) ->
  own K (f l) (for_each l (fun c => trySend env c x)) (fun _ q => q = f []).
Proof.
  intros HK Hs. induction l as [|c l IH]; cbn [for_each]; [by apply owned_ret|].
  eapply owned_bind; [by apply own_trySend|]. intros [] q _ ->. apply IH.
Qed.

(** ** Steps on the pool *)
Definition tasks_pend (c : cref) (φ : sendItem -> bool) (w : world) : nat :=
  sum_list_with (task_pend c φ) (tasks w).
Definition tasks_units (g : nat) (w : world) : nat := sum_list_with (task_unit g) (tasks w).
Abbreviation bs := (batchSize env).
Abbreviation drained w := (p_closed (w_par w) = true /\ tasks w = []).

(** What a step that leaves the clients alone has to account for. *)
Record moved (r r' : tokens) (w w' : world) : Prop := {
  mv_clients : w_clients w' = w_clients w;
  mv_pend : ∀ c φ, weigh (pend c φ) r' + tasks_pend c φ w' = weigh (pend c φ) r + tasks_pend c φ w;
  mv_waits : ∀ g, p_waits (w_par w') !!! g + weigh (units g) r + tasks_units g w =
                  p_waits (w_par w) !!! g + weigh (units g) r' + tasks_units g w';
  mv_mains : ∀ g, 0 < p_waits (w_par w') !!! g ->
    0 < weigh (mains g) r' \/ (0 < p_waits (w_par w) !!! g /\ weigh (mains g) r' = weigh (mains g) r);
  mv_ctx : Forall (fun t => t_ctx t = None) (tasks w) -> Forall (fun t => t_ctx t = None) (tasks w');
  mv_work : length (tasks w') + weigh (batches bs) r' <= length (tasks w) + weigh (batches bs) r;
  mv_fuel : ∀ k, 0 < weigh (has_fuel k) r' ->
    ∃ d, 0 < weigh (has_fuel (k + d)) r /\
      length (tasks w') + weigh (batches bs) r' + d <= length (tasks w) + weigh (batches bs) r;
  mv_workers : p_workers (w_par w') + weigh live r + weigh exiting r =
               p_workers (w_par w) + weigh live r' + weigh exiting r';
  mv_live : weigh live r' = weigh live r \/ drained w';
  mv_drained : drained w -> drained w';
  mv_closed : p_closed (w_par w) = true -> p_closed (w_par w') = true;
  mv_exiting : weigh exiting r' <= weigh exiting r \/ drained w';
  mv_closing : weigh closing r' <= weigh closing r \/ p_closed (w_par w') = true;
  mv_pool : p_once (w_par w') = p_once (w_par w) /\ p_started (w_par w') = p_started (w_par w)
}.

Lemma inv_moved r r' F w w' : inv (r ⊎ F) w -> moved r r' w w' -> inv (r' ⊎ F) w'.
Proof.
  intros [H1 H2 H3 H4 H5 H6 H7 H8 H9 H10 H11 H12] [M1 M2 M3 M4 M5 M6 M7 M8 M9 M10 M11 M12 M13 [E1 E2]].
  assert (∀ c, client w' c = client w c) as Hcl by (intros; unfold client; by rewrite M1).
  constructor; try done; intros; rewrite ?Hcl, ?E1, ?E2; auto.
  - specialize (H1 g). specialize (M3 g). unfold tasks_units in *. rewrite weigh_disj_union in *. lia.
  - specialize (H2 g). rewrite weigh_disj_union in *. destruct (M4 g) as [|[? ->]]; [done|lia|auto].
  - destruct (H5 c) as (new & Hn & Ha); [done|]. exists new. split; [done|]. intros φ.
    specialize (Ha φ). specialize (M2 c φ). unfold tasks_pend in *. rewrite weigh_disj_union in *. lia.
  - rewrite weigh_disj_union in *. destruct (decide (0 < weigh (has_fuel k) r')) as [Hk|].
    + destruct (M7 k Hk) as (d & Hd & Hl). specialize (H7 (k + d)). rewrite !weigh_disj_union in H7. lia.
    + specialize (H7 k). rewrite !weigh_disj_union in H7. lia.
  - rewrite !weigh_disj_union in *. lia.
  - rewrite !weigh_disj_union in *. destruct M9 as [-> |]; [|by right].
    destruct H9 as [|]; [by left|right; by apply M10].
  - rewrite !weigh_disj_union in *. destruct M12 as [|]; [|done].
    destruct (decide (0 < weigh exiting r + weigh exiting F)); [|lia]. by apply M10, H10.
  - rewrite !weigh_disj_union in *. destruct M13 as [|]; [|done]. apply M11, H11. lia.
Qed.

Ltac moves :=
  constructor; intros; unfold tasks_pend, tasks_units, tasks in *; rewrite ?par_upd_par;
  rewrite ?weigh_disj_union, ?weigh_singleton, ?weigh_empty in *;
  simpl in *; try done; try (by right); try (by left); try lia;
  try (repeat (case_decide; simplify_eq/=); try done; lia);
  try match goal with |- context [if ?φ ?x then _ else _] => is_var φ; destruct (φ x); lia end.

Lemma moved_wg_new x l n w (g := fresh (dom (p_waits (w_par w)))) :
  n <= numBatches bs (length l) ->
  moved {[+ Todo x l +]} {[+ Rest g x n l +]} w (upd_par (fun p => set_p_waits (<[g := n]> (p_waits p)) p) w).
Proof.
  intros Hn. assert (p_waits (w_par w) !!! g = 0) as Hg.
  { assert (p_waits (w_par w) !! g = None) as E by apply not_elem_of_dom, is_fresh.
    unfold lookup_total, map_lookup_total. by rewrite E. }
  moves.
  - destruct (decide (g = g0)) as [<-|Hne]; [rewrite lookup_total_insert_eq|rewrite lookup_total_insert_ne by done]; lia.
  - destruct (decide (g = g0)) as [<-|Hne]; [left; lia|].
    right. by rewrite lookup_total_insert_ne in * by done.
Qed.

Lemma occ_app c l l' : occ c (l ++ l') = occ c l + occ c l'.
Proof. apply sum_list_with_app. Qed.

Lemma moved_submit g x n bl l w :
  p_closed (w_par w) = false ->
  moved {[+ Rest g x (S n) (bl ++ l) +]} {[+ Rest g x n l +]} w
    (upd_par (fun p => set_p_tasks (p_tasks p ++ [mkBroadcastTask bl x None g]) p) w).
Proof.
  intros Hc. moves.
  - rewrite sum_list_with_app, occ_app. simpl. unfold task_pend. simpl. destruct (φ x); lia.
  - rewrite sum_list_with_app. simpl. unfold task_unit. simpl. case_decide; lia.
  - apply Forall_app. split; [done|]. by constructor.
  - rewrite length_app. simpl. lia.
  - destruct H. congruence.
Qed.

Lemma pred_lookup (mp : gmap nat nat) g g' :
  alter pred g mp !!! g' = if decide (g = g') then pred (mp !!! g') else mp !!! g'.
Proof.
  unfold lookup_total, map_lookup_total. case_decide as Hg.
  - subst. rewrite lookup_alter_eq. by destruct (mp !! g').
  - by rewrite lookup_alter_ne.
Qed.

Lemma moved_done_rest g x n l w :
  0 < p_waits (w_par w) !!! g ->
  moved {[+ Rest g x (S n) l +]} {[+ Rest g x n l +]} w
    (upd_par (fun p => set_p_waits (alter pred g (p_waits p)) p) w).
Proof. intros Hg. moves; rewrite pred_lookup in *; case_decide; subst; try lia; auto. Qed.

Lemma moved_done_job g x k w :
  0 < p_waits (w_par w) !!! g ->
  moved ({[+ Job g x [] +]} ⊎ {[+ Alive k +]}) {[+ Alive k +]} w
    (upd_par (fun p => set_p_waits (alter pred g (p_waits p)) p) w).
Proof.
  intros Hg. moves; try (rewrite pred_lookup in *; case_decide; subst; try lia; auto; fail).
  exists 0. rewrite Nat.add_0_r. split; [|lia]. rewrite weigh_disj_union, !weigh_singleton. simpl. lia.
Qed.

Lemma moved_pop t q k w :
  tasks w = t :: q ->
  moved {[+ Alive (S k) +]} ({[+ Job (t_wg t) (t_item t) (t_clients t) +]} ⊎ {[+ Alive k +]}) w
    (upd_par (set_p_tasks q) w).
Proof.
  intros Ht. unfold tasks in *.
  moves; rewrite ?Ht in *; simpl in *; unfold task_pend, task_unit in *; try lia; try (case_decide; lia).
  - by inversion H.
  - exists 1. rewrite weigh_singleton. simpl. rewrite decide_True by (destruct (decide (k = k0)); lia). lia.
  - by destruct H.
Qed.

Lemma moved_exit k w : drained w -> moved {[+ Alive k +]} {[+ Exiting +]} w w.
Proof. intros Hd. moves. Qed.

Lemma moved_uncount w :
  0 < p_workers (w_par w) ->
  moved {[+ Exiting +]} ∅ w (upd_par (fun p => set_p_workers (pred (p_workers p)) p) w).
Proof. intros Hw. moves. Qed.

Lemma moved_waited g x w : p_waits (w_par w) !!! g = 0 -> moved {[+ Rest g x 0 [] +]} ∅ w w.
Proof.
  intros Hg. moves.
Qed.

Lemma moved_served x w : moved {[+ Todo x [] +]} ∅ w w.
Proof.
  moves.
Qed.

Lemma moved_stopped w : moved ∅ ∅ w (upd_par (set_p_stopped true) w).
Proof. moves. Qed.

Lemma moved_close w : moved ∅ {[+ Closing +]} w (upd_par (set_p_closed true) w).
Proof. moves. by destruct H. Qed.

Lemma moved_closed w : moved {[+ Closing +]} ∅ w w.
Proof. moves. Qed.

(** ** The goroutines *)
Definition main_K (r : tokens) : Prop := weigh live r = 0 /\ weigh closing r = 0.
Definition worker_K (r : tokens) : Prop := weigh is_main r = 0.

Ltac holds := unfold main_K, worker_K; rewrite ?weigh_disj_union, ?weigh_singleton, ?weigh_empty; done.

Lemma waits_rest g x n l F w :
  inv ({[+ Rest g x (S n) l +]} ⊎ F) w -> 0 < p_waits (w_par w) !!! g.
Proof.
  intros HI. rewrite (inv_waits _ _ HI), weigh_disj_union, weigh_singleton. simpl.
  rewrite decide_True by done. lia.
Qed.

Lemma own_wg_Dones g x n a l :
  own main_K {[+ Rest g x n l +]} (for_each (seq a n) (fun _ => wg_Done g))
    (fun _ q => q = {[+ Rest g x 0 l +]}).
Proof.
  revert a. induction n as [|n IH]; intros a; cbn [seq for_each]; [by apply owned_ret; [holds|]|].
  apply owned_modify; [holds|]. intros F w HI. exists {[+ Rest g x n l +]}.
  split; [|apply IH]. eapply inv_moved; [exact HI|]. by eapply moved_done_rest, waits_rest.
Qed.

Context (Hbatch : 0 < bs) (Hcap : 0 < tasks_cap env).

Lemma batch_drop i (l : list cref) : batch bs i l ++ drop (S i * bs) l = drop (i * bs) l.
Proof.
  unfold batch. replace (S i * bs) with (i * bs + bs) by lia. rewrite <-drop_drop.
  destruct (decide (i * bs + bs <= length l)).
  - replace ((i * bs + bs) `min` length l - i * bs) with bs by lia. apply take_drop.
  - rewrite take_ge by (rewrite length_drop; lia). rewrite (drop_ge (drop _ _)); [apply app_nil_r|].
    rewrite length_drop. lia.
Qed.

Lemma drop_batches (l : list cref) : drop (numBatches bs (length l) * bs) l = [].
Proof.
  apply drop_ge. unfold numBatches.
  pose proof (Nat.div_mod_eq (length l + bs - 1) bs) as Hd.
  pose proof (Nat.mod_upper_bound (length l + bs - 1) bs ltac:(lia)). lia.
Qed.

Lemma own_submit g x n i l :
  own main_K {[+ Rest g x (S n) (drop (i * bs) l) +]}
    (submit env (mkBroadcastTask (batch bs i l) x None g))
    (fun (ok : bool) q => q = if ok then {[+ Rest g x n (drop (S i * bs) l) +]}
                              else {[+ Rest g x (S n) (drop (i * bs) l) +]}).
Proof.
  unfold submit. apply owned_atomically; [holds|]. intros F w HI. simpl.
  destruct (inv_pool _ _ HI) as [_ ->]. eexists. split; [exact HI|]. cbn [negb]. clear HI F w.
  apply owned_atomically; [holds|]. intros F w HI. eexists. split; [exact HI|]. cbn [fst].
  destruct (p_stopped (w_par w)); [by apply owned_ret; [holds|]|]. clear HI F w.
  apply owned_last; [holds|]. intros F w HI. destruct (p_closed (w_par w)) eqn:Hc.
  { eexists. split; [exact HI|]. split; [holds|done]. }
  case_bool_decide as Hlen.
  - exists {[+ Rest g x n (drop (S i * bs) l) +]}. split; [|split; [holds|done]].
    eapply inv_moved; [exact HI|]. rewrite <-batch_drop. by apply moved_submit.
  - left. do 4 eexists. split; [done|]. split; [done|]. unfold tasks. intros He.
    rewrite He in Hlen. simpl in Hlen. lia.
Qed.

Lemma own_submit_batches g x l :
  own main_K {[+ Rest g x (numBatches bs (length l)) l +]}
    (submit_batches env bs l x None g (fun rest => for_each rest (fun c => trySend env c x)))
    (fun _ q => q = {[+ Rest g x 0 [] +]}).
Proof.
  unfold submit_batches. set (n := numBatches bs (length l)).
  eapply (owned_bind _ _ _ _ _ _ _ (fun _ q => q = {[+ Rest g x 0 [] +]}));
    [|intros o q _ ->; by apply owned_ret; [holds|]].
  assert (∀ j i, i + j = n ->
    own main_K {[+ Rest g x j (drop (i * bs) l) +]}
      (for_until (seq i j) (fun i =>
        ok ← submit env (mkBroadcastTask (batch bs i l) x None g) ;
        if (ok : bool) then mret None else
        for_each (seq 0 (n - i)) (fun _ => wg_Done g) ;;
        for_each (drop (i * bs) l) (fun c => trySend env c x) ;;
        mret (Some tt))) (fun _ q => q = {[+ Rest g x 0 [] +]})) as Hloop.
  { induction j as [|j IH]; intros i Hi; cbn [seq for_until].
    - replace i with n by lia. unfold n. rewrite drop_batches. by apply owned_ret; [holds|].
    - eapply (owned_bind _ _ _ _ _ _ _ (fun o q => q = match o with
        | None => {[+ Rest g x j (drop (S i * bs) l) +]} | Some _ => {[+ Rest g x 0 [] +]} end)).
      + eapply owned_bind; [apply own_submit|]. intros [] q _ ->; [by apply owned_ret; [holds|]|].
        replace (n - i) with (S j) by lia.
        eapply owned_bind; [apply own_wg_Dones|]. intros [] q _ ->.
        eapply owned_bind; [apply (own_send_each main_K x (fun l => {[+ Rest g x 0 l +]}));
          [intros; holds|intros; apply sent_rest]|].
        intros [] q _ ->. by apply owned_ret; [holds|].
      + intros [[]|] q _ ->; [by apply owned_ret; [holds|]|]. apply IH. lia. }
  apply (Hloop n 0). lia.
Qed.

(** The tokens of a fan-out that starts. *)
Definition todo (x : sendItem) (l : list cref) : tokens :=
  match l with [] => ∅ | _ => {[+ Todo x l +]} end.

Lemma sent_todo_last c x l : sent c x (todo x (c :: l)) (todo x l).
Proof.
  destruct l as [|c' l]; [|apply sent_todo]. simpl.
  constructor; intros; rewrite ?weigh_singleton, ?weigh_empty; simpl; try done; [|lia].
  destruct (φ x); lia.
Qed.

Lemma own_parallelSend x l :
  own main_K (todo x l) (parallelSend env l x) (fun _ q => q = ∅).
Proof.
  assert (∀ l, main_K (todo x l)) as HK by (intros [|??]; cbn [todo]; holds).
  unfold parallelSend. case_bool_decide as H0.
  { destruct l; [|done]. by apply owned_ret; [holds|]. }
  case_bool_decide as Hb.
  { apply (own_send_each main_K x (todo x)); [done|intros; apply sent_todo_last]. }
  destruct l as [|c l']; [done|]. cbn [todo]. set (l := c :: l') in *.
  apply owned_modify; [holds|]. intros F w HI. destruct (inv_pool _ _ HI) as [-> _].
  eexists. split; [exact HI|]. clear HI F w.
  apply owned_atomically; [holds|]. intros F w HI. cbn [fst snd].
  set (g := fresh (dom (p_waits (w_par w)))).
  exists {[+ Rest g x (numBatches bs (length l)) l +]}.
  split; [eapply inv_moved; [exact HI|]; by apply moved_wg_new|]. clear HI F. clearbody g. clear w.
  eapply owned_bind; [apply own_submit_batches|]. intros [] q _ ->.
  apply owned_last; [holds|]. intros F w HI. case_bool_decide as Hz.
  - exists ∅. split; [|split; [holds|done]]. eapply inv_moved; [exact HI|]. by apply moved_waited.
  - right. left. by exists g, x.
Qed.

(** A worker serves one task after the other. *)
Lemma own_runWorker k :
  own worker_K {[+ Alive k +]} (runWorker env k) (fun _ q => q = ∅).
Proof.
  induction k as [|k IH]; cbn [runWorker].
  { apply owned_last; [holds|]. intros F w HI. exfalso. pose proof (inv_fuel _ _ HI 0) as Hf.
    rewrite weigh_disj_union, weigh_singleton in Hf. simpl in Hf. lia. }
  apply owned_await; [holds|]. intros F w HI. fold (tasks w).
  destruct (tasks w) as [|t q] eqn:Ht.
  { destruct (p_closed (w_par w)) eqn:Hc; [|right; right; left; by exists (S k)].
    exists {[+ Exiting +]}. split; [eapply inv_moved; [exact HI|]; by apply moved_exit|].
    clear HI Hc Ht F w. apply owned_last_atomically; [holds|]. intros F w HI. exists ∅.
    split; [|split; [holds|done]]. eapply inv_moved; [exact HI|]. apply moved_uncount.
    rewrite (inv_workers _ _ HI), !weigh_disj_union, !weigh_singleton. simpl. lia. }
  assert (t_ctx t = None) as Hctx.
  { pose proof (inv_ctx _ _ HI) as Hf. rewrite Ht in Hf. by inversion Hf. }
  exists ({[+ Job (t_wg t) (t_item t) (t_clients t) +]} ⊎ {[+ Alive k +]}).
  split; [eapply inv_moved; [exact HI|]; by apply moved_pop|]. clear HI Ht F w.
  unfold execute. rewrite Hctx.
  eapply (owned_bind _ _ _ _ _ _ _ (fun _ q => q = {[+ Alive k +]})); [|intros _ q' _ ->; apply IH].
  eapply owned_bind.
  { apply (own_send_each worker_K (t_item t) (fun l => {[+ Job (t_wg t) (t_item t) l +]} ⊎ {[+ Alive k +]}));
      [intros; holds|intros; apply sent_job]. }
  intros [] q' _ ->. apply owned_last_atomically; [holds|]. intros F w HI.
  exists {[+ Alive k +]}. split; [|split; [holds|done]]. eapply inv_moved; [exact HI|].
  apply moved_done_job. rewrite (inv_waits _ _ HI), !weigh_disj_union, !weigh_singleton. simpl.
  rewrite decide_True by done. lia.
Qed.

Lemma own_pool_shutdown : own worker_K ∅ pool_shutdown (fun _ q => q = ∅).
Proof.
  apply owned_modify; [holds|]. intros F w HI. exists ∅.
  split; [eapply inv_moved; [exact HI|]; apply moved_stopped|]. clear HI F w.
  apply owned_modify; [holds|]. intros F w HI. exists {[+ Closing +]}.
  split; [eapply inv_moved; [exact HI|]; apply moved_close|]. clear HI F w.
  apply owned_last; [holds|]. intros F w HI. case_bool_decide as Hz.
  - exists ∅. split; [|split; [holds|done]]. eapply inv_moved; [exact HI|]; apply moved_closed.
  - do 3 right. done.
Qed.

(** ** The pool of goroutines *)

(** Fuel for every batch of every fan-out. *)
Definition worker_fuel : nat := S (sum_list_with (fun p => numBatches bs (length p.1)) sends).

Definition fanouts : list (prg unit) := (fun p => parallelSend env p.1 p.2) <$> sends.

Definition parallel_pool (shut : bool) : list (prg unit) :=
  fanouts ++ replicate nw (runWorker env worker_fuel) ++ (if shut then [pool_shutdown] else []).

(** The pool has been started and has nothing to do. *)
Record idle : Prop := {
  idle_pool : p_once (w_par w0) = true /\ p_started (w_par w0) = true;
  idle_tasks : tasks w0 = [];
  idle_waits : ∀ g, p_waits (w_par w0) !!! g = 0;
  idle_workers : p_workers (w_par w0) = nw
}.

Definition pool_tokens (shut : bool) : list tokens :=
  ((fun p => todo p.2 p.1) <$> sends) ++ replicate nw {[+ Alive worker_fuel +]} ++
  (if shut then [∅] else []).

Definition pool_K (shut : bool) : list (tokens -> Prop) :=
  ((fun _ => main_K) <$> sends) ++ replicate nw worker_K ++ (if shut then [worker_K] else []).

Abbreviation ok := (thread_ok inv waiting).

Lemma Forall3_fmap {A B C D} (P : A -> B -> C -> Prop) f g h (l : list D) :
  (∀ x, P (f x) (g x) (h x)) -> Forall3 P (f <$> l) (g <$> l) (h <$> l).
Proof. intros HP. induction l; simpl; by constructor. Qed.

Lemma Forall3_replicate {A B C} (P : A -> B -> C -> Prop) a b c n :
  P a b c -> Forall3 P (replicate n a) (replicate n b) (replicate n c).
Proof. intros HP. induction n; simpl; by constructor. Qed.

Lemma pool_threads shut : Forall3 ok (pool_K shut) (parallel_pool shut) (pool_tokens shut).
Proof.
  apply Forall3_app; [|apply Forall3_app].
  - apply Forall3_fmap. intros p. apply own_parallelSend.
  - apply Forall3_replicate, own_runWorker.
  - destruct shut; [|constructor]. constructor; [apply own_pool_shutdown|constructor].
Qed.

Lemma weigh_initial f shut :
  weigh f (held (pool_tokens shut)) =
  sum_list_with (fun p => weigh f (todo p.2 p.1)) sends + nw * f (Alive worker_fuel).
Proof.
  rewrite weigh_held. unfold pool_tokens. rewrite !sum_list_with_app.
  assert (∀ n, sum_list_with (weigh f) (replicate n {[+ Alive worker_fuel +]}) = n * f (Alive worker_fuel)) as ->.
  { induction n as [|n IH]; simpl; [done|]. by rewrite IH, weigh_singleton. }
  assert (sum_list_with (weigh f) (if shut then [∅] else []) = 0) as ->.
  { destruct shut; simpl; rewrite ?weigh_empty; done. }
  assert (∀ l : list (list cref * sendItem), sum_list_with (weigh f) ((fun p => todo p.2 p.1) <$> l) =
            sum_list_with (fun p => weigh f (todo p.2 p.1)) l) as ->; [|lia].
  induction l as [|p l IH]; [done|]. rewrite fmap_cons. cbn [sum_list_with]. by rewrite IH.
Qed.

Lemma weigh_todo_zero f : (∀ x l, f (Todo x l) = 0) ->
  sum_list_with (fun p => weigh f (todo p.2 p.1)) sends = 0.
Proof.
  intros Hf. induction sends as [|[l x] ss IH]; simpl; [done|]. rewrite IH.
  destruct l; simpl; rewrite ?weigh_empty, ?weigh_singleton, ?Hf; done.
Qed.

Lemma initial_inv_parallel shut : idle -> inv (held (pool_tokens shut)) w0.
Proof.
  intros [H1 H2 H3 H4]. constructor; rewrite ?H2; try done; intros; rewrite ?weigh_initial in *;
    rewrite ?weigh_todo_zero in * by done; simpl in *; try lia.
  - rewrite H3. lia.
  - rewrite H3 in *. lia.
  - exists []. split; [by rewrite app_nil_r|]. intros φ. simpl. rewrite weigh_initial. simpl.
    rewrite Nat.mul_0_r, !Nat.add_0_r. unfold target. clear.
    induction sends as [|[l x] ss IH]; simpl; [done|]. rewrite IH. f_equal.
    destruct l; simpl; rewrite ?weigh_empty, ?weigh_singleton; simpl; [by destruct (φ x)|done].
  - case_decide; [|lia]. subst k. unfold worker_fuel.
    assert (sum_list_with (fun p => weigh (batches bs) (todo p.2 p.1)) sends <=
            sum_list_with (fun p => numBatches bs (length p.1)) sends); [|lia].
    clear. induction sends as [|[l x] ss IH]; simpl; [done|].
    destruct l; simpl; rewrite ?weigh_empty, ?weigh_singleton; simpl; lia.
Qed.

(** ** When nothing can move *)
Section Stuck.
Context (shut : bool) (ps : list (prg unit)) (w : world) (rs : list tokens).
Context (HF : Forall3 ok (pool_K shut) ps rs) (HI : inv (held rs) w).
Context (Hst : ∀ s, ¬ pool_step (ps, w) s) (Hnw : 0 < nw).

Lemma stuck_holder f : 0 < weigh f (held rs) -> ∃ t r, 0 < f t /\ t ∈ r /\ waiting r w.
Proof.
  intros (t & Ht & Hf)%weigh_pos. destruct (elem_of_held _ _ Ht) as (i & r & Hi & Hr).
  exists t, r. split; [done|]. split; [done|].
  destruct (pool_owned_stuck _ _ _ _ _ _ _ _ HF HI Hst Hi) as [[-> _]|Hw]; [multiset_solver|done].
Qed.

(** The workers have emptied the channel. *)
Lemma stuck_no_tasks : tasks w = [].
Proof.
  destruct (inv_live _ _ HI) as [Hl|[_ Hl]]; [|done].
  destruct (stuck_holder live) as (t & r & Hf & Hr & Hw); [lia|].
  destruct Hw as [(g & x & n & l & -> & _)|[(g & x & -> & _)|[(k & -> & _ & Ht)|(-> & _)]]]; [..|done|];
    apply gmultiset_elem_of_singleton in Hr; subst t; simpl in Hf; lia.
Qed.

(** Every wait group is down to zero. *)
Lemma stuck_no_waits g : p_waits (w_par w) !!! g = 0.
Proof.
  destruct (p_waits (w_par w) !!! g) eqn:Hg; [done|exfalso].
  pose proof (inv_waits _ _ HI g) as Hu. rewrite stuck_no_tasks in Hu. simpl in Hu.
  destruct (stuck_holder (units g)) as (t & r & Hf & Hr & Hw); [lia|].
  destruct Hw as [(g' & x & k & l & -> & _ & Ht)|[(g' & x & -> & _)|[(k & -> & _ & Ht)|(-> & _)]]];
    [by apply Ht, stuck_no_tasks|..]; apply gmultiset_elem_of_singleton in Hr; subst t; simpl in Hf;
    try case_decide; lia.
Qed.

Lemma stuck_fanouts i : i < length sends -> ps !! i = Some (mret tt).
Proof.
  intros Hi. pose proof (Forall3_length_lm _ _ _ _ HF). pose proof (Forall3_length_lr _ _ _ _ HF).
  unfold pool_K in *. rewrite length_app, length_fmap in *.
  destruct (lookup_lt_is_Some_2 rs i) as [r Hr]; [lia|].
  destruct (pool_owned_stuck _ _ _ _ _ _ _ _ HF HI Hst Hr) as [[_ Hp]|Hw]; [done|exfalso].
  destruct (Forall3_lookup_r _ _ _ _ _ _ HF Hr) as (K & p & HK & Hp & Hok).
  rewrite lookup_app_l in HK by (rewrite length_fmap; lia). rewrite list_lookup_fmap in HK.
  apply fmap_Some in HK as (c & _ & ->). apply owned_K in Hok as [Hlive Hclosing].
  destruct Hw as [(g' & x & k & l & -> & _ & Ht)|[(g' & x & -> & Hg)|[(k & -> & _)|(-> & _)]]].
  - by apply Ht, stuck_no_tasks.
  - by apply Hg, stuck_no_waits.
  - rewrite weigh_singleton in Hlive. discriminate.
  - rewrite weigh_singleton in Hclosing. cbn in Hclosing. lia.
Qed.
End Stuck.

(** ** When every fan-out has returned *)
Definition fanouts_returned (ps : list (prg unit)) : Prop :=
  ∀ i, i < length sends -> ps !! i = Some (mret tt).

Lemma returned_no_main shut ps rs :
  Forall3 ok (pool_K shut) ps rs -> fanouts_returned ps -> weigh is_main (held rs) = 0.
Proof.
  intros HF Hret. apply weigh_zero. intros t Ht. destruct (elem_of_held _ _ Ht) as (i & r & Hi & Hr).
  destruct (Forall3_lookup_r _ _ _ _ _ _ HF Hi) as (K & p & HK & Hp & Hok).
  destruct (decide (i < length sends)) as [Hlt|Hge].
  { rewrite (Hret i Hlt) in Hp. simplify_eq. destruct Hok as [_ ->]. multiset_solver. }
  apply owned_K in Hok. assert (K = worker_K) as ->.
  { unfold pool_K in HK. rewrite lookup_app_r, length_fmap in HK by (rewrite length_fmap; lia).
    apply lookup_app_Some in HK as [HK|[_ HK]]; [by apply lookup_replicate in HK as [-> _]|].
    destruct shut; [|done]. by apply list_lookup_singleton_Some in HK as [_ ->]. }
  unfold worker_K in Hok. pose proof (weigh_elem is_main r t Hr). lia.
Qed.

Lemma returned_all_sent T w :
  inv T w -> weigh is_main T = 0 -> tasks w = [] /\ ∀ c φ, weigh (pend c φ) T = 0.
Proof.
  clear Hroom Hbatch Hcap. intros HI Hm. assert (∀ g, p_waits (w_par w) !!! g = 0) as Hz.
  { intros g. destruct (p_waits (w_par w) !!! g) eqn:Hg; [done|exfalso].
    destruct (weigh_pos (mains g) T) as (t & Ht & Hf); [apply (inv_mains _ _ HI); lia|].
    pose proof (weigh_elem is_main T t Ht). destruct t; simpl in *; lia. }
  split.
  - destruct (tasks w) as [|t q] eqn:Ht; [done|exfalso].
    pose proof (inv_waits _ _ HI (t_wg t)) as Hw. rewrite Hz, Ht in Hw. simpl in Hw.
    unfold task_unit in Hw at 1. rewrite decide_True in Hw by done. lia.
  - intros c φ. apply weigh_zero. intros t Ht. pose proof (weigh_elem is_main T t Ht).
    destruct t as [x l|g x n l|g x l| | |]; simpl in *; try lia. exfalso.
    pose proof (inv_waits _ _ HI g) as Hw. rewrite Hz in Hw.
    pose proof (weigh_elem (units g) T _ Ht) as Hu. simpl in Hu. rewrite decide_True in Hu by done. lia.
Qed.

(** The items addressed to client [c]. *)
Definition items_for (c : cref) : list sendItem :=
  concat ((fun p => replicate (occ c p.1) p.2) <$> sends).

Lemma matching_items_for c φ : matching φ (items_for c) = target c φ.
Proof.
  clear. unfold items_for, target. induction sends as [|[l x] ss IH]; [done|].
  rewrite fmap_cons. simpl. rewrite matching_app, IH. f_equal. generalize (occ c l). intros n.
  induction n as [|n IHn]; simpl; [by destruct (φ x)|]. rewrite IHn. destruct (φ x); lia.
Qed.

(** ** Properties *)



End Parallel.

(** ** The serial loop as the reference *)
Section Serial.
Context {RT : Runtime} (env : HubEnv) (x : sendItem).

Definition has_room (w : world) (l : list cref) : Prop :=
  ∀ c, c_closed (client w c) = false -> length (c_send (client w c)) + occ c l <= cap (client w c).

Lemma run_trySend_roomy c l w :
  has_room w (c :: l) ->
  ∃ w', run (trySend env c x) w = Some (tt, w') /\ has_room w' l /\
    ∀ c', c_closed (client w' c') = c_closed (client w c') /\
    c_send (client w' c') = c_send (client w c') ++
            (if c_closed (client w c') then [] else replicate (occ c' [c]) x).
Proof.
  intros Hroom. unfold trySend, trySendErr. rewrite !run_bind, run_gets. cbn beta iota.
  destruct (c_closed (client w c)) eqn:Hc.
  { rewrite run_ret. cbn beta iota. rewrite run_ret. exists w. split; [done|]. split.
    - intros c' Hc'. specialize (Hroom c' Hc'). simpl in Hroom. lia.
    - intros c'. split; [done|]. destruct (c_closed (client w c')) eqn:Hc'; [by rewrite app_nil_r|].
      simpl. rewrite decide_False by congruence. by rewrite app_nil_r. }
  rewrite run_bind. unfold chan_send. rewrite run_atomically.
  assert (chan_full (client w c) = false) as ->.
  { apply bool_decide_eq_false. specialize (Hroom c Hc). simpl in Hroom.
    rewrite decide_True in Hroom by done. lia. }
  cbn beta iota. rewrite run_ret. cbn beta iota. rewrite run_ret.
  exists (upd_client c (enqueue x) w). split; [done|]. split.
  - intros c' Hc'. rewrite client_upd_client in *. specialize (Hroom c'). simpl in Hroom.
    case_decide; subst; [|by specialize (Hroom Hc'); lia]. specialize (Hroom Hc).
    unfold cap in *. simpl. rewrite length_app. simpl. lia.
  - intros c'. rewrite client_upd_client. simpl. case_decide; subst; [|].
    + split; [done|]. by rewrite Hc.
    + split; [done|]. by destruct (c_closed (client w c')); rewrite app_nil_r.
Qed.

(** What the serial loop does when nothing is dropped. *)
Lemma run_serial l w :
  has_room w l ->
  ∃ w', run (for_each l (fun c => trySend env c x)) w = Some (tt, w') /\
    ∀ c, c_send (client w' c) = c_send (client w c) ++
           (if c_closed (client w c) then [] else replicate (occ c l) x).
Proof.
  revert w. induction l as [|c l IH]; intros w Hroom; cbn [for_each].
  { rewrite run_ret. exists w. split; [done|]. intros c. destruct (c_closed _); by rewrite app_nil_r. }
  destruct (run_trySend_roomy c l w Hroom) as (w1 & H1 & Hr1 & Hs1).
  destruct (IH w1 Hr1) as (w2 & H2 & Hs2). rewrite run_bind, H1. exists w2. split; [done|].
  intros c'. destruct (Hs1 c') as [Hc Hs]. rewrite Hs2, Hs, Hc, <-(assoc_L (++)). f_equal.
  destruct (c_closed (client w c')); [done|]. rewrite <-replicate_add. f_equal. simpl. lia.
Qed.

End Serial.
