(* ===== verification/DeliverySpec.v ===== *)
(** * DeliverySpec: room, user and client sends against the abstract state

    The targets of a room broadcast are the members of the room in the
    abstract relation of [RoomSpec]; those of a user send are the connected
    clients of that user, and a client send finds the connected client of that
    ID, by the registry of [RegistrySpec]. *)

From S2P Require Import Prelude Prog Types Config World Invariant Send Client Rooms RoomSpec.
From S2P Require Import Registry RegistrySpec Pool Broadcast BroadcastSpec.

Section Delivery.
Context {RT : Runtime} (env : HubEnv) (Hhook : silent_drop_hook env).
Context (Hpar : useParallel env = false) (Ha : adapter_answers env).
Abbreviation lim := (limits env).

(** The serial dispatch of a fan-out, then its bookkeeping and publication. *)
Lemma run_dispatch_record l x t w :
  (∀ c, c ∈ l -> ready w c) ->
  ∃ evs, run (dispatch env l x;; record_since t) w = Some (tt, emits evs (deliver_all env x l w)) /\
    published evs = [].
Proof.
  intros Hr. unfold dispatch. rewrite Hpar.
  destruct (run_send_each env Hhook l x w Hr) as (evs & H1 & Hp1).
  rewrite run_bind, H1. cbn beta iota.
  destruct (run_record_since t (emits evs (deliver_all env x l w))) as (e & H2 & Hp2).
  rewrite H2, emits_app. eexists. split; [done|]. by rewrite published_app, Hp1, Hp2.
Qed.

Lemma run_publish_emits evs m w :
  published evs = [] ->
  ∃ evs', run (publishToAdapter env m) (emits evs w) = Some (tt, emits evs' w) /\
    published evs' = publishes env m.
Proof.
  intros Hp. destruct (run_publish env m (emits evs w) Ha) as (evs' & -> & Hp').
  rewrite emits_app. eexists. split; [done|]. by rewrite published_app, Hp, Hp', app_nil_r.
Qed.

(** A broadcast reaches the clients of the snapshot. *)
Lemma run_Broadcast d w :
  NoDup (snapshot_slice w) -> (∀ c, c ∈ snapshot_slice w -> ready w c) ->
  ∃ w', run (Broadcast env d) w = Some (tt, w') /\
    delivered env (mkSendItem TextMessage d) (list_to_set (snapshot_slice w))
      (publishes env (adapter_msg AdapterBroadcast TextMessage d)) w w'.
Proof.
  intros Hnd Hr. unfold Broadcast, broadcast, loadSnapshot, time_Now. run_simpl. fold (snapshot_slice w).
  destruct (run_dispatch_record (snapshot_slice w) (mkSendItem TextMessage d) (w_now w) w Hr)
    as (evs & H1 & Hp1).
  rewrite run_bind in H1. rewrite H1. cbn beta iota.
  destruct (run_publish_emits evs (adapter_msg AdapterBroadcast TextMessage d)
    (deliver_all env (mkSendItem TextMessage d) (snapshot_slice w) w) Hp1) as (evs' & -> & Hp2).
  eexists. split; [done|]. apply delivered_intro; [done| |done].
  intros c. by rewrite elem_of_list_to_set.
Qed.

(** A room broadcast goes over the members of the room, in some order. *)
Lemma run_room_members (known : gset cref) (id : cref -> string) (M : membership) (n : string) (d : bytes) (mt : Z)
    (w : world) (Hrep : rep lim known id M M None w) (Hn : n <> "")
    (Hr : ∀ c, c ∈ room_members M n -> ready w c) :
  ∃ l evs, enumerates l (room_members M n) /\
    run (broadcastToRoomWithType env n d mt) w =
      Some (match adapter env with
            | None => if bool_decide (room_members M n = ∅) then Some ErrRoomNotFound else None
            | Some _ => None
            end, emits evs (deliver_all env (mkSendItem mt d) l w)) /\
    published evs = publishes env (adapter_msg_room mt d n).
Proof.
  unfold broadcastToRoomWithType, broadcastToRoomClients, lookup_room, time_Now.
  rewrite bool_decide_eq_false_2 by done. rewrite run_bind, run_gets. cbn beta iota.
  pose proof (rep_room_exists _ _ _ _ _ _ n Hrep) as Hex.
  destruct (h_rooms (w_hub w) !! n) as [r|] eqn:Hrm.
  - pose proof (rep_room_clients _ _ _ _ _ _ _ _ _ Hrep Hrm) as Hcl.
    assert (enumerates (loadRoomSnapshot (room w r)) (room_members M n)) as Hen.
    { rewrite <-Hcl. destruct (wf_room _ _ (rep_wf _ _ _ _ _ _ _ Hrep) r) as [Hs _].
      by apply enumerates_snapshot. }
    run_simpl.
    destruct (run_dispatch_record (loadRoomSnapshot (room w r)) (mkSendItem mt d) (w_now w) w)
      as (evs & H1 & Hp1); [intros c Hc; by eapply Hr, elem_of_perm_elements|].
    rewrite run_bind in H1. rewrite H1. cbn beta iota.
    destruct (run_publish_emits evs (adapter_msg_room mt d n)
                (deliver_all env (mkSendItem mt d) (loadRoomSnapshot (room w r)) w) Hp1)
      as (evs' & H2 & Hp2).
    rewrite run_bind, H2. cbn beta iota. rewrite run_ret. eexists _, evs'. split; [exact Hen|].
    split; [|done]. unfold room_result. rewrite (bool_decide_eq_false_2 (_ = ∅)) by (by apply Hex).
    by destruct (adapter env).
  - rewrite (rep_no_room _ _ _ _ _ _ _ _ Hrep Hrm). run_simpl.
    destruct (run_publish env (adapter_msg_room mt d n) w Ha) as (evs' & H2 & Hp2).
    rewrite H2. run_simpl. exists [], evs'. split; [apply enumerates_nil|]. split; [|done].
    unfold room_result. rewrite (bool_decide_eq_true_2 (_ = ∅)) by done. by destruct (adapter env).
Qed.

Lemma run_broadcastToRoom (known : gset cref) (id : cref -> string) (M : membership) (n : string) (d : bytes) (mt : Z)
    (w : world) (Hrep : rep lim known id M M None w) (Hn : n <> "")
    (Hr : ∀ c, c ∈ room_members M n -> ready w c) :
  ∃ w', run (broadcastToRoomWithType env n d mt) w =
      Some (match adapter env with
            | None => if bool_decide (room_members M n = ∅) then Some ErrRoomNotFound else None
            | Some _ => None
            end, w') /\
    delivered env (mkSendItem mt d) (room_members M n)
      (publishes env (adapter_msg_room mt d n)) w w'.
Proof.
  destruct (run_room_members known id M n d mt w Hrep Hn Hr) as (l & evs & Hl & H & Hp).
  eexists. split; [exact H|]. apply delivered_intro; [by eapply NoDup_perm_elements| |done].
  intros c. by apply elem_of_perm_elements.
Qed.

(** A room broadcast delivers the item exactly once to every member of
    the room and to nobody else, is always published for the other nodes, and
    reports an unknown room only when there is no adapter. *)
Theorem broadcastToRoom_delivers (known : gset cref) (id : cref -> string) (M : membership) (n : string) (d : bytes) (mt : Z)
    (w : world) (Hrep : rep lim known id M M None w) (Hn : n <> "")
    (Hr : ∀ c, c ∈ room_members M n -> ready w c) :
  ∃ w', run (broadcastToRoomWithType env n d mt) w =
      Some (match adapter env with
            | None => if bool_decide (room_members M n = ∅) then Some ErrRoomNotFound else None
            | Some _ => None
            end, w') /\
    delivered env (mkSendItem mt d) (room_members M n)
      (publishes env (adapter_msg_room mt d n)) w w'.
Proof. by eapply run_broadcastToRoom. Qed.

(** A room broadcast with exclusions: the members that are not excluded,
    and their IDs for the other nodes. *)
Theorem broadcastToRoomExcept_delivers (known : gset cref) (id : cref -> string) (M : membership)
    (n : string) (d : bytes) (mt : Z) (except : list cref)
    (w : world) (Hrep : rep lim known id M M None w) (Hn : n <> "")
    (Hr : ∀ c, c ∈ room_members M n -> ready w c) :
  ∃ r w', run (broadcastToRoomExceptWithType env n d mt except) w = Some (r, w') /\
    delivered env (mkSendItem mt d) (room_members M n ∖ list_to_set except)
      (publishes env (if bool_decide (except = []) then adapter_msg_room mt d n
                      else adapter_msg_room_except mt d n (map (fun c => c_ID (client w c)) except)))
      w w'.
Proof.
  unfold broadcastToRoomExceptWithType, lookup_room. set (x := mkSendItem mt d).
  rewrite bool_decide_eq_false_2 by done. run_simpl.
  destruct (h_rooms (w_hub w) !! n) as [r|] eqn:Hrm.
  - pose proof (rep_room_clients _ _ _ _ _ _ _ _ _ Hrep Hrm) as Hcl.
    assert (enumerates (loadRoomSnapshot (room w r)) (room_members M n)) as Hen.
    { rewrite <-Hcl. destruct (wf_room _ _ (rep_wf _ _ _ _ _ _ _ Hrep) r) as [Hs _].
      by apply enumerates_snapshot. }
    run_simpl.
    destruct (run_broadcastExceptClients env Hhook (loadRoomSnapshot (room w r)) x except w Hpar)
      as (evs & H1 & Hp1); [intros c Hc; by eapply Hr, elem_of_perm_elements|].
    rewrite H1. cbn beta iota. set (l := base.filter _ _) in *.
    destruct (run_publish_except env (adapter_msg_room_except mt d n) (adapter_msg_room mt d n)
      except (emits evs (deliver_all env x l w)) Ha) as (evs' & H2 & Hp2).
    rewrite run_bind, H2, emits_app. run_simpl. eexists _, _. split; [done|].
    apply delivered_intro; [by eapply NoDup_filter, NoDup_perm_elements|..].
    + intros c. subst l. rewrite list_elem_of_filter, elem_of_difference, elem_of_list_to_set.
      rewrite (elem_of_perm_elements _ _ c Hen). naive_solver.
    + rewrite published_app, Hp1, app_nil_r, Hp2.
      by rewrite (map_ext _ _ (c_ID_deliver_all env x evs l w)).
  - rewrite (rep_no_room _ _ _ _ _ _ _ _ Hrep Hrm). run_simpl.
    destruct (run_publish_except env (adapter_msg_room_except mt d n) (adapter_msg_room mt d n)
      except w Ha) as (evs' & H2 & Hp2).
    rewrite H2. run_simpl. eexists _, _. split; [done|].
    apply (delivered_intro env x [] _ evs'); [constructor|set_solver|done].
Qed.

(** The connected clients of a user. *)
Definition clients_of (u : string) (w : world) : gset cref :=
  if bool_decide (u = "") then ∅
  else filter (fun c => c_userID (client w c) = u) (h_clients (w_hub w)).

(** The connections the user index lists are these. *)
Lemma run_send_user u x w :
  registry lim ∅ w -> (∀ c, c ∈ h_clients (w_hub w) -> ready w c) ->
  let l := range_keys (user_conns (h_userIndex (w_hub w)) u) w in
  ∃ evs, run (send_each env l x) (bump w) = Some (tt, emits evs (deliver_all env x l (bump w))) /\
    published evs = [] /\ ∀ c, c ∈ l <-> c ∈ clients_of u w.
Proof using Hhook.
  clear Hpar Ha.
  intros Hreg Hr l.
  assert (∀ c, c ∈ l <-> c ∈ clients_of u w) as Hl.
  { intros c. subst l. rewrite elem_of_range, (rg_users _ _ _ Hreg). unfold clients_of.
    case_bool_decide; [set_solver|]. rewrite elem_of_filter. set_solver. }
  assert (∀ c, c ∈ l -> ready (bump w) c) as Hrl.
  { intros c Hc. apply (Hr c). apply Hl in Hc. unfold clients_of in Hc.
    case_bool_decide; [set_solver|]. by apply elem_of_filter in Hc as [_ ?]. }
  destruct (run_send_each env Hhook l x (bump w) Hrl) as (evs & H1 & Hp1). eauto.
Qed.

(** A send to a user delivers exactly once to every connected client
    that carries the user ID and to nobody else, and is published. *)
Theorem sendToUser_delivers (u : string) (d : bytes) (mt : Z) (w : world)
    (Hreg : registry lim ∅ w) (Hr : ∀ c, c ∈ h_clients (w_hub w) -> ready w c) :
  ∃ w', run (sendToUserWithType env u d mt) w = Some (tt, w') /\
    delivered env (mkSendItem mt d) (clients_of u w) (publishes env (adapter_msg_user mt d u)) w w'.
Proof.
  unfold sendToUserWithType, GetClientsByUserID. run_simpl.
  destruct (run_send_user u (mkSendItem mt d) w Hreg Hr) as (evs & H1 & Hp1 & Hl).
  set (l := range_keys _ w) in *. rewrite H1. cbn beta iota.
  destruct (run_publish_emits evs (adapter_msg_user mt d u)
    (deliver_all env (mkSendItem mt d) l (bump w)) Hp1) as (evs' & H2 & Hp2).
  rewrite H2. eexists. split; [done|].
  exact (delivered_intro env _ _ (clients_of u w) evs' _ (bump w) (NoDup_range _ _) Hl Hp2).
Qed.

(** A send to a client ID is a send to the connected client of that ID;
    without one it is relayed to the other nodes, and fails only when there
    are none. *)
Theorem sendToClient_spec (i : string) (d : bytes) (mt : Z) (w : world)
    (Hreg : registry lim ∅ w) :
  (∀ c, c ∈ h_clients (w_hub w) -> c_ID (client w c) = i ->
     run (sendToClientWithType env i d mt) w = run (SendMessage env c mt d) w) /\
  ((∀ c, c ∈ h_clients (w_hub w) -> c_ID (client w c) <> i) ->
     ∃ w', run (sendToClientWithType env i d mt) w =
         Some (match adapter env with None => Some ErrClientNotFound | Some _ => None end, w') /\
       delivered env (mkSendItem mt d) ∅ (publishes env (adapter_msg_client mt d i)) w w').
Proof.
  unfold sendToClientWithType, GetClient. split.
  - intros c Hc Hi. rewrite run_bind, run_gets. cbn beta iota.
    assert (h_clientIndex (w_hub w) !! i = Some c) as -> by (by apply (rg_index _ _ _ Hreg)). done.
  - intros Hno. rewrite run_bind, run_gets. cbn beta iota.
    destruct (h_clientIndex (w_hub w) !! i) as [c|] eqn:Hi.
    { apply (rg_index _ _ _ Hreg) in Hi as [H1 H2]. by destruct (Hno c H1). }
    unfold relay_to_client. destruct (run_publish env (adapter_msg_client mt d i) w Ha)
      as (evs & H1 & Hp1).
    destruct (adapter env) eqn:Had.
    + rewrite run_bind, H1. cbn beta iota. rewrite run_ret. eexists. split; [done|].
      apply (delivered_intro env (mkSendItem mt d) [] ∅ evs); [constructor|set_solver|done].
    + rewrite run_ret. exists w. split; [done|].
      unfold publishes. rewrite Had. by split_and!.
Qed.

(** The connected client of an ID. *)
Definition clients_with_id (i : string) (w : world) : gset cref :=
  filter (fun c => c_ID (client w c) = i) (h_clients (w_hub w)).

Lemma run_SendMessage_deliver c mt d w :
  ready w c ->
  ∃ r evs, run (SendMessage env c mt d) w =
      Some (r, emits evs (upd_client c (deliver env (mkSendItem mt d)) w)) /\ published evs = [].
Proof using Hhook.
  clear Hpar Ha.
  intros (Ha' & Hm & Hq). unfold SendMessage. run_simpl.
  destruct (c_closed (client w c)) eqn:Hc.
  - eexists _, []. split; [|done]. rewrite emits_nil, upd_client_id; [done|done|].
    unfold deliver. by rewrite Hc.
  - pose proof (run_trySendErr_open env Hhook c (mkSendItem mt d) w Ha' Hc Hm Hq) as H.
    destruct (bounded_send _ _ _ _) as [[ok q'] dropped] eqn:Hb.
    run_simpl. rewrite H. cbn beta iota. rewrite run_ret. eexists _, _. split.
    + do 3 f_equal. apply upd_client_ext. unfold deliver. by rewrite Hc, Hb.
    + apply published_drops.
Qed.

Lemma clients_with_id_Some i c w :
  registry lim ∅ w -> h_clientIndex (w_hub w) !! i = Some c -> clients_with_id i w = {[c]}.
Proof using.
  clear Hhook Hpar Ha.
  intros Hreg Hi. apply set_eq. intros c'. unfold clients_with_id.
  rewrite elem_of_filter, elem_of_singleton.
  pose proof (rg_index _ _ _ Hreg i c') as Hc'. rewrite Hi in Hc'. naive_solver.
Qed.

Lemma clients_with_id_None i w :
  registry lim ∅ w -> h_clientIndex (w_hub w) !! i = None -> clients_with_id i w = ∅.
Proof using.
  clear Hhook Hpar Ha.
  intros Hreg Hi. apply set_eq. intros c'. unfold clients_with_id. rewrite elem_of_filter.
  pose proof (rg_index _ _ _ Hreg i c') as Hc'. rewrite Hi in Hc'. set_solver.
Qed.

(** Either the client is here, and gets the item, or nobody here does and the
    message is published. *)
Theorem sendToClient_delivers (i : string) (d : bytes) (mt : Z) (w : world)
    (Hreg : registry lim ∅ w) (Hr : ∀ c, c ∈ h_clients (w_hub w) -> ready w c) :
  ∃ r w', run (sendToClientWithType env i d mt) w = Some (r, w') /\
    delivered env (mkSendItem mt d) (clients_with_id i w)
      (if bool_decide (clients_with_id i w = ∅) then publishes env (adapter_msg_client mt d i) else [])
      w w'.
Proof using Hhook Ha.
  clear Hpar.
  unfold sendToClientWithType, GetClient. run_simpl.
  destruct (h_clientIndex (w_hub w) !! i) as [c|] eqn:Hi.
  - rewrite (clients_with_id_Some _ _ _ Hreg Hi).
    apply (rg_index _ _ _ Hreg) in Hi as [Hc Hid]. rewrite bool_decide_eq_false_2 by set_solver.
    destruct (run_SendMessage_deliver c mt d w (Hr c Hc)) as (r & evs & -> & Hp).
    eexists _, _. split; [done|].
    apply (delivered_intro env _ [c]); [apply NoDup_singleton|set_solver|done].
  - rewrite (clients_with_id_None _ _ Hreg Hi).
    rewrite bool_decide_eq_true_2 by done. unfold relay_to_client.
    destruct (run_publish env (adapter_msg_client mt d i) w Ha) as (evs & H1 & Hp1).
    destruct (adapter env) as [a|] eqn:Had.
    + rewrite run_bind, H1. cbn beta iota. rewrite run_ret. eexists _, _. split; [done|].
      apply (delivered_intro env _ [] ∅ evs); [constructor|set_solver|done].
    + rewrite run_ret. eexists _, w. split; [done|]. unfold publishes. rewrite Had. by split_and!.
Qed.
End Delivery.
