(* ===== verification/Pump.v ===== *)
(** * Pump: the read and write goroutines of a connection (client.go)

    The websocket connection is the peer's side of [conn_call]: every deadline,
    frame and writer operation is an event, and the peer decides whether it
    fails.  A read is a parameter.  The loops take fuel, the number of their
    iterations: a pump runs as long as its connection lives. *)

From S2P Require Import Prelude Prog Types Config World Invariant Send Client.

(** One [select] of the write pump. *)
Inductive pump_case := PDone | PItem (item : sendItem) | PTick.

Section Pump.
Context {RT : Runtime} (env : HubEnv).

(** gorilla's [IsUnexpectedCloseError] and the connection's [ReadMessage], which runs
    the connection's pong handler whenever a pong arrives before the message. *)
Context (IsUnexpectedCloseError : error -> list Z -> bool).
Context (ReadMessage : prg (option error) -> cref -> prg (error + (Z * bytes))).

(** [if err := conn.Op(...); err != nil { IncrementErrors(kind); return false }]. *)
Definition try_conn (c : cref) (o : conn_op) (kind : string) : prg bool :=
  err ← conn_call c o ;
  match err with
  | None => mret true
  | Some _ => metrics (IncrementErrors kind) ;; mret false
  end.

Definition set_write_deadline (c : cref) : prg bool :=
  deadline ← gets (fun w => (w_now w + WriteWait (c_config (client w c)))%Z) ;
  try_conn c (SetWriteDeadline deadline) "write_deadline_error".

(** ** Writing *)
Definition writeCloseFrame (c : cref) : prg unit :=
  cr ← gets (fun w => (c_closeCode (client w c), c_closeReason (client w c))) ;
  ok ← set_write_deadline c ;
  if negb ok then mret tt else
  _ ← conn_call c (WriteClose cr.1 cr.2) ;
  mret tt.

(** [for range n { select { case queued := <-c.send: ...; default: return true } }]. *)
Fixpoint drain_loop (n : nat) (c : cref) : prg bool :=
  match n with
  | 0 => mret true
  | S n' =>
      o ← chan_recv c ;
      match o with
      | None => mret true
      | Some queued =>
          ok ← try_conn c (WriteMessage (msgType queued) (data queued)) "write_error" ;
          if negb ok then mret false else
          metrics (IncrementMessagesSent 1) ;;
          drain_loop n' c
      end
  end.

Definition queue_length (c : cref) : prg nat := gets (fun w => length (c_send (client w c))).

Definition drainQueued (c : cref) : prg bool :=
  n ← queue_length c ;
  if bool_decide (n = 0) then mret true else
  ok ← set_write_deadline c ;
  if negb ok then mret false else drain_loop n c.

(** [w.Close()] and the count of the frame's messages. *)
Definition flush_batch (c : cref) (sentCount : Z) : prg bool :=
  ok ← try_conn c WriterClose "write_error" ;
  if negb ok then mret false else
  metrics (IncrementMessagesSent sentCount) ;;
  mret true.

Fixpoint batch_loop (n : nat) (c : cref) (sentCount : Z) : prg bool :=
  match n with
  | 0 => flush_batch c sentCount
  | S n' =>
      o ← chan_recv c ;
      match o with
      | None => flush_batch c sentCount
      | Some queued =>
          if bool_decide (msgType queued = TextMessage) then
            ok ← try_conn c (WriterWrite [Byte.x0a]) "write_error" ;
            if negb ok then mret false else
            ok ← try_conn c (WriterWrite (data queued)) "write_error" ;
            if negb ok then mret false else
            batch_loop n' c (sentCount + 1)
          else
            ok ← flush_batch c sentCount ;
            if negb ok then mret false else
            ok ← try_conn c (WriteMessage (msgType queued) (data queued)) "write_error" ;
            if negb ok then mret false else
            metrics (IncrementMessagesSent 1) ;;
            mret true
      end
  end.

Definition writeCoalescedBatch (c : cref) (first : sendItem) (n : nat) : prg bool :=
  ok ← set_write_deadline c ;
  if negb ok then mret false else
  ok ← try_conn c (NextWriter TextMessage) "write_error" ;
  if negb ok then mret false else
  ok ← try_conn c (WriterWrite (data first)) "write_error" ;
  if negb ok then mret false else
  batch_loop n c 1.

Definition drainQueuedCoalesced (c : cref) (first : sendItem) : prg bool :=
  n ← queue_length c ;
  if bool_decide (n = 0) || negb (bool_decide (msgType first = TextMessage)) then
    ok ← try_conn c (WriteMessage (msgType first) (data first)) "write_error" ;
    if negb ok then mret false else
    metrics (IncrementMessagesSent 1) ;;
    (if bool_decide (n = 0) then mret true else drainQueued c)
  else writeCoalescedBatch c first n.

(** ** The write pump *)
Definition pump_select (c : cref) : prg pump_case :=
  await (fun w =>
    let cl := client w c in
    let take_item := match c_send cl with
                     | [] => []
                     | d :: q => [(PItem d, bump (upd_client c (set_c_send q) w))]
                     end in
    let cases := (if c_done cl then [(PDone, bump w)] else []) ++ take_item ++
                 (if rt_tick (w_nonce w) then [(PTick, bump w)] else []) in
    cases !! (rt_pick (w_nonce w) mod length cases)).

(** One iteration; [true] to go on. *)
Definition write_step (c : cref) : prg bool :=
  case ← pump_select c ;
  match case with
  | PDone =>
      graceful ← isGraceful c ;
      if (graceful : bool) then
        _ ← drainQueued c ;
        writeCloseFrame c ;;
        mret false
      else mret false
  | PItem item =>
      ok ← set_write_deadline c ;
      if negb ok then mret false else
      coalesce ← gets (fun w => CoalesceWrites (c_config (client w c))) ;
      if (coalesce : bool) then drainQueuedCoalesced c item
      else
        ok ← try_conn c (WriteMessage (msgType item) (data item)) "write_error" ;
        if negb ok then mret false else
        metrics (IncrementMessagesSent 1) ;;
        drainQueued c
  | PTick =>
      ok ← set_write_deadline c ;
      if negb ok then mret false else
      try_conn c (WriteMessage PingMessage []) "ping_error"
  end.

Fixpoint write_loop (fuel : nat) (c : cref) : prg unit :=
  match fuel with
  | 0 => out_of_fuel
  | S f => go ← write_step c ; if (go : bool) then write_loop f c else mret tt
  end.

Definition wg_done : prg unit := modify (upd_hub (fun h => set_h_wg (h_wg h - 1) h)).

(** The pump with its deferred [closeConn], as started by [UpgradeConnection]. *)
Definition writePump (fuel : nat) (c : cref) : prg unit :=
  pingPeriod ← gets (fun w => PingPeriod (c_config (client w c))) ;
  new_ticker pingPeriod ;;
  write_loop fuel c ;; closeConn c ;; wg_done.

(** ** Reading *)
Definition handleReadError (c : cref) (err : error) : prg unit :=
  if negb (IsUnexpectedCloseError err
             [CloseGoingAway; CloseAbnormalClosure; CloseNormalClosure]) then mret tt else
  errorHandler ← gets (fun w => c_onError (client w c)) ;
  match errorHandler with
  | Some cb => modify (emit (EvHook (HClientOnError cb c err))) ;; errorCallback env cb c err
  | None => mret tt
  end ;;
  call_hook ((fun h => h c err) <$> OnError (hooks env)) (HOnError c err) ;;
  metrics (IncrementErrors "read_error").

Definition new_received (c : cref) (mt : Z) (d : bytes) : prg Message :=
  gets (fun w => mkMessage mt d (c_ID (client w c)) (w_now w)).

(** The hub's handler with its latency. *)
Definition run_handler (c : cref) (msg : Message) : prg (option error) :=
  match onMessage env with
  | None => mret None
  | Some h =>
      start ← time_Now ;
      modify (emit (EvHook (HMessageHandler c msg))) ;;
      handlerErr ← h c msg ;
      (if negb (skipHandlerLatency env) then
         now ← time_Now ; metrics (RecordLatency (time_Sub now start))
       else mret tt) ;;
      mret handlerErr
  end.

Definition before_message (c : cref) (msg : Message) : prg (option Message * option error) :=
  match BeforeMessage (hooks env) with
  | None => mret (None, None)
  | Some h => modify (emit (EvHook (HBeforeMessage c msg))) ;; h c msg
  end.

Definition processMessage (c : cref) (messageType : Z) (d : bytes) : prg unit :=
  msg ← new_received c messageType d ;
  metrics IncrementMessagesReceived ;;
  metrics (RecordMessageSize (Z.of_nat (length d))) ;;
  res ← before_message c msg ;
  match res with
  | (_, Some _) => logger Warn "Message rejected by BeforeMessage hook"
  | (modifiedMsg, None) =>
      let msg := default msg modifiedMsg in
      messageHandler ← gets (fun w => c_onMessage (client w c)) ;
      match messageHandler with
      | Some cb => modify (emit (EvHook (HClientOnMessage cb c msg))) ;; clientCallback env cb c msg
      | None => mret tt
      end ;;
      handlerErr ← run_handler c msg ;
      call_hook ((fun h => h c msg handlerErr) <$> AfterMessage (hooks env))
        (HAfterMessage c msg handlerErr)
  end.

(** The handler installed by [SetPongHandler]. *)
Definition pong_handler (c : cref) : prg (option error) :=
  deadline ← gets (fun w => (w_now w + PongWait (c_config (client w c)))%Z) ;
  conn_call c (SetReadDeadline deadline).

(** One read; [true] to go on. *)
Definition read_step (c : cref) : prg bool :=
  res ← ReadMessage (pong_handler c) c ;
  match res with
  | inl err => handleReadError c err ;; mret false
  | inr (messageType, d) =>
      ok ← checkRateLimit env c ;
      if negb ok then
        logger Warn "Rate limit exceeded, dropping message" ;;
        metrics (IncrementErrors "rate_limit_exceeded") ;;
        mret true
      else processMessage c messageType d ;; mret true
  end.

Fixpoint read_loop (fuel : nat) (c : cref) : prg unit :=
  match fuel with
  | 0 => out_of_fuel
  | S f => go ← read_step c ; if (go : bool) then read_loop f c else mret tt
  end.

(** [make(chan *Client, 64)], and the same for registrations. *)
Definition hub_chan_cap : nat := 64.

(** [select { case c.hub.unregister <- c: case <-c.hub.ctx.Done(): }]. *)
Definition send_unregister (c : cref) : prg unit :=
  await (fun w =>
    let push w := upd_hub (fun h => set_h_unregister (h_unregister h ++ [c]) h) w in
    let room := bool_decide (length (h_unregister (w_hub w)) < hub_chan_cap) in
    match room, h_ctxDone (w_hub w) with
    | true, false => Some (tt, push w)
    | false, true => Some (tt, w)
    | true, true => if rt_select (w_nonce w) then Some (tt, bump (push w)) else Some (tt, bump w)
    | false, false => None
    end).

(** The goroutine that closes the connection when the hub's context ends, or
    leaves when the pump does. *)
Definition read_watcher (c : cref) : prg unit :=
  stop ← await (fun w =>
    match h_ctxDone (w_hub w), c_readDone (client w c) with
    | true, true => Some (rt_select (w_nonce w), bump w)
    | true, false => Some (true, w)
    | false, true => Some (false, w)
    | false, false => None
    end) ;
  if (stop : bool) then closeConn c else mret tt.

Definition setup_read (c : cref) : prg unit :=
  lim ← gets (fun w => MaxMessageSize (c_config (client w c))) ;
  _ ← conn_call c (SetReadLimit lim) ;
  deadline ← gets (fun w => (w_now w + PongWait (c_config (client w c)))%Z) ;
  _ ← try_conn c (SetReadDeadline deadline) "read_deadline_error" ;
  mret tt.

Definition readPump (fuel : nat) (c : cref) : prg unit :=
  modify (emit (EvSpawn (GReadWatcher c))) ;;
  setup_read c ;;
  read_loop fuel c ;;
  modify (upd_client c (set_c_readDone true)) ;;
  send_unregister c ;;
  closeConn c ;;
  wg_done.
End Pump.

(** ** Every interleaving *)
Section Keeps.
Context {RT : Runtime} (lim : Limits) (env : HubEnv) (Hlim : limits env = lim)
  (Hh : hooks_keep lim env).
Context (unexpected : error -> list Z -> bool) 
  (ReadMessage : prg (option error) -> cref -> prg (error + (Z * bytes))).
Context (Hread : ∀ pong c, keeps (wf lim) pong -> keeps (wf lim) (ReadMessage pong c)).

Lemma keeps_try_conn c o k : keeps (wf lim) (try_conn c o k).
Proof. unfold try_conn. keeps_auto. Qed.

#[local] Hint Resolve keeps_try_conn : keeps.

Lemma keeps_set_write_deadline c : keeps (wf lim) (set_write_deadline c).
Proof. unfold set_write_deadline. keeps_auto. Qed.

#[local] Hint Resolve keeps_set_write_deadline : keeps.

Lemma keeps_drain_loop n c : keeps (wf lim) (drain_loop n c).
Proof. induction n as [|n IH]; cbn [drain_loop]; keeps_auto. Qed.

#[local] Hint Resolve keeps_drain_loop : keeps.

Lemma keeps_drainQueued c : keeps (wf lim) (drainQueued c).
Proof. unfold drainQueued, queue_length. keeps_auto. Qed.

Lemma keeps_batch_loop n c k : keeps (wf lim) (batch_loop n c k).
Proof.
  revert k. induction n as [|n IH]; intros k; cbn [batch_loop]; unfold flush_batch; keeps_auto.
Qed.

#[local] Hint Resolve keeps_drainQueued keeps_batch_loop : keeps.

Lemma keeps_drainQueuedCoalesced c x : keeps (wf lim) (drainQueuedCoalesced c x).
Proof. unfold drainQueuedCoalesced, writeCoalescedBatch, queue_length. keeps_auto. Qed.

Lemma keeps_pump_select c : keeps (wf lim) (pump_select c).
Proof.
  apply keeps_await. intros w x w' Hw. cbn zeta.
  intros Hx%list_elem_of_lookup_2. rewrite !elem_of_app in Hx.
  destruct Hx as [Hx|[Hx|Hx]].
  - destruct (c_done _); set_unfold in Hx; [|done]. destruct Hx as [[= -> ->]|[]]. by apply wf_bump.
  - destruct (c_send (client w c)) as [|d q] eqn:Hq; set_unfold in Hx; [done|].
    destruct Hx as [[= -> ->]|[]]. apply wf_bump, wf_upd_client; [done|].
    by apply client_ok_dequeue with d.
  - destruct (rt_tick _); set_unfold in Hx; [|done]. destruct Hx as [[= -> ->]|[]]. by apply wf_bump.
Qed.

#[local] Hint Resolve keeps_drainQueuedCoalesced keeps_pump_select : keeps.

Lemma keeps_write_step c : keeps (wf lim) (write_step c).
Proof. unfold write_step, writeCloseFrame, isGraceful. keeps_auto. Qed.

#[local] Hint Resolve keeps_write_step : keeps.

Lemma keeps_write_loop n c : keeps (wf lim) (write_loop n c).
Proof. induction n as [|n IH]; cbn [write_loop]; keeps_auto. Qed.

#[local] Hint Resolve keeps_write_loop : keeps.

Lemma keeps_writePump n c : keeps (wf lim) (writePump n c).
Proof. unfold writePump, wg_done. keeps_auto. Qed.

Lemma keeps_handleReadError c e : keeps (wf lim) (handleReadError env unexpected c e).
Proof.
  unfold handleReadError. pose proof (hk_errorCallback _ _ Hh). keeps_auto.
  destruct (OnError (hooks env)) eqn:He; simplify_eq/=. by eapply hk_onError.
Qed.

Lemma keeps_processMessage c mt d : keeps (wf lim) (processMessage env c mt d).
Proof.
  unfold processMessage, new_received, before_message, run_handler.
  pose proof (hk_clientCallback _ _ Hh).
  destruct (BeforeMessage (hooks env)) eqn:Hb; [pose proof (hk_beforeMessage _ _ Hh _ Hb)|];
  (destruct (onMessage env) eqn:Ho; [pose proof (hk_onMessage _ _ Hh _ Ho)|]); keeps_auto;
  destruct (AfterMessage (hooks env)) eqn:He; simplify_eq/=; by eapply hk_afterMessage.
Qed.

#[local] Hint Resolve keeps_handleReadError keeps_processMessage : keeps.

Lemma keeps_pong_handler c : keeps (wf lim) (pong_handler c).
Proof. unfold pong_handler. keeps_auto. Qed.

#[local] Hint Resolve keeps_pong_handler : keeps.

Lemma keeps_read_loop n c : keeps (wf lim) (read_loop env unexpected ReadMessage n c).
Proof. induction n as [|n IH]; cbn [read_loop]; unfold read_step; keeps_auto. Qed.

Lemma keeps_send_unregister c : keeps (wf lim) (send_unregister c).
Proof.
  apply keeps_await. intros w x w' Hw. cbn zeta.
  repeat case_match; intros [= <- <-]; try apply wf_bump; try done; by apply wf_upd_hub.
Qed.

#[local] Hint Resolve keeps_read_loop keeps_send_unregister : keeps.

Lemma keeps_readPump n c : keeps (wf lim) (readPump env unexpected ReadMessage n c).
Proof. unfold readPump, setup_read, wg_done. keeps_auto. Qed.

Lemma keeps_read_watcher c : keeps (wf lim) (read_watcher c).
Proof.
  unfold read_watcher. keeps_auto. apply keeps_await. intros w x w' Hw.
  repeat case_match; intros [= <- <-]; by try apply wf_bump.
Qed.
End Keeps.

#[export] Hint Resolve keeps_writePump keeps_readPump keeps_read_watcher : keeps.
