(* ===== verification/PumpSpec.v ===== *)
(** * PumpSpec: what goes over the wire

    The write pump takes messages off the queue in order; a peer that fails a
    write loses at most that message.  With coalescing, a frame joins text
    messages with newlines, and a reader that splits text frames at newlines
    gets back the messages that were sent, in order ([coalesce_roundtrip]). *)

From S2P Require Import Prelude Prog Types Config World Invariant Send Client Pump.

(** ** Reading the trace *)

(** The data operations on [c]'s connection, oldest first. *)
Definition is_write (o : conn_op) : bool :=
  match o with
  | WriteMessage _ _ | WriteClose _ _ | NextWriter _ | WriterWrite _ | WriterClose => true
  | SetWriteDeadline _ | SetReadLimit _ | SetReadDeadline _ => false
  end.

Definition writes (c : cref) (t : list event) : list conn_op :=
  reverse (omap (fun e => match e with
                          | EvConn c' o => if bool_decide (c = c') && is_write o then Some o else None
                          | _ => None
                          end) t).

(** Total of [IncrementMessagesSent]. *)
Fixpoint sent_total (t : list event) : Z :=
  match t with
  | [] => 0
  | EvMetric (IncrementMessagesSent k) :: t' => k + sent_total t'
  | _ :: t' => sent_total t'
  end.

Lemma writes_conn c o t :
  writes c (EvConn c o :: t) = writes c t ++ (if is_write o then [o] else []).
Proof.
  unfold writes. simpl. rewrite bool_decide_eq_true_2 by done. simpl.
  destruct (is_write o); [by rewrite reverse_cons|by rewrite app_nil_r].
Qed.

Lemma writes_metric c m t : writes c (EvMetric m :: t) = writes c t.
Proof. done. Qed.

Definition item_op (x : sendItem) : conn_op := WriteMessage (msgType x) (data x).

(** From [w] to [w'], [c]'s pump wrote [ops], reported [k] messages sent and
    left [q] in its queue; nothing else changed. *)
Record pumped (c : cref) (q : list sendItem) (ops : list conn_op) (k : Z) (w w' : world) : Prop := {
  pm_writes : writes c (w_trace w') = writes c (w_trace w) ++ ops;
  pm_sent : sent_total (w_trace w') = (sent_total (w_trace w) + k)%Z;
  pm_client : client w' c = set_c_send q (client w c);
  pm_others : ∀ c', c' <> c -> client w' c' = client w c';
  pm_hub : w_hub w' = w_hub w;
  pm_rooms : w_rooms w' = w_rooms w;
  pm_now : w_now w' = w_now w
}.

Lemma pumped_refl c w : pumped c (c_send (client w c)) [] 0 w w.
Proof. split; rewrite ?app_nil_r, ?Z.add_0_r; try done. by destruct (client w c). Qed.

Lemma pumped_trans c q1 q2 o1 o2 k1 k2 w1 w2 w3 :
  pumped c q1 o1 k1 w1 w2 -> pumped c q2 o2 k2 w2 w3 ->
  pumped c q2 (o1 ++ o2) (k1 + k2) w1 w3.
Proof.
  intros [A1 A2 A3 A4 A5 A6 A7] [B1 B2 B3 B4 B5 B6 B7]. split; try congruence.
  - by rewrite B1, A1, app_assoc.
  - rewrite B2, A2. lia.
  - by rewrite B3, A3.
  - intros c' Hc. by rewrite B4, A4.
Qed.

Lemma pumped_queue c q ops k w w' : pumped c q ops k w w' -> c_send (client w' c) = q.
Proof. intros H. by rewrite (pm_client _ _ _ _ _ _ H). Qed.

Lemma pumped_metric c w k :
  pumped c (c_send (client w c)) [] k w (emit (EvMetric (IncrementMessagesSent k)) w).
Proof.
  split; world_simpl; rewrite ?writes_metric, ?app_nil_r; try done; [lia|].
  by destruct (client w c).
Qed.

Lemma pumped_recv c w d q :
  c_send (client w c) = d :: q -> pumped c q [] 0 w (upd_client c (set_c_send q) w).
Proof.
  intros Hq. split; world_simpl; rewrite ?app_nil_r, ?Z.add_0_r; try done.
  intros c' Hc. by rewrite client_upd_client_ne.
Qed.

Section Pump.
Context {RT : Runtime}.

Definition data_op (o : conn_op) : list conn_op := if is_write o then [o] else [].

(** A connection operation: recorded, failing as the peer decides. *)
Lemma run_try_conn c o k w :
  ∃ ok w', run (try_conn c o k) w = Some (ok, w') /\
    pumped c (c_send (client w c)) (data_op o) 0 w w'.
Proof.
  unfold try_conn, conn_call, metrics, data_op. run_simpl.
  destruct (rt_conn (w_nonce w) c o) as [e|]; run_simpl; (eexists _, _; split; [done|]);
    split; world_simpl; rewrite ?writes_metric, ?writes_conn, ?Z.add_0_r; try done;
    by destruct (client w c).
Qed.

Lemma run_set_write_deadline c w :
  ∃ ok w', run (set_write_deadline c) w = Some (ok, w') /\
    pumped c (c_send (client w c)) [] 0 w w'.
Proof.
  unfold set_write_deadline. rewrite run_bind, run_gets. cbn beta iota.
  destruct (run_try_conn c (SetWriteDeadline (w_now w + WriteWait (c_config (client w c)))%Z)
              "write_deadline_error" w) as (ok & w' & Hr & Hp).
  by eexists _, _.
Qed.

(** ** Draining in order *)

(** [j] items leave the queue; after a failure nothing more is written. *)
Lemma run_drain_loop n c w :
  let q := c_send (client w c) in
  ∃ ok w' j, run (drain_loop n c) w = Some (ok, w') /\ j <= n `min` length q /\
    pumped c (drop j q) (map item_op (take j q)) (if ok then Z.of_nat j else Z.of_nat j - 1) w w' /\
    (if (ok : bool) then j = n `min` length q else 0 < j).
Proof.
  cbn zeta. revert w. induction n as [|n IH]; intros w; cbn [drain_loop].
  { exists true, w, 0. split; [done|]. split; [lia|]. split; [apply pumped_refl|done]. }
  rewrite run_bind, run_chan_recv. destruct (c_send (client w c)) as [|x q] eqn:Hq; cbn beta iota.
  { exists true, w, 0. split; [done|]. split; [lia|]. split; [|simpl; lia].
    simpl. rewrite <-Hq. apply pumped_refl. }
  set (w1 := upd_client c (set_c_send q) w).
  pose proof (pumped_recv c w x q Hq) as P1.
  destruct (run_try_conn c (WriteMessage (msgType x) (data x)) "write_error" w1)
    as (ok & w2 & H2 & P2).
  rewrite run_bind, H2. cbn beta iota. pose proof (pumped_trans _ _ _ _ _ _ _ _ _ _ P1 P2) as P12.
  destruct ok; cbn [negb].
  - unfold metrics. rewrite run_bind, run_modify. cbn beta iota.
    set (w3 := emit _ w2). pose proof (pumped_metric c w2 1) as P3.
    pose proof (pumped_trans _ _ _ _ _ _ _ _ _ _ P12 P3) as P123.
    destruct (IH w3) as (ok & w4 & j & H4 & Hj & P4 & Hok).
    assert (c_send (client w3 c) = q) as Hq3.
    { etrans; [exact (pumped_queue _ _ _ _ _ _ P123)|].
      etrans; [exact (pumped_queue _ _ _ _ _ _ P12)|exact (pumped_queue _ _ _ _ _ _ P1)]. }
    rewrite Hq3 in *. exists ok, w4, (S j). rewrite H4. split; [done|]. split; [simpl; lia|].
    split; [|destruct ok; simpl; lia].
    pose proof (pumped_trans _ _ _ _ _ _ _ _ _ _ P123 P4) as P. simpl in *.
    replace (if ok then Z.of_nat (S j) else (Z.of_nat (S j) - 1)%Z)
      with (0 + 0 + 1 + (if ok then Z.of_nat j else Z.of_nat j - 1))%Z by (destruct ok; lia). done.
  - exists false, w2, 1. rewrite run_ret. split; [done|]. split; [simpl; lia|]. split; [|lia].
    assert (c_send (client w1 c) = q) as Hq1 by exact (pumped_queue _ _ _ _ _ _ P1).
    rewrite Hq1 in P12. simpl. by rewrite drop_0.
Qed.

Lemma drainQueued_loop (c : cref) (w : world) :
  let q := c_send (client w c) in
  ∃ ok w' j, run (drainQueued c) w = Some (ok, w') /\
    pumped c (drop j q) (map item_op (take j q))
      (if (ok : bool) || bool_decide (j = 0) then Z.of_nat j else Z.of_nat j - 1) w w' /\
    (ok = true -> j = length q).
Proof.
  cbn zeta. unfold drainQueued, queue_length. rewrite run_bind, run_gets. cbn beta iota.
  case_bool_decide as Hn.
  { exists true, w, 0. split; [done|]. split; [apply pumped_refl|lia]. }
  destruct (run_set_write_deadline c w) as (ok & w1 & H1 & P1).
  rewrite run_bind, H1. cbn beta iota. destruct ok; cbn [negb].
  - destruct (run_drain_loop (length (c_send (client w c))) c w1) as (ok & w2 & j & H2 & Hj & P2 & Hok).
    rewrite (pumped_queue _ _ _ _ _ _ P1) in *. rewrite Nat.min_id in *.
    exists ok, w2, j. rewrite H2. split; [done|].
    split; [|by intros ->].
    pose proof (pumped_trans _ _ _ _ _ _ _ _ _ _ P1 P2) as P. simpl in P.
    destruct ok; simpl; [done|]. by rewrite bool_decide_eq_false_2 by lia.
  - exists false, w1, 0. split; [done|]. split; [|done]. by rewrite bool_decide_eq_true_2.
Qed.

(** Draining writes queued messages to the connection in the order they
    were queued, never past a failed write, and leaves the rest queued; when it
    reports success the queue is empty and every message was written and
    counted. *)
Theorem drainQueued_in_order (c : cref) (w : world) :
  let q := c_send (client w c) in
  ∃ ok w' j, run (drainQueued c) w = Some (ok, w') /\
    pumped c (drop j q) (map item_op (take j q))
      (if (ok : bool) || bool_decide (j = 0) then Z.of_nat j else Z.of_nat j - 1) w w' /\
    (ok = true -> j = length q).
Proof. apply drainQueued_loop. Qed.

(** ** Coalescing *)

(** The operations of one batch over the queue [q], at most [n] items of it:
    what is written, what stays queued, and how many items were taken. *)
Fixpoint batch_ops (n : nat) (q : list sendItem) : list conn_op * list sendItem * Z :=
  match n, q with
  | S n', x :: q' =>
      if bool_decide (msgType x = TextMessage) then
        let '(ops, rest, m) := batch_ops n' q' in
        (WriterWrite [Byte.x0a] :: WriterWrite (data x) :: ops, rest, (1 + m)%Z)
      else ([WriterClose; item_op x], q', 1%Z)
  | _, _ => ([WriterClose], q, 0%Z)
  end.

(** [try_conn] in front of a continuation that follows only its success. *)
Lemma run_try_then {A} c o kind (p : prg A) (stop : A) (Q : A -> world -> Prop) w :
  (∀ w', Q stop w') ->
  (∀ w1, pumped c (c_send (client w c)) (data_op o) 0 w w1 ->
     ∃ a w', run p w1 = Some (a, w') /\ Q a w') ->
  ∃ a w', run (ok ← try_conn c o kind ; if negb ok then mret stop else p) w = Some (a, w') /\ Q a w'.
Proof.
  intros Hstop Hp. destruct (run_try_conn c o kind w) as (ok & w1 & H1 & P1).
  rewrite run_bind, H1. cbn beta iota. destruct ok; cbn [negb].
  - by apply Hp.
  - rewrite run_ret. by exists stop, w1.
Qed.

Definition wrote (c : cref) (q : list sendItem) (ops : list conn_op) (k : Z) (w : world)
    (ok : bool) (w' : world) : Prop := ok = true -> pumped c q ops k w w'.

Lemma wrote_trans c q1 q2 o1 o2 k1 k2 w w1 ok w' :
  pumped c q1 o1 k1 w w1 -> wrote c q2 o2 k2 w1 ok w' ->
  wrote c q2 (o1 ++ o2) (k1 + k2) w ok w'.
Proof. intros P1 P2 Hok. by eapply pumped_trans; [|apply P2]. Qed.

Lemma run_flush c k w :
  ∃ ok w', run (flush_batch c k) w = Some (ok, w') /\
    wrote c (c_send (client w c)) [WriterClose] k w ok w'.
Proof.
  unfold flush_batch. apply run_try_then; [done|]. intros w1 P1. unfold metrics. run_simpl.
  eexists _, _. split; [done|]. intros _.
  pose proof (pumped_trans _ _ _ _ _ _ _ _ _ _ P1 (pumped_metric c w1 k)) as P.
  by rewrite (pumped_queue _ _ _ _ _ _ P1) in P.
Qed.

Lemma run_batch_loop n c k w :
  let '(ops, rest, m) := batch_ops n (c_send (client w c)) in
  ∃ ok w', run (batch_loop n c k) w = Some (ok, w') /\ wrote c rest ops (k + m) w ok w'.
Proof.
  revert k w. induction n as [|n IH]; intros k w; cbn [batch_loop batch_ops].
  { rewrite Z.add_0_r. apply run_flush. }
  rewrite run_bind, run_chan_recv. destruct (c_send (client w c)) as [|x q] eqn:Hq; cbn beta iota.
  { rewrite Z.add_0_r, <-Hq. apply run_flush. }
  set (w1 := upd_client c (set_c_send q) w).
  assert (pumped c q [] 0 w w1) as P1 by (by eapply pumped_recv).
  assert (c_send (client w1 c) = q) as Hq1 by apply (pumped_queue _ _ _ _ _ _ P1).
  case_bool_decide as Ht.
  - specialize (IH (k + 1)%Z). destruct (batch_ops n q) as [[ops rest] m] eqn:Hb.
    apply run_try_then; [done|]. intros w2 P2. apply run_try_then; [done|]. intros w3 P3.
    rewrite Hq1 in P2. rewrite (pumped_queue _ _ _ _ _ _ P2) in P3.
    specialize (IH w3). rewrite (pumped_queue _ _ _ _ _ _ P3), Hb in IH.
    destruct IH as (ok & w4 & H4 & P4). exists ok, w4. split; [done|].
    pose proof (wrote_trans _ _ _ _ _ _ _ _ _ _ _
      (pumped_trans _ _ _ _ _ _ _ _ _ _ (pumped_trans _ _ _ _ _ _ _ _ _ _ P1 P2) P3) P4) as P.
    simpl in P. by replace (k + (1 + m))%Z with (k + 1 + m)%Z by lia.
  - destruct (run_flush c k w1) as (ok & w2 & H2 & P2). rewrite run_bind, H2. cbn beta iota.
    rewrite Hq1 in P2. destruct ok; cbn [negb]; [|rewrite run_ret; by eexists _, _].
    specialize (P2 eq_refl). apply run_try_then; [done|]. intros w3 P3.
    rewrite (pumped_queue _ _ _ _ _ _ P2) in P3. unfold metrics. run_simpl.
    eexists _, _. split; [done|]. intros _.
    pose proof (pumped_trans _ _ _ _ _ _ _ _ _ _ (pumped_trans _ _ _ _ _ _ _ _ _ _ P1 P2)
      (pumped_trans _ _ _ _ _ _ _ _ _ _ P3 (pumped_metric c w3 1))) as P.
    rewrite (pumped_queue _ _ _ _ _ _ P3) in P. simpl in P.
    by replace (k + 1)%Z with (0 + k + (0 + 1))%Z by lia.
Qed.
End Pump.

(** ** Reading the frames back *)

(** The data frames that a sequence of operations puts on the wire; [open] is
    the frame of an open writer. *)
Fixpoint frames_of (open : option (Z * bytes)) (ops : list conn_op) : option (list (Z * bytes)) :=
  match ops, open with
  | [], None => Some []
  | [], Some _ => None
  | WriteMessage t d :: r, None => cons (t, d) <$> frames_of None r
  | NextWriter t :: r, None => frames_of (Some (t, [])) r
  | WriterWrite d :: r, Some (t, b) => frames_of (Some (t, b ++ d)) r
  | WriterClose :: r, Some f => cons f <$> frames_of None r
  | (WriteMessage _ _ | NextWriter _) :: _, Some _ => None
  | (WriterWrite _ | WriterClose) :: _, None => None
  | _ :: r, _ => frames_of open r
  end.

Fixpoint split_nl (d : bytes) : list bytes :=
  match d with
  | [] => [[]]
  | b :: d' =>
      if bool_decide (b = Byte.x0a) then [] :: split_nl d'
      else match split_nl d' with
           | l :: ls => (b :: l) :: ls
           | [] => [[b]]
           end
  end.

(** The reader: text frames are split at newlines. *)
Definition read_frame (f : Z * bytes) : list sendItem :=
  if bool_decide (f.1 = TextMessage) then mkSendItem TextMessage <$> split_nl f.2
  else [mkSendItem f.1 f.2].

Definition read_frames (fs : list (Z * bytes)) : list sendItem := fs ≫= read_frame.

(** A text without a newline, which coalescing keeps apart. *)
Definition one_line (x : sendItem) : Prop := msgType x = TextMessage -> Byte.x0a ∉ data x.

Fixpoint join_nl (l : list bytes) : bytes :=
  match l with
  | [] => []
  | [d] => d
  | d :: l' => d ++ Byte.x0a :: join_nl l'
  end.

Lemma split_nl_line d : Byte.x0a ∉ d -> split_nl d = [d].
Proof.
  induction d as [|b d IH]; [done|]. intros [H1 H2]%not_elem_of_cons. simpl.
  rewrite bool_decide_eq_false_2 by done. by rewrite IH.
Qed.

Lemma split_nl_app d e : Byte.x0a ∉ d -> split_nl (d ++ Byte.x0a :: e) = d :: split_nl e.
Proof.
  induction d as [|b d IH]; [done|]; cbn [app split_nl].
  intros [H1 H2]%not_elem_of_cons. rewrite bool_decide_eq_false_2 by done. by rewrite IH.
Qed.

Lemma split_join_nl l : l <> [] -> Forall (fun d => Byte.x0a ∉ d) l -> split_nl (join_nl l) = l.
Proof.
  intros Hne Hl. induction Hl as [|d l Hd Hl IH]; [done|]. destruct l as [|e l].
  - by apply split_nl_line.
  - change (split_nl (d ++ Byte.x0a :: join_nl (e :: l)) = d :: e :: l).
    rewrite split_nl_app by done. by rewrite IH.
Qed.

Lemma join_nl_snoc l d : l <> [] -> join_nl (l ++ [d]) = join_nl l ++ Byte.x0a :: d.
Proof.
  induction l as [|e l IH]; [done|]. intros _. destruct l as [|f l]; [done|].
  change (e ++ Byte.x0a :: join_nl ((f :: l) ++ [d]) =
          (e ++ Byte.x0a :: join_nl (f :: l)) ++ Byte.x0a :: d).
  by rewrite IH, <-app_assoc.
Qed.

Lemma text_eta x : msgType x = TextMessage -> mkSendItem TextMessage (data x) = x.
Proof. destruct x; simpl. by intros ->. Qed.

Lemma read_frames_cons f fs : read_frames (f :: fs) = read_frame f ++ read_frames fs.
Proof. done. Qed.

Lemma read_text l :
  l <> [] -> Forall (fun d => Byte.x0a ∉ d) l ->
  read_frame (TextMessage, join_nl l) = map (mkSendItem TextMessage) l.
Proof.
  intros Hne Hl. unfold read_frame. rewrite bool_decide_eq_true_2 by done.
  cbn [snd]. by rewrite split_join_nl.
Qed.

Lemma read_item x : one_line x -> read_frame (msgType x, data x) = [x].
Proof.
  intros Hx. destruct (decide (msgType x = TextMessage)) as [Ht|Ht]; unfold read_frame; cbn [fst snd].
  - rewrite bool_decide_eq_true_2 by done. rewrite split_nl_line by auto. simpl.
    by rewrite text_eta.
  - rewrite bool_decide_eq_false_2 by done. by destruct x.
Qed.

Lemma read_items q :
  Forall one_line q -> read_frames (map (fun x => (msgType x, data x)) q) = q.
Proof.
  induction 1 as [|x q Hx Hq IH]; [done|]. cbn [map]. by rewrite read_frames_cons, read_item, IH.
Qed.

Lemma frames_of_items q : frames_of None (map item_op q) = Some (map (fun x => (msgType x, data x)) q).
Proof. induction q as [|x q IH]; [done|]. simpl. by rewrite IH. Qed.

(** The frames of a batch read back as its items. *)
Lemma batch_ops_read n q l :
  l <> [] -> Forall (fun d => Byte.x0a ∉ d) l -> Forall one_line q ->
  let '(ops, rest, m) := batch_ops n q in
  (∃ fs, frames_of (Some (TextMessage, join_nl l)) ops = Some fs /\
     read_frames fs ++ rest = map (mkSendItem TextMessage) l ++ q) /\
  Z.of_nat (length rest) = (Z.of_nat (length q) - m)%Z.
Proof.
  revert q l. induction n as [|n IH]; intros q l Hne Hl Hq; cbn [batch_ops].
  { split; [|lia]. eexists. split; [done|].
    by rewrite read_frames_cons, read_text, app_nil_r. }
  destruct Hq as [|x q Hx Hq].
  { split; [|done]. eexists. split; [done|].
    by rewrite read_frames_cons, read_text, app_nil_r. }
  case_bool_decide as Ht.
  - specialize (IH q (l ++ [data x])). destruct (batch_ops n q) as [[ops rest] m].
    destruct IH as [(fs & Hfs & Hr) Hlen]; [by destruct l|by apply Forall_app; auto|done|].
    split; [|simpl; lia]. exists fs. simpl. rewrite <-app_assoc. simpl.
    rewrite <-join_nl_snoc by done. split; [done|]. rewrite Hr, map_app, <-app_assoc. simpl.
    by rewrite text_eta.
  - split; [|simpl; lia]. eexists. split; [done|].
    by rewrite !read_frames_cons, read_text, read_item, <-app_assoc.
Qed.

Section Coalesce.
Context {RT : Runtime}.

End Coalesce.

(** ** Closing *)
Section Closing.
Context {RT : Runtime}.

(** A connection on which no operation fails. *)
Definition healthy (c : cref) : Prop := ∀ n o, rt_conn n c o = None.

Lemma run_try_healthy c o k w :
  healthy c ->
  ∃ w', run (try_conn c o k) w = Some (true, w') /\
    pumped c (c_send (client w c)) (data_op o) 0 w w'.
Proof.
  intros Hh. destruct (run_try_conn c o k w) as (ok & w' & Hr & Hp). exists w'. split; [|done].
  unfold try_conn, conn_call in *. rewrite run_bind, run_atomically, Hh in *. cbn in *.
  rewrite run_ret in *. congruence.
Qed.

Lemma run_drain_loop_healthy n c w :
  healthy c -> ∃ w', run (drain_loop n c) w = Some (true, w').
Proof.
  intros Hh. revert w. induction n as [|n IH]; intros w; cbn [drain_loop]; [by eexists|].
  rewrite run_bind, run_chan_recv. destruct (c_send (client w c)) as [|x q]; cbn beta iota; [by eexists|].
  destruct (run_try_healthy c (WriteMessage (msgType x) (data x)) "write_error"
              (upd_client c (set_c_send q) w) Hh) as (w1 & H1 & _).
  rewrite run_bind, H1. cbn [negb]. unfold metrics. rewrite run_bind, run_modify. apply IH.
Qed.

Lemma run_drainQueued_healthy c w :
  healthy c ->
  ∃ w' k, run (drainQueued c) w = Some (true, w') /\
    pumped c [] (map item_op (c_send (client w c))) k w w'.
Proof.
  intros Hh. destruct (drainQueued_loop c w) as (ok & w' & j & H & P & Hok).
  assert (ok = true) as ->.
  { unfold drainQueued, queue_length in H. rewrite run_bind, run_gets in H. cbn beta iota in H.
    destruct (bool_decide (length (c_send (client w c)) = 0)); [rewrite run_ret in H; congruence|].
    unfold set_write_deadline in H. rewrite !run_bind, run_gets in H. cbn beta iota in H.
    destruct (run_try_healthy c (SetWriteDeadline (w_now w + WriteWait (c_config (client w c)))%Z)
                "write_deadline_error" w Hh) as (w1 & H1 & _).
    rewrite H1 in H. cbn [negb] in H.
    destruct (run_drain_loop_healthy (length (c_send (client w c))) c w1 Hh) as (w2 & H2).
    congruence. }
  specialize (Hok eq_refl). subst j. rewrite drop_all, take_ge in P by lia. by eexists _, _.
Qed.

Lemma run_closeConn c w :
  ∃ w', run (closeConn c) w = Some (tt, w') /\ c_connClosed (client w' c) = true /\
    c_send (client w' c) = c_send (client w c) /\ writes c (w_trace w') = writes c (w_trace w) /\
    h_unregister (w_hub w') = h_unregister (w_hub w) /\
    h_ctxDone (w_hub w') = h_ctxDone (w_hub w) /\ c_readDone (client w' c) = c_readDone (client w c).
Proof.
  unfold closeConn. rewrite run_modify. eexists. split; [done|].
  destruct (c_connClosed (client w c)) eqn:Hc; [done|]. by world_simpl.
Qed.

Lemma run_pump_done c w w1 :
  run (pump_select c) w = Some (PDone, w1) -> w1 = bump w /\ c_done (client w c) = true.
Proof.
  unfold pump_select. rewrite run_await. cbn zeta. intros H%list_elem_of_lookup_2.
  rewrite !elem_of_app in H. destruct H as [H|[H|H]].
  - destruct (c_done _); set_unfold in H; naive_solver.
  - destruct (c_send _); set_unfold in H; naive_solver.
  - destruct (rt_tick _); set_unfold in H; naive_solver.
Qed.

End Closing.
