(* ===== verification/ReadSpec.v ===== *)
(** * ReadSpec: what the read pump does with a message

    The order of hooks and handlers around one message, the veto of
    [BeforeMessage], messages over the rate limit, read errors, and the
    unregistration that ends the pump. *)

From S2P Require Import Prelude Prog Types Config World Invariant Send Client Pump PumpSpec.

(** The hook and handler calls of a trace, oldest first, and the errors counted. *)
Definition hook_calls (t : list event) : list hook_call :=
  reverse (omap (fun e => match e with EvHook h => Some h | _ => None end) t).

#[export] Instance event_is_received_dec (e : event) :
  Decision (e = EvMetric IncrementMessagesReceived).
Proof.
  refine (match e with
          | EvMetric m => cast_if (decide (m = IncrementMessagesReceived))
          | _ => right _
          end); congruence.
Defined.

Definition received_count (t : list event) : nat :=
  length (base.filter (fun e => e = EvMetric IncrementMessagesReceived) t).

(** The application's hooks and handlers as functions: they answer and leave
    the hub's state alone. *)
Record app_policy (env : HubEnv) (before : cref -> Message -> option Message * option error)
    (handler : cref -> Message -> option error) : Prop := {
  ap_before : match BeforeMessage (hooks env) with
              | None => ∀ c m, before c m = (None, None)
              | Some h => ∀ c m w, run (h c m) w = Some (before c m, w)
              end;
  ap_handler : match onMessage env with
               | None => ∀ c m, handler c m = None
               | Some h => ∀ c m w, run (h c m) w = Some (handler c m, w)
               end;
  ap_after : match AfterMessage (hooks env) with
             | None => True
             | Some h => ∀ c m e w, run (h c m e) w = Some (tt, w)
             end;
  ap_client : ∀ cb c m w, run (clientCallback env cb c m) w = Some (tt, w);
  ap_error : ∀ cb c e w, run (errorCallback env cb c e) w = Some (tt, w);
  ap_onError : match OnError (hooks env) with
               | None => True
               | Some h => ∀ c e w, run (h c e) w = Some (tt, w)
               end
}.

Definition if_set {A} (o : option A) (h : hook_call) : list hook_call :=
  match o with Some _ => [h] | None => [] end.

(** The calls made for one message, in order. *)
Definition message_calls (env : HubEnv) (before : cref -> Message -> option Message * option error)
    (handler : cref -> Message -> option error) (c : cref) (cb : option callback) (msg : Message)
    : list hook_call :=
  if_set (BeforeMessage (hooks env)) (HBeforeMessage c msg) ++
  match before c msg with
  | (_, Some _) => []
  | (modified, None) =>
      let m := default msg modified in
      match cb with Some f => [HClientOnMessage f c m] | None => [] end ++
      if_set (onMessage env) (HMessageHandler c m) ++
      if_set (AfterMessage (hooks env)) (HAfterMessage c m (handler c m))
  end.

(** The calls made for a failed read. *)
Definition error_calls (env : HubEnv) (c : cref) (cb : option callback) (err : error)
    : list hook_call :=
  match cb with Some f => [HClientOnError f c err] | None => [] end ++
  if_set (OnError (hooks env)) (HOnError c err).

Section Read.
Context {RT : Runtime} (env : HubEnv).
Context (before : cref -> Message -> option Message * option error).
Context (handler : cref -> Message -> option error) (Hap : app_policy env before handler).
Context (unexpected : error -> list Z -> bool).

(** [w'] is [w] with more events: the calls [hs] among them. *)
Definition called (hs : list hook_call) (n : nat) (w w' : world) : Prop :=
  ∃ evs, w' = emits evs w /\ hook_calls evs = hs /\ received_count evs = n.

Lemma hook_calls_app a b : hook_calls (a ++ b) = hook_calls b ++ hook_calls a.
Proof. unfold hook_calls. by rewrite omap_app, reverse_app. Qed.

Lemma received_count_app a b : received_count (a ++ b) = received_count a + received_count b.
Proof. unfold received_count. by rewrite filter_app, length_app. Qed.

Lemma called_refl w : called [] 0 w w.
Proof. exists []. by rewrite emits_nil. Qed.

Lemma called_trans h1 h2 n1 n2 w1 w2 w3 :
  called h1 n1 w1 w2 -> called h2 n2 w2 w3 -> called (h1 ++ h2) (n1 + n2) w1 w3.
Proof.
  intros (e1 & -> & <- & <-) (e2 & -> & <- & <-). exists (e2 ++ e1).
  rewrite emits_app, hook_calls_app, received_count_app. split_and!; [done|done|lia].
Qed.

Lemma called_emit e w :
  called (match e with EvHook h => [h] | _ => [] end)
    (if decide (e = EvMetric IncrementMessagesReceived) then 1 else 0) w (emit e w).
Proof.
  exists [e]. split; [done|]. split; [by destruct e|].
  unfold received_count. rewrite filter_cons. by case_decide.
Qed.

(** [run] reaching a state with given calls. *)
Definition runs_with {A} (p : prg A) (a : A) (hs : list hook_call) (n : nat) (w : world) : Prop :=
  ∃ w', run p w = Some (a, w') /\ called hs n w w'.

Lemma runs_ret {A} (a : A) w : runs_with (mret a) a [] 0 w.
Proof. exists w. split; [done|apply called_refl]. Qed.

Lemma runs_bind {A B} (p : prg A) (k : A -> prg B) a b h1 h2 n1 n2 w :
  runs_with p a h1 n1 w -> (∀ w', called h1 n1 w w' -> runs_with (k a) b h2 n2 w') ->
  runs_with (p ≫= k) b (h1 ++ h2) (n1 + n2) w.
Proof.
  intros (w1 & Hr & Hc) Hk. destruct (Hk w1 Hc) as (w2 & Hr2 & Hc2).
  exists w2. rewrite run_bind, Hr. split; [done|]. by eapply called_trans.
Qed.

Lemma runs_emit e w :
  runs_with (modify (emit e)) tt (match e with EvHook h => [h] | _ => [] end)
    (if decide (e = EvMetric IncrementMessagesReceived) then 1 else 0) w.
Proof. eexists. rewrite run_modify. split; [done|apply called_emit]. Qed.

Lemma runs_gets {A} (f : world -> A) w : runs_with (gets f) (f w) [] 0 w.
Proof. exists w. split; [done|apply called_refl]. Qed.

Lemma runs_silent {A} (p : prg A) a w : run p w = Some (a, w) -> runs_with p a [] 0 w.
Proof. intros H. exists w. split; [done|apply called_refl]. Qed.

Lemma called_client hs n w w' c : called hs n w w' -> client w' c = client w c.
Proof. by intros (evs & -> & _). Qed.

Lemma runs_eq {A} (p : prg A) a h1 h2 n1 n2 w :
  runs_with p a h1 n1 w -> h1 = h2 -> n1 = n2 -> runs_with p a h2 n2 w.
Proof. by intros H -> ->. Qed.

(** A block followed by more. *)
Lemma runs_then {A B} (p : prg A) (k : A -> prg B) a b h1 h2 n1 n2 w :
  runs_with p a h1 n1 w -> (∀ w', called h1 n1 w w' -> runs_with (k a) b h2 n2 w') ->
  ∀ h n, h = h1 ++ h2 -> n = n1 + n2 -> runs_with (p ≫= k) b h n w.
Proof. intros H1 H2 h n -> ->. by eapply runs_bind. Qed.

Lemma runs_metrics m w : m <> IncrementMessagesReceived -> runs_with (metrics m) tt [] 0 w.
Proof.
  intros Hm. unfold metrics. eapply runs_eq; [apply runs_emit|done|].
  rewrite decide_False; [done|congruence].
Qed.

Lemma runs_received w : runs_with (metrics IncrementMessagesReceived) tt [] 1 w.
Proof. unfold metrics. eapply runs_eq; [apply runs_emit|done|]. by rewrite decide_True. Qed.

Lemma runs_logger l s w : runs_with (logger l s) tt [] 0 w.
Proof. unfold logger. eapply runs_eq; [apply runs_emit|done|]. by rewrite decide_False. Qed.

Lemma runs_hook_event h w : runs_with (modify (emit (EvHook h))) tt [h] 0 w.
Proof. eapply runs_eq; [apply runs_emit|done|]. by rewrite decide_False. Qed.

Lemma runs_before c m w :
  runs_with (before_message env c m) (before c m) (if_set (BeforeMessage (hooks env)) (HBeforeMessage c m)) 0 w.
Proof.
  unfold before_message. pose proof (ap_before _ _ _ Hap) as Hb.
  destruct (BeforeMessage (hooks env)) as [h|].
  - eapply runs_then; [apply runs_hook_event| |done|done]. intros w' _. by apply runs_silent.
  - rewrite Hb. apply runs_ret.
Qed.

Lemma runs_handler c m w :
  runs_with (run_handler env c m) (handler c m) (if_set (onMessage env) (HMessageHandler c m)) 0 w.
Proof.
  unfold run_handler. pose proof (ap_handler _ _ _ Hap) as Hb.
  destruct (onMessage env) as [h|]; [|rewrite Hb; apply runs_ret].
  eapply runs_then; [apply runs_gets| |done|done]. intros w1 _.
  eapply runs_then; [apply runs_hook_event| |done|done]. intros w2 _.
  eapply runs_then; [by apply runs_silent| |done|done]. intros w3 _.
  eapply (runs_then _ _ tt (handler c m) [] [] 0 0); [|intros w4 _; apply runs_ret|done|done].
  destruct (skipHandlerLatency env); simpl; [apply runs_ret|].
  eapply runs_then; [apply runs_gets| |done|done]. intros w4 _. by apply runs_metrics.
Qed.

Lemma runs_call_hook (h : option (prg unit)) call w :
  (∀ b w, h = Some b -> run b w = Some (tt, w)) ->
  runs_with (call_hook h call) tt (if_set h call) 0 w.
Proof.
  intros Hh. unfold call_hook. destruct h as [b|]; [|apply runs_ret].
  eapply runs_then; [apply runs_hook_event| |done|done]. intros w' _. by apply runs_silent, Hh.
Qed.

Lemma runs_client_callback cb c m w :
  runs_with (match cb with
             | Some f => modify (emit (EvHook (HClientOnMessage f c m))) ;; clientCallback env f c m
             | None => mret tt
             end) tt (match cb with Some f => [HClientOnMessage f c m] | None => [] end) 0 w.
Proof.
  destruct cb as [f|]; [|apply runs_ret].
  eapply runs_then; [apply runs_hook_event| |done|done]. intros w' _.
  apply runs_silent, (ap_client _ _ _ Hap).
Qed.

Lemma runs_processMessage c mt d w :
  runs_with (processMessage env c mt d) tt
    (message_calls env before handler c (c_onMessage (client w c))
       (mkMessage mt d (c_ID (client w c)) (w_now w))) 1 w.
Proof.
  unfold processMessage, message_calls, new_received.
  eapply runs_then; [apply runs_gets| |done|done]. intros w1 C1.
  eapply (runs_then _ _ tt tt [] _ 1 0); [apply runs_received| |done|done]. intros w2 C2.
  eapply runs_then; [by apply runs_metrics| |done|done]. intros w3 C3.
  set (msg := mkMessage _ _ _ _).
  eapply runs_then; [apply runs_before| |done|done]. intros w4 C4.
  destruct (before c msg) as [modified [e|]]; [apply runs_logger|].
  assert (c_onMessage (client w c) = c_onMessage (client w4 c)) as ->.
  { by rewrite (called_client _ _ _ _ _ C4), (called_client _ _ _ _ _ C3),
      (called_client _ _ _ _ _ C2), (called_client _ _ _ _ _ C1). }
  eapply runs_then; [apply runs_gets| |done|done]. intros w5 C5.
  eapply runs_then; [apply runs_client_callback| |done|done]. intros w6 C6.
  eapply runs_then; [apply runs_handler| |done|done]. intros w7 C7.
  eapply runs_eq; [apply runs_call_hook| |done].
  - intros b w8. pose proof (ap_after _ _ _ Hap) as Haf.
    destruct (AfterMessage (hooks env)); intros; by simplify_eq/=.
  - by destruct (AfterMessage (hooks env)).
Qed.

(** An accepted message is counted once and handled in order: the
    [BeforeMessage] hook, which may veto it (then nobody else sees it) or
    replace it; the client's own handler; the hub's handler; and the
    [AfterMessage] hook with the hub handler's error.  The message carries the
    client's ID, its type and payload, and the time of receipt. *)
Theorem processMessage_calls (c : cref) (mt : Z) (d : bytes) (w : world) :
  runs_with (processMessage env c mt d) tt
    (message_calls env before handler c (c_onMessage (client w c))
       (mkMessage mt d (c_ID (client w c)) (w_now w))) 1 w.
Proof. apply runs_processMessage. Qed.

(** C26: One turn of the read loop.  A failed read ends the pump, and only an
    unexpected close is reported, to the client's error handler and then to
    the hub's hook; a message over the rate limit is dropped without being
    counted or handled; any other message is processed. *)
Theorem read_step_spec (ReadMessage : prg (option error) -> cref -> prg (error + (Z * bytes)))
    (c : cref) (res : error + (Z * bytes)) (w w1 : world)
    (Hread : run (ReadMessage (pong_handler c) c) w = Some (res, w1)) :
  match res with
  | inl err =>
      ∃ w', run (read_step env unexpected ReadMessage c) w = Some (false, w') /\
        called (if unexpected err [CloseGoingAway; CloseAbnormalClosure; CloseNormalClosure]
                then error_calls env c (c_onError (client w1 c)) err else []) 0 w1 w'
  | inr (mt, d) =>
      ∃ ok w2 w', run (checkRateLimit env c) w1 = Some (ok, w2) /\
        run (read_step env unexpected ReadMessage c) w = Some (true, w') /\
        called (if (ok : bool) then
                  message_calls env before handler c (c_onMessage (client w2 c))
                    (mkMessage mt d (c_ID (client w2 c)) (w_now w2))
                else []) (if ok then 1 else 0) w2 w'
  end.
Proof.
  unfold read_step. rewrite run_bind, Hread. cbn beta iota. clear Hread. destruct res as [err|[mt d]].
  - eapply (runs_then _ _ tt false _ [] 0 0); [|intros; apply runs_ret|by rewrite app_nil_r|done].
    unfold handleReadError.
    destruct (unexpected err _); cbn [negb]; [|apply runs_ret]. unfold error_calls.
    eapply runs_then; [apply runs_gets| |done|done]. intros w2 C2.
    eapply (runs_then _ _ tt tt _ _ 0 0); [| |done|done].
    { destruct (c_onError (client w1 c)) as [f|]; [|apply runs_ret].
      eapply (runs_then _ _ tt tt [_] [] 0 0); [apply runs_hook_event| |done|done]. intros w3 _.
      apply runs_silent, (ap_error _ _ _ Hap). }
    intros w3 C3. eapply (runs_then _ _ tt tt _ [] 0 0); [|intros; by apply runs_metrics|by rewrite app_nil_r|done].
    eapply runs_eq; [apply runs_call_hook| |done].
    + intros b w8. pose proof (ap_onError _ _ _ Hap) as Haf.
      destruct (OnError (hooks env)); intros; by simplify_eq/=.
    + by destruct (OnError (hooks env)).
  - destruct (run_checkRateLimit env c w1) as (ok & w2 & H1). exists ok, w2.
    rewrite run_bind, H1. cbn beta iota.
    destruct ok; cbn [negb].
    + destruct (runs_processMessage c mt d w2) as (w3 & H2 & C2).
      exists w3. rewrite run_bind, H2. by rewrite run_ret.
    + assert (runs_with (logger Warn "Rate limit exceeded, dropping message" ;;
                         metrics (IncrementErrors "rate_limit_exceeded") ;; mret true) true [] 0 w2)
        as (w3 & H2 & C2).
      { eapply (runs_then _ _ tt true [] [] 0 0); [apply runs_logger| |done|done]. intros w3 _.
        eapply (runs_then _ _ tt true [] [] 0 0); [by apply runs_metrics| |done|done].
        intros w4 _. apply runs_ret. }
      by exists w3.
Qed.

(** C27: However a read pump ends, its client's connection is closed and the
    client has been handed to the Run loop for unregistration, unless the hub
    itself is shutting down. *)
Theorem readPump_unregisters (ReadMessage : prg (option error) -> cref -> prg (error + (Z * bytes))) (fuel : nat)
    (c : cref) (w w' : world)
    (Hrun : run (readPump env unexpected ReadMessage fuel c) w = Some (tt, w')) :
  c_connClosed (client w' c) = true /\ c_readDone (client w' c) = true /\
  (last (h_unregister (w_hub w')) = Some c \/ h_ctxDone (w_hub w') = true).
Proof.
  unfold readPump in Hrun. rewrite run_bind, run_modify in Hrun. cbn beta iota in Hrun.
  rewrite run_bind in Hrun. destruct (run (setup_read c) _) as [[[] w1]|]; [|done].
  rewrite run_bind in Hrun. destruct (run (read_loop _ _ _ _ _) w1) as [[[] w2]|]; [|done].
  rewrite run_bind, run_modify in Hrun. cbn beta iota in Hrun. rewrite run_bind in Hrun.
  set (w3 := upd_client c (set_c_readDone true) w2) in Hrun.
  assert (c_readDone (client w3 c) = true) as Hd by (subst w3; by world_simpl).
  destruct (run (send_unregister c) w3) as [[[] w4]|] eqn:Hs; [|done].
  assert (c_readDone (client w4 c) = true /\
    (last (h_unregister (w_hub w4)) = Some c \/ h_ctxDone (w_hub w4) = true)) as [Hd4 Hu].
  { unfold send_unregister in Hs. rewrite run_await in Hs.
    repeat case_match; simplify_eq/=; (split; [done|]); world_simpl; auto;
      left; by rewrite last_snoc. }
  rewrite run_bind in Hrun. destruct (run_closeConn c w4) as (w5 & H5 & E1 & _ & _ & E4 & E5 & E6).
  rewrite H5 in Hrun. cbn beta iota in Hrun. unfold wg_done in Hrun. rewrite run_modify in Hrun.
  simplify_eq. world_simpl. rewrite E1, E6, E4, E5. done.
Qed.
End Read.
