(* ===== verification/Presence.v ===== *)
(** * Presence: cluster-wide counts (presence.go)

    Each hub gossips its client and room counts through the adapter; the
    others cache the last report of every node and forget nodes that have been
    silent for the TTL.  The wire encoding is the JSON library's: a parameter. *)

From S2P Require Import Prelude Prog Types Config World Invariant Send Client Rooms Registry Pool.
From S2P Require Import Broadcast.

Record nodePresence := mkNodePresence {
  np_NodeID : string;
  np_ClientCount : Z;
  np_Rooms : gmap string Z;
  np_Timestamp : Z
}.

(** What the gossip goroutine remembers between ticks. *)
Record presenceState := mkPresenceState {
  lastClientCount : Z;
  lastRoomVersion : Z;
  cachedPayload : bytes;
  lastPresence : option nodePresence
}.

Definition initialPresenceState : presenceState := mkPresenceState 0 (-1) [] None.

(** [t.UnixMilli()]. *)
Definition UnixMilli (t : Z) : Z := (t / Millisecond)%Z.

Section Presence.
Context {RT : Runtime} (env : HubEnv).
Context (json_Marshal : nodePresence -> error + bytes) (json_Unmarshal : bytes -> error + nodePresence).

(** [for name, room := range h.rooms { rooms[name] = len(loadRoomSnapshot(room)) }]. *)
Definition gather_rooms : prg (gmap string Z) :=
  rooms ← gets (fun w => map_to_list (h_rooms (w_hub w))) ;
  counts ← for_collect rooms (fun nr : string * rref =>
    n ← gets (fun w => length (loadRoomSnapshot (room w nr.2))) ;
    mret (Some (nr.1, Z.of_nat n))) ;
  mret (list_to_map counts).

(** Publish a marshalled payload, unless it is empty. *)
Definition publish_payload (s : presenceState) : prg presenceState :=
  (if bool_decide (length (cachedPayload s) = 0) then mret tt
   else publishToAdapter env (adapter_msg AdapterPresence 0 (cachedPayload s))) ;;
  mret s.

Definition marshal_and_publish (s : presenceState) (p : nodePresence) : prg presenceState :=
  match json_Marshal p with
  | inl _ => logger Error "presence marshal failed" ;; mret s
  | inr d => publish_payload (mkPresenceState (lastClientCount s) (lastRoomVersion s) d (lastPresence s))
  end.

Definition publishPresence (s : presenceState) : prg presenceState :=
  clientCount ← ClientCount ;
  roomVersion ← gets (fun w => h_roomVersion (w_hub w)) ;
  if negb (bool_decide (clientCount = lastClientCount s)) ||
     negb (bool_decide (roomVersion = lastRoomVersion s)) then
    rooms ← gather_rooms ;
    now ← time_Now ;
    let p := mkNodePresence (nodeID env) clientCount rooms (UnixMilli now) in
    marshal_and_publish (mkPresenceState clientCount roomVersion (cachedPayload s) (Some p)) p
  else match lastPresence s with
  | Some last =>
      now ← time_Now ;
      let p := mkNodePresence (np_NodeID last) (np_ClientCount last) (np_Rooms last) (UnixMilli now) in
      marshal_and_publish (mkPresenceState (lastClientCount s) (lastRoomVersion s)
                             (cachedPayload s) (Some p)) p
  | None => publish_payload s
  end.

Definition on_cache (f : gmap string nodeStats -> gmap string nodeStats) : world -> world :=
  upd_hub (fun h => set_h_presenceCache (f <$> h_presenceCache h) h).

Definition handlePresenceMessage (msg : AdapterMessage) : prg unit :=
  enabled ← gets (fun w => bool_decide (is_Some (h_presenceCache (w_hub w)))) ;
  if negb enabled then mret tt else
  match json_Unmarshal (am_Data msg) with
  | inl _ => logger Warn "presence unmarshal failed"
  | inr p =>
      modify (fun w =>
        on_cache (<[np_NodeID p := mkNodeStats (np_ClientCount p) (np_Rooms p) (w_now w)]>) w)
  end.

(** [stats.lastSeen.Before(cutoff)]. *)
Definition stale (cutoff : Z) (s : nodeStats) : bool := bool_decide (ns_lastSeen s < cutoff)%Z.

(** Under [presenceMu]: one pass over the cache, one line per evicted node. *)
Definition evictStaleNodes : prg unit :=
  cutoff ← gets (fun w => (w_now w - presenceTTL env)%Z) ;
  modify (fun w =>
    let m := default ∅ (h_presenceCache (w_hub w)) in
    let gone := filter (fun p => stale cutoff p.2 = true) m in
    foldr (fun (_ : string) w => emit (EvLog Info "evicted stale node") w)
      (on_cache (fun m => filter (fun p => stale cutoff p.2 = false) m) w)
      (range_keys (dom gone) w)).

(** One turn of [runPresence]: [false] once the hub's context is done. *)
Definition presence_step (s : presenceState) : prg (bool * presenceState) :=
  stop ← await (fun w =>
    match h_ctxDone (w_hub w), rt_tick (w_nonce w) with
    | true, true => Some (rt_select (w_nonce w), bump w)
    | true, false => Some (true, w)
    | false, true => Some (false, bump w)
    | false, false => None
    end) ;
  if (stop : bool) then mret (false, s) else
  s' ← publishPresence s ;
  evictStaleNodes ;;
  mret (true, s').

Fixpoint presence_loop (fuel : nat) (s : presenceState) : prg unit :=
  match fuel with
  | 0 => out_of_fuel
  | S f => r ← presence_step s ; if (r.1 : bool) then presence_loop f r.2 else mret tt
  end.

Definition runPresence (fuel : nat) : prg unit :=
  new_ticker (presenceInterval env) ;;
  presence_loop fuel initialPresenceState ;;
  modify (upd_hub (fun h => set_h_wg (h_wg h - 1) h)).

(** ** Cluster-wide totals *)

(** [for _, stats := range cache { total += f(stats) }] in Go's [int]. *)
Definition add_stats (f : nodeStats -> Z) (m : gmap string nodeStats) (keys : list string) (total : Z)
    : Z :=
  foldl (fun acc k => match m !! k with Some s => wrap64 (acc + f s) | None => acc end) total keys.

Definition global_total (f : nodeStats -> Z) (total : Z) : prg Z :=
  atomically (fun w =>
    match h_presenceCache (w_hub w) with
    | None => (total, w)
    | Some m => (add_stats f m (range_keys (dom m) w) total, bump w)
    end).

Definition GlobalClientCount : prg Z :=
  total ← ClientCount ; global_total ns_clientCount total.

Definition GlobalRoomCount (name : string) : prg Z :=
  total ← RoomCount name ;
  global_total (fun s => default 0%Z (ns_rooms s !! name)) (Z.of_nat total).
End Presence.

(** ** Every interleaving *)
Section Keeps.
Context {RT : Runtime} (lim : Limits) (env : HubEnv) (Hh : hooks_keep lim env).
Context (enc : nodePresence -> error + bytes) (dec : bytes -> error + nodePresence).

Lemma keeps_publish_payload s : keeps (wf lim) (publish_payload env s).
Proof. unfold publish_payload. keeps_auto. Qed.

#[local] Hint Resolve keeps_publish_payload : keeps.

Lemma keeps_publishPresence s : keeps (wf lim) (publishPresence env enc s).
Proof.
  unfold publishPresence, gather_rooms, ClientCount, marshal_and_publish. cbn zeta. keeps_auto.
Qed.

Lemma keeps_handlePresenceMessage m : keeps (wf lim) (handlePresenceMessage dec m).
Proof.
  unfold handlePresenceMessage. keeps_auto. apply keeps_modify. intros w Hw. by apply wf_upd_hub.
Qed.

Lemma keeps_evictStaleNodes : keeps (wf lim) (evictStaleNodes env).
Proof.
  unfold evictStaleNodes. keeps_auto. apply keeps_modify. intros w Hw. cbn zeta.
  induction (range_keys _ w) as [|k l IH]; simpl; [by apply wf_upd_hub|by apply wf_emit].
Qed.

#[local] Hint Resolve keeps_publishPresence keeps_evictStaleNodes : keeps.

Lemma keeps_presence_loop n s : keeps (wf lim) (presence_loop env enc n s).
Proof.
  revert s. induction n as [|n IH]; intros s; cbn [presence_loop]; unfold presence_step; keeps_auto.
  apply keeps_await. intros w x w' Hw. repeat case_match; intros [= <- <-]; by try apply wf_bump.
Qed.

#[local] Hint Resolve keeps_presence_loop : keeps.

Lemma keeps_runPresence n : keeps (wf lim) (runPresence env enc n).
Proof. unfold runPresence. keeps_auto. Qed.

Lemma keeps_global_total f t : keeps (wf lim) (global_total f t).
Proof. apply keeps_atomically. intros w Hw. case_match; [by apply wf_bump|done]. Qed.
End Keeps.

#[export] Hint Resolve keeps_handlePresenceMessage keeps_runPresence keeps_global_total : keeps.
