(* ===== verification/PresenceSpec.v ===== *)
(** * PresenceSpec: totals, heartbeats and eviction

    The totals do not depend on the iteration order of the cache; a heartbeat
    travels from one hub's counts to another hub's cache; eviction keeps
    exactly the nodes heard from within the TTL. *)

From S2P Require Import Prelude Prog Types Config World Invariant Send Client Rooms RoomSpec.
From S2P Require Import Registry Pool Broadcast BroadcastSpec Presence.

(** The sum of a count over the cached nodes. *)
Definition stats_sum (f : nodeStats -> Z) (m : gmap string nodeStats) : Z :=
  map_fold (fun _ s acc => f s + acc)%Z 0%Z m.

Definition sum_at (f : nodeStats -> Z) (m : gmap string nodeStats) (keys : list string) : Z :=
  foldr (fun k acc => match m !! k with Some s => f s | None => 0 end + acc)%Z 0%Z keys.

Lemma stats_sum_insert f m k s :
  m !! k = None -> stats_sum f (<[k := s]> m) = (f s + stats_sum f m)%Z.
Proof. intros Hk. unfold stats_sum.
  rewrite (map_fold_insert_L (fun (_ : string) s acc => f s + acc)%Z); [done|intros; lia|done]. Qed.

Lemma sum_at_perm f m l1 l2 : l1 ≡ₚ l2 -> sum_at f m l1 = sum_at f m l2.
Proof. unfold sum_at. induction 1; simpl; lia. Qed.

Lemma sum_at_ext f m1 m2 l :
  (∀ k, k ∈ l -> m1 !! k = m2 !! k) -> sum_at f m1 l = sum_at f m2 l.
Proof.
  induction l as [|k l IH]; intros H; [done|]. simpl. rewrite H by (by left). f_equal.
  apply IH. intros j Hj. apply H. by right.
Qed.

Lemma sum_at_dom f m : sum_at f m (elements (dom m)) = stats_sum f m.
Proof.
  induction m as [|k s m Hk IH] using map_ind.
  { rewrite dom_empty_L, elements_empty. done. }
  rewrite stats_sum_insert by done. rewrite dom_insert_L.
  assert (k ∉ dom m) as Hd by by apply not_elem_of_dom.
  rewrite (sum_at_perm _ _ _ _ (elements_union_singleton _ _ Hd)). simpl.
  rewrite lookup_insert_eq. f_equal. rewrite <-IH. apply sum_at_ext.
  intros j Hj. apply elem_of_elements in Hj. rewrite lookup_insert_ne; [done|].
  intros ->. done.
Qed.

Lemma add_stats_sum f m keys total :
  add_stats f m keys (wrap64 total) = wrap64 (total + sum_at f m keys).
Proof.
  revert total. induction keys as [|k keys IH]; intros total; simpl; [by rewrite Z.add_0_r|].
  destruct (m !! k) as [s|]; [|by rewrite IH].
  rewrite wrap64_add_l, IH. f_equal. lia.
Qed.

Section Spec.
Context {RT : Runtime} (env : HubEnv).
Context (json_Marshal : nodePresence -> error + bytes) (json_Unmarshal : bytes -> error + nodePresence).

Lemma run_global_total f total w :
  in_int64 total ->
  ∃ w', run (global_total f total) w =
    Some (match h_presenceCache (w_hub w) with
          | None => total
          | Some m => wrap64 (total + stats_sum f m)
          end, w') /\ w_hub w' = w_hub w /\ w_clients w' = w_clients w.
Proof.
  intros Ht. unfold global_total. rewrite run_atomically.
  destruct (h_presenceCache (w_hub w)) as [m|]; [|by eexists].
  exists (bump w). split; [|done].
  rewrite <-(wrap64_small total Ht) at 1. rewrite add_stats_sum, <-sum_at_dom.
  by rewrite (sum_at_perm _ _ (range_keys (dom m) w) _ (rt_range_perm _ _)).
Qed.

(** The global client count is the local one plus every cached node's,
    whatever the order in which the cache is walked and however large the
    numbers (modulo 2^64, as [int] adds); without presence it is the local
    count. *)
Theorem GlobalClientCount_total (w : world) (Hc : in_int64 (h_clientCount (w_hub w))) :
  ∃ w', run GlobalClientCount w =
    Some (match h_presenceCache (w_hub w) with
          | None => h_clientCount (w_hub w)
          | Some m => wrap64 (h_clientCount (w_hub w) + stats_sum ns_clientCount m)
          end, w') /\ w_hub w' = w_hub w.
Proof.
  unfold GlobalClientCount, ClientCount. rewrite run_bind, run_gets. cbn beta iota.
  destruct (run_global_total ns_clientCount _ w Hc) as (w' & Hr & Hh & _). eauto.
Qed.

(** One pass over the cache, and one log line per node evicted. *)
Lemma run_evictStaleNodes (w : world) :
  ∃ evs, run (evictStaleNodes env) w = Some (tt, emits evs
      (on_cache (filter (fun p => stale (w_now w - presenceTTL env) p.2 = false)) w)) /\
    published evs = [].
Proof.
  unfold evictStaleNodes. rewrite run_bind, run_gets. cbn beta iota. rewrite run_modify.
  set (w0 := on_cache _ w). cbn zeta. induction (range_keys _ w) as [|k l (evs & IH & Hp)].
  - by exists [].
  - exists (EvLog Info "evicted stale node" :: evs). split; [|done]. cbn [foldr].
    injection IH as IH. by rewrite IH.
Qed.

Lemma lookup_evicted (cutoff : Z) (m : gmap string nodeStats) (n : string) :
  filter (fun p => stale cutoff p.2 = false) m !! n =
    match m !! n with
    | Some s => if bool_decide (cutoff <= ns_lastSeen s)%Z then Some s else None
    | None => None
    end.
Proof.
  destruct (m !! n) as [s|] eqn:Hn.
  - case_bool_decide as Ht.
    + apply map_lookup_filter_Some. split; [done|]. unfold stale. cbn. apply bool_decide_eq_false. lia.
    + apply map_lookup_filter_None. right. intros s' Hs'. simplify_eq. unfold stale. cbn.
      rewrite bool_decide_eq_false. lia.
  - apply map_lookup_filter_None. by left.
Qed.

(** Eviction keeps exactly the cached nodes that reported within the TTL. *)
Theorem evictStaleNodes_ttl (w : world) :
  ∃ w', run (evictStaleNodes env) w = Some (tt, w') /\
    ∀ n, (match h_presenceCache (w_hub w') with None => None | Some m => m !! n end) =
         match h_presenceCache (w_hub w) with
         | None => None
         | Some m => match m !! n with
                     | Some s => if bool_decide (w_now w - ns_lastSeen s <= presenceTTL env)%Z
                                 then Some s else None
                     | None => None
                     end
         end.
Proof.
  destruct (run_evictStaleNodes w) as (evs & Hr & _). eexists. split; [exact Hr|].
  intros n. unfold on_cache. world_simpl. destruct (h_presenceCache (w_hub w)) as [m|]; [|done].
  cbn. rewrite lookup_evicted. destruct (m !! n) as [s|]; [|done].
  erewrite bool_decide_ext; [done|lia].
Qed.

(** ** A heartbeat *)

Lemma for_collect_counts l w :
  ∃ counts, run (for_collect l (fun nr : string * rref =>
      n ← gets (fun w => length (loadRoomSnapshot (room w nr.2))) ;
      mret (Some (nr.1, Z.of_nat n)))) w = Some (counts, w) /\
    counts = (fun nr : string * rref =>
      (nr.1, Z.of_nat (length (loadRoomSnapshot (room w nr.2))))) <$> l.
Proof.
  induction l as [|nr l (counts & IH & Hc)]; [by eexists|]. cbn [for_collect].
  rewrite run_bind, run_bind, run_gets. cbn beta iota. rewrite run_ret. cbn beta iota.
  rewrite run_bind, IH. cbn beta iota. rewrite run_ret. eexists. split; [done|].
  rewrite fmap_cons. by rewrite Hc.
Qed.

(** The counts of every local room, as the heartbeat carries them. *)
Definition room_counts (w : world) : gmap string Z :=
  (fun r => Z.of_nat (length (loadRoomSnapshot (room w r)))) <$> h_rooms (w_hub w).

Lemma list_to_map_snd (f : rref -> Z) (l : list (string * rref)) :
  list_to_map ((fun nr : string * rref => (nr.1, f nr.2)) <$> l) =
  f <$> (list_to_map l : gmap string rref).
Proof.
  induction l as [|[k r] l IH].
  - cbn. symmetry. apply fmap_empty.
  - rewrite fmap_cons, !list_to_map_cons, fmap_insert. by rewrite <-IH.
Qed.

Lemma run_gather_rooms w : run gather_rooms w = Some (room_counts w, w).
Proof.
  unfold gather_rooms. rewrite run_bind, run_gets. cbn beta iota.
  destruct (for_collect_counts (map_to_list (h_rooms (w_hub w))) w) as (counts & H & ->).
  rewrite run_bind, H. cbn beta iota. rewrite run_ret. do 2 f_equal.
  unfold room_counts. rewrite <-(list_to_map_to_list (h_rooms (w_hub w))) at 2.
  apply (list_to_map_snd (fun r => Z.of_nat (length (loadRoomSnapshot (room w r))))).
Qed.

(** The gossip state agrees with the version it was gathered at. *)
Definition gossip_ok (s : presenceState) (w : world) : Prop :=
  h_clientCount (w_hub w) = lastClientCount s -> h_roomVersion (w_hub w) = lastRoomVersion s ->
  ∃ last, lastPresence s = Some last /\ np_NodeID last = nodeID env /\
    np_ClientCount last = h_clientCount (w_hub w) /\ np_Rooms last = room_counts w.

(** Every tick publishes one heartbeat that carries this node's current
    client and room counts with a fresh timestamp, whether they were gathered
    again or taken from the cache, if nothing bypassed the version counter
    since they were cached; and the state it keeps is consistent again. *)
Theorem publishPresence_current (s : presenceState) (w : world) (d : bytes)
    (Had : is_Some (adapter env)) (Ha : adapter_answers env) (Hok : gossip_ok s w)
    (Hd : json_Marshal (mkNodePresence (nodeID env) (h_clientCount (w_hub w)) (room_counts w)
                          (UnixMilli (w_now w))) = inr d)
    (Hne : d <> []) :
  ∃ s' evs, run (publishPresence env json_Marshal s) w = Some (s', emits evs w) /\
    published evs = [am_withNode (nodeID env) (adapter_msg AdapterPresence 0 d)] /\
    gossip_ok s' w.
Proof.
  unfold publishPresence, ClientCount. rewrite run_bind, run_gets. cbn beta iota.
  rewrite run_bind, run_gets. cbn beta iota.
  assert (∀ s1 cc rv p, p = mkNodePresence (nodeID env) (h_clientCount (w_hub w)) (room_counts w)
                          (UnixMilli (w_now w)) ->
    ∃ evs, run (marshal_and_publish env json_Marshal (mkPresenceState cc rv s1 (Some p)) p) w =
        Some (mkPresenceState cc rv d (Some p), emits evs w) /\
      published evs = [am_withNode (nodeID env) (adapter_msg AdapterPresence 0 d)]) as Hpub.
  { intros s1 cc rv p ->. unfold marshal_and_publish. rewrite Hd.
    unfold publish_payload. cbn [cachedPayload lastClientCount lastRoomVersion lastPresence].
    rewrite bool_decide_eq_false_2 by (by destruct d).
    destruct (run_publish env (adapter_msg AdapterPresence 0 d) w Ha) as (evs & H & Hp).
    rewrite run_bind, H. cbn beta iota. rewrite run_ret. eexists. split; [done|].
    rewrite Hp. unfold publishes. by destruct Had as [a ->]. }
  destruct (negb _ || negb _) eqn:Hc.
  - rewrite run_bind, run_gather_rooms. cbn beta iota. unfold time_Now.
    rewrite run_bind, run_gets. cbn beta iota zeta.
    destruct (Hpub (cachedPayload s) (h_clientCount (w_hub w)) (h_roomVersion (w_hub w)) _ eq_refl)
      as (evs & Hr & Hp).
    rewrite Hr. eexists _, _. split; [done|]. split; [done|].
    intros H1 H2. by eexists.
  - apply orb_false_iff in Hc as [H1 H2]. apply negb_false_iff, bool_decide_eq_true in H1, H2.
    destruct (Hok H1 H2) as (last & Hl & Hn & Hcc & Hr0). rewrite Hl. unfold time_Now.
    rewrite run_bind, run_gets. cbn beta iota zeta. rewrite Hn, Hcc, Hr0.
    destruct (Hpub (cachedPayload s) (lastClientCount s) (lastRoomVersion s) _ eq_refl)
      as (evs & Hr & Hp).
    rewrite Hr. eexists _, _. split; [done|]. split; [done|].
    intros H3 H4. by eexists.
Qed.

(** A decodable heartbeat, at a node that listens. *)
Lemma run_handlePresenceMessage m p w :
  is_Some (h_presenceCache (w_hub w)) -> json_Unmarshal (am_Data m) = inr p ->
  run (handlePresenceMessage json_Unmarshal m) w =
    Some (tt, on_cache (<[np_NodeID p := mkNodeStats (np_ClientCount p) (np_Rooms p) (w_now w)]>) w).
Proof.
  intros Hs Hp. unfold handlePresenceMessage. rewrite run_bind, run_gets. cbn beta iota.
  rewrite bool_decide_eq_true_2 by done. cbn [negb]. rewrite Hp. by rewrite run_modify.
Qed.

(** A heartbeat received by a hub with presence enabled replaces that
    node's entry, and only that one, by the reported counts seen now; an
    undecodable one, or one received with presence off, changes nothing. *)
Theorem handlePresenceMessage_spec (m : AdapterMessage) (w : world) :
  ∃ w', run (handlePresenceMessage json_Unmarshal m) w = Some (tt, w') /\
    w_clients w' = w_clients w /\ w_rooms w' = w_rooms w /\
    h_presenceCache (w_hub w') =
      match h_presenceCache (w_hub w), json_Unmarshal (am_Data m) with
      | Some cache, inr p =>
          Some (<[np_NodeID p := mkNodeStats (np_ClientCount p) (np_Rooms p) (w_now w)]> cache)
      | o, _ => o
      end.
Proof.
  unfold handlePresenceMessage. rewrite run_bind, run_gets. cbn beta iota.
  destruct (h_presenceCache (w_hub w)) as [cache|] eqn:Hc.
  - rewrite bool_decide_eq_true_2 by eauto. cbn [negb].
    destruct (json_Unmarshal (am_Data m)) as [e|p].
    + unfold logger. rewrite run_modify. eexists. split; [done|]. by world_simpl.
    + rewrite run_modify. eexists. split; [done|]. unfold on_cache. world_simpl. by rewrite Hc.
  - rewrite bool_decide_eq_false_2 by (by intros []). cbn [negb]. rewrite run_ret.
    eexists. split; [done|]. by rewrite Hc.
Qed.
End Spec.
