(* ===== verification/Cluster.v ===== *)
(** * Cluster: messages from other nodes (hub.go, adapter.go)

    [handleAdapterMessage] delivers locally what another node published.  It
    never publishes, so a message cannot circulate; and what it does with each
    published message is the local half of the operation that published it. *)

From S2P Require Import Prelude Prog Types Config World Invariant Send Client Rooms RoomSpec.
From S2P Require Import Registry Pool Broadcast BroadcastSpec Presence.

Section Ops.
Context {RT : Runtime} (env : HubEnv) (json_Unmarshal : bytes -> error + nodePresence).

Definition handleAdapterMessage (msg : AdapterMessage) : prg unit :=
  if bool_decide (am_NodeID msg = nodeID env) then mret tt else
  let item := mkSendItem (am_MsgType msg) (am_Data msg) in
  match am_Type msg with
  | AdapterBroadcast => broadcast env item
  | AdapterBroadcastExcept => broadcastExceptByIDs env item (am_ExceptClientIDs msg)
  | AdapterRoom => broadcastToRoomLocal env (am_Room msg) item
  | AdapterRoomExcept =>
      broadcastToRoomExceptByIDs env (am_Room msg) item (am_ExceptClientIDs msg)
  | AdapterUser => sendToUserLocal env (am_UserID msg) item
  | AdapterClient =>
      _ ← sendToClientLocal env (am_ClientID msg) (am_Data msg) (am_MsgType msg) ; mret tt
  | AdapterPresence => handlePresenceMessage json_Unmarshal msg
  | AdapterUnknown _ => mret tt
  end.
End Ops.

Section Keeps.
Context {RT : Runtime} (lim : Limits) (env : HubEnv) (Hh : hooks_keep lim env).

Lemma keeps_handleAdapterMessage dec m : keeps (wf lim) (handleAdapterMessage env dec m).
Proof. unfold handleAdapterMessage. cbn zeta. keeps_auto. Qed.
End Keeps.

#[export] Hint Resolve keeps_handleAdapterMessage : keeps.

(** ** No echo *)

(** Programs that never hand anything to the adapter. *)
Definition unpublished (P : list AdapterMessage) (w : world) : Prop := published (w_trace w) = P.

Definition drop_hook_quiet (env : HubEnv) : Prop :=
  ∀ h P c d, OnSendDropped (hooks env) = Some h -> keeps (unpublished P) (h c d).

Section Quiet.
Context {RT : Runtime} (env : HubEnv) (P : list AdapterMessage) (Hq : drop_hook_quiet env).
Abbreviation quiet := (keeps (unpublished P)).

(** One block at a time: everything but a publication is quiet. *)
Ltac quiet_block :=
  first
  [ apply keeps_modify | apply keeps_atomically | apply keeps_await ];
  intros; unfold unpublished in *; cbn zeta in *; repeat case_match; simplify_eq/=; done.

Ltac quiet_auto := repeat first [ solve [ eauto 3 with quiet ] | keeps_step | solve [ quiet_block ] ].

Create HintDb quiet discriminated.
#[local] Hint Resolve keeps_ret keeps_gets keeps_out_of_fuel : quiet.

Lemma quiet_chan_send c x : quiet (chan_send c x).
Proof. unfold chan_send. quiet_auto. Qed.

Lemma quiet_chan_recv c : quiet (chan_recv c).
Proof. unfold chan_recv. quiet_auto. Qed.

Lemma quiet_notify c d : quiet (notifySendDropped env c d).
Proof.
  unfold notifySendDropped, call_hook, logger, metrics.
  destruct (OnSendDropped (hooks env)) as [h|] eqn:He; simpl; quiet_auto.
Qed.

#[local] Hint Resolve quiet_chan_send quiet_chan_recv quiet_notify : quiet.

Lemma quiet_evict n c x : quiet (evict_loop env n c x).
Proof. induction n as [|n IH]; cbn [evict_loop]; quiet_auto. Qed.

#[local] Hint Resolve quiet_evict : quiet.

Lemma quiet_trySendErr c x : quiet (trySendErr env c x).
Proof.
  unfold trySendErr, trySendDropOldest, sendMu_Lock, sendMu_Unlock. quiet_auto.
Qed.

#[local] Hint Resolve quiet_trySendErr : quiet.

Lemma quiet_trySend c x : quiet (trySend env c x).
Proof. unfold trySend. quiet_auto. Qed.

#[local] Hint Resolve quiet_trySend : quiet.

Lemma quiet_ensurePool : quiet (ensurePool env).
Proof.
  apply keeps_modify. intros w Hw. case_match; [done|]. cbn zeta. unfold unpublished in *.
  induction (Z.to_nat (poolSize env)) as [|n IH] at 2; simpl; done.
Qed.

#[local] Hint Resolve quiet_ensurePool : quiet.

Lemma quiet_parallelSend cs x : quiet (parallelSend env cs x).
Proof.
  unfold parallelSend, submit_batches, submit, crash, wg_New, wg_Done, wg_Wait. quiet_auto.
Qed.

#[local] Hint Resolve quiet_parallelSend : quiet.

Lemma quiet_broadcast x : quiet (broadcast env x).
Proof.
  unfold broadcast, dispatch, send_each, record_since, metrics, time_Now, loadSnapshot. quiet_auto.
Qed.

Lemma quiet_room_clients r x : quiet (broadcastToRoomClients env r x).
Proof.
  unfold broadcastToRoomClients, dispatch, send_each, record_since, metrics, time_Now. quiet_auto.
Qed.

#[local] Hint Resolve quiet_broadcast quiet_room_clients : quiet.

Lemma quiet_handleAdapterMessage dec m : quiet (handleAdapterMessage env dec m).
Proof.
  unfold handleAdapterMessage, broadcastExceptByIDs, broadcastToRoomExceptByIDs,
    broadcastToRoomLocal, sendToUserLocal, sendToClientLocal, SendMessage, GetClientsByUserID,
    GetClient, handlePresenceMessage, send_each, loadSnapshot, lookup_room, logger.
  cbn zeta. quiet_auto.
Qed.
End Quiet.

(** C28: Handling a message of another node publishes nothing, under any
    interleaving with anything else, so no message ever circulates between
    nodes: if every other goroutine leaves what has been published alone, it
    stays as it was. *)
Theorem adapter_messages_never_republished {RT : Runtime} (env : HubEnv)
    (dec : bytes -> error + nodePresence) (m : AdapterMessage) (others : list (prg unit))
    (P : list AdapterMessage) (ps' : list (prg unit)) (w w' : world)
    (Hq : drop_hook_quiet env) (Hothers : Forall (keeps (unpublished P)) others)
    (Hw : published (w_trace w) = P)
    (Hreach : pool_reach (handleAdapterMessage env dec m :: others, w) (ps', w')) :
  published (w_trace w') = P.
Proof.
  refine (proj2 (keeps_pool (unpublished P) _ w _ w' _ Hw Hreach)).
  constructor; [by apply quiet_handleAdapterMessage|done].
Qed.
