(* ===== verification/ClusterSpec.v ===== *)
(** * ClusterSpec: what a node delivers for another

    The receiving half of a broadcast: a message published by another node is
    delivered to exactly the local targets of the operation that published it,
    the exclusion list now by client ID; a node ignores its own messages. *)

From S2P Require Import Prelude Prog Types Config World Invariant Send Client Rooms RoomSpec.
From S2P Require Import Registry RegistrySpec Pool Broadcast BroadcastSpec DeliverySpec Presence.
From S2P Require Import Cluster.

Section Relay.
Context {RT : Runtime} (env : HubEnv) (Hhook : silent_drop_hook env).
Context (Hpar : useParallel env = false) (dec : bytes -> error + nodePresence).
Context (sender : string) (Hother : sender <> nodeID env).
Abbreviation lim := (limits env).

(** The filtered loop over IDs. *)
Lemma run_send_by_id ids l x w :
  (∀ c, c ∈ l -> ready w c) ->
  ∃ evs, run (for_each l (fun c =>
      i ← gets (fun w => c_ID (client w c)) ;
      if negb (isExcludedByID i ids (buildExcludeSet ids)) then trySend env c x else mret tt)) w =
    Some (tt, emits evs
      (deliver_all env x (base.filter (fun c => c_ID (client w c) ∉ ids) l) w)) /\
    published evs = [].
Proof.
  intros Hr.
  set (P := fun c => negb (isExcludedByID (c_ID (client w c)) ids (buildExcludeSet ids))).
  destruct (run_send_filtered env Hhook P l x w Hr) as (evs & H & Hp).
  assert (∀ w0, (∀ c, c_ID (client w0 c) = c_ID (client w c)) -> (∀ c, c ∈ l -> ready w0 c) ->
    run (for_each l (fun c =>
      i ← gets (fun w => c_ID (client w c)) ;
      if negb (isExcludedByID i ids (buildExcludeSet ids)) then trySend env c x else mret tt)) w0 =
    run (for_each l (fun c => if P c then trySend env c x else mret tt)) w0) as Heq.
  { clear H Hr. induction l as [|c l IH]; intros w0 Hid Hr; [done|]. cbn [for_each].
    rewrite run_bind, run_bind, run_gets. cbn beta iota. rewrite Hid.
    rewrite (run_bind (if P c then _ else _)). fold (P c). destruct (P c).
    - destruct (run_trySend env Hhook c x w0) as (e & H & _); [apply Hr; by left|].
      rewrite H. apply IH.
      + intros c'. rewrite client_emits, client_upd_client, <-Hid. case_decide; [|done].
        subst. unfold deliver. by destruct (c_closed (client w0 c')).
      + intros c' Hc'. apply (ready_deliver env x c), Hr. by right.
    - rewrite run_ret. apply IH; [done|]. intros c' Hc'. apply Hr. by right. }
  exists evs. split; [|done]. rewrite Heq, H by done. do 3 f_equal.
  unfold deliver_all. f_equal. apply list_filter_iff. intros c. subst P. cbn beta.
  rewrite isExcludedByID_elem, negb_true_iff, bool_decide_eq_false. done.
Qed.

(** What the other node published for a broadcast with exclusions. *)
Definition broadcast_msg (mt : Z) (d : bytes) (ids : list string) : AdapterMessage :=
  if bool_decide (ids = []) then adapter_msg AdapterBroadcast mt d else adapter_msg_except mt d ids.

Definition room_msg (mt : Z) (d : bytes) (n : string) (ids : list string) : AdapterMessage :=
  if bool_decide (ids = []) then adapter_msg_room mt d n else adapter_msg_room_except mt d n ids.

Lemma handle_other m :
  handleAdapterMessage env dec (am_withNode sender m) =
    match am_Type m with
    | AdapterBroadcast => broadcast env (mkSendItem (am_MsgType m) (am_Data m))
    | AdapterBroadcastExcept =>
        broadcastExceptByIDs env (mkSendItem (am_MsgType m) (am_Data m)) (am_ExceptClientIDs m)
    | AdapterRoom => broadcastToRoomLocal env (am_Room m) (mkSendItem (am_MsgType m) (am_Data m))
    | AdapterRoomExcept =>
        broadcastToRoomExceptByIDs env (am_Room m) (mkSendItem (am_MsgType m) (am_Data m))
          (am_ExceptClientIDs m)
    | AdapterUser => sendToUserLocal env (am_UserID m) (mkSendItem (am_MsgType m) (am_Data m))
    | AdapterClient =>
        _ ← sendToClientLocal env (am_ClientID m) (am_Data m) (am_MsgType m) ; mret tt
    | AdapterPresence => handlePresenceMessage dec (am_withNode sender m)
    | AdapterUnknown _ => mret tt
    end.
Proof. unfold handleAdapterMessage. by rewrite bool_decide_eq_false_2. Qed.

Lemma filter_no_ids l w :
  base.filter (fun c => c_ID (client w c) ∉ ([] : list string)) l = (l : list cref).
Proof.
  induction l as [|c l IH]; [done|]. rewrite filter_cons_True by set_solver. by rewrite IH.
Qed.

(** A broadcast published by another node is delivered here exactly once
    to every client of the snapshot whose ID is not on its exclusion list, to
    nobody else, and publishes nothing. *)
Theorem relayed_broadcast_delivers (mt : Z) (d : bytes) (ids : list string) (w : world)
    (Hnd : NoDup (snapshot_slice w)) (Hr : ∀ c, c ∈ snapshot_slice w -> ready w c) :
  ∃ w', run (handleAdapterMessage env dec (am_withNode sender (broadcast_msg mt d ids))) w =
      Some (tt, w') /\
    delivered env (mkSendItem mt d)
      (filter (fun c => c_ID (client w c) ∉ ids) (list_to_set (snapshot_slice w))) [] w w'.
Proof.
  rewrite handle_other. unfold broadcast_msg. set (x := mkSendItem mt d).
  assert (∀ c, c ∈ base.filter (fun c => c_ID (client w c) ∉ ids) (snapshot_slice w) <->
    c ∈ (filter (fun c => c_ID (client w c) ∉ ids) (list_to_set (snapshot_slice w)) : gset cref)) as Hl.
  { intros c. by rewrite list_elem_of_filter, elem_of_filter, elem_of_list_to_set. }
  case_bool_decide as Hids; cbn [am_Type adapter_msg adapter_msg_except am_MsgType am_Data
    am_ExceptClientIDs]; fold x.
  - subst ids. unfold broadcast, loadSnapshot, time_Now. run_simpl. fold (snapshot_slice w).
    destruct (run_dispatch_record env Hhook Hpar (snapshot_slice w) x (w_now w) w Hr)
      as (evs & H & Hp). rewrite run_bind in H. rewrite H. eexists. split; [done|].
    apply delivered_intro; [done| |done]. intros c. by rewrite <-Hl, filter_no_ids.
  - unfold broadcastExceptByIDs, loadSnapshot.
    rewrite bool_decide_eq_false_2 by (by destruct ids). run_simpl. fold (snapshot_slice w).
    destruct (run_send_by_id ids (snapshot_slice w) x w Hr) as (evs & H & Hp).
    rewrite H. eexists. split; [done|]. apply delivered_intro; [by apply NoDup_filter|done|done].
Qed.

(** The same for a room: the members of the room here whose IDs are not
    excluded; a room unknown here is not an error. *)
Theorem relayed_room_delivers (known : gset cref) (id : cref -> string) (M : membership)
    (n : string) (mt : Z) (d : bytes) (ids : list string) (w : world)
    (Hrep : rep lim known id M M None w) (Hr : ∀ c, c ∈ room_members M n -> ready w c) :
  ∃ w', run (handleAdapterMessage env dec (am_withNode sender (room_msg mt d n ids))) w =
      Some (tt, w') /\
    delivered env (mkSendItem mt d) (filter (fun c => id c ∉ ids) (room_members M n)) [] w w'.
Proof.
  rewrite handle_other. unfold room_msg. set (x := mkSendItem mt d).
  assert (∀ r, h_rooms (w_hub w) !! n = Some r ->
    enumerates (loadRoomSnapshot (room w r)) (room_members M n)) as Hen.
  { intros r Hrm. rewrite <-(rep_room_clients _ _ _ _ _ _ _ _ _ Hrep Hrm).
    destruct (wf_room _ _ (rep_wf _ _ _ _ _ _ _ Hrep) r) as [Hs _]. by apply enumerates_snapshot. }
  assert (∀ r, h_rooms (w_hub w) !! n = Some r -> ∀ c,
    c ∈ base.filter (fun c => c_ID (client w c) ∉ ids) (loadRoomSnapshot (room w r)) <->
    c ∈ (filter (fun c => id c ∉ ids) (room_members M n) : gset cref)) as Hl.
  { intros r Hrm c. rewrite list_elem_of_filter, elem_of_filter, (rep_id _ _ _ _ _ _ _ Hrep).
    by rewrite (elem_of_perm_elements _ _ c (Hen r Hrm)). }
  assert (h_rooms (w_hub w) !! n = None ->
    delivered env x (filter (fun c => id c ∉ ids) (room_members M n)) [] w w) as Hnone.
  { intros Hrm. rewrite (rep_no_room _ _ _ _ _ _ _ _ Hrep Hrm).
    assert (filter (fun c => id c ∉ ids) (∅ : gset cref) = ∅) as -> by set_solver.
    by repeat split. }
  case_bool_decide as Hids; cbn [am_Type adapter_msg_room adapter_msg_room_except am_MsgType
    am_Data am_ExceptClientIDs am_Room]; fold x.
  - subst ids. unfold broadcastToRoomLocal, lookup_room. run_simpl.
    destruct (h_rooms (w_hub w) !! n) as [r|] eqn:Hrm; [|rewrite run_ret; eauto].
    unfold broadcastToRoomClients, time_Now. run_simpl.
    destruct (run_dispatch_record env Hhook Hpar (loadRoomSnapshot (room w r)) x (w_now w) w)
      as (evs & H & Hp); [intros c Hc; apply Hr; by apply (elem_of_perm_elements _ _ c (Hen r eq_refl))|].
    rewrite run_bind in H. rewrite H. eexists. split; [done|].
    apply delivered_intro; [by eapply NoDup_perm_elements, Hen| |done].
    intros c. by rewrite <-(Hl r eq_refl), filter_no_ids.
  - unfold broadcastToRoomExceptByIDs, lookup_room.
    rewrite bool_decide_eq_false_2 by (by destruct ids). run_simpl.
    destruct (h_rooms (w_hub w) !! n) as [r|] eqn:Hrm; [|rewrite run_ret; eauto].
    cbn zeta. run_simpl.
    destruct (run_send_by_id ids (loadRoomSnapshot (room w r)) x w) as (evs & H & Hp).
    { intros c Hc. apply Hr. by apply (elem_of_perm_elements _ _ c (Hen r eq_refl)). }
    rewrite H. eexists. split; [done|].
    apply delivered_intro; [by eapply NoDup_filter, NoDup_perm_elements, Hen|by apply Hl|done].
Qed.

(** The same for a user: every connected client of that user here. *)
Theorem relayed_user_delivers (u : string) (mt : Z) (d : bytes) (w : world)
    (Hreg : registry lim ∅ w) (Hr : ∀ c, c ∈ h_clients (w_hub w) -> ready w c) :
  ∃ w', run (handleAdapterMessage env dec (am_withNode sender (adapter_msg_user mt d u))) w =
      Some (tt, w') /\
    delivered env (mkSendItem mt d) (clients_of u w) [] w w'.
Proof.
  rewrite handle_other. cbn [am_Type adapter_msg_user am_MsgType am_Data am_UserID].
  unfold sendToUserLocal, GetClientsByUserID. run_simpl.
  destruct (run_send_user env Hhook u (mkSendItem mt d) w Hreg Hr) as (evs & H1 & Hp1 & Hl).
  rewrite H1. eexists. split; [done|].
  exact (delivered_intro env _ _ (clients_of u w) evs _ (bump w) (NoDup_range _ _) Hl Hp1).
Qed.

(** And for one client: the connected client of that ID here, if there is one. *)
Theorem relayed_client_delivers (i : string) (mt : Z) (d : bytes) (w : world)
    (Hreg : registry lim ∅ w) (Hr : ∀ c, c ∈ h_clients (w_hub w) -> ready w c) :
  ∃ w', run (handleAdapterMessage env dec (am_withNode sender (adapter_msg_client mt d i))) w =
      Some (tt, w') /\
    delivered env (mkSendItem mt d) (clients_with_id i w) [] w w'.
Proof.
  rewrite handle_other. cbn [am_Type adapter_msg_client am_MsgType am_Data am_ClientID].
  unfold sendToClientLocal, GetClient. run_simpl.
  destruct (h_clientIndex (w_hub w) !! i) as [c|] eqn:Hi.
  - rewrite (clients_with_id_Some env _ _ _ Hreg Hi). apply (rg_index _ _ _ Hreg) in Hi as [Hc _].
    destruct (run_SendMessage_deliver env Hhook c mt d w (Hr c Hc)) as (r & evs & -> & Hp).
    run_simpl. eexists. split; [done|].
    apply (delivered_intro env _ [c]); [apply NoDup_singleton|set_solver|done].
  - rewrite (clients_with_id_None env _ _ Hreg Hi). run_simpl. eexists. split; [done|]. by split_and!.
Qed.
End Relay.
