(* ===== verification/Origin.v ===== *)
(** * Origin: handshake logging and the observable origin check (hub.go)

    [logLimiter], whose compare-and-swap lets at most one line through per
    interval whatever the number of concurrent handshakes; [truncateOrigin],
    with Go's UTF-8 decoding; [checkOrigin]. *)

From S2P Require Import Prelude Prog Types Config World Invariant.
From Stdlib.Strings Require Import Byte.

(** ** logLimiter *)

(** The two limiters of a hub, by the field they keep. *)
Inductive limiter := OriginRejectLog | UpgradeFailLog.

Definition limiter_last (l : limiter) (h : Hub) : Z :=
  match l with OriginRejectLog => h_originRejectLog h | UpgradeFailLog => h_upgradeFailLog h end.

Definition set_limiter_last (l : limiter) (t : Z) (h : Hub) : Hub :=
  match l with
  | OriginRejectLog => set_h_originRejectLog t h
  | UpgradeFailLog => set_h_upgradeFailLog t h
  end.

Definition handshakeLogInterval : Z := Minute.

(** [l.last.CompareAndSwap(last, now)]. *)
Definition limiter_cas (l : limiter) (last now : Z) : prg bool :=
  atomically (fun w =>
    if bool_decide (limiter_last l (w_hub w) = last)
    then (true, upd_hub (set_limiter_last l now) w)
    else (false, w)).

Definition allow (l : limiter) (interval : Z) : prg bool :=
  now ← time_Now ;
  last ← gets (fun w => limiter_last l (w_hub w)) ;
  if bool_decide (wrap64 (now - last) < interval)%Z then mret false
  else limiter_cas l last now.

Definition logHandshakeFailure (msg : string) : prg unit :=
  ok ← allow UpgradeFailLog handshakeLogInterval ;
  if (ok : bool) then logger Error msg else mret tt.

(** ** UTF-8 *)

Definition in_range (lo hi : N) (b : byte) : bool :=
  (lo <=? Byte.to_N b)%N && (Byte.to_N b <=? hi)%N.

Definition cont (b : byte) : bool := in_range 128 191 b.

(** The length of the rune at the start of the bytes, if they start with one
    ([utf8.DecodeRune], which reports an encoding error by width 1). *)
Definition rune_len (d : bytes) : option nat :=
  match d with
  | [] => None
  | b0 :: r =>
      if in_range 0 127 b0 then Some 1
      else if in_range 194 223 b0 then
        match r with b1 :: _ => if cont b1 then Some 2 else None | _ => None end
      else if in_range 224 239 b0 then
        match r with
        | b1 :: b2 :: _ =>
            let lo := if in_range 224 224 b0 then 160%N else 128%N in
            let hi := if in_range 237 237 b0 then 159%N else 191%N in
            if in_range lo hi b1 && cont b2 then Some 3 else None
        | _ => None
        end
      else if in_range 240 244 b0 then
        match r with
        | b1 :: b2 :: b3 :: _ =>
            let lo := if in_range 240 240 b0 then 144%N else 128%N in
            let hi := if in_range 244 244 b0 then 143%N else 191%N in
            if in_range lo hi b1 && cont b2 && cont b3 then Some 4 else None
        | _ => None
        end
      else None
  end.

(** [strings.ToValidUTF8(s, "")]: drop every byte that starts no rune.  The
    fuel is the number of bytes. *)
Fixpoint drop_invalid (fuel : nat) (d : bytes) : bytes :=
  match fuel, d with
  | S f, b :: r =>
      match rune_len d with
      | Some n => take n d ++ drop_invalid f (drop n d)
      | None => drop_invalid f r
      end
  | _, _ => []
  end.

Definition ToValidUTF8 (d : bytes) : bytes := drop_invalid (length d) d.

(** A sequence of runes. *)
Inductive valid_utf8 : bytes -> Prop :=
  | valid_nil : valid_utf8 []
  | valid_rune n d r : rune_len d = Some n -> length d = n -> valid_utf8 r -> valid_utf8 (d ++ r).

(** ** truncateOrigin and checkOrigin *)
Definition maxLoggedOriginLen : nat := 128.

(** The bytes of ["…"]. *)
Definition ellipsis : bytes := [Byte.xe2; Byte.x80; Byte.xa6].

Definition truncateOrigin (origin : bytes) : bytes :=
  if bool_decide (length origin <= maxLoggedOriginLen) then origin
  else ToValidUTF8 (take maxLoggedOriginLen origin) ++ ellipsis.

Section Ops.
Context (env : HubEnv).

(** Defaulting has set [CheckOrigin]; calling a nil function would panic. *)
Definition checkOrigin (r : Request) : prg bool :=
  match CheckOrigin (config env) with
  | None => crash
  | Some check =>
      if check r then mret true else
      metrics (IncrementErrors "origin_rejected") ;;
      ok ← allow OriginRejectLog handshakeLogInterval ;
      (if (ok : bool) then
         logger Warn ("WebSocket upgrade rejected: origin not allowed. If this origin is legitimate, allow it with WithCheckOrigin(wshub.AllowOrigins(...)) origin="
           +:+ String.string_of_list_byte (truncateOrigin (String.list_byte_of_string (req_Origin r))))
       else mret tt) ;;
      mret false
  end.
End Ops.

Section Keeps.
Context (lim : Limits).

Lemma keeps_allow l i : keeps (wf lim) (allow l i).
Proof.
  unfold allow, limiter_cas. keeps_auto. apply keeps_atomically. intros w Hw.
  case_match; [|done]. apply wf_upd_hub; [done|]. intros h. by destruct l.
Qed.

#[local] Hint Resolve keeps_allow : keeps.

Lemma keeps_logHandshakeFailure msg : keeps (wf lim) (logHandshakeFailure msg).
Proof. unfold logHandshakeFailure. keeps_auto. Qed.

Lemma keeps_checkOrigin env r : keeps (wf lim) (checkOrigin env r).
Proof. unfold checkOrigin, crash. keeps_auto; by apply keeps_await. Qed.
End Keeps.

#[export] Hint Resolve keeps_allow keeps_logHandshakeFailure keeps_checkOrigin : keeps.

(** ** Properties *)

Lemma rune_len_bounds d n : rune_len d = Some n -> 1 <= n <= length d /\ n <= 4.
Proof.
  unfold rune_len. intros H. repeat case_match; simplify_eq/=; lia.
Qed.

(** Replay the tests that a rune's length was computed by. *)
Ltac rune_cases H :=
  repeat (match type of H with
          | context [if ?c then _ else _] =>
              lazymatch c with context [if _ then _ else _] => fail | _ =>
                let E := fresh "E" in destruct c eqn:E end
          end); try discriminate H; injection H as <-; cbn [take app].

Ltac rune_replay :=
  repeat match goal with E : ?c = _ |- context [?c] => rewrite E; clear E end; try done;
  cbn; repeat match goal with E : ?c = _ |- context [?c] => rewrite E; clear E end; done.

(** Whether the bytes start with a rune depends on that rune's bytes only. *)
Lemma rune_len_take d n : rune_len d = Some n -> rune_len (take n d) = Some n.
Proof.
  destruct d as [|b0 [|b1 [|b2 [|b3 r]]]]; unfold rune_len; cbn zeta; intros H;
    rune_cases H; rune_replay.
Qed.

Lemma rune_len_app d r n : rune_len d = Some n -> rune_len (d ++ r) = Some n.
Proof.
  destruct d as [|b0 [|b1 [|b2 [|b3 d]]]]; unfold rune_len; cbn zeta; intros H;
    rune_cases H; rune_replay.
Qed.

Lemma drop_invalid_valid fuel d : valid_utf8 (drop_invalid fuel d).
Proof.
  revert d. induction fuel as [|f IH]; intros d; [constructor|].
  destruct d as [|b r]; [constructor|]. cbn [drop_invalid].
  destruct (rune_len (b :: r)) as [n|] eqn:H; [|apply IH].
  pose proof (rune_len_bounds _ _ H). apply (valid_rune n); [by apply rune_len_take| |apply IH].
  rewrite length_take. lia.
Qed.

Lemma drop_invalid_length fuel d : length (drop_invalid fuel d) <= length d.
Proof.
  revert d. induction fuel as [|f IH]; intros d; [simpl; lia|].
  destruct d as [|b r]; [simpl; lia|]. cbn [drop_invalid].
  destruct (rune_len (b :: r)) as [n|] eqn:H; [|etrans; [apply IH|simpl; lia]].
  rewrite length_app, length_take. pose proof (rune_len_bounds _ _ H).
  pose proof (IH (drop n (b :: r))) as Hd. rewrite length_drop in Hd. lia.
Qed.

(** A continuation byte starts no rune, and a cut rune leaves nothing. *)
Lemma in_range_weaken lo hi lo' hi' b :
  (lo' <= lo)%N -> (hi <= hi')%N -> in_range lo hi b = true -> in_range lo' hi' b = true.
Proof. unfold in_range. rewrite !andb_true_iff, !N.leb_le. lia. Qed.

Lemma in_range_disjoint lo hi lo' hi' b :
  (hi < lo' \/ hi' < lo)%N -> in_range lo hi b = true -> in_range lo' hi' b = false.
Proof.
  unfold in_range. intros H. rewrite andb_true_iff, andb_false_iff, !N.leb_le, !N.leb_gt. lia.
Qed.

Lemma cont_starts_none b r : in_range 128 191 b = true -> rune_len (b :: r) = None.
Proof.
  intros H. unfold rune_len.
  rewrite (in_range_disjoint 128 191 0 127 b ltac:(lia) H),
    (in_range_disjoint 128 191 194 223 b ltac:(lia) H),
    (in_range_disjoint 128 191 224 239 b ltac:(lia) H),
    (in_range_disjoint 128 191 240 244 b ltac:(lia) H). done.
Qed.

Lemma drop_invalid_cont f d : Forall (fun b => in_range 128 191 b = true) d -> drop_invalid f d = [].
Proof.
  revert d. induction f as [|f IH]; intros d Hd; [done|]. destruct Hd as [|b d Hb Hd]; [done|].
  cbn [drop_invalid]. rewrite cont_starts_none by done. by apply IH.
Qed.

(** All bytes of a rune after the first are continuation bytes. *)
Lemma rune_tail b d n :
  rune_len (b :: d) = Some n -> Forall (fun b => in_range 128 191 b = true) (take (n - 1) d).
Proof.
  destruct d as [|b1 [|b2 [|b3 d]]]; unfold rune_len, cont; cbn zeta; intros H;
    repeat case_match; simplify_eq/=; bool_to_prop; repeat constructor;
    first [done | eapply in_range_weaken; [| |eassumption]; lia].
Qed.

Lemma rune_cut b d n m :
  rune_len (b :: d) = Some n -> 0 < m < n -> rune_len (take m (b :: d)) = None.
Proof.
  intros H Hm. destruct (rune_len (take m (b :: d))) as [k|] eqn:Hk; [|done]. exfalso.
  pose proof (rune_len_bounds _ _ Hk) as Hb. rewrite length_take in Hb.
  pose proof (rune_len_app _ (drop m (b :: d)) _ Hk) as Ha. rewrite take_drop in Ha.
  rewrite H in Ha. simplify_eq. lia.
Qed.

(** Cutting valid UTF-8 anywhere and dropping the rest of the cut rune keeps
    the runes before the cut. *)
Lemma drop_invalid_cut d m f :
  valid_utf8 d -> length d <= f -> m <= length d ->
  ∃ k, k <= m < k + 4 /\ drop_invalid f (take m d) = take k d.
Proof.
  intros Hv. revert m f. induction Hv as [|n d r Hd Hn Hr IH]; intros m f Hf Hm.
  { simpl in Hm. exists 0. split; [lia|]. rewrite take_nil. by destruct f. }
  pose proof (rune_len_bounds _ _ Hd) as Hb. rewrite length_app in Hf, Hm.
  destruct d as [|b d]; [simpl in *; lia|]. destruct f as [|f]; [simpl in Hf; lia|].
  destruct (decide (m = 0)) as [->|Hm0].
  { exists 0. split; [lia|done]. }
  destruct (decide (n <= m)) as [Hnm|Hnm].
  - destruct (IH (m - n) f) as (k & Hk & He); [simpl in *; lia|lia|].
    exists (n + k). split; [lia|]. rewrite (take_app_ge (b :: d) r m) by lia.
    rewrite (take_app_ge (b :: d) r (n + k)) by lia. cbn [app drop_invalid].
    change (b :: d ++ take (m - length (b :: d)) r) with ((b :: d) ++ take (m - length (b :: d)) r).
    rewrite (rune_len_app _ _ _ Hd), Hn, take_app_length', drop_app_length' by done.
    rewrite He. by replace (n + k - n) with k by lia.
  - exists 0. split; [lia|]. rewrite take_app_le by lia.
    pose proof (rune_cut b d n m Hd ltac:(lia)) as Hcut.
    destruct m as [|m]; [done|]. cbn [take] in *. cbn [drop_invalid]. rewrite Hcut, take_0.
    apply drop_invalid_cont. pose proof (rune_tail b d n Hd) as Ht.
    replace (take m d) with (take m (take (n - 1) d)) by (rewrite take_take; f_equal; lia).
    by apply Forall_take.
Qed.

(** Any fuel that covers the bytes gives the same answer. *)
Lemma drop_invalid_fuel f1 f2 d :
  length d <= f1 -> length d <= f2 -> drop_invalid f1 d = drop_invalid f2 d.
Proof.
  revert f2 d. induction f1 as [|f1 IH]; intros f2 d H1 H2.
  { destruct d; [|simpl in H1; lia]. by destruct f2. }
  destruct d as [|b r]; [by destruct f2|]. destruct f2 as [|f2]; [simpl in H2; lia|].
  cbn [drop_invalid]. simpl in H1, H2.
  destruct (rune_len (b :: r)) as [n|] eqn:Hn; [|apply IH; lia].
  f_equal. pose proof (rune_len_bounds _ _ Hn). apply IH; rewrite length_drop; simpl; lia.
Qed.


(** ** At most one line per interval *)
Section Spaced.
Context (l : limiter) (interval : Z).

(** The limiter's clock only ever moves on by a whole interval. *)
Definition spaced (a b : Z) : Prop := (interval <= wrap64 (b - a))%Z.

Lemma keeps_spaced_allow t0 :
  keeps (fun w => rtc spaced t0 (limiter_last l (w_hub w))) (allow l interval).
Proof.
  unfold allow. apply keeps_bind; [apply keeps_gets|intros now].
  apply keeps_bind; [apply keeps_gets|intros last].
  case_bool_decide as Hs; [done|]. apply keeps_atomically. intros w Hw.
  case_bool_decide as Hl; [|done]. cbn [snd]. world_simpl.
  assert (limiter_last l (set_limiter_last l now (w_hub w)) = now) as -> by by destruct l.
  eapply rtc_r; [exact Hw|]. rewrite Hl. unfold spaced. lia.
Qed.
End Spaced.

