(* ===== verification/Options.v ===== *)
(** * Options: construction of a hub (options.go, hub.go NewHub)

    Functional options over the immutable part of a hub, and [NewHub], which
    applies them in order, fills the configuration's defaults and builds the
    initial state. *)

From S2P Require Import Prelude Prog Types Config World Invariant Rooms RoomSpec Registry.
From S2P Require Import RegistrySpec.

Definition Option_ := HubEnv -> HubEnv.

(** ** Field updates of [HubEnv] *)
Definition env_config (x : Config) (e : HubEnv) : HubEnv :=
  mkHubEnv x (limits e) (hooks e) (onMessage e) (clientCallback e) (errorCallback e)
    (drainTimeout e) (parallelBatchSize e) (useParallel e) (poolSize e) (dropPolicy e)
    (skipHandlerLatency e) (adapter e) (nodeID e) (hookTimeout e) (presenceInterval e)
    (presenceTTL e).

Definition WithConfig (x : Config) : Option_ := env_config x.

Definition WithLimits (x : Limits) : Option_ := fun e =>
  mkHubEnv (config e) x (hooks e) (onMessage e) (clientCallback e) (errorCallback e)
    (drainTimeout e) (parallelBatchSize e) (useParallel e) (poolSize e) (dropPolicy e)
    (skipHandlerLatency e) (adapter e) (nodeID e) (hookTimeout e) (presenceInterval e)
    (presenceTTL e).

Definition WithHooks (x : Hooks) : Option_ := fun e =>
  mkHubEnv (config e) (limits e) x (onMessage e) (clientCallback e) (errorCallback e)
    (drainTimeout e) (parallelBatchSize e) (useParallel e) (poolSize e) (dropPolicy e)
    (skipHandlerLatency e) (adapter e) (nodeID e) (hookTimeout e) (presenceInterval e)
    (presenceTTL e).

Definition WithParallelBroadcast (batchSize : Z) : Option_ := fun e =>
  mkHubEnv (config e) (limits e) (hooks e) (onMessage e) (clientCallback e) (errorCallback e)
    (drainTimeout e) (if bool_decide (0 < batchSize)%Z then batchSize else parallelBatchSize e)
    true (poolSize e) (dropPolicy e)
    (skipHandlerLatency e) (adapter e) (nodeID e) (hookTimeout e) (presenceInterval e)
    (presenceTTL e).

Definition WithParallelBroadcastWorkers (n : Z) : Option_ := fun e =>
  mkHubEnv (config e) (limits e) (hooks e) (onMessage e) (clientCallback e) (errorCallback e)
    (drainTimeout e) (parallelBatchSize e) (useParallel e)
    (if bool_decide (0 < n)%Z then n else poolSize e) (dropPolicy e)
    (skipHandlerLatency e) (adapter e) (nodeID e) (hookTimeout e) (presenceInterval e)
    (presenceTTL e).

Definition WithMessageHandler (fn : option (cref -> Message -> prg (option error))) : Option_ :=
  fun e =>
  mkHubEnv (config e) (limits e) (hooks e) fn (clientCallback e) (errorCallback e)
    (drainTimeout e) (parallelBatchSize e) (useParallel e) (poolSize e) (dropPolicy e)
    (skipHandlerLatency e) (adapter e) (nodeID e) (hookTimeout e) (presenceInterval e)
    (presenceTTL e).

Definition WithoutHandlerLatency : Option_ := fun e =>
  mkHubEnv (config e) (limits e) (hooks e) (onMessage e) (clientCallback e) (errorCallback e)
    (drainTimeout e) (parallelBatchSize e) (useParallel e) (poolSize e) (dropPolicy e)
    true (adapter e) (nodeID e) (hookTimeout e) (presenceInterval e) (presenceTTL e).

Definition WithDropPolicy (policy : DropPolicy) : Option_ := fun e =>
  mkHubEnv (config e) (limits e) (hooks e) (onMessage e) (clientCallback e) (errorCallback e)
    (drainTimeout e) (parallelBatchSize e) (useParallel e) (poolSize e) policy
    (skipHandlerLatency e) (adapter e) (nodeID e) (hookTimeout e) (presenceInterval e)
    (presenceTTL e).

Definition WithNodeID (id : string) : Option_ := fun e =>
  mkHubEnv (config e) (limits e) (hooks e) (onMessage e) (clientCallback e) (errorCallback e)
    (drainTimeout e) (parallelBatchSize e) (useParallel e) (poolSize e) (dropPolicy e)
    (skipHandlerLatency e) (adapter e) (if bool_decide (id = "") then nodeID e else id)
    (hookTimeout e) (presenceInterval e) (presenceTTL e).

Definition WithHookTimeout (timeout : Z) : Option_ := fun e =>
  mkHubEnv (config e) (limits e) (hooks e) (onMessage e) (clientCallback e) (errorCallback e)
    (drainTimeout e) (parallelBatchSize e) (useParallel e) (poolSize e) (dropPolicy e)
    (skipHandlerLatency e) (adapter e) (nodeID e)
    (if bool_decide (0 < timeout)%Z then timeout else hookTimeout e) (presenceInterval e)
    (presenceTTL e).

Definition WithAdapter (a : option Adapter) : Option_ := fun e =>
  mkHubEnv (config e) (limits e) (hooks e) (onMessage e) (clientCallback e) (errorCallback e)
    (drainTimeout e) (parallelBatchSize e) (useParallel e) (poolSize e) (dropPolicy e)
    (skipHandlerLatency e) a (nodeID e) (hookTimeout e) (presenceInterval e) (presenceTTL e).

Definition WithDrainTimeout (timeout : Z) : Option_ := fun e =>
  mkHubEnv (config e) (limits e) (hooks e) (onMessage e) (clientCallback e) (errorCallback e)
    (if bool_decide (0 <= timeout)%Z then timeout else drainTimeout e) (parallelBatchSize e)
    (useParallel e) (poolSize e) (dropPolicy e) (skipHandlerLatency e) (adapter e) (nodeID e)
    (hookTimeout e) (presenceInterval e) (presenceTTL e).

Definition WithPresence (interval : Z) : Option_ := fun e =>
  let interval := if bool_decide (interval <= 0)%Z then dur_mul 5 Second else interval in
  mkHubEnv (config e) (limits e) (hooks e) (onMessage e) (clientCallback e) (errorCallback e)
    (drainTimeout e) (parallelBatchSize e) (useParallel e) (poolSize e) (dropPolicy e)
    (skipHandlerLatency e) (adapter e) (nodeID e) (hookTimeout e) interval (dur_mul 3 interval).

Section New.
Context {RT : Runtime} (url_Parse : string -> option string) (NumCPU : Z).
Context (client_callback : callback -> cref -> Message -> prg unit).
Context (error_callback : callback -> cref -> error -> prg unit).

(** The literal of [NewHub]; [id] is a fresh UUID.  The callbacks are those
    the application registers on clients. *)
Definition default_env (id : string) : HubEnv := {|
  config := DefaultConfig url_Parse;
  limits := DefaultLimits;
  hooks := no_hooks;
  onMessage := None;
  clientCallback := client_callback;
  errorCallback := error_callback;
  drainTimeout := dur_mul 30 Second;
  parallelBatchSize := 100;
  useParallel := false;
  poolSize := NumCPU;
  dropPolicy := DropNewest;
  skipHandlerLatency := false;
  adapter := None;
  nodeID := id;
  hookTimeout := dur_mul 5 Second;
  presenceInterval := 0;
  presenceTTL := 0
|}.

Definition initial_hub (e : HubEnv) : Hub := {|
  h_clients := ∅; h_clientIndex := ∅; h_clientsSnapshot := Some (mkHubSnapshot ∅ []);
  h_clientCount := 0; h_rooms := ∅; h_roomVersion := 0; h_userIndex := ∅; h_register := [];
  h_results := ∅; h_unregister := []; h_state := StateRunning; h_alive := false;
  h_startedAt := None; h_ctxDone := false; h_drainDone := false; h_originRejectLog := 0;
  h_upgradeFailLog := 0;
  h_presenceCache :=
    match adapter e with
    | Some _ => if bool_decide (0 < presenceInterval e)%Z then Some ∅ else None
    | None => None
    end;
  h_wg := 1
|}.

(** The probe of the SECURITY warning: random hosts under [.invalid]. *)
Definition origin_probe (n : nat) : Request :=
  mkRequest ("https://" +:+ rt_uuid n +:+ ".invalid") (rt_uuid (S n) +:+ ".invalid") "".

Definition NewHub (opts : list Option_) (now : Z) : HubEnv * world :=
  let e0 := foldl (fun e opt => opt e) (default_env (rt_uuid 0)) opts in
  let warnings := EvLog Warn <$> validateConfig (config e0) in
  let e := env_config (applyConfigDefaults url_Parse (config e0)) e0 in
  let security :=
    match CheckOrigin (config e) with
    | Some check =>
        if check (origin_probe 1)
        then [EvLog Warn "SECURITY: CheckOrigin accepts every origin, exposing this server to cross-site WebSocket hijacking — restrict it before deploying"]
        else []
    | None => []
    end in
  (e, mkWorld (initial_hub e) ∅ ∅ (reverse (warnings ++ security)) now 3
        (mkPar false false [] false false 0 ∅ ∅ ∅)).

(** ** Properties *)

Lemma gauge_logs inc dec t :
  Forall (fun e => ∃ l s, e = EvLog l s) t -> gauge inc dec t = 0%Z.
Proof. induction 1 as [|e t (l & s & ->) _ IH]; [done|]. exact IH. Qed.

(** A hub built with any options in any order starts well formed: with
    an empty registry and no rooms, within every limit, running, not yet
    alive, and with the one goroutine accounted for that [Run] will be. *)
Theorem NewHub_initial (opts : list Option_) (now : Z) :
  let '(e, w) := NewHub opts now in
  registry (limits e) ∅ w /\ rep (limits e) ∅ (fun _ => "") ∅ ∅ None w /\
  h_state (w_hub w) = StateRunning /\ h_alive (w_hub w) = false /\ h_wg (w_hub w) = 1%Z /\
  h_drainDone (w_hub w) = false /\
  (is_Some (h_presenceCache (w_hub w)) <->
     is_Some (adapter e) /\ (0 < presenceInterval e)%Z).
Proof.
  unfold NewHub.
  set (e0 := foldl (fun e opt => opt e) (default_env (rt_uuid 0)) opts). cbv zeta.
  set (e := env_config _ e0). set (evs := reverse _).
  assert (∀ inc dec, gauge inc dec evs = 0%Z) as Hg.
  { intros inc dec. apply gauge_logs. subst evs. apply Forall_reverse, Forall_app. split.
    - apply Forall_fmap, Forall_true. intros s. by eexists _, _.
    - destruct (CheckOrigin (config e)) as [check|]; [|done].
      destruct (check _); [|done]. constructor; [by eexists _, _|done]. }
  assert (∀ c, client (mkWorld (initial_hub e) ∅ ∅ evs now 3
    (mkPar false false [] false false 0 ∅ ∅ ∅)) c = zero_client) as Hc.
  { intros c. unfold client. simpl. by rewrite lookup_total_empty. }
  assert (∀ r, room (mkWorld (initial_hub e) ∅ ∅ evs now 3
    (mkPar false false [] false false 0 ∅ ∅ ∅)) r = mkRoom ∅ None) as Hrm.
  { intros r. unfold room. simpl. by rewrite lookup_total_empty. }
  split; [|split; [|do 4 (split; [done|])]].
  - split.
    + done.
    + apply Hg.
    + intros i c. cbn [w_hub h_clientIndex h_clients initial_hub].
      rewrite lookup_empty. split; [done|]. intros [Hin _]. by apply elem_of_empty in Hin.
    + intros u c. cbn [w_hub h_userIndex h_clients initial_hub]. unfold user_conns.
      rewrite lookup_empty. split; [by intros Hin%elem_of_empty|].
      intros [Hin _]. by apply elem_of_empty in Hin.
    + apply within_0.
  - split; try done.
    + split; try done.
      * intros c. rewrite Hc. split; [apply Nat.le_0_l|apply within_0].
      * apply Hg.
    + intros n c. split; [by intros ?%elem_of_empty|]. intros (r & Hr & _). done.
  - cbn [w_hub h_presenceCache initial_hub].
    destruct (adapter e); [case_bool_decide|]; split; try (by intros []); eauto;
      intros [H1 H2]; try done; by destruct H1.
Qed.
End New.
