(* ===== verification/Lifecycle.v ===== *)
(** * Lifecycle: start, upgrade, drain and shutdown (hub.go, health.go)

    The hub's state machine: [Run] with its event loop, the upgrade of an HTTP
    request to a registered client, [Drain] with the reaper of idle
    connections, [Shutdown], and the health snapshot.  The loops take fuel,
    one unit per turn: they run as long as the hub does. *)

From S2P Require Import Prelude Prog Types Config World Invariant Send Client Rooms Registry Pool.
From S2P Require Import Pump Presence Cluster Origin.

(** ** health.go *)
Record HealthStatus := mkHealthStatus {
  hs_Alive : bool;
  hs_Ready : bool;
  hs_State : string;
  hs_Uptime : Z;
  hs_Clients : Z
}.

Definition State : prg HubState := gets (fun w => h_state (w_hub w)).
Definition IsDraining : prg bool := s ← State ; mret (bool_decide (s = StateDraining)).
Definition IsRunning : prg bool := s ← State ; mret (bool_decide (s = StateRunning)).
Definition Alive : prg bool := gets (fun w => h_alive (w_hub w)).

Definition Ready : prg bool :=
  a ← Alive ; if (a : bool) then IsRunning else mret false.

Definition Uptime : prg Z :=
  a ← Alive ;
  if negb a then mret 0%Z else
  t ← gets (fun w => h_startedAt (w_hub w)) ;
  match t with
  | None => mret 0%Z
  | Some t => now ← time_Now ; mret (time_Sub now t)
  end.

(** Five reads, not one: the fields may be of different moments. *)
Definition Health : prg HealthStatus :=
  a ← Alive ;
  r ← Ready ;
  s ← State ;
  u ← Uptime ;
  n ← ClientCount ;
  mret (mkHealthStatus a r (HubState_String (HubState_code s)) u n).

Definition StatusOK : Z := 200.
Definition StatusForbidden : Z := 403.
Definition StatusServiceUnavailable : Z := 503.

(** The status code and body of the two probes; [render] is the JSON text. *)
Definition HealthHandler (render : HealthStatus -> string) : prg (Z * string) :=
  hs ← Health ;
  mret (if hs_Alive hs then StatusOK else StatusServiceUnavailable, render hs).

Definition ReadyHandler (render : HealthStatus -> string) : prg (Z * string) :=
  hs ← Health ;
  mret (if hs_Ready hs then StatusOK else StatusServiceUnavailable, render hs).

(** ** Blocks shared by the goroutines *)
Definition http_Error (msg : string) (status : Z) : prg unit :=
  modify (emit (EvHTTPError status msg)).

Definition wg_Add (n : Z) : prg unit :=
  modify (upd_hub (fun h => set_h_wg (h_wg h + n) h)).

Definition spawn (g : goroutine) : prg unit := modify (emit (EvSpawn g)).

Definition set_alive (b : bool) : prg unit := modify (upd_hub (set_h_alive b)).

Section Ops.
Context {RT : Runtime} (env : HubEnv).

(** ** UpgradeConnection *)
Section Upgrade.

(** gorilla's [Upgrader.Upgrade], given the hub's origin check. *)
Context (Upgrade : (Request -> prg bool) -> Request -> prg (option error)).

Definition UpgradeOption := cref -> prg unit.

Definition WithUserID (userID : string) : UpgradeOption := fun c =>
  modify (upd_client c (set_c_userID userID)).

(** Before registration: straight to the connection, not through [closeOnce]. *)
Definition writeCloseAndClose (c : cref) (code : Z) (reason : string) : prg unit :=
  _ ← conn_call c (WriteClose code reason) ;
  modify (emit (EvConnClose c)).

(** [select { case h.register <- req: ...; case <-h.ctx.Done(): ... }]: whether
    the request was sent. *)
Definition send_register (c : cref) : prg bool :=
  await (fun w =>
    let push w := upd_hub (fun h => set_h_register (h_register h ++ [c]) h) w in
    let room := bool_decide (length (h_register (w_hub w)) < hub_chan_cap) in
    match room, h_ctxDone (w_hub w) with
    | true, false => Some (true, push w)
    | false, true => Some (false, w)
    | true, true =>
        if rt_select (w_nonce w) then Some (true, bump (push w)) else Some (false, bump w)
    | false, false => None
    end).

(** [select { case res = <-result: ...; case <-h.ctx.Done(): ... }]. *)
Definition await_result (c : cref) : prg (option (option error)) :=
  await (fun w =>
    let take w := upd_hub (fun h => set_h_results (delete c (h_results h)) h) w in
    match h_results (w_hub w) !! c, h_ctxDone (w_hub w) with
    | Some res, false => Some (Some res, take w)
    | None, true => Some (None, w)
    | Some res, true =>
        if rt_select (w_nonce w) then Some (Some res, bump (take w)) else Some (None, bump w)
    | None, false => None
    end).

Definition shutting_down (c : cref) : prg (error + cref) :=
  writeCloseAndClose c CloseGoingAway "server shutting down" ;;
  mret (inl ErrContext).

(** The answer of the Run goroutine, and the start of the pumps. *)
Definition finish_registration (error_text : error -> string) (c : cref) (r : Request)
    : prg (error + cref) :=
  res ← await_result c ;
  match res with
  | None => shutting_down c
  | Some (Some e) =>
      logger Warn "Connection limit reached" ;;
      metrics (IncrementErrors "connection_limit") ;;
      writeCloseAndClose c CloseTryAgainLater (error_text e) ;;
      mret (inl (ErrWrap "remote" (req_RemoteAddr r) e))
  | Some None =>
      wg_Add 2 ;;
      spawn (GWritePump c) ;;
      spawn (GReadPump c) ;;
      mret (inr c)
  end.

Definition register_client (error_text : error -> string) (c : cref) (r : Request)
    : prg (error + cref) :=
  sent ← send_register c ;
  if negb sent then shutting_down c else finish_registration error_text c r.

Definition UpgradeConnection (error_text : error -> string) (r : Request)
    (opts : list UpgradeOption) : prg (error + cref) :=
  alive ← Alive ;
  if negb alive then
    metrics (IncrementErrors "connection_rejected_not_ready") ;;
    http_Error "Service not ready" StatusServiceUnavailable ;;
    mret (inl (ErrWrap "remote" (req_RemoteAddr r) ErrHubNotStarted))
  else
  s ← State ;
  if negb (bool_decide (s = StateRunning)) then
    metrics (IncrementErrors "connection_rejected_draining") ;;
    http_Error "Service draining" StatusServiceUnavailable ;;
    mret (inl (ErrWrap "remote" (req_RemoteAddr r)
                 (if bool_decide (s = StateDraining) then ErrHubDraining else ErrHubStopped)))
  else
  veto ← call_veto ((fun h => h r) <$> BeforeConnect (hooks env)) (HBeforeConnect r) ;
  match veto with
  | Some err =>
      logger Warn "Connection rejected by BeforeConnect hook" ;;
      metrics (IncrementErrors "connection_rejected") ;;
      http_Error "Connection rejected" StatusForbidden ;;
      mret (inl err)
  | None =>
      n ← ClientCount ;
      if bool_decide (0 < MaxConnections (limits env))%Z &&
         bool_decide (MaxConnections (limits env) <= n)%Z then
        logger Warn "Connection limit reached" ;;
        metrics (IncrementErrors "connection_limit") ;;
        http_Error (error_text ErrMaxConnectionsReached) StatusServiceUnavailable ;;
        mret (inl (ErrWrap "remote" (req_RemoteAddr r) ErrMaxConnectionsReached))
      else
      err ← Upgrade (checkOrigin env) r ;
      match err with
      | Some err =>
          logHandshakeFailure "Failed to upgrade connection" ;;
          metrics (IncrementErrors "upgrade_failed") ;;
          mret (inl err)
      | None =>
          c ← newClient env (config env) r ;
          for_each opts (fun opt => opt c) ;;
          register_client error_text c r
      end
  end.

Definition HandleHTTP (error_text : error -> string) (r : Request) : prg unit :=
  res ← UpgradeConnection error_text r [] ;
  match res with
  | inl _ => logHandshakeFailure "WebSocket upgrade failed"
  | inr _ => mret tt
  end.
End Upgrade.

(** ** Run *)
Context (json_Marshal : nodePresence -> error + bytes).

Inductive hub_case := CShutdown | CEvent (e : hub_event).

(** [select] over the context and the two channels. *)
Definition run_select : prg hub_case :=
  await (fun w =>
    let some o := match o with
                  | Some (e, w') => [(CEvent e, bump w')]
                  | None => []
                  end in
    let cases := (if h_ctxDone (w_hub w) then [(CShutdown, bump w)] else []) ++
                 some (pop_register w) ++ some (pop_unregister w) in
    cases !! (rt_pick (w_nonce w) mod length cases)).

(** Under [mu], which no other goroutine writes the client set behind. *)
Definition close_all : prg unit :=
  l ← atomically (fun w => (range_keys (h_clients (w_hub w)) w, bump w)) ;
  for_each l (fun c => _ ← Close c ; mret tt).

(** The event loop; each turn drains what is pending, with [fuel] again. *)
Fixpoint run_loop (drain fuel : nat) : prg unit :=
  match fuel with
  | 0 => out_of_fuel
  | S f =>
      case ← run_select ;
      match case with
      | CShutdown => close_all ;; logger Info "Hub shutdown complete"
      | CEvent e => handle_event env e ;; drainAndRebuildSnapshot env drain ;; run_loop drain f
      end
  end.

Definition subscribe_adapter : prg unit :=
  match adapter env with
  | None => mret tt
  | Some a =>
      err ← ad_Subscribe a ;
      match err with
      | Some _ =>
          logger Error "adapter subscribe failed" ;;
          metrics (IncrementErrors "adapter_subscribe")
      | None => mret tt
      end
  end.

Definition start_presence : prg unit :=
  if bool_decide (is_Some (adapter env)) && bool_decide (0 < presenceInterval env)%Z
  then wg_Add 1 ;; spawn GPresence else mret tt.

(** [Run] with its deferred calls, last one first. *)
Definition Run (drain fuel : nat) : prg unit :=
  set_alive true ;;
  modify (fun w => upd_hub (set_h_startedAt (Some (w_now w))) w) ;;
  (if useParallel env then ensurePool env else mret tt) ;;
  subscribe_adapter ;;
  start_presence ;;
  run_loop drain fuel ;;
  set_alive false ;;
  wg_done.

(** ** Drain *)
Definition state_CompareAndSwap (old new : HubState) : prg bool :=
  atomically (fun w =>
    if bool_decide (h_state (w_hub w) = old)
    then (true, upd_hub (set_h_state new) w) else (false, w)).

(** [select { case <-h.drainDone: ...; case <-ctx.Done(): ... }]. *)
Definition wait_drain (ctx : context) : prg (option error) :=
  drained ← await (fun w =>
    match h_drainDone (w_hub w), ctxDone w ctx with
    | true, true => Some (rt_select (w_nonce w), bump w)
    | true, false => Some (true, w)
    | false, true => Some (false, w)
    | false, false => None
    end) ;
  if (drained : bool) then logger Info "Hub drain complete" ;; mret None
  else logger Warn "Hub drain timeout" ;; mret (Some ErrContext).

Definition Drain (ctx : context) : prg (option error) :=
  won ← state_CompareAndSwap StateRunning StateDraining ;
  if negb won then
    current ← State ;
    if bool_decide (current = StateStopped) then mret None else wait_drain ctx
  else
    logger Info "Hub drain initiated" ;;
    n ← ClientCount ;
    if bool_decide (n = 0)%Z then
      close_drainDone ;;
      logger Info "Hub drain complete" ;;
      mret None
    else
      (if bool_decide (0 < drainTimeout env)%Z
       then wg_Add 1 ;; spawn GDrainReaper else mret tt) ;;
      wait_drain ctx.

(** ** The reaper *)
Definition reaper_interval : Z := Z.max (dur_div (drainTimeout env) 4) (dur_mul 100 Millisecond).

(** One client of one tick, on the goroutine's own [firstIdleAt]. *)
Definition reap_client (now : Z) (firstIdleAt : gmap cref Z) (c : cref) : prg (gmap cref Z) :=
  n ← queue_length c ;
  if bool_decide (n = 0) then
    match firstIdleAt !! c with
    | None => mret (<[c := now]> firstIdleAt)
    | Some since =>
        if bool_decide (drainTimeout env <= time_Sub now since)%Z then
          logger Info "Closing idle connection during drain" ;;
          _ ← CloseWithCode c CloseGoingAway "server draining" ;
          mret (delete c firstIdleAt)
        else mret firstIdleAt
    end
  else mret (delete c firstIdleAt).

Fixpoint reap_clients (now : Z) (firstIdleAt : gmap cref Z) (l : list cref)
    : prg (gmap cref Z) :=
  match l with
  | [] => mret firstIdleAt
  | c :: l' => m ← reap_client now firstIdleAt c ; reap_clients now m l'
  end.

(** [None] once the drain is over or the hub's context done. *)
Definition reaper_step (firstIdleAt : gmap cref Z) : prg (option (gmap cref Z)) :=
  tick ← await (fun w =>
    let cases := (if h_drainDone (w_hub w) then [(false, bump w)] else []) ++
                 (if h_ctxDone (w_hub w) then [(false, bump w)] else []) ++
                 (if rt_tick (w_nonce w) then [(true, bump w)] else []) in
    cases !! (rt_pick (w_nonce w) mod length cases)) ;
  if negb tick then mret None else
  now ← time_Now ;
  snap ← loadSnapshot ;
  m ← reap_clients now (filter (fun p => p.1 ∈ hs_set snap) firstIdleAt) (hs_slice snap) ;
  mret (Some m).

Fixpoint reaper_loop (fuel : nat) (firstIdleAt : gmap cref Z) : prg unit :=
  match fuel with
  | 0 => out_of_fuel
  | S f =>
      o ← reaper_step firstIdleAt ;
      match o with None => mret tt | Some m => reaper_loop f m end
  end.

Definition runDrainReaper (fuel : nat) : prg unit :=
  new_ticker reaper_interval ;;
  reaper_loop fuel ∅ ;;
  wg_done.

(** ** Shutdown *)
Definition close_adapter : prg unit :=
  match adapter env with
  | None => mret tt
  | Some a =>
      modify (emit EvAdapterClose) ;;
      err ← ad_Close a ;
      match err with Some _ => logger Error "adapter close failed" | None => mret tt end
  end.

(** The goroutine behind [done] waits for the hub's [WaitGroup]. *)
Definition wait_goroutines (ctx : context) : prg (option error) :=
  ok ← await (fun w =>
    match bool_decide (h_wg (w_hub w) = 0%Z), ctxDone w ctx with
    | true, true => Some (rt_select (w_nonce w), bump w)
    | true, false => Some (true, w)
    | false, true => Some (false, w)
    | false, false => None
    end) ;
  if (ok : bool) then logger Info "Hub shutdown successful" ;; mret None
  else logger Warn "Hub shutdown timeout" ;; mret (Some ErrContext).

Definition Shutdown (ctx : context) : prg (option error) :=
  logger Info "Shutting down hub" ;;
  modify (upd_hub (set_h_state StateStopped)) ;;
  close_drainDone ;;
  modify (upd_hub (set_h_ctxDone true)) ;;
  close_adapter ;;
  modify (upd_par (set_p_once true)) ;;
  started ← gets (fun w => p_started (w_par w)) ;
  (if (started : bool) then pool_shutdown else mret tt) ;;
  wait_goroutines ctx.
End Ops.

(** ** Every interleaving *)
Section Keeps.
Context {RT : Runtime} (lim : Limits) (env : HubEnv) (Hlim : limits env = lim)
  (Hh : hooks_keep lim env).
Context (Upgrade : (Request -> prg bool) -> Request -> prg (option error)).
Context (Hup : ∀ check r, (∀ r, keeps (wf lim) (check r)) -> keeps (wf lim) (Upgrade check r)).

Lemma keeps_writeCloseAndClose c code reason : keeps (wf lim) (writeCloseAndClose c code reason).
Proof. unfold writeCloseAndClose. keeps_auto. Qed.

#[local] Hint Resolve keeps_writeCloseAndClose : keeps.

Lemma keeps_send_register c : keeps (wf lim) (send_register c).
Proof.
  apply keeps_await. intros w x w' Hw. cbn zeta.
  repeat case_match; intros; simplify_eq; try apply wf_bump; done || by apply wf_upd_hub.
Qed.

Lemma keeps_await_result c : keeps (wf lim) (await_result c).
Proof.
  apply keeps_await. intros w x w' Hw. cbn zeta.
  repeat case_match; intros; simplify_eq; try apply wf_bump; done || by apply wf_upd_hub.
Qed.

#[local] Hint Resolve keeps_send_register keeps_await_result : keeps.

Lemma keeps_register_client et c r : keeps (wf lim) (register_client et c r).
Proof. unfold register_client, finish_registration, shutting_down, wg_Add, spawn. keeps_auto. Qed.

#[local] Hint Resolve keeps_register_client : keeps.

Lemma keeps_opts c opts :
  Forall (fun opt : UpgradeOption => ∀ c, keeps (wf lim) (opt c)) opts ->
  keeps (wf lim) (for_each opts (fun opt => opt c)).
Proof. induction 1 as [|opt opts Ho _ IH]; cbn [for_each]; keeps_auto. Qed.

Lemma keeps_UpgradeConnection et r opts :
  Forall (fun opt : UpgradeOption => ∀ c, keeps (wf lim) (opt c)) opts ->
  keeps (wf lim) (UpgradeConnection env Upgrade et r opts).
Proof.
  intros Ho. pose proof (fun c => keeps_opts c opts Ho) as Hopts.
  pose proof (Hup (checkOrigin env) r (keeps_checkOrigin lim env)) as Hu.
  unfold UpgradeConnection, Alive, State, http_Error, ClientCount. keeps_auto.
  destruct (BeforeConnect (hooks env)) as [h|] eqn:He; simplify_eq/=.
  by apply (hk_beforeConnect _ _ Hh).
Qed.

Lemma keeps_HandleHTTP et r : keeps (wf lim) (HandleHTTP env Upgrade et r).
Proof.
  unfold HandleHTTP. apply keeps_bind; [by apply keeps_UpgradeConnection|intros ?]. keeps_auto.
Qed.

Lemma keeps_reap_clients now m l : keeps (wf lim) (reap_clients env now m l).
Proof.
  revert m. induction l as [|c l IH]; intros m; cbn [reap_clients]; [done|].
  unfold reap_client, queue_length. keeps_auto.
Qed.

#[local] Hint Resolve keeps_reap_clients : keeps.

Ltac wait_keeps :=
  apply keeps_await; intros ? ? ? Hw; cbn zeta; repeat case_match; intros; simplify_eq;
  first [done | by apply wf_bump].

Lemma keeps_Drain ctx : keeps (wf lim) (Drain env ctx).
Proof.
  unfold Drain, state_CompareAndSwap, wait_drain, State, ClientCount, close_drainDone, wg_Add, spawn.
  keeps_auto.
  - apply keeps_atomically. intros w Hw. case_match; [by apply wf_upd_hub|done].
  - wait_keeps.
  - wait_keeps.
Qed.

Lemma keeps_close_adapter : keeps (wf lim) (close_adapter env).
Proof.
  unfold close_adapter. destruct (adapter env) as [a|] eqn:Ha; [|done].
  pose proof (proj2 (proj2 (hk_adapter _ _ Hh a Ha))). keeps_auto.
Qed.

Lemma keeps_subscribe_adapter : keeps (wf lim) (subscribe_adapter env).
Proof.
  unfold subscribe_adapter. destruct (adapter env) as [a|] eqn:Ha; [|done].
  pose proof (proj1 (hk_adapter _ _ Hh a Ha)). keeps_auto.
Qed.

#[local] Hint Resolve keeps_close_adapter keeps_subscribe_adapter keeps_ensurePool : keeps.

Lemma keeps_Shutdown ctx : keeps (wf lim) (Shutdown env ctx).
Proof.
  unfold Shutdown, wait_goroutines, close_drainDone. keeps_auto. wait_keeps.
Qed.

(** One of several ready cases. *)
Lemma keeps_pick {X} (cases : world -> list (X * world)) (n : world -> nat) :
  (∀ w, wf lim w -> Forall (fun p => wf lim p.2) (cases w)) ->
  keeps (wf lim) (await (fun w => cases w !! n w)).
Proof.
  intros H. apply keeps_await. intros w x w' Hw Hx%list_elem_of_lookup_2.
  pose proof (H w Hw) as Hf. rewrite Forall_forall in Hf. apply (Hf _ Hx).
Qed.

Ltac pick_keeps :=
  apply (keeps_pick _ (fun w => rt_pick (w_nonce w) mod _)); intros w Hw; cbn zeta;
  repeat apply Forall_app_2; repeat case_match; try apply Forall_nil_2;
  try (apply Forall_singleton, wf_bump; try done).

Lemma keeps_reaper_loop n m : keeps (wf lim) (reaper_loop env n m).
Proof.
  revert m. induction n as [|n IH]; intros m; cbn [reaper_loop]; [keeps_auto|].
  unfold reaper_step. keeps_auto. pick_keeps.
Qed.

#[local] Hint Resolve keeps_reaper_loop : keeps.

Lemma keeps_runDrainReaper n : keeps (wf lim) (runDrainReaper env n).
Proof. unfold runDrainReaper, wg_done. keeps_auto. Qed.

Lemma keeps_close_all : keeps (wf lim) close_all.
Proof.
  unfold close_all, Close. keeps_auto. apply keeps_atomically. intros w Hw. by apply wf_bump.
Qed.

Lemma keeps_run_select : keeps (wf lim) run_select.
Proof.
  pick_keeps; first [by eapply wf_pop_register | by eapply wf_pop_unregister].
Qed.

#[local] Hint Resolve keeps_close_all keeps_run_select : keeps.

Lemma keeps_run_loop d n : keeps (wf lim) (run_loop env d n).
Proof.
  induction n as [|n IH]; cbn [run_loop]; [keeps_auto|]. unfold handle_event. keeps_auto.
Qed.

#[local] Hint Resolve keeps_run_loop : keeps.

Lemma keeps_Run d n : keeps (wf lim) (Run env d n).
Proof.
  unfold Run, start_presence, set_alive, wg_Add, spawn, wg_done. keeps_auto.
  apply keeps_modify. intros w Hw. by apply wf_upd_hub.
Qed.
End Keeps.

#[export] Hint Resolve keeps_UpgradeConnection keeps_HandleHTTP keeps_Drain keeps_Shutdown
  keeps_runDrainReaper keeps_Run : keeps.
