(* ===== verification/Watch.v ===== *)
(** * Watch: no lost wake-ups

    A program logic for signals over the interleaving semantics of [Prog].
    [D] is a state in which somebody must still act (a condition holds and its
    signal has not been given).  A goroutine is watched with a flag: set, it
    is the one that is about to act, and cannot block before it has.  A block
    after which [D] holds must either set the flag or have found [D] already
    there, with the flag of this goroutine down: then it is another's.  So as
    long as [D] holds some goroutine of the pool can run, and a pool that is
    stuck, or waiting, is not in [D]. *)

From S2P Require Import Prelude Prog.

Section Watch.
Context {W : Type} (D : W -> Prop).

Fixpoint watched {A : Type} (R G : W -> W -> Prop) (b : bool) (p : prog W A)
    (Q : A -> bool -> W -> Prop) (w : W) : Prop :=
  match p with
  | Ret a => ∀ w1, rtc R w w1 -> Q a b w1
  | Atomic f k =>
      (b = true -> ∀ w1, is_Some (f w1)) /\
      ∀ w1 x w2, rtc R w w1 -> f w1 = Some (x, w2) ->
        G w1 w2 /\ ∃ b', (D w2 -> b' = true \/ (D w1 /\ b = false)) /\ watched R G b' (k x) Q w2
  end.

Lemma watched_env {A} R G b (p : prog W A) Q w w1 :
  rtc R w w1 -> watched R G b p Q w -> watched R G b p Q w1.
Proof.
  destruct p as [a|X f k]; simpl.
  - intros Hw H w2 H2. apply H. by etrans.
  - intros Hw [He H]. split; [done|]. intros w2 x w3 H2 Hf. apply (H w2); [by etrans|done].
Qed.

Lemma watched_bind {A B} R G b (p : prog W A) (k : A -> prog W B) Q Q' w :
  watched R G b p Q w -> (∀ a b' w1, Q a b' w1 -> watched R G b' (k a) Q' w1) ->
  watched R G b (p ≫= k) Q' w.
Proof.
  unfold mbind, prog_mbind. revert b w. induction p as [a|X f c IH]; intros b w; simpl.
  - intros H Hk. by apply Hk, H.
  - intros [He H] Hk. split; [done|]. intros w1 x w2 Hw Hf.
    destruct (H w1 x w2 Hw Hf) as (HG & b' & Hb & Hc). split; [done|]. exists b'. eauto.
Qed.

(** Another continuation after the same program. *)
Lemma watched_seq {A B C} R G b (p : prog W A) (k1 : A -> prog W B) (k2 : A -> prog W C) Q1 Q2 w :
  (∀ a b' w1, watched R G b' (k1 a) Q1 w1 -> watched R G b' (k2 a) Q2 w1) ->
  watched R G b (p ≫= k1) Q1 w -> watched R G b (p ≫= k2) Q2 w.
Proof.
  intros Hk. unfold mbind, prog_mbind. revert b w.
  induction p as [a|X f c IH]; intros b w; simpl; [apply Hk|].
  intros [He H]. split; [done|]. intros w1 x w2 Hw Hf.
  destruct (H w1 x w2 Hw Hf) as (HG & b' & Hb & Hc). eauto 6.
Qed.

(** The first three of a sequence of programs, as one. *)
Lemma watched_assoc3 {A} R G b (p1 p2 p3 : prog W unit) (k : prog W A) Q Q' w :
  watched R G b (p1 ;; p2 ;; p3) Q' w ->
  (∀ a b' w1, Q' a b' w1 -> watched R G b' k Q w1) ->
  watched R G b (p1 ;; p2 ;; p3 ;; k) Q w.
Proof.
  intros H Hk. revert H. apply watched_seq. intros _ b1 w1. apply watched_seq.
  intros _ b2 w2 H. eapply watched_bind; [exact H|]. intros a b' w3. apply Hk.
Qed.

Lemma watched_impl {A} R G b (p : prog W A) (Q Q' : A -> bool -> W -> Prop) w :
  (∀ a b' w1, Q a b' w1 -> Q' a b' w1) -> watched R G b p Q w -> watched R G b p Q' w.
Proof.
  intros HQ. revert b w. induction p as [a|X f k IH]; intros b w; simpl; [eauto|].
  intros [He H]. split; [done|]. intros w1 x w2 Hw Hf.
  destruct (H w1 x w2 Hw Hf) as (HG & b' & Hb & Hc). eauto 6.
Qed.

Lemma stable_rtc (R : W -> W -> Prop) (P : W -> Prop) w w1 :
  (∀ w1 w2, R w1 w2 -> P w1 -> P w2) -> rtc R w w1 -> P w -> P w1.
Proof. intros Hst Hw. induction Hw; eauto. Qed.

(** A block that is always enabled. *)
Lemma watched_atomically {X} R G (b : bool) (P : W -> Prop) (f : W -> X * W) Q w :
  (∀ w1 w2, R w1 w2 -> P w1 -> P w2) -> P w ->
  (∀ w1, P w1 -> G w1 (f w1).2 /\
     ∃ b', (D (f w1).2 -> b' = true \/ (D w1 /\ b = false)) /\
           ∀ w2, rtc R (f w1).2 w2 -> Q (f w1).1 b' w2) ->
  watched R G b (atomically f) Q w.
Proof.
  intros Hst HP Hf. split; [by eauto|]. intros w1 x w2 Hw [= Hfw].
  assert (P w1) as HP1 by by apply (stable_rtc R P w).
  specialize (Hf w1 HP1). rewrite Hfw in Hf. done.
Qed.

(** ** Bystanders: programs that start and end with the flag down, and whose
    blocks are all [F]-steps, under any environment.  In between they may put
    the state into [D], if they also act on it. *)
Definition calm {A : Type} (F : W -> W -> Prop) (p : prog W A) : Prop :=
  ∀ w, watched (fun _ _ => True) F false p (fun _ b _ => b = false) w.

Lemma rtc_any (w w1 : W) : rtc (fun _ _ => True) w w1.
Proof. by apply rtc_once. Qed.

Section Bystanders.
Context (F : W -> W -> Prop).

Lemma calm_ret {A} (a : A) : calm F (mret a).
Proof. by intros w w1 _. Qed.

Lemma calm_bind {A B} (p : prog W A) (k : A -> prog W B) :
  calm F p -> (∀ a, calm F (k a)) -> calm F (p ≫= k).
Proof.
  intros Hp Hk w. eapply watched_bind; [apply Hp|]. intros a b w1 ->. apply Hk.
Qed.

Lemma calm_await {X} (f : W -> option (X * W)) :
  (∀ w x w', f w = Some (x, w') -> F w w' /\ (D w' -> D w)) -> calm F (await f).
Proof.
  intros H w. split; [done|]. intros w1 x w2 _ Hf. destruct (H w1 x w2 Hf) as [H1 H2].
  split; [done|]. exists false. split; [auto|]. by intros w3 _.
Qed.

Lemma calm_atomically {X} (f : W -> X * W) :
  (∀ w, F w (f w).2 /\ (D (f w).2 -> D w)) -> calm F (atomically f).
Proof. intros H. apply calm_await. intros w x w' [= Hf]. specialize (H w). by rewrite Hf in H. Qed.

(** A [select]: one of the ready cases. *)
Lemma calm_pick {X} (cases : W -> list (X * W)) (n : W -> nat) :
  (∀ w, Forall (fun p => F w p.2 /\ (D p.2 -> D w)) (cases w)) ->
  calm F (await (fun w => cases w !! n w)).
Proof.
  intros H. apply calm_await. intros w x w' Hx%list_elem_of_lookup_2.
  pose proof (H w) as Hf. rewrite Forall_forall in Hf. apply (Hf _ Hx).
Qed.

Lemma calm_gets {X} (f : W -> X) : (∀ w, F w w) -> calm F (gets f).
Proof. intros H. by apply calm_atomically. Qed.

Lemma calm_modify (f : W -> W) : (∀ w, F w (f w) /\ (D (f w) -> D w)) -> calm F (modify f).
Proof. intros H. by apply calm_atomically. Qed.

Lemma calm_out_of_fuel {X} : calm F (@out_of_fuel W X).
Proof. by apply calm_await. Qed.

Lemma calm_for_each {A} (l : list A) body : (∀ x, calm F (body x)) -> calm F (for_each l body).
Proof.
  intros H. induction l as [|x l IH]; cbn [for_each]; [apply calm_ret|]. by apply calm_bind.
Qed.

Lemma calm_for_collect {A B} (l : list A) (body : A -> prog W (option B)) :
  (∀ x, calm F (body x)) -> calm F (for_collect l body).
Proof.
  intros H. induction l as [|x l IH]; cbn [for_collect]; [apply calm_ret|].
  apply calm_bind; [done|]. intros o. apply calm_bind; [done|]. intros acc. apply calm_ret.
Qed.

Lemma calm_for_until {A E} (l : list A) (body : A -> prog W (option E)) :
  (∀ x, calm F (body x)) -> calm F (for_until l body).
Proof.
  intros H. induction l as [|x l IH]; cbn [for_until]; [apply calm_ret|].
  apply calm_bind; [done|]. intros []; [apply calm_ret|done].
Qed.

(** A bystander in the middle of a goroutine with a rely of its own: what is
    stable under the rely and under [F] is kept. *)
Lemma watched_calm {A} (R G : W -> W -> Prop) (P : W -> Prop) (p : prog W A) w :
  calm F p -> (∀ w1 w2, F w1 w2 -> G w1 w2) ->
  (∀ w1 w2, R w1 w2 -> P w1 -> P w2) -> (∀ w1 w2, F w1 w2 -> P w1 -> P w2) -> P w ->
  watched R G false p (fun _ b w1 => b = false /\ P w1) w.
Proof.
  intros Hp HFG HR HF. specialize (Hp w). revert Hp.
  enough (∀ b, watched (fun _ _ => True) F b p (fun _ b _ => b = false) w -> P w ->
            watched R G b p (fun _ b w1 => b = false /\ P w1) w) by eauto.
  revert w. induction p as [a|X f k IH]; intros w b; simpl.
  - intros H HP w1 Hw. split; [by apply (H w1), rtc_any|by apply (stable_rtc R P w)].
  - intros [He H] HP. split; [done|]. intros w1 x w2 Hw Hf.
    assert (P w1) as HP1 by by apply (stable_rtc R P w).
    destruct (H w1 x w2 (rtc_any _ _) Hf) as (HF' & b' & Hb & Hc).
    split; [by apply HFG|]. exists b'. split; [done|]. apply IH; [done|by eapply HF].
Qed.

(** A block that never leads into [D] leaves the flag as it is. *)
Lemma watched_keep {X} b (f : W -> X * W) w :
  (∀ w, F w (f w).2 /\ (D (f w).2 -> D w)) ->
  watched (fun _ _ => True) F b (atomically f) (fun _ b' _ => b' = b) w.
Proof.
  intros H. apply (watched_atomically _ _ _ (fun _ => True)); [done|done|].
  intros w1 _. destruct (H w1) as [H1 H2]. split; [done|]. exists b. split; [|done].
  intros Hd. destruct b; [by left|right]. auto.
Qed.

End Bystanders.

(** ** Soundness for a pool: one distinguished goroutine with its rely, the
    others under any environment. *)
Definition ready_to_act (p : prog W unit) : Prop :=
  match p with
  | Ret _ => False
  | Atomic f _ => ∀ w, is_Some (f w)
  end.

Definition other (R : W -> W -> Prop) (b : bool) (p : prog W unit) : Prop :=
  ∀ w, watched (fun _ _ => True) R b p (fun _ b _ => b = false) w.

Lemma other_step R b X (f : W -> option (X * W)) k w x w' :
  other R b (Atomic f k) -> f w = Some (x, w') ->
  R w w' /\ ∃ b', (D w' -> b' = true \/ (D w /\ b = false)) /\ other R b' (k x).
Proof.
  intros H Hf. destruct (H w) as [_ Hs]. destruct (Hs w x w' (rtc_any _ _) Hf) as (HR & b' & Hb & Hk).
  split; [done|]. exists b'. split; [done|]. intros w2. by eapply watched_env; [apply rtc_any|].
Qed.

Definition safe (R G : W -> W -> Prop) (s : list (prog W unit) * W) : Prop :=
  ∃ p ps b bs, s.1 = p :: ps /\
    watched R G b p (fun _ b _ => b = false) s.2 /\
    Forall2 (other R) bs ps /\ (D s.2 -> true ∈ b :: bs).

Lemma safe_step R G s s' : safe R G s -> pool_step s s' -> safe R G s'.
Proof.
  intros (p & ps & b & bs & Hs & Hp & Hps & HD) Hstep.
  inversion Hstep as [l1 l2 X f k x w w1 Hf]; subst; simpl in *.
  destruct l1 as [|q l1]; simplify_eq/=.
  - destruct Hp as [_ Hp]. destruct (Hp w x w1 (rtc_refl _ _) Hf) as (_ & b' & Hb & Hk).
    exists (k x), ps, b', bs. split; [done|]. split; [done|]. split; [done|].
    intros [->|[Hd ->]]%Hb; [by left|]. right. apply HD in Hd. by apply elem_of_cons in Hd as [].
  - apply Forall2_app_inv_r in Hps as (bs1 & bs2 & H1 & H2 & ->).
    inversion H2 as [|b2 q2 bs2' ps2 Hb2 H3]; subst.
    destruct (other_step _ _ _ _ _ _ _ _ Hb2 Hf) as (HR & b' & Hb & Hk).
    exists p, (l1 ++ k x :: l2), b, (bs1 ++ b' :: bs2'). split; [done|].
    split; [eapply watched_env; [by apply rtc_once|done]|]. split; [by apply Forall2_app; [|constructor]|].
    intros [->|[Hd ->]]%Hb; [set_solver|]. apply HD in Hd. set_solver.
Qed.

(** Every step is one of [R] or [G], so what both keep is an invariant. *)
Lemma safe_step_inv R G (I : W -> Prop) s s' :
  (∀ w1 w2, R w1 w2 \/ G w1 w2 -> I w1 -> I w2) ->
  safe R G s -> pool_step s s' -> I s.2 -> I s'.2.
Proof.
  intros HI (p & ps & b & bs & Hs & Hp & Hps & _) Hstep.
  inversion Hstep as [l1 l2 X f k x w w1 Hf]; subst; simpl in *.
  destruct l1 as [|q l1]; simplify_eq/=.
  - destruct Hp as [_ Hp]. apply HI. right. by apply (Hp w x w1 (rtc_refl _ _) Hf).
  - apply Forall2_app_inv_r in Hps as (bs1 & bs2 & _ & H2 & _).
    inversion H2 as [|b2 q2 bs2' ps2 Hb2 _]; subst.
    apply HI. left. by apply (other_step _ _ _ _ _ _ _ _ Hb2 Hf).
Qed.

Lemma safe_pool_inv R G (I : W -> Prop) s s' :
  (∀ w1 w2, R w1 w2 \/ G w1 w2 -> I w1 -> I w2) ->
  safe R G s -> pool_reach s s' -> I s.2 -> I s'.2.
Proof.
  intros HI Hs Hr. induction Hr as [|s1 s2 s3 Hstep _ IH]; [done|].
  intros H. apply IH; [by eapply safe_step|by eapply safe_step_inv].
Qed.

Lemma safe_pool R G s s' : safe R G s -> pool_reach s s' -> safe R G s'.
Proof. intros H Hr. induction Hr; eauto using safe_step. Qed.

Lemma watched_true_ready R G (p : prog W unit) w :
  watched R G true p (fun _ b _ => b = false) w -> ready_to_act p.
Proof.
  destruct p as [a|X f k]; simpl; [|by intros [H _]; apply H].
  intros H. specialize (H w (rtc_refl _ _)). done.
Qed.

(** In [D] somebody is at a block that cannot wait. *)
Lemma safe_acts R G ps w : safe R G (ps, w) -> D w -> Exists ready_to_act ps.
Proof.
  intros (p & qs & b & bs & Hs & Hp & Hps & HD) Hd. simpl in *. subst ps.
  apply HD, elem_of_cons in Hd as [<-|Hin].
  - constructor. by eapply watched_true_ready.
  - apply Exists_cons_tl. apply list_elem_of_lookup in Hin as [i Hi].
    destruct (Forall2_lookup_l _ _ _ _ _ Hps Hi) as (q & Hq & Ho).
    apply Exists_exists. exists q. split; [by eapply list_elem_of_lookup_2|].
    by eapply watched_true_ready, (Ho w).
Qed.

Lemma ready_steps ps w : Exists ready_to_act ps -> ∃ s, pool_step (ps, w) s.
Proof.
  intros (q & Hin & Hq)%Exists_exists. apply list_elem_of_split in Hin as (l1 & l2 & ->).
  destruct q as [|X f k]; [done|]. destruct (Hq w) as [[x w'] Hf].
  exists (l1 ++ k x :: l2, w'). by constructor.
Qed.
End Watch.

Create HintDb calm discriminated.
#[export] Hint Resolve calm_ret calm_bind calm_out_of_fuel calm_for_each calm_for_collect
  calm_for_until : calm.

#[global] Arguments watched : simpl never.
#[global] Arguments calm : simpl never.
