(* ===== verification/DrainSpec.v ===== *)
(** * DrainSpec: draining under concurrency

    The Run goroutine removes a client and then looks at the state; [Drain]
    changes the state and then looks at the client count.  Whatever the
    schedule one of the two sees the other, so the completion signal is never
    lost.  Here that is a theorem about a pool of the Run loop, any number of
    [Drain] and [Shutdown] calls and any other goroutines of the hub, together
    with the connection limit, which rests on Run being the only writer. *)

From S2P Require Import Prelude Prog Types Config World Invariant Send Client Rooms Registry Pool.
From S2P Require Import Broadcast Pump Presence Cluster Origin Lifecycle Watch.

(** The drain is over, and nobody has said so yet. *)
Definition undrained (w : world) : Prop :=
  h_state (w_hub w) = StateDraining /\ h_clients (w_hub w) = ∅ /\
  h_clientCount (w_hub w) = 0%Z /\ h_drainDone (w_hub w) = false.

(** What every goroutine but Run leaves alone. *)
Definition foreign (w w' : world) : Prop := h_clients (w_hub w') = h_clients (w_hub w).

Abbreviation bystander := (calm undrained foreign).

(** One block at a time: it writes none of the fields concerned. *)
Ltac bystander_block :=
  first [apply calm_modify | apply calm_atomically | apply calm_await | apply calm_gets];
  intros; cbn zeta in *; repeat case_match; simplify_eq/=;
  first [done | split; [done|]; by intros (? & ? & ? & ?)].

(** A [select] block: each of its cases. *)
Ltac bystander_pick :=
  apply (calm_pick _ _ _ (fun w => rt_pick (w_nonce w) mod _)); intros; cbn zeta;
  repeat apply Forall_app_2; repeat case_match;
  first [apply Forall_nil_2 | apply Forall_singleton; done].

Ltac bystander_step :=
  lazymatch goal with
  | |- calm _ _ (_ ≫= _) => apply calm_bind; [|intros ?]
  | |- calm _ _ (mret _) => apply calm_ret
  | |- calm _ _ (if ?b then _ else _) => destruct b
  | |- calm _ _ (match ?x with _ => _ end) => destruct x
  | |- calm _ _ (for_each _ _) => apply calm_for_each; intros ?
  | |- calm _ _ (for_until _ _) => apply calm_for_until; intros ?
  | |- calm _ _ (for_collect _ _) => apply calm_for_collect; intros ?
  end.

Ltac bystander_auto :=
  repeat first [ solve [ eauto 3 with calm ] | bystander_step | solve [ bystander_block ] | solve [ bystander_pick ] ].

(** ** Bystanders *)

(** The application's hooks are bystanders: they may drain or shut down the
    hub, but they do not write its client set behind its back. *)
Record hooks_bystand (env : HubEnv) : Prop := {
  hb_beforeConnect : ∀ h, BeforeConnect (hooks env) = Some h -> ∀ r, bystander (h r);
  hb_beforeDisconnect : ∀ h, BeforeDisconnect (hooks env) = Some h -> ∀ c, bystander (h c);
  hb_beforeMessage : ∀ h, BeforeMessage (hooks env) = Some h -> ∀ c m, bystander (h c m);
  hb_afterMessage : ∀ h, AfterMessage (hooks env) = Some h -> ∀ c m e, bystander (h c m e);
  hb_onError : ∀ h, OnError (hooks env) = Some h -> ∀ c e, bystander (h c e);
  hb_onMessage : ∀ h, onMessage env = Some h -> ∀ c m, bystander (h c m);
  hb_clientCallback : ∀ cb c m, bystander (clientCallback env cb c m);
  hb_errorCallback : ∀ cb c e, bystander (errorCallback env cb c e);
  hb_onSendDropped : ∀ h, OnSendDropped (hooks env) = Some h -> ∀ c d, bystander (h c d);
  hb_beforeRoomJoin : ∀ h, BeforeRoomJoin (hooks env) = Some h -> ∀ c n, bystander (h c n);
  hb_beforeRoomLeave : ∀ h, BeforeRoomLeave (hooks env) = Some h -> ∀ c n, bystander (h c n);
  hb_adapter : ∀ a, adapter env = Some a ->
    bystander (ad_Close a) /\ bystander (ad_Subscribe a) /\ ∀ m, bystander (ad_Publish a m)
}.

Section Calm.
Context {RT : Runtime} (env : HubEnv) (Hh : hooks_bystand env).

Lemma calm_logger l s : bystander (logger l s).
Proof. unfold logger. bystander_auto. Qed.

Lemma calm_metrics m : bystander (metrics m).
Proof. unfold metrics. bystander_auto. Qed.

Lemma calm_go_hook {A} (h : option A) call : bystander (go_hook h call).
Proof. unfold go_hook. bystander_auto. Qed.

#[local] Hint Resolve calm_logger calm_metrics calm_go_hook : calm.

Lemma calm_CloseWithCode c code reason : bystander (CloseWithCode c code reason).
Proof. unfold CloseWithCode, mark_closed, closeDone. bystander_auto. Qed.

#[local] Hint Resolve calm_CloseWithCode : calm.

Lemma calm_leave_one c n : bystander (leave_one env c n).
Proof.
  unfold leave_one, lookup_room, drop_section, deleteRoomIfEmpty, call_hook. 
  destruct (BeforeRoomLeave (hooks env)) as [h|] eqn:He; simpl.
  - pose proof (hb_beforeRoomLeave _ Hh h He c n). bystander_auto.
  - bystander_auto.
Qed.

#[local] Hint Resolve calm_leave_one : calm.

Lemma calm_LeaveAllRooms c : bystander (LeaveAllRooms env c).
Proof.
  unfold LeaveAllRooms, removeClientFromAllRoomsWithHooks, add_roomVersion. bystander_auto.
Qed.

#[local] Hint Resolve calm_LeaveAllRooms : calm.

Lemma calm_JoinRoom c n : bystander (JoinRoom env c n).
Proof.
  unfold JoinRoom, call_veto, get_or_create_room, join_section, deleteRoomIfEmpty, add_roomVersion.
  destruct (BeforeRoomJoin (hooks env)) as [h|] eqn:He; simpl.
  - pose proof (hb_beforeRoomJoin _ Hh h He c n). bystander_auto.
  - bystander_auto.
Qed.

Lemma calm_LeaveRoom c n : bystander (LeaveRoom env c n).
Proof.
  unfold LeaveRoom, lookup_room, in_room, call_hook, leave_section, deleteRoomIfEmpty.
  destruct (BeforeRoomLeave (hooks env)) as [h|] eqn:He; simpl.
  - pose proof (hb_beforeRoomLeave _ Hh h He c n). bystander_auto.
  - bystander_auto.
Qed.

Lemma calm_SetUserID c u : bystander (SetUserID env c u).
Proof.
  unfold SetUserID, setClientUserID. apply calm_atomically. intros w. cbn zeta.
  repeat case_match; done.
Qed.

(** The signal of a drain: after a decrement the flag is up until it is given. *)
Lemma watched_close_drainDone (R G : world -> world -> Prop) (P : world -> Prop) b w :
  (∀ w1 w2, R w1 w2 -> P w1 -> P w2) -> P w ->
  (∀ w1, P w1 -> G w1 (upd_hub (set_h_drainDone true) w1) /\ P (upd_hub (set_h_drainDone true) w1)) ->
  watched undrained R G b close_drainDone (fun _ b w => b = false /\ P w) w.
Proof.
  intros HR HP HG. apply (watched_atomically _ _ _ _ P); [done|done|].
  intros w1 HP1. destruct (HG w1 HP1) as [HG1 HP2]. split; [done|]. exists false.
  split; [by intros (_ & _ & _ & ?)|]. intros w2 H2. split; [done|].
  by apply (stable_rtc R P _ _ HR H2).
Qed.

Lemma calm_wait_drain ctx : bystander (wait_drain ctx).
Proof. unfold wait_drain. bystander_auto. Qed.

#[local] Hint Resolve calm_wait_drain : calm.

(** [Drain]: the winner of the compare-and-swap raises the flag and lowers it
    by giving the signal or by having seen a client. *)
Lemma calm_Drain ctx : bystander (Drain env ctx).
Proof.
  intros w. unfold Drain. eapply watched_bind.
  { apply (watched_atomically _ _ _ _ (fun _ => True)
      _ (fun (won : bool) b _ => b = won)); [done|done|].
    intros w1 _. case_bool_decide as Hs; split; try done; [exists true|exists false]; auto. }
  intros won b w1 ->. destruct won; cbn [negb].
  - eapply watched_bind; [by apply watched_keep|]. intros _ b w2 ->.
    eapply watched_bind.
    { apply (watched_atomically _ _ _ _ (fun _ => True)
        _ (fun n b _ => b = bool_decide (n = 0%Z))); [done|done|].
      intros w3 _. split; [done|]. eexists. split; [|done]. intros (_ & _ & Hn & _).
      left. by apply bool_decide_eq_true. }
    intros n b w3 ->. case_bool_decide as Hn.
    + eapply watched_bind.
      { by apply (watched_close_drainDone _ _ (fun _ => True)). }
      intros _ b w4 [-> _]. assert (∀ w, watched undrained (fun _ _ => True) foreign false
        (logger Info "Hub drain complete" ;; mret None) (fun (_ : option error) b _ => b = false) w)
        as Hl by bystander_auto. apply Hl.
    + assert (bystander ((if bool_decide (0 < drainTimeout env)%Z
        then wg_Add 1 ;; spawn GDrainReaper else mret tt) ;; wait_drain ctx)) as Hw.
      { unfold wg_Add, spawn. bystander_auto. }
      apply Hw.
  - assert (bystander (current ← State ; if bool_decide (current = StateStopped)
      then mret None else wait_drain ctx)) as Hw.
    { unfold State. bystander_auto. }
    apply Hw.
Qed.

Lemma calm_Shutdown ctx : bystander (Shutdown env ctx).
Proof.
  unfold Shutdown, close_drainDone, close_adapter, pool_shutdown, wait_goroutines.
  destruct (adapter env) as [a|] eqn:Ha.
  - pose proof (proj1 (hb_adapter _ Hh a Ha)). bystander_auto.
  - bystander_auto.
Qed.

Lemma calm_reap_clients now m l : bystander (reap_clients env now m l).
Proof.
  revert m. induction l as [|c l IH]; intros m; cbn [reap_clients]; [apply calm_ret|].
  unfold reap_client, queue_length. bystander_auto.
Qed.

#[local] Hint Resolve calm_reap_clients : calm.

Lemma calm_runDrainReaper n : bystander (runDrainReaper env n).
Proof.
  unfold runDrainReaper, wg_done, new_ticker, crash. 
  assert (∀ m, bystander (reaper_loop env n m)) as Hl; [|bystander_auto].
  induction n as [|n IH]; intros m; cbn [reaper_loop]; [bystander_auto|].
  unfold reaper_step, time_Now, loadSnapshot. bystander_auto.
Qed.

(** ** Sending *)
Lemma calm_chan_send c x : bystander (chan_send c x).
Proof. unfold chan_send. bystander_auto. Qed.

Lemma calm_chan_recv c : bystander (chan_recv c).
Proof. unfold chan_recv. bystander_auto. Qed.

Lemma calm_notify c d : bystander (notifySendDropped env c d).
Proof.
  unfold notifySendDropped, call_hook. 
  destruct (OnSendDropped (hooks env)) as [h|] eqn:He; simpl; [|bystander_auto].
  pose proof (hb_onSendDropped _ Hh h He c d). bystander_auto.
Qed.

#[local] Hint Resolve calm_chan_send calm_chan_recv calm_notify : calm.

Lemma calm_evict n c x : bystander (evict_loop env n c x).
Proof. induction n as [|n IH]; cbn [evict_loop]; bystander_auto. Qed.

#[local] Hint Resolve calm_evict : calm.

Lemma calm_trySendErr c x : bystander (trySendErr env c x).
Proof. unfold trySendErr, trySendDropOldest, sendMu_Lock, sendMu_Unlock. bystander_auto. Qed.

#[local] Hint Resolve calm_trySendErr : calm.

Lemma calm_trySend c x : bystander (trySend env c x).
Proof. unfold trySend. bystander_auto. Qed.

Lemma calm_SendMessage c mt d : bystander (SendMessage env c mt d).
Proof. unfold SendMessage. bystander_auto. Qed.

#[local] Hint Resolve calm_trySend calm_SendMessage : calm.

(** The workers started with the pool are events. *)
Lemma calm_ensurePool : bystander (ensurePool env).
Proof.
  unfold ensurePool. apply calm_modify. intros w. case_match; [done|]. cbn zeta.
  induction (Z.to_nat (poolSize env)) as [|n IH] at 2 4; simpl; done.
Qed.

#[local] Hint Resolve calm_ensurePool : calm.

Lemma calm_parallelSend cs x : bystander (parallelSend env cs x).
Proof.
  unfold parallelSend, submit_batches, submit, crash, wg_New, wg_Done, wg_Wait. bystander_auto.
Qed.

#[local] Hint Resolve calm_parallelSend : calm.

Lemma calm_publish m : bystander (publishToAdapter env m).
Proof.
  unfold publishToAdapter. destruct (adapter env) as [a|] eqn:Ha; [|apply calm_ret].
  pose proof (proj2 (proj2 (hb_adapter _ Hh a Ha))). bystander_auto.
Qed.

#[local] Hint Resolve calm_publish : calm.

Lemma calm_Broadcast d : bystander (Broadcast env d).
Proof.
  unfold Broadcast, broadcast, dispatch, send_each, record_since, time_Now, loadSnapshot.
  bystander_auto.
Qed.

Lemma calm_BroadcastToRoom n d : bystander (BroadcastToRoom env n d).
Proof.
  unfold BroadcastToRoom, broadcastToRoomWithType, broadcastToRoomClients, dispatch, send_each,
    record_since, time_Now, lookup_room. bystander_auto.
Qed.

Lemma calm_SendToUser u d : bystander (SendToUser env u d).
Proof.
  unfold SendToUser, sendToUserWithType, GetClientsByUserID, send_each. bystander_auto.
Qed.

(** A handshake that reaches the Run goroutine only sends it a request. *)
Lemma calm_UpgradeConnection up et r :
  (∀ check r, (∀ r, bystander (check r)) -> bystander (up check r)) ->
  bystander (UpgradeConnection env up et r []).
Proof.
  intros Hup. assert (bystander (up (checkOrigin env) r)).
  { apply Hup. intros r'. unfold checkOrigin, crash, allow, limiter_cas, time_Now.
    bystander_auto. }
  unfold UpgradeConnection, register_client, finish_registration, shutting_down, writeCloseAndClose, conn_call,
    send_register, await_result, Alive, State, http_Error, ClientCount, newClient, wg_Add, spawn,
    logHandshakeFailure, allow, limiter_cas, time_Now, call_veto.
  destruct (BeforeConnect (hooks env)) as [h|] eqn:He; simpl.
  - pose proof (hb_beforeConnect _ Hh h He r). bystander_auto.
  - bystander_auto.
Qed.

(** ** The pumps *)
Lemma calm_closeConn c : bystander (closeConn c).
Proof. unfold closeConn. bystander_auto. Qed.

Lemma calm_try_conn c o k : bystander (try_conn c o k).
Proof. unfold try_conn, conn_call. bystander_auto. Qed.

#[local] Hint Resolve calm_closeConn calm_try_conn : calm.

Lemma calm_drain_loop n c : bystander (drain_loop n c).
Proof. induction n as [|n IH]; cbn [drain_loop]; bystander_auto. Qed.

Lemma calm_batch_loop n c k : bystander (batch_loop n c k).
Proof. revert k. induction n as [|n IH]; intros k; cbn [batch_loop]; unfold flush_batch; bystander_auto. Qed.

#[local] Hint Resolve calm_drain_loop calm_batch_loop : calm.

Lemma calm_drainQueued c : bystander (drainQueued c).
Proof. unfold drainQueued, queue_length, set_write_deadline. bystander_auto. Qed.

#[local] Hint Resolve calm_drainQueued : calm.

Lemma calm_drainQueuedCoalesced c x : bystander (drainQueuedCoalesced c x).
Proof.
  unfold drainQueuedCoalesced, writeCoalescedBatch, queue_length, set_write_deadline. bystander_auto.
Qed.

#[local] Hint Resolve calm_drainQueuedCoalesced : calm.

Lemma calm_writePump n c : bystander (writePump n c).
Proof.
  unfold writePump, wg_done, new_ticker, crash.
  assert (bystander (write_loop n c)) as Hl; [|bystander_auto].
  induction n as [|n IH]; cbn [write_loop]; [bystander_auto|].
  unfold write_step, pump_select, isGraceful, writeCloseFrame, set_write_deadline, conn_call.
  bystander_auto.
Qed.

Lemma calm_processMessage c mt d : bystander (processMessage env c mt d).
Proof.
  unfold processMessage, new_received, before_message, run_handler, call_hook, time_Now.
  pose proof (hb_clientCallback _ Hh).
  pose proof (hb_beforeMessage _ Hh). pose proof (hb_afterMessage _ Hh). pose proof (hb_onMessage _ Hh).
  destruct (BeforeMessage (hooks env)), (AfterMessage (hooks env)), (onMessage env); simpl;
    bystander_auto; eauto.
Qed.

#[local] Hint Resolve calm_processMessage : calm.

Lemma calm_readPump unexpected ReadMessage n c :
  (∀ pong c, bystander pong -> bystander (ReadMessage pong c)) -> bystander (readPump env unexpected ReadMessage n c).
Proof.
  intros Hread. unfold readPump, setup_read, send_unregister, wg_done, conn_call.
  assert (bystander (pong_handler c)) as Hpong by (unfold pong_handler, conn_call; bystander_auto).
  assert (bystander (read_loop env unexpected ReadMessage n c)) as Hl; [|bystander_auto].
  induction n as [|n IH]; cbn [read_loop]; [bystander_auto|].
  unfold read_step, handleReadError, checkRateLimit, call_hook.
  pose proof (hb_onError _ Hh). pose proof (hb_errorCallback _ Hh).
  destruct (OnError (hooks env)); simpl; bystander_auto; eauto.
Qed.

(** ** The Run goroutine *)

(** It owns the client set; its own steps keep the connection limit. *)
Definition owns (X : gset cref) (w : world) : Prop := h_clients (w_hub w) = X.

Definition connections_ok (w : world) : Prop :=
  within (MaxConnections (limits env)) (size (h_clients (w_hub w))).

Definition limit_kept (w w' : world) : Prop := connections_ok w -> connections_ok w'.

Definition run_watched {A} (b : bool) (p : prg A) (Q : A -> bool -> world -> Prop) (w : world) :=
  watched undrained foreign limit_kept b p Q w.

(** Between two events: the flag is down, and the set is what Run made it. *)
Definition idle {A} (_ : A) (b : bool) (w : world) : Prop := b = false.

Lemma owns_foreign X w1 w2 : foreign w1 w2 -> owns X w1 -> owns X w2.
Proof. unfold foreign, owns. congruence. Qed.

Lemma foreign_rtc w1 w2 : rtc foreign w1 w2 -> foreign w1 w2.
Proof. unfold foreign. induction 1 as [|x y z H2 _ IH]; congruence. Qed.

Lemma foreign_kept w1 w2 : foreign w1 w2 -> limit_kept w1 w2.
Proof. unfold foreign, limit_kept, connections_ok. intros ->. done. Qed.

Lemma run_calm {A} (p : prg A) X w :
  bystander p -> owns X w -> run_watched false p (fun _ b w => b = false /\ owns X w) w.
Proof.
  intros Hp. apply (watched_calm _ foreign); [done|apply foreign_kept|..]; intros w1 w2; apply owns_foreign.
Qed.

(** Then with a continuation. *)
Lemma run_calm_bind {A B} (p : prg A) (k : A -> prg B) X Q w :
  bystander p -> owns X w ->
  (∀ a w1, owns X w1 -> run_watched false (k a) Q w1) -> run_watched false (p ≫= k) Q w.
Proof.
  intros Hp HX Hk. eapply watched_bind; [by apply run_calm|].
  intros a b w1 [-> Hw]. by apply Hk.
Qed.

Lemma run_done {A} (p : prg A) X w : bystander p -> owns X w -> run_watched false p idle w.
Proof. intros Hp HX. eapply watched_impl; [|by apply run_calm]. by intros ? ? ? [? _]. Qed.

(** A block of Run itself. *)
Lemma run_block {A} b (f : world -> A * world) X Q w :
  owns X w ->
  (∀ w1, owns X w1 -> limit_kept w1 (f w1).2 /\
     ∃ b', (undrained (f w1).2 -> b' = true \/ (undrained w1 /\ b = false)) /\
           ∀ w2, foreign (f w1).2 w2 -> Q (f w1).1 b' w2) ->
  run_watched b (atomically f) Q w.
Proof.
  intros HX Hf. apply (watched_atomically _ _ _ _ (owns X)); [apply owns_foreign|done|].
  intros w1 H1. destruct (Hf w1 H1) as (HG & b' & Hb & HQ). split; [done|]. exists b'.
  split; [done|]. intros w2 H2. by apply HQ, foreign_rtc.
Qed.

Lemma run_handleRegister c X w : owns X w -> run_watched false (handleRegister env c) idle w.
Proof.
  intros HX. unfold handleRegister. eapply watched_bind.
  { apply (run_block _ _ X (fun n b w => b = false /\ owns X w /\ n = size X)); [done|].
    intros w1 H1. split; [by intros ?|]. exists false. split; [auto|]. cbn [fst snd].
    intros w2 H2. rewrite H1. split; [done|]. split; [by eapply owns_foreign|done]. }
  intros n b w1 (-> & H1 & ->). case_match eqn:Hl.
  { unfold send_result. apply (run_done _ X); [bystander_auto|done]. }
  eapply run_calm_bind; [|exact H1|].
  { unfold addToUserIndex, GetUserID. bystander_auto. }
  intros err w2 H2. destruct err as [e|].
  { unfold send_result. apply (run_done _ X); [bystander_auto|done]. }
  eapply watched_bind.
  { apply (run_block _ _ X (fun _ b w => b = false /\ owns (X ∪ {[c]}) w)); [done|].
    intros w3 H3. assert (∀ w', h_clients (w_hub w') = X ∪ {[c]} -> ¬ undrained w') as Hn.
    { intros w' E (_ & E' & _). rewrite E in E'. set_solver. }
    cbn [fst snd]. split.
    - unfold limit_kept, connections_ok. world_simpl. rewrite H3. intros Hw.
      destruct (decide (c ∈ X)); [by rewrite union_elem_id|].
      rewrite size_insert_new by done. by apply within_S.
    - exists false. split.
      + intros Hd. exfalso. eapply Hn, Hd. world_simpl. by rewrite H3.
      + intros w4 H4. split; [done|]. unfold owns. rewrite H4. world_simpl. by rewrite H3. }
  intros _ b w3 [-> H3]. eapply watched_bind.
  { apply (run_block _ _ (X ∪ {[c]}) (fun _ b w => b = false /\ owns (X ∪ {[c]}) w)); [done|].
    intros w4 H4. split; [by intros ?|]. exists false. split; [|by intros w5 H5; rewrite <-H4].
    intros (_ & E & _). exfalso. change (h_clients (w_hub w4) = ∅) in E.
    unfold owns in H4. rewrite H4 in E. set_solver. }
  intros _ b w4 [-> H4]. apply (run_done _ (X ∪ {[c]})); [|done].
  unfold send_result. bystander_auto.
Qed.

(** Under the flag: the decrement, and the look at the state after it. *)
Lemma run_ret_owns {A} (a : A) b X w :
  owns X w -> run_watched b (mret a) (fun _ b' w => b' = b /\ owns X w) w.
Proof.
  intros HX w1 Hw. split; [done|]. by eapply owns_foreign; [apply foreign_rtc|].
Qed.

Lemma run_removal c X w :
  owns X w ->
  run_watched false (delete_client c ;; add_clientCount (-1) ;; signal_drain)
    (fun _ b w => b = false /\ owns (X ∖ {[c]}) w) w.
Proof.
  intros HX. set (Y := X ∖ {[c]}). eapply watched_bind.
  { apply (run_block _ _ X (fun _ b w => b = true /\ owns Y w)); [done|].
    intros w1 H1. assert (h_clients (w_hub w1) ∖ {[c]} = Y) as E by by rewrite H1. split.
    - unfold limit_kept, connections_ok. world_simpl. intros Hw. rewrite E. subst Y.
      eapply within_le; [done|]. rewrite H1. apply size_difference_le.
    - exists true. split; [by left|]. intros w2 H2. split; [done|]. unfold owns. by rewrite H2. }
  intros _ b w1 [-> H1]. eapply watched_bind.
  { apply (run_block _ _ Y (fun _ b w => b = true /\ owns Y w)); [done|].
    intros w2 H2. split; [by intros ?|]. exists true. split; [by left|].
    intros w3 H3. split; [done|]. unfold owns. by rewrite H3. }
  intros _ b w2 [-> H2]. unfold signal_drain. eapply watched_bind.
  { apply (run_block _ _ Y (fun st b w => b = bool_decide (st = StateDraining) /\ owns Y w)); [done|].
    intros w3 H3. split; [by intros ?|]. eexists. split; [|by intros w4 H4; split; [|rewrite <-H3]].
    intros (Hs & _). left. by apply bool_decide_eq_true. }
  intros st b w3 [-> H3]. case_bool_decide as Hst; [|by apply run_ret_owns].
  eapply watched_bind.
  { apply (run_block _ _ Y (fun n b w => b = bool_decide (n = 0%Z) /\ owns Y w)); [done|].
    intros w4 H4. split; [by intros ?|]. eexists. split; [|by intros w5 H5; split; [|rewrite <-H4]].
    intros (_ & _ & Hn & _). left. by apply bool_decide_eq_true. }
  intros n b w4 [-> H4]. case_bool_decide as Hn; [|by apply run_ret_owns].
  apply watched_close_drainDone; [apply owns_foreign|done|].
  intros w5 H5. split; [by intros ?|done].
Qed.

Lemma calm_drain_send n c : bystander (drain_send n c).
Proof. induction n as [|n IH]; cbn [drain_send]; bystander_auto. Qed.

#[local] Hint Resolve calm_drain_send : calm.

Lemma calm_drain_queue c : bystander (drain_queue c).
Proof. unfold drain_queue. bystander_auto. Qed.

#[local] Hint Resolve calm_drain_queue : calm.

Lemma calm_before_disconnect c : bystander (before_disconnect env c).
Proof.
  unfold before_disconnect. destruct (BeforeDisconnect (hooks env)) as [h|] eqn:He; [|apply calm_ret].
  pose proof (hb_beforeDisconnect _ Hh h He c). bystander_auto.
Qed.

Lemma run_handleUnregister c X w : owns X w -> run_watched false (handleUnregister env c) idle w.
Proof.
  intros HX. unfold handleUnregister.
  eapply run_calm_bind; [apply calm_before_disconnect|exact HX|]. intros _ w1 H1.
  eapply run_calm_bind; [bystander_auto|exact H1|]. intros present w2 H2.
  destruct present; cbn [negb]; [|by apply (run_done _ X); [bystander_auto|]].
  eapply run_calm_bind; [unfold removeFromUserIndex, GetUserID; bystander_auto|exact H2|].
  intros _ w3 H3.
  eapply run_calm_bind; [apply (calm_LeaveAllRooms c)|exact H3|]. intros _ w4 H4.
  apply (watched_assoc3 _ _ _ _ _ _ _ _ _ (fun _ b w => b = false /\ owns (X ∖ {[c]}) w));
    [by apply run_removal|].
  intros _ b w5 [-> H5]. apply (run_done _ (X ∖ {[c]})); [|done].
  unfold mark_unregistered, closeDone, closeConn. bystander_auto.
Qed.

Lemma run_event e X w : owns X w -> run_watched false (handle_event env e) idle w.
Proof.
  destruct e as [c|c]; cbn [handle_event];
    [apply run_handleRegister|apply run_handleUnregister].
Qed.

Lemma run_drain_events n X w : owns X w -> run_watched false (drainAndRebuildSnapshot env n) idle w.
Proof.
  revert X w. induction n as [|n IH]; intros X w HX; cbn [drainAndRebuildSnapshot].
  { apply (run_done _ X); [bystander_auto|done]. }
  eapply run_calm_bind; [|exact HX|].
  { apply calm_atomically. intros w1. unfold next_event, pop_register, pop_unregister.
    repeat case_match; simplify_eq/=; done. }
  intros o w1 H1. destruct o as [e|].
  - eapply watched_bind; [by apply (run_event e X)|].
    intros _ b w2 ->. by apply (IH (h_clients (w_hub w2))).
  - apply (run_done _ X); [|done]. unfold updateClientsSnapshot. bystander_auto.
Qed.

Lemma calm_run_select : bystander run_select.
Proof.
  unfold run_select, pop_register, pop_unregister.
  apply (calm_pick _ _ _ (fun w => rt_pick (w_nonce w) mod _)). intros w. cbn zeta.
  repeat apply Forall_app_2; repeat case_match; simplify_eq;
    first [apply Forall_nil_2 | apply Forall_singleton; done].
Qed.

Lemma run_run_loop d n X w : owns X w -> run_watched false (run_loop env d n) idle w.
Proof.
  revert X w. induction n as [|n IH]; intros X w HX; cbn [run_loop].
  { apply (run_done _ X); [bystander_auto|done]. }
  eapply run_calm_bind; [|exact HX|].
  { apply calm_run_select. }
  intros case w1 H1. destruct case as [|e].
  - apply (run_done _ X); [|done]. unfold close_all, Close. bystander_auto.
  - eapply watched_bind; [by apply (run_event e X)|].
    intros _ b w2 ->. eapply watched_bind; [by apply (run_drain_events _ (h_clients (w_hub w2)))|].
    intros _ b w3 ->. by apply (IH (h_clients (w_hub w3))).
Qed.

Lemma run_Run d n w : run_watched false (Run env d n) idle w.
Proof.
  unfold Run. set (X := h_clients (w_hub w)).
  eapply run_calm_bind; [unfold set_alive; bystander_auto|done|]. intros _ w1 H1.
  eapply run_calm_bind; [bystander_auto|exact H1|]. intros _ w2 H2.
  eapply run_calm_bind; [bystander_auto|exact H2|]. intros _ w3 H3.
  eapply run_calm_bind; [|exact H3|].
  { unfold subscribe_adapter. destruct (adapter env) as [a|] eqn:Ha; [|apply calm_ret].
    pose proof (proj1 (proj2 (hb_adapter _ Hh a Ha))). bystander_auto. }
  intros _ w4 H4.
  eapply run_calm_bind; [unfold start_presence, wg_Add, spawn; bystander_auto|exact H4|].
  intros _ w5 H5.
  eapply watched_bind; [by apply (run_run_loop _ _ X)|]. intros _ b w6 ->.
  apply (run_done _ (h_clients (w_hub w6))); [|done]. unfold set_alive, wg_done. bystander_auto.
Qed.

(** A hub at work: its Run goroutine and any others. *)
Lemma hub_safe d n others w :
  Forall bystander others -> ¬ undrained w ->
  safe undrained foreign limit_kept (Run env d n :: others, w).
Proof.
  intros Ho Hw. exists (Run env d n), others, false, (replicate (length others) false).
  split; [done|]. split; [apply run_Run|]. split; [|done].
  induction Ho as [|p ps Hp _ IH]; simpl; constructor; [|done]. intros w1. apply Hp.
Qed.

(** What runs beside the Run goroutine: the calls the application makes from
    its own goroutines, the pumps and the reaper. *)
Inductive api_call : prg unit -> Prop :=
  | call_Drain ctx : api_call (_ ← Drain env ctx ; mret tt)
  | call_Shutdown ctx : api_call (_ ← Shutdown env ctx ; mret tt)
  | call_runDrainReaper n : api_call (runDrainReaper env n)
  | call_JoinRoom c r : api_call (_ ← JoinRoom env c r ; mret tt)
  | call_LeaveRoom c r : api_call (_ ← LeaveRoom env c r ; mret tt)
  | call_LeaveAllRooms c : api_call (LeaveAllRooms env c)
  | call_SetUserID c u : api_call (_ ← SetUserID env c u ; mret tt)
  | call_CloseWithCode c code reason : api_call (_ ← CloseWithCode c code reason ; mret tt)
  | call_SendMessage c mt d : api_call (_ ← SendMessage env c mt d ; mret tt)
  | call_Broadcast d : api_call (Broadcast env d)
  | call_BroadcastToRoom r d : api_call (_ ← BroadcastToRoom env r d ; mret tt)
  | call_SendToUser u d : api_call (SendToUser env u d)
  | call_writePump n c : api_call (writePump n c)
  | call_readPump unexpected ReadMessage n c :
      (∀ pong c, bystander pong -> bystander (ReadMessage pong c)) -> api_call (readPump env unexpected ReadMessage n c)
  | call_Upgrade up et r :
      (∀ check r, (∀ r, bystander (check r)) -> bystander (up check r)) ->
      api_call (_ ← UpgradeConnection env up et r [] ; mret tt).

#[local] Hint Resolve calm_Drain calm_Shutdown calm_runDrainReaper calm_JoinRoom calm_LeaveRoom
  calm_SetUserID calm_Broadcast calm_BroadcastToRoom calm_SendToUser calm_UpgradeConnection
  calm_writePump calm_readPump : calm.

Lemma api_bystander p : api_call p -> bystander p.
Proof. destruct 1; eauto with calm. Qed.

Lemma calls_safe d n calls w ps' w' :
  Forall api_call calls -> h_state (w_hub w) = StateRunning ->
  pool_reach (Run env d n :: calls, w) (ps', w') ->
  safe undrained foreign limit_kept (ps', w') /\ (connections_ok w -> connections_ok w').
Proof.
  intros Hcalls Hs Hr.
  assert (safe undrained foreign limit_kept (Run env d n :: calls, w)) as Hsafe.
  { apply hub_safe; [|by intros (Hd & _); rewrite Hs in Hd].
    eapply Forall_impl; [exact Hcalls|]. by apply api_bystander. }
  split; [eapply safe_pool; [exact Hsafe|exact Hr]|].
  eapply (safe_pool_inv undrained) with (s := (_, w)) (s' := (_, w')); [|exact Hsafe|exact Hr].
  intros w1 w2 [Hf|Hk]; [by apply foreign_kept|done].
Qed.
End Calm.


(** C2: [MaxConnections] holds in every state that a running hub and any
    number of concurrent calls can reach: the check in [handleRegister] and
    the insertion that follows it cannot be overtaken, because only the Run
    goroutine writes the client set. *)
Theorem connections_never_exceed {RT : Runtime} (env : HubEnv) (drain fuel : nat)
    (calls ps' : list (prg unit)) (w w' : world)
    (Hh : hooks_bystand env) (Hcalls : Forall (api_call env) calls)
    (Hrunning : h_state (w_hub w) = StateRunning)
    (Hok : within (MaxConnections (limits env)) (size (h_clients (w_hub w))))
    (Hreach : pool_reach (Run env drain fuel :: calls, w) (ps', w')) :
  within (MaxConnections (limits env)) (size (h_clients (w_hub w'))).
Proof.
  by apply (calls_safe _ Hh _ _ _ _ _ _ Hcalls Hrunning Hreach).
Qed.
