(* ===== verification/LifecycleSpec.v ===== *)
(** * LifecycleSpec: start, drain and shutdown, branch by branch

    Sequential specifications of the lifecycle operations: what each of them
    returns and leaves behind on every branch, that the Run goroutine's drain
    of its channels ends with an up-to-date snapshot, and which clients the
    reaper closes. *)

From S2P Require Import Prelude Prog Types Config World Invariant Send Client Rooms Registry Pool.
From S2P Require Import Pump Presence Cluster Origin Lifecycle.

(** ** Programs that return and leave a property as it is *)
Definition steady {A : Type} (I : world -> Prop) (p : prg A) : Prop := total I p (fun _ => I).

Section Steady.
Context (I : world -> Prop).

Lemma steady_ret {A} (a : A) : steady I (mret a).
Proof. by apply total_ret. Qed.

Lemma steady_bind {A B} (p : prg A) (k : A -> prg B) :
  steady I p -> (∀ a, steady I (k a)) -> steady I (p ≫= k).
Proof. intros Hp Hk. by eapply total_bind. Qed.

Lemma steady_atomically {X} (f : world -> X * world) :
  (∀ w, I w -> I (f w).2) -> steady I (atomically f).
Proof. intros H. by apply total_atomically. Qed.

Lemma steady_gets {X} (f : world -> X) : steady I (gets f).
Proof. by apply steady_atomically. Qed.

Lemma steady_modify (f : world -> world) : (∀ w, I w -> I (f w)) -> steady I (modify f).
Proof. intros H. by apply steady_atomically. Qed.

Lemma steady_for_each {A} (l : list A) body : (∀ x, steady I (body x)) -> steady I (for_each l body).
Proof. intros H. apply (total_for_each (fun _ => I)). intros x _. apply H. Qed.

Lemma steady_for_collect {A B} (l : list A) (body : A -> prg (option B)) :
  (∀ x, steady I (body x)) -> steady I (for_collect l body).
Proof.
  intros H. induction l as [|x l IH]; cbn [for_collect]; [apply steady_ret|].
  apply steady_bind; [done|]. intros o. apply steady_bind; [done|]. intros acc. apply steady_ret.
Qed.
End Steady.

Create HintDb steady discriminated.
#[export] Hint Resolve steady_ret steady_gets : steady.

Ltac steady_step :=
  lazymatch goal with
  | |- steady _ (_ ≫= _) => apply steady_bind; [|intros ?]
  | |- steady _ (if ?b then _ else _) => destruct b
  | |- steady _ (match ?x with _ => _ end) => destruct x
  | |- steady _ (for_each _ _) => apply steady_for_each; intros ?
  | |- steady _ (for_collect _ _) => apply steady_for_collect; intros ?
  end.

Ltac steady_block :=
  first [apply steady_modify | apply steady_atomically];
  intros; cbn zeta in *; repeat case_match; simplify_eq/=; done.

Ltac steady_auto :=
  repeat first [ solve [ eauto 3 with steady ] | steady_step | solve [ steady_block ] ].

(** ** The Run goroutine empties its channels *)

(** What waits for Run, and which registrations it has answered. *)
Definition pending (R U : list cref) (A : gset cref) (w : world) : Prop :=
  h_register (w_hub w) = R /\ h_unregister (w_hub w) = U /\ A ⊆ dom (h_results (w_hub w)).

(** The hooks Run waits for return, and do not feed its channels. *)
Record run_hooks_steady (env : HubEnv) : Prop := {
  hs_beforeDisconnect : ∀ h, BeforeDisconnect (hooks env) = Some h ->
    ∀ R U A c, steady (pending R U A) (h c);
  hs_beforeRoomLeave : ∀ h, BeforeRoomLeave (hooks env) = Some h ->
    ∀ R U A c n, steady (pending R U A) (h c n)
}.

Section Drains.
Context {RT : Runtime} (env : HubEnv) (Hh : run_hooks_steady env).
Context (R U : list cref) (A : gset cref).
Abbreviation steady_here := (steady (pending R U A)).

Lemma steady_go_hook {X} (h : option X) call : steady_here (go_hook h call).
Proof. unfold go_hook. steady_auto. Qed.

Lemma steady_leave_one c n : steady_here (leave_one env c n).
Proof.
  unfold leave_one, lookup_room, in_room, drop_section, deleteRoomIfEmpty, call_hook.
  destruct (BeforeRoomLeave (hooks env)) as [h|] eqn:He; simpl; [|steady_auto].
  pose proof (hs_beforeRoomLeave _ Hh h He R U A c n). steady_auto.
Qed.

Lemma steady_before_disconnect c : steady_here (before_disconnect env c).
Proof.
  unfold before_disconnect. destruct (BeforeDisconnect (hooks env)) as [h|] eqn:He; [|apply steady_ret].
  pose proof (hs_beforeDisconnect _ Hh h He R U A c). unfold logger. steady_auto.
Qed.

Lemma steady_drain_queue c : steady_here (drain_queue c).
Proof.
  intros w HI. destruct (run_drain_queue c w) as (w' & Hr & _ & _ & Hh' & _).
  exists tt, w'. split; [done|]. unfold pending in *. by rewrite Hh'.
Qed.

#[local] Hint Resolve steady_go_hook steady_leave_one steady_before_disconnect steady_drain_queue : steady.

Lemma steady_handleUnregister c : steady_here (handleUnregister env c).
Proof.
  unfold handleUnregister, removeFromUserIndex, GetUserID, removeClientFromAllRoomsWithHooks,
    add_roomVersion, delete_client, add_clientCount, signal_drain, close_drainDone,
    mark_unregistered, closeDone, closeConn, metrics, logger.
  steady_auto.
Qed.

Lemma total_send_result c res :
  total (pending R U A) (send_result c res) (fun _ => pending R U (A ∪ {[c]})).
Proof.
  apply total_modify. intros w (H1 & H2 & H3). unfold pending. world_simpl.
  split; [done|]. split; [done|]. rewrite dom_insert. set_solver.
Qed.

(** A registration is answered, whatever the answer. *)
Lemma total_handleRegister c :
  total (pending R U A) (handleRegister env c) (fun _ => pending R U (A ∪ {[c]})).
Proof.
  unfold handleRegister. eapply total_bind; [apply steady_gets|intros n].
  case_match; [apply total_send_result|].
  eapply total_bind; [|intros err].
  { assert (steady_here (addToUserIndex env c)) as Hs; [|exact Hs].
    unfold addToUserIndex, GetUserID. steady_auto. }
  destruct err as [e|]; [apply total_send_result|].
  eapply total_bind; [by apply steady_modify; intros|intros []].
  eapply total_bind; [by apply steady_modify; intros|intros []].
  eapply total_bind; [by apply steady_modify; intros|intros []].
  eapply total_bind; [by apply steady_modify; intros|intros []].
  eapply total_bind; [apply total_send_result|intros []].
  assert (∀ B, steady (pending R U B) (go_hook (AfterConnect (hooks env)) (HAfterConnect c))) as Hs.
  { intros B. unfold go_hook. steady_auto. }
  apply Hs.
Qed.
End Drains.

Section Snapshot.
Context {RT : Runtime} (env : HubEnv) (Hh : run_hooks_steady env).

(** The snapshot is the client set, each client once. *)
Definition snapshot_current (w : world) : Prop :=
  ∃ l, h_clientsSnapshot (w_hub w) = Some (mkHubSnapshot (h_clients (w_hub w)) l) /\
       enumerates l (h_clients (w_hub w)).

Lemma next_event_pending R U A w :
  pending R U A w ->
  match next_event w with
  | None => R = [] /\ U = []
  | Some (EvRegister c, w') => ∃ R', R = c :: R' /\ pending R' U A w'
  | Some (EvUnregister c, w') => ∃ U', U = c :: U' /\ pending R U' A w'
  end.
Proof.
  intros (<- & <- & HA). unfold next_event, pop_register, pop_unregister. world_simpl.
  destruct (rt_select _), (h_register (w_hub w)) as [|c R'] eqn:HR,
    (h_unregister (w_hub w)) as [|c' U'] eqn:HU; try done;
    eexists; (split; [done|]); unfold pending; world_simpl; by rewrite ?HR, ?HU.
Qed.

Lemma run_drainAndRebuild fuel R U A w :
  pending R U A w -> length R + length U < fuel ->
  ∃ w', run (drainAndRebuildSnapshot env fuel) w = Some (tt, w') /\
        pending [] [] (A ∪ list_to_set R) w' /\ snapshot_current w'.
Proof.
  revert R U A w. induction fuel as [|f IH]; intros R U A w Hw Hf; [lia|].
  cbn [drainAndRebuildSnapshot]. rewrite run_bind, run_atomically.
  pose proof (next_event_pending R U A w Hw) as Hn.
  destruct (next_event w) as [[[c|c] w1]|].
  - destruct Hn as (R' & -> & H1). simpl in Hf.
    destruct (total_handleRegister env Hh R' U A c w1 H1) as ([] & w2 & Hr & H2).
    cbn [handle_event]. rewrite run_bind, Hr.
    destruct (IH R' U (A ∪ {[c]}) w2 H2) as (w3 & Hr3 & H3 & Hs3); [lia|].
    exists w3. split; [done|]. split; [|done].
    replace (A ∪ list_to_set (c :: R')) with (A ∪ {[c]} ∪ list_to_set R') by set_solver. done.
  - destruct Hn as (U' & -> & H1). simpl in Hf.
    destruct (steady_handleUnregister env Hh R U' A c w1 H1) as ([] & w2 & Hr & H2).
    cbn [handle_event]. rewrite run_bind, Hr.
    destruct (IH R U' A w2 H2) as (w3 & Hr3 & H3); [lia|]. by exists w3.
  - destruct Hn as [-> ->]. unfold updateClientsSnapshot. cbn beta iota. rewrite run_modify.
    eexists. split; [done|]. split.
    + destruct Hw as (H1 & H2 & H3). unfold pending. world_simpl. split; [done|]. split; [done|]. set_solver.
    + eexists. split; [done|]. apply rt_range_perm.
Qed.
End Snapshot.

(** C11: Once the Run goroutine handles events it goes on until both channels
    are empty, and then publishes one snapshot, which lists exactly the
    registered clients, each once; every registration that waited has got its
    answer.  Fuel above the number of waiting events is enough. *)
Theorem drainAndRebuildSnapshot_drains {RT : Runtime} (env : HubEnv) (fuel : nat) (w : world)
    (Hh : run_hooks_steady env)
    (Hfuel : length (h_register (w_hub w)) + length (h_unregister (w_hub w)) < fuel) :
  ∃ w', run (drainAndRebuildSnapshot env fuel) w = Some (tt, w') /\
    h_register (w_hub w') = [] /\ h_unregister (w_hub w') = [] /\
    list_to_set (h_register (w_hub w)) ⊆ dom (h_results (w_hub w')) /\
    snapshot_current w'.
Proof.
  destruct (run_drainAndRebuild env Hh fuel _ _ (dom (h_results (w_hub w))) w
    (conj eq_refl (conj eq_refl (reflexivity _))) Hfuel) as (w' & Hr & (H1 & H2 & H3) & Hs).
  exists w'. split; [done|]. split; [done|]. split; [done|]. split; [set_solver|done].
Qed.

(** ** Upgrading a connection *)
(** Execute the blocks of a program one after the other. *)
Ltac steps := repeat (rewrite run_bind || rewrite run_ret || rewrite run_gets || rewrite run_await
  || rewrite run_atomically || rewrite run_modify || (progress cbn beta iota)).

Section Upgrading.
Context {RT : Runtime} (env : HubEnv).
Context (up : (Request -> prg bool) -> Request -> prg (option error)) (et : error -> string).

(** Turned away over HTTP: one error metric and one response, nothing else. *)
Definition turned_away (kind msg : string) (status : Z) (w : world) : world :=
  emit (EvHTTPError status msg) (emit (EvMetric (IncrementErrors kind)) w).

Definition admitting (w : world) : Prop :=
  h_alive (w_hub w) = true /\ h_state (w_hub w) = StateRunning.

(** The fast path's limit, on the counter rather than on the set. *)
Definition counted_full (w : world) : Prop :=
  (0 < MaxConnections (limits env) <= h_clientCount (w_hub w))%Z.

Definition remote (r : Request) (e : error) : error := ErrWrap "remote" (req_RemoteAddr r) e.

Lemma run_Alive w : run Alive w = Some (h_alive (w_hub w), w).
Proof. done. Qed.

Lemma run_State w : run State w = Some (h_state (w_hub w), w).
Proof. done. Qed.

(** Past the two checks of the state. *)
Lemma run_admitted {A} (k1 : prg A) (k2 : HubState -> prg A) (k3 : prg A) w :
  admitting w ->
  run (alive ← Alive ; if negb alive then k1 else
       s ← State ; if negb (bool_decide (s = StateRunning)) then k2 s else k3) w = run k3 w.
Proof.
  intros [Ha Hs]. rewrite run_bind, run_Alive. cbn beta iota. rewrite Ha. cbn [negb].
  rewrite run_bind, run_State. cbn beta iota. by rewrite Hs.
Qed.

(** C19: An upgrade is turned away before the handshake, with the HTTP status
    and the error the API documents, when the hub has not started (503), is
    draining or stopped (503), when the [BeforeConnect] hook objects (403,
    and the hook's own error), and when the connection limit is reached (503);
    in none of these cases is a client created or anything changed besides
    the error metric, the log line and the response. *)
Theorem UpgradeConnection_turns_away (r : Request) (opts : list UpgradeOption) (w : world) :
  let upgrade := UpgradeConnection env up et r opts in
  (h_alive (w_hub w) = false ->
     run upgrade w = Some (inl (remote r ErrHubNotStarted),
       turned_away "connection_rejected_not_ready" "Service not ready" StatusServiceUnavailable w)) /\
  (h_alive (w_hub w) = true -> h_state (w_hub w) <> StateRunning ->
     run upgrade w = Some (inl (remote r (if decide (h_state (w_hub w) = StateDraining)
                                          then ErrHubDraining else ErrHubStopped)),
       turned_away "connection_rejected_draining" "Service draining" StatusServiceUnavailable w)) /\
  (∀ h e w1, admitting w -> BeforeConnect (hooks env) = Some h ->
     run (h r) (emit (EvHook (HBeforeConnect r)) w) = Some (Some e, w1) ->
     run upgrade w = Some (inl e,
       turned_away "connection_rejected" "Connection rejected" StatusForbidden
         (emit (EvLog Warn "Connection rejected by BeforeConnect hook") w1))) /\
  (admitting w -> BeforeConnect (hooks env) = None -> counted_full w ->
     run upgrade w = Some (inl (remote r ErrMaxConnectionsReached),
       turned_away "connection_limit" (et ErrMaxConnectionsReached) StatusServiceUnavailable
         (emit (EvLog Warn "Connection limit reached") w))).
Proof.
  cbv zeta. unfold UpgradeConnection, remote. split; [|split; [|split]].
  - intros Ha. rewrite run_bind, run_Alive. cbn beta iota. by rewrite Ha.
  - intros Ha Hs. rewrite run_bind, run_Alive. cbn beta iota. rewrite Ha. cbn [negb].
    rewrite run_bind, run_State. cbn beta iota. rewrite bool_decide_eq_false_2 by done. cbn [negb].
    unfold metrics, http_Error. steps. do 3 f_equal. by destruct (h_state (w_hub w)).
  - intros h e w1 Hw Hb Hr. rewrite run_admitted, Hb by done. cbn [fmap option_fmap option_map call_veto].
    rewrite run_bind. unfold call_hook. steps. rewrite Hr. unfold logger, metrics, http_Error. by steps.
  - intros Hw Hb [H1 H2]. rewrite run_admitted, Hb by done. cbn [fmap option_fmap option_map call_veto].
    unfold ClientCount. steps. rewrite !bool_decide_eq_true_2 by lia. cbn [andb].
    unfold logger, metrics, http_Error. by steps.
Qed.
End Upgrading.

(** ** The answer of Run *)
Section Finishing.
Context {RT : Runtime} (et : error -> string).

Lemma run_writeCloseAndClose {A} c code reason (k : unit -> prg A) w :
  run (writeCloseAndClose c code reason ≫= k) w =
  run (k tt) (emit (EvConnClose c) (bump (emit (EvConn c (WriteClose code reason)) w))).
Proof. unfold writeCloseAndClose, conn_call. by steps. Qed.

(** C20: The answer of the Run goroutine decides the upgrade.  A client that
    was accepted gets its two pumps, which the hub's wait group counts; one
    that was refused is told so in a close frame 1013 with the reason, its
    connection is closed and nothing is started; and when the hub stops first
    the close frame is 1001.  The answer is consumed. *)
Theorem finish_registration_spec (c : cref) (r : Request) (w : world) :
  (∀ res, h_ctxDone (w_hub w) = false -> h_results (w_hub w) !! c = Some res ->
     ∃ w', run (finish_registration et c r) w =
             Some (match res with None => inr c | Some e => inl (remote r e) end, w') /\
       h_results (w_hub w') = delete c (h_results (w_hub w)) /\
       h_wg (w_hub w') = (h_wg (w_hub w) + if decide (res = None) then 2 else 0)%Z /\
       w_trace w' = match res with
                    | None => [EvSpawn (GReadPump c); EvSpawn (GWritePump c)]
                    | Some e => [EvConnClose c; EvConn c (WriteClose CloseTryAgainLater (et e));
                                 EvMetric (IncrementErrors "connection_limit");
                                 EvLog Warn "Connection limit reached"]
                    end ++ w_trace w) /\
  (h_ctxDone (w_hub w) = true -> h_results (w_hub w) !! c = None ->
     ∃ w', run (finish_registration et c r) w = Some (inl ErrContext, w') /\
       w_hub w' = w_hub w /\
       w_trace w' = [EvConnClose c; EvConn c (WriteClose CloseGoingAway "server shutting down")]
                    ++ w_trace w).
Proof.
  unfold finish_registration, await_result. split.
  - intros res Hctx Hres. steps. rewrite Hctx, Hres. cbn beta iota.
    destruct res as [e|]; unfold logger, metrics, wg_Add, spawn; steps;
      rewrite ?run_writeCloseAndClose; steps; eexists; (split; [done|]); world_simpl;
      (split; [done|]); (split; [|done]); simpl; lia.
  - intros Hctx Hres. steps. rewrite Hctx, Hres. cbn beta iota. unfold shutting_down.
    rewrite run_writeCloseAndClose. steps. by eexists.
Qed.
End Finishing.

(** ** Drain *)
Section Draining.
Context {RT : Runtime} (env : HubEnv).

(** What the first call does before it waits. *)
Definition drain_begun (w : world) : world :=
  let w1 := emit (EvLog Info "Hub drain initiated") (upd_hub (set_h_state StateDraining) w) in
  if bool_decide (0 < drainTimeout env)%Z
  then emit (EvSpawn GDrainReaper) (upd_hub (fun h => set_h_wg (h_wg h + 1) h) w1)
  else w1.

Lemma run_wait_drain ctx w :
  ctxDone w ctx = false ->
  run (wait_drain ctx) w =
    if h_drainDone (w_hub w) then Some (None, emit (EvLog Info "Hub drain complete") w) else None.
Proof.
  intros Hc. unfold wait_drain, logger. steps. rewrite Hc. destruct (h_drainDone _); [by steps|done].
Qed.

Lemma run_wait_expired ctx w :
  ctxDone w ctx = true -> h_drainDone (w_hub w) = false ->
  run (wait_drain ctx) w = Some (Some ErrContext, emit (EvLog Warn "Hub drain timeout") w).
Proof. intros Hc Hd. unfold wait_drain, logger. steps. rewrite Hc, Hd. by steps. Qed.

(** C21: [Drain], case by case.  On a running hub it moves the state to
    draining; with no client it completes at once and signals completion; with
    clients it starts the reaper if a drain timeout is set and waits, for the
    signal or for its context.  A second call waits for the same signal, and
    on a stopped hub it returns nil and changes nothing. *)
Theorem Drain_spec (ctx : context) (w : world) :
  match h_state (w_hub w) with
  | StateStopped => run (Drain env ctx) w = Some (None, w)
  | StateDraining =>
      run (Drain env ctx) w = run (wait_drain ctx) w
  | StateRunning =>
      if decide (h_clientCount (w_hub w) = 0%Z) then
        ∃ w', run (Drain env ctx) w = Some (None, w') /\
          h_state (w_hub w') = StateDraining /\ h_drainDone (w_hub w') = true /\
          h_wg (w_hub w') = h_wg (w_hub w)
      else run (Drain env ctx) w = run (wait_drain ctx) (drain_begun w)
  end /\
  (ctxDone w ctx = false -> run (wait_drain ctx) w =
     if h_drainDone (w_hub w) then Some (None, emit (EvLog Info "Hub drain complete") w) else None) /\
  (ctxDone w ctx = true -> h_drainDone (w_hub w) = false ->
     run (wait_drain ctx) w = Some (Some ErrContext, emit (EvLog Warn "Hub drain timeout") w)).
Proof.
  split; [|split; [apply run_wait_drain|apply run_wait_expired]].
  unfold Drain, state_CompareAndSwap, State, ClientCount, close_drainDone, logger, wg_Add, spawn.
  steps. destruct (h_state (w_hub w)) eqn:Hs; (case_bool_decide; [|done]) || (case_bool_decide; [done|]);
    cbn [negb]; steps.
  - change (h_clientCount (w_hub (emit _ _))) with (h_clientCount (w_hub w)).
    case_decide as Hn; [rewrite bool_decide_eq_true_2 by done|rewrite bool_decide_eq_false_2 by done]; steps.
    + eexists. split; [done|]. done.
    + unfold drain_begun. case_bool_decide; by steps.
  - rewrite Hs. case_bool_decide; done.
  - rewrite Hs. case_bool_decide; done.
Qed.
End Draining.

(** ** Shutdown *)
Section Stopping.
Context {RT : Runtime} (env : HubEnv).

(** The adapter's [Close] returns, and leaves the hub and its pool alone. *)
Definition adapter_closes : Prop :=
  ∀ a w, adapter env = Some a ->
    ∃ e w', run (ad_Close a) w = Some (e, w') /\ w_hub w' = w_hub w /\ w_par w' = w_par w.

(** The pool's workers, told to, have left. *)
Definition workers_gone (w : world) : Prop := p_started (w_par w) = true -> p_workers (w_par w) = 0.

Definition stopped (w : world) : Prop :=
  h_state (w_hub w) = StateStopped /\ h_drainDone (w_hub w) = true /\ h_ctxDone (w_hub w) = true.

Lemma run_close_adapter w (Ha : adapter_closes) :
  ∃ w', run (close_adapter env) w = Some (tt, w') /\ w_hub w' = w_hub w /\ w_par w' = w_par w.
Proof.
  unfold close_adapter. destruct (adapter env) as [a|] eqn:He; [|by exists w].
  steps. destruct (Ha a (emit EvAdapterClose w) He) as (e & w' & Hr & H1 & H2).
  rewrite Hr. destruct e; unfold logger; steps; eexists; done.
Qed.

End Stopping.

(** ** The reaper *)
Section Reaping.
Context {RT : Runtime} (env : HubEnv).

(** A client after [CloseWithCode]. *)
Definition closed_with (now code : Z) (reason : string) (cl : Client) : Client :=
  if c_closed cl then cl
  else set_c_done true (set_c_graceful true (set_c_closeReason reason (set_c_closeCode code
         (set_c_closedAt (Some now) (set_c_closed true cl))))).

Lemma run_CloseWithCode c code reason w :
  ∃ w', run (CloseWithCode c code reason) w = Some (None, w') /\ w_now w' = w_now w /\
    ∀ c', client w' c' = if decide (c = c') then closed_with (w_now w) code reason (client w c)
                         else client w c'.
Proof.
  unfold CloseWithCode, mark_closed, closeDone, closed_with. steps.
  destruct (c_closed (client w c)) eqn:Hc; cbn [negb]; steps; eexists; (split; [done|]);
    (split; [done|]); intros c'; rewrite ?client_upd_client; repeat case_decide; by subst.
Qed.

(** Idle for the whole drain timeout, as far as the reaper has seen. *)
Definition overdue (now : Z) (m : gmap cref Z) (w : world) (c : cref) : bool :=
  bool_decide (c_send (client w c) = []) &&
  match m !! c with
  | Some since => bool_decide (drainTimeout env <= time_Sub now since)%Z
  | None => false
  end.

(** The new first-seen-idle time of a client the tick looked at. *)
Definition seen_idle (now : Z) (m : gmap cref Z) (w : world) (c : cref) : option Z :=
  if bool_decide (c_send (client w c) = []) then
    if overdue now m w c then None else Some (default now (m !! c))
  else None.

Lemma run_reap_client now m c w :
  ∃ w', run (reap_client env now m c) w = Some (partial_alter (fun _ => seen_idle now m w c) c m, w') /\
    w_now w' = w_now w /\
    ∀ c', client w' c' =
      if decide (c = c') then
        if overdue now m w c
        then closed_with (w_now w) CloseGoingAway "server draining" (client w c) else client w c
      else client w c'.
Proof.
  unfold reap_client, queue_length, seen_idle, overdue, logger. steps.
  destruct (c_send (client w c)) as [|d q] eqn:Hq; cbn [length bool_decide decide].
  - rewrite bool_decide_eq_true_2 by done. cbn [andb].
    destruct (m !! c) as [since|] eqn:Hm; cbn [default].
    + case_bool_decide as Ho.
      * steps. destruct (run_CloseWithCode c CloseGoingAway "server draining"
          (emit (EvLog Info "Closing idle connection during drain") w)) as (w' & Hr & Hn & Hc).
        rewrite Hr. steps. exists w'. split; [done|]. by split.
      * steps. exists w. split; [|split; [done|intros c'; by case_decide; subst]].
        do 2 f_equal. apply map_eq. intros i. destruct (decide (i = c)) as [->|];
          [by rewrite lookup_partial_alter_eq|by rewrite lookup_partial_alter_ne].
    + steps. exists w. split; [done|split; [done|intros c'; by case_decide; subst]].
  - rewrite !bool_decide_eq_false_2 by done. steps. exists w.
    split; [done|split; [done|intros c'; by case_decide; subst]].
Qed.

(** C23: One tick of the drain reaper over the clients of the snapshot.  A
    client is closed, with 1001 "server draining", exactly when its queue is
    empty and has been seen empty at every tick for at least the drain
    timeout; every other client is left as it is.  A client with queued
    messages starts afresh. *)
Theorem reap_clients_spec (now : Z) (m : gmap cref Z) (l : list cref) (w : world) (Hl : NoDup l) :
  ∃ m' w', run (reap_clients env now m l) w = Some (m', w') /\
    (∀ c, client w' c = if bool_decide (c ∈ l) && overdue now m w c
                        then closed_with (w_now w) CloseGoingAway "server draining" (client w c)
                        else client w c) /\
    (∀ c, m' !! c = if bool_decide (c ∈ l) then seen_idle now m w c else m !! c).
Proof.
  revert m w. induction Hl as [|c l Hc Hl IH]; intros m w; cbn [reap_clients].
  { exists m, w. done. }
  destruct (run_reap_client now m c w) as (w1 & Hr1 & Hn1 & H1). rewrite run_bind, Hr1.
  destruct (IH (partial_alter (fun _ => seen_idle now m w c) c m) w1) as (m' & w' & Hr & H2 & H3).
  exists m', w'. split; [done|].
  assert (∀ c', c' <> c -> overdue now (partial_alter (fun _ => seen_idle now m w c) c m) w1 c' =
    overdue now m w c') as Ho.
  { intros c' Hne. unfold overdue. by rewrite H1, decide_False, lookup_partial_alter_ne by done. }
  split; intros c'; (destruct (decide (c' = c)) as [->|Hne];
    [rewrite (bool_decide_eq_true_2 (c ∈ c :: l)) by set_solver
    |rewrite (bool_decide_ext (c' ∈ c :: l) (c' ∈ l)) by set_solver]).
  - rewrite H2, bool_decide_eq_false_2 by done. cbn [andb]. by rewrite H1, decide_True.
  - rewrite H2, Ho, H1, decide_False, Hn1 by done. done.
  - rewrite H3, bool_decide_eq_false_2 by done. apply lookup_partial_alter_eq.
  - rewrite H3, lookup_partial_alter_ne by done. unfold seen_idle. rewrite Ho by done.
    by rewrite H1, decide_False, lookup_partial_alter_ne by done.
Qed.

(** The interval of the reaper's ticker is positive: it does not panic. *)
Lemma reaper_interval_pos : (0 < reaper_interval env)%Z.
Proof. unfold reaper_interval. change (dur_mul 100 Millisecond) with 100000000%Z. lia. Qed.
End Reaping.
