(* ===== verification/Handlers.v ===== *)
(** * Handlers: the router and the middleware chain (router.go, middleware.go)

    A handler is a program that returns an error or panics.  It runs over the
    hub or over an application's state around it ([Embeds]).  The router and
    the chain are objects of their own, shared between the read pumps: the
    chain's double-checked cache is a program over the chain. *)

From S2P Require Import Prelude Prog Types Config World Invariant Client.

(** How a call of a handler ends. *)
Inductive outcome := Returned (e : option error) | Panicked (v : panic_value).

(** The state of the program the hub is part of: calls of the hub act on the
    hub's part of it. *)
Class Embeds (W : Type) := embed : ∀ {A : Type}, prg A -> prog W A.

#[export] Instance embed_world : Embeds world := fun A p => p.

Section Handlers.
Context {W : Type}.

Definition HandlerFunc := cref -> Message -> prog W outcome.
Definition Middleware := HandlerFunc -> HandlerFunc.

(** ** router.go *)
Record Router := mkRouter {
  rt_extractor : Message -> string;
  rt_handlers : gmap string HandlerFunc;
  rt_notFound : option HandlerFunc
}.

Definition NewRouter (extractor : Message -> string) : Router := mkRouter extractor ∅ None.

Definition On (event : string) (handler : HandlerFunc) (r : Router) : Router :=
  mkRouter (rt_extractor r) (<[event := handler]> (rt_handlers r)) (rt_notFound r).

Definition OnNotFound (handler : option HandlerFunc) (r : Router) : Router :=
  mkRouter (rt_extractor r) (rt_handlers r) handler.

(** Both fields are read under one hold of the lock. *)
Definition Handle (r : Router) : HandlerFunc := fun c msg =>
  let event := rt_extractor r msg in
  match rt_handlers r !! event with
  | None =>
      match rt_notFound r with
      | Some notFound => notFound c msg
      | None => mret (Returned (Some ErrInvalidMessage))
      end
  | Some handler => handler c msg
  end.

(** The calls that configure a router. *)
Inductive route := ROn (event : string) (handler : HandlerFunc)
                 | ROnNotFound (handler : option HandlerFunc).

Definition configure (r : Router) (routes : list route) : Router :=
  foldl (fun r x => match x with
                    | ROn event handler => On event handler r
                    | ROnNotFound handler => OnNotFound handler r
                    end) r routes.

(** The last registration for an event, and the last fallback. *)
Fixpoint last_handler (event : string) (routes : list route) (d : option HandlerFunc)
    : option HandlerFunc :=
  match routes with
  | [] => d
  | ROn e h :: rest => last_handler event rest (if decide (e = event) then Some h else d)
  | ROnNotFound _ :: rest => last_handler event rest d
  end.

Fixpoint last_fallback (routes : list route) (d : option HandlerFunc) : option HandlerFunc :=
  match routes with
  | [] => d
  | ROn _ _ :: rest => last_fallback rest d
  | ROnNotFound h :: rest => last_fallback rest h
  end.

Lemma configure_handlers event routes r :
  rt_handlers (configure r routes) !! event = last_handler event routes (rt_handlers r !! event).
Proof.
  revert r. induction routes as [|[e h|h] rest IH]; intros r; [done|..]; simpl; rewrite IH; [|done].
  simpl. case_decide as He; [by rewrite He, lookup_insert_eq|by rewrite lookup_insert_ne].
Qed.

Lemma configure_notFound routes r :
  rt_notFound (configure r routes) = last_fallback routes (rt_notFound r).
Proof. revert r. induction routes as [|[e h|h] rest IH]; intros r; [done|..]; simpl; by rewrite IH. Qed.

Lemma configure_extractor routes r : rt_extractor (configure r routes) = rt_extractor r.
Proof. revert r. induction routes as [|[e h|h] rest IH]; intros r; [done|..]; simpl; by rewrite IH. Qed.

(** A router calls the handler registered last for the message's event;
    without one, the fallback registered last; without either it answers
    [ErrInvalidMessage].  It calls one of them, and nothing else. *)
Theorem router_dispatch (extractor : Message -> string) (routes : list route) (c : cref)
    (msg : Message) :
  Handle (configure (NewRouter extractor) routes) c msg =
    match last_handler (extractor msg) routes None, last_fallback routes None with
    | Some h, _ => h c msg
    | None, Some notFound => notFound c msg
    | None, None => mret (Returned (Some ErrInvalidMessage))
    end.
Proof.
  unfold Handle. rewrite configure_extractor. cbn zeta.
  rewrite configure_handlers, configure_notFound. simpl.
  rewrite lookup_empty.
  by destruct (last_handler (extractor msg) routes None), (last_fallback routes None).
Qed.

(** ** middleware.go *)
Record MiddlewareChain := mkMiddlewareChain {
  mw_middlewares : list Middleware;
  mw_handler : HandlerFunc;
  mw_built : option HandlerFunc
}.

Definition NewMiddlewareChain (handler : HandlerFunc) : MiddlewareChain :=
  mkMiddlewareChain [] handler None.

Definition Use (m : Middleware) (ch : MiddlewareChain) : MiddlewareChain :=
  mkMiddlewareChain (mw_middlewares ch ++ [m]) (mw_handler ch) None.

(** [for _, v := range slices.Backward(middlewares) { handler = v(handler) }]. *)
Definition compose_backward (ch : MiddlewareChain) : HandlerFunc :=
  foldl (fun handler v => v handler) (mw_handler ch) (reverse (mw_middlewares ch)).

Definition Build (ch : MiddlewareChain) : MiddlewareChain :=
  mkMiddlewareChain (mw_middlewares ch) (mw_handler ch) (Some (compose_backward ch)).

(** [Execute] resolves the handler in two critical sections: the cache under
    the read lock, and again under the write lock before building.  Where a
    goroutine is in between: *)
Inductive resolving :=
  | AtRead                            (** before [m.mu.RLock()] *)
  | AtWrite                           (** the cache was empty; before [m.mu.Lock()] *)
  | Resolved (h : HandlerFunc).       (** about to call [built(client, msg)] *)

Definition resolve_step (pc : resolving) (ch : MiddlewareChain) : resolving * MiddlewareChain :=
  match pc, mw_built ch with
  | AtRead, Some h => (Resolved h, ch)
  | AtRead, None => (AtWrite, ch)
  | AtWrite, Some h => (Resolved h, ch)
  | AtWrite, None => (Resolved (compose_backward ch), Build ch)
  | Resolved h, _ => (Resolved h, ch)
  end.

(** One goroutine of several takes its next section. *)
Inductive chain_step : list resolving * MiddlewareChain -> list resolving * MiddlewareChain -> Prop :=
  | chain_step_at l1 l2 pc pc' ch ch' :
      resolve_step pc ch = (pc', ch') ->
      chain_step (l1 ++ pc :: l2, ch) (l1 ++ pc' :: l2, ch').

(** Alone: at most two sections, and then the call. *)
Definition Execute (ch : MiddlewareChain) (c : cref) (msg : Message)
    : option (MiddlewareChain * prog W outcome) :=
  let '(pc1, ch1) := resolve_step AtRead ch in
  let '(pc2, ch2) := resolve_step pc1 ch1 in
  match pc2 with Resolved h => Some (ch2, h c msg) | _ => None end.

(** [chain.Execute] as the message handler of a hub, for a chain whose cache
    is filled: [Execute] then leaves the chain as it is.  A panic that gets
    here ends the process. *)
Definition serve (ch : MiddlewareChain) (c : cref) (msg : Message) : prog W (option error) :=
  match Execute ch c msg with
  | Some (_, call) =>
      out ← call ;
      match out with Returned e => mret e | Panicked _ => out_of_fuel end
  | None => out_of_fuel
  end.

(** ** The middlewares of the package *)
Context `{Embeds W}.

Definition LoggingMiddleware : Middleware := fun next c msg =>
  _ ← embed (GetUserID c) ;
  embed (logger Debug "Message received") ;;
  out ← next c msg ;
  match out with
  | Returned (Some e) => embed (logger Error "Message handling failed") ;; mret out
  | _ => mret out
  end.

(** [recover()] in the deferred function sees any panic of [next]. *)
Definition RecoveryMiddleware : Middleware := fun next c msg =>
  out ← next c msg ;
  match out with
  | Panicked _ =>
      embed (logger Error "Panic recovered in message handler") ;;
      mret (Returned (Some ErrInvalidMessage))
  | Returned _ => mret out
  end.

(** A panic leaves through it without a record. *)
Definition MetricsMiddleware : Middleware := fun next c msg =>
  start ← embed time_Now ;
  out ← next c msg ;
  match out with
  | Panicked _ => mret out
  | Returned e =>
      now ← embed time_Now ;
      embed (metrics (RecordLatency (time_Sub now start))) ;;
      (match e with Some _ => embed (metrics (IncrementErrors "message_handling")) | None => mret tt end) ;;
      mret out
  end.

(** ** Properties *)

(** The first middleware added is the outermost. *)
Definition wrapped (ms : list Middleware) (h : HandlerFunc) : HandlerFunc :=
  foldr (fun m h => m h) h ms.

Lemma compose_wrapped ch : compose_backward ch = wrapped (mw_middlewares ch) (mw_handler ch).
Proof.
  unfold compose_backward, wrapped. generalize (mw_handler ch) as h.
  induction (mw_middlewares ch) as [|m ms IH]; intros h; [done|].
  rewrite reverse_cons, foldl_app. simpl. by rewrite IH.
Qed.

(** A cached handler is the composition of the middlewares. *)
Definition cache_ok (ch : MiddlewareChain) : Prop :=
  mw_built ch = None \/ mw_built ch = Some (wrapped (mw_middlewares ch) (mw_handler ch)).

(** The configuring calls, made before any [Execute]. *)
Inductive chain_call := CUse (m : Middleware) | CBuild.

Definition build_chain (ch : MiddlewareChain) (calls : list chain_call) : MiddlewareChain :=
  foldl (fun ch x => match x with CUse m => Use m ch | CBuild => Build ch end) ch calls.

Definition added (calls : list chain_call) : list Middleware :=
  omap (fun x => match x with CUse m => Some m | CBuild => None end) calls.

Lemma build_chain_spec calls ch :
  cache_ok ch ->
  cache_ok (build_chain ch calls) /\ mw_handler (build_chain ch calls) = mw_handler ch /\
  mw_middlewares (build_chain ch calls) = mw_middlewares ch ++ added calls.
Proof.
  revert ch. induction calls as [|[m|] calls IH]; intros ch Hc; simpl; [by rewrite app_nil_r|..].
  - destruct (IH (Use m ch)) as (H1 & H2 & H3); [by left|]. split; [done|]. split; [done|].
    rewrite H3. unfold added. simpl. by rewrite <-app_assoc.
  - destruct (IH (Build ch)) as (H1 & H2 & H3); [right; simpl; by rewrite compose_wrapped|]. done.
Qed.

(** A goroutine never holds another handler than the composition. *)
Definition resolving_ok (h0 : HandlerFunc) (pc : resolving) : Prop :=
  match pc with Resolved h => h = h0 | _ => True end.

Definition chain_ok (h0 : HandlerFunc) (ch : MiddlewareChain) : Prop :=
  wrapped (mw_middlewares ch) (mw_handler ch) = h0 /\ cache_ok ch.

Lemma resolve_step_ok h0 pc ch pc' ch' :
  resolve_step pc ch = (pc', ch') -> chain_ok h0 ch -> resolving_ok h0 pc ->
  chain_ok h0 ch' /\ resolving_ok h0 pc'.
Proof.
  intros Hs [Hw Hc] Hpc. unfold resolve_step in Hs.
  assert (∀ h, mw_built ch = Some h -> h = h0) as Hhit.
  { intros h Hb. destruct Hc as [Hc|Hc]; rewrite Hb in Hc; by simplify_eq. }
  destruct pc, (mw_built ch) as [h1|] eqn:Hb; injection Hs as <- <-; simpl;
    try (split; [by split|by eauto]).
  split; [|by rewrite compose_wrapped]. split; [done|]. right. simpl. by rewrite compose_wrapped.
Qed.

Lemma chain_steps_ok h0 s s' :
  rtc chain_step s s' -> chain_ok h0 s.2 -> Forall (resolving_ok h0) s.1 ->
  chain_ok h0 s'.2 /\ Forall (resolving_ok h0) s'.1.
Proof.
  induction 1 as [s|s1 s2 s3 Hstep _ IH]; [done|]. intros Hch Hpcs.
  destruct Hstep as [l1 l2 pc pc' ch ch' Hs]. simpl in *.
  apply Forall_app in Hpcs as [H1 [Hpc H2]%Forall_cons].
  destruct (resolve_step_ok h0 _ _ _ _ Hs Hch Hpc) as [Hch' Hpc'].
  apply IH; [done|]. apply Forall_app. split; [done|]. by constructor.
Qed.

(** C38: The handler [Execute] calls.  However [Use] and [Build] were
    interleaved while the chain was set up, and however many goroutines call
    [Execute] at once, each of them calls the final handler inside all the
    middlewares added, the first added outermost; a stale cache is never used,
    and every call of [Execute] comes to its handler. *)
Theorem chain_executes_all (handler : HandlerFunc) (calls : list chain_call) (n : nat)
    (pcs : list resolving) (ch : MiddlewareChain)
    (Hreach : rtc chain_step
       (replicate n AtRead, build_chain (NewMiddlewareChain handler) calls) (pcs, ch)) :
  Forall (fun pc => match pc with
                    | Resolved h => h = wrapped (added calls) handler
                    | _ => True
                    end) pcs /\
  ∀ c msg, ∃ ch', Execute ch c msg = Some (ch', wrapped (added calls) handler c msg).
Proof.
  set (h0 := wrapped (added calls) handler).
  destruct (build_chain_spec calls (NewMiddlewareChain handler)) as (Hc & Hh & Hm); [by left|].
  destruct (chain_steps_ok h0 _ _ Hreach) as [[Hw Hc'] Hpcs].
  - split; [|done]. simpl. by rewrite Hm, Hh.
  - apply Forall_replicate. done.
  - split; [exact Hpcs|]. intros c msg. unfold Execute, resolve_step. simpl in Hw, Hc'.
    destruct (mw_built ch) as [h|] eqn:Hb.
    + exists ch. destruct Hc' as [Hc'|Hc']; rewrite Hb in Hc'; simplify_eq. by rewrite Hw.
    + rewrite Hb. eexists. by rewrite compose_wrapped, Hw.
Qed.

End Handlers.

(** With the recovery middleware no panic of a handler gets out: the call
    ends in [ErrInvalidMessage] and one log line instead; a call that returns
    is passed on unchanged.  The metrics middleware counts every call that
    returns, and each failure once. *)
Theorem middlewares_spec (next : @HandlerFunc world) (c : cref) (msg : Message) (w w1 : world)
    (out : outcome) (Hnext : run (next c msg) w = Some (out, w1)) :
  run (RecoveryMiddleware next c msg) w =
    Some match out with
         | Panicked _ => (Returned (Some ErrInvalidMessage),
                          emit (EvLog Error "Panic recovered in message handler") w1)
         | Returned _ => (out, w1)
         end /\
  run (MetricsMiddleware next c msg) w =
    Some match out with
         | Panicked _ => (out, w1)
         | Returned e =>
             let w2 := emit (EvMetric (RecordLatency (time_Sub (w_now w1) (w_now w)))) w1 in
             (out, if decide (e = None) then w2
                   else emit (EvMetric (IncrementErrors "message_handling")) w2)
         end.
Proof.
  unfold RecoveryMiddleware, MetricsMiddleware, embed, embed_world, metrics, logger, time_Now. split.
  - rewrite run_bind, Hnext. destruct out; [done|]. by rewrite run_bind, run_modify, run_ret.
  - rewrite run_bind, run_gets, run_bind, Hnext. destruct out as [e|v]; [|done].
    rewrite run_bind, run_gets. cbn beta iota. rewrite run_bind, run_modify. cbn beta iota.
    rewrite run_bind. destruct e; [rewrite run_modify|rewrite run_ret]; cbn beta iota; by rewrite run_ret.
Qed.
