(* ===== verification/Metrics.v ===== *)
(** * Metrics: the in-memory collector (metrics.go)

    [DebugMetrics] as an interpretation of the calls the hub makes: the trace
    of metric events of [World] drives it, in order.  Its counters are [int64]
    and wrap. *)

From S2P Require Import Prelude Prog Types Config World Invariant RegistrySpec.

Record DebugMetrics := mkDebugMetrics {
  activeConnections : Z;
  totalConnections : Z;
  totalMessagesRecv : Z;
  totalMessagesSent : Z;
  totalDropped : Z;
  totalMessageBytes : Z;
  totalRoomJoins : Z;
  totalRoomLeaves : Z;
  activeRooms : Z;
  latencyTotal : Z;
  latencyCount : Z;
  broadcastTotal : Z;
  broadcastCount : Z;
  dm_errors : gmap string Z;
  startTime : Z
}.

Definition NewDebugMetrics (now : Z) : DebugMetrics :=
  (mkDebugMetrics 0 0 0 0 0 0 0 0 0 0 0 0 0 ∅ now)%Z.

(** The methods of the collector, one per metric. *)
Definition record (m : metric) (d : DebugMetrics) : DebugMetrics :=
  let '(mkDebugMetrics ac tc mr ms dr mb rj rl ar lt lc bt bc er st) := d in
  let add x n := wrap64 (x + n) in
  match m with
  | IncrementConnections => mkDebugMetrics (add ac 1%Z) (add tc 1%Z) mr ms dr mb rj rl ar lt lc bt bc er st
  | DecrementConnections => mkDebugMetrics (add ac (-1)%Z) tc mr ms dr mb rj rl ar lt lc bt bc er st
  | IncrementMessagesReceived => mkDebugMetrics ac tc (add mr 1%Z) ms dr mb rj rl ar lt lc bt bc er st
  | IncrementMessagesSent n => mkDebugMetrics ac tc mr (add ms n) dr mb rj rl ar lt lc bt bc er st
  | IncrementMessagesDropped => mkDebugMetrics ac tc mr ms (add dr 1%Z) mb rj rl ar lt lc bt bc er st
  | RecordMessageSize n => mkDebugMetrics ac tc mr ms dr (add mb n) rj rl ar lt lc bt bc er st
  | RecordLatency n => mkDebugMetrics ac tc mr ms dr mb rj rl ar (add lt n) (add lc 1%Z) bt bc er st
  | RecordBroadcastDuration n =>
      mkDebugMetrics ac tc mr ms dr mb rj rl ar lt lc (add bt n) (add bc 1%Z) er st
  | IncrementRoomJoins => mkDebugMetrics ac tc mr ms dr mb (add rj 1%Z) rl ar lt lc bt bc er st
  | IncrementRoomLeaves => mkDebugMetrics ac tc mr ms dr mb rj (add rl 1%Z) ar lt lc bt bc er st
  | IncrementRooms => mkDebugMetrics ac tc mr ms dr mb rj rl (add ar 1%Z) lt lc bt bc er st
  | DecrementRooms => mkDebugMetrics ac tc mr ms dr mb rj rl (add ar (-1)%Z) lt lc bt bc er st
  | IncrementErrors k =>
      mkDebugMetrics ac tc mr ms dr mb rj rl ar lt lc bt bc
        (<[k := wrap64 (default 0%Z (er !! k) + 1)]> er) st
  end.

Definition Reset (now : Z) (d : DebugMetrics) : DebugMetrics :=
  (mkDebugMetrics 0 0 0 0 0 0 0 0 0 0 0 0 0 ∅ now)%Z.

Record DebugStats := mkDebugStats {
  ActiveConnections : Z;
  TotalConnections : Z;
  TotalMessagesRecv : Z;
  TotalMessagesSent : Z;
  TotalDropped : Z;
  TotalMessageBytes : Z;
  TotalRoomJoins : Z;
  TotalRoomLeaves : Z;
  ActiveRooms : Z;
  AvgLatency : Z;
  AvgBroadcast : Z;
  Errors : gmap string Z;
  StatsUptime : Z
}.

(** [Duration.Round]: to the nearest multiple of a positive [m], halves away
    from zero, saturating. *)
Definition dur_Round (d m : Z) : Z :=
  if bool_decide (m <= 0)%Z then d else
  let r := Z.rem d m in
  if bool_decide (d < 0)%Z then
    if bool_decide (- r + - r < m)%Z then (d - r)%Z
    else let d1 := wrap64 (d - r - m) in if bool_decide (d1 < d)%Z then d1 else min_int64
  else
    if bool_decide (r + r < m)%Z then (d - r)%Z
    else let d1 := wrap64 (d + m - r) in if bool_decide (d < d1)%Z then d1 else max_int64.

(** [if count > 0 { total / count }]. *)
Definition average (total count : Z) : Z :=
  if bool_decide (0 < count)%Z then Z.quot total count else 0%Z.

Definition Stats (now : Z) (d : DebugMetrics) : DebugStats := {|
  ActiveConnections := activeConnections d;
  TotalConnections := totalConnections d;
  TotalMessagesRecv := totalMessagesRecv d;
  TotalMessagesSent := totalMessagesSent d;
  TotalDropped := totalDropped d;
  TotalMessageBytes := totalMessageBytes d;
  TotalRoomJoins := totalRoomJoins d;
  TotalRoomLeaves := totalRoomLeaves d;
  ActiveRooms := activeRooms d;
  AvgLatency := average (latencyTotal d) (latencyCount d);
  AvgBroadcast := average (broadcastTotal d) (broadcastCount d);
  Errors := dm_errors d;
  StatsUptime := dur_Round (time_Sub now (startTime d)) Second
|}.

(** The collector after a trace (newest event first). *)
Fixpoint collect (start : Z) (t : list event) : DebugMetrics :=
  match t with
  | [] => NewDebugMetrics start
  | EvMetric m :: t' => record m (collect start t')
  | _ :: t' => collect start t'
  end.

(** ** Properties *)

Lemma collect_gauges start t :
  activeConnections (collect start t) = wrap64 (conns_gauge t) /\
  activeRooms (collect start t) = wrap64 (rooms_gauge t).
Proof.
  unfold conns_gauge, rooms_gauge. induction t as [|e t [IH1 IH2]]; [done|].
  destruct e as [m| | | | | | | | |]; simpl; try done.
  destruct (collect start t) as [ac tc mr ms dr mb rj rl ar lt lc bt bc er st]; simpl in *.
  subst. destruct m; simpl; repeat case_bool_decide; try done;
    rewrite ?wrap64_add_l; split; try done; f_equal; lia.
Qed.

(** How often an error of a kind was reported. *)
Fixpoint error_count (k : string) (t : list event) : nat :=
  match t with
  | [] => 0
  | EvMetric (IncrementErrors k') :: t' => (if decide (k' = k) then 1 else 0) + error_count k t'
  | _ :: t' => error_count k t'
  end.

Lemma collect_errors start t k :
  default 0%Z (dm_errors (collect start t) !! k) = wrap64 (Z.of_nat (error_count k t)).
Proof.
  induction t as [|e t IH]; [done|]. destruct e as [m| | | | | | | | |]; simpl; try done.
  destruct (collect start t) as [ac tc mr ms dr mb rj rl ar lt lc bt bc er st]; simpl in *.
  destruct m as [| | | | | | | | | | | |k']; simpl; try done.
  case_decide as Hk; [subst; rewrite lookup_insert_eq|rewrite lookup_insert_ne by done; done].
  simpl. rewrite IH, wrap64_add_l. f_equal. lia.
Qed.

