(* ===== verification/MetricsString.v ===== *)
(** * MetricsString: the printed summary (metrics.go)

    [DebugMetrics.String] and [formatBytes], with the verbs of [fmt] they use:
    [%d], [%s] of a duration, [%.2f] of a float.  The error kinds come out of a
    map, whose iteration order is a choice of the runtime; they are sorted
    before they are printed. *)

From S2P Require Import Prelude Float64 Prog Types Config World Metrics.
From stdpp Require Import pretty sorting strings.
From Stdlib.Floats Require Import SpecFloat.
#[local] Open Scope string_scope.

(** ** The verbs *)

(** [%d]. *)
Definition fmt_d (n : Z) : string := pretty n.

(** Exactly [n] decimal digits. *)
Fixpoint padded (n : nat) (v : Z) : string :=
  match n with
  | 0 => ""
  | S n => padded n (v / 10)%Z +:+ pretty (v mod 10)%Z
  end.

(** The decimal digits of the fraction [v / 10 ^ n] without trailing zeros. *)
Fixpoint frac_digits (n : nat) (v : Z) : string :=
  match n with
  | 0 => ""
  | S n' => if bool_decide (v mod 10 = 0)%Z then frac_digits n' (v / 10)%Z else padded (S n') v
  end.

(** [fmtFrac]: the fraction with its point, if there is one. *)
Definition fmt_frac (n : nat) (v : Z) : string :=
  let d := frac_digits n (v mod 10 ^ Z.of_nat n)%Z in
  if bool_decide (d = "") then "" else "." +:+ d.

Definition micro : string := String (Ascii.ascii_of_nat 194) (String (Ascii.ascii_of_nat 181) "").

(** [Duration.String]: [1.5s], [2m0s], [3.25ms]. *)
Definition dur_String (d : Z) : string :=
  let u := Z.abs d in
  let sign := if bool_decide (d < 0)%Z then "-" else "" in
  sign +:+
  if bool_decide (u < Second)%Z then
    if bool_decide (u = 0)%Z then "0s"
    else if bool_decide (u < 1000)%Z then pretty u +:+ "ns"
    else if bool_decide (u < Millisecond)%Z then
      pretty (u / 1000)%Z +:+ fmt_frac 3 u +:+ micro +:+ "s"
    else pretty (u / Millisecond)%Z +:+ fmt_frac 6 u +:+ "ms"
  else
    let s := (u / Second)%Z in
    let seconds := pretty (s mod 60)%Z +:+ fmt_frac 9 u +:+ "s" in
    let m := (s / 60)%Z in
    if bool_decide (m = 0)%Z then seconds
    else
      let h := (m / 60)%Z in
      (if bool_decide (h = 0)%Z then "" else pretty h +:+ "h") +:+
      pretty (m mod 60)%Z +:+ "m" +:+ seconds.

(** [n / d] to the nearest integer, halves to even. *)
Definition nearest_even (n d : Z) : Z :=
  let q := (n / d)%Z in
  let r := (n mod d)%Z in
  match (2 * r ?= d)%Z with
  | Lt => q
  | Gt => q + 1
  | Eq => if Z.even q then q else q + 1
  end%Z.

(** A count of hundredths: [12.34]. *)
Definition fixed2 (h : Z) : string := pretty (h / 100)%Z +:+ "." +:+ padded 2 (h mod 100)%Z.

(** [%.2f]: the exact value, rounded once. *)
Definition fmt_2f (x : spec_float) : string :=
  match x with
  | S754_finite s m e =>
      let h := if bool_decide (0 <= e)%Z then (100 * Zpos m * 2 ^ e)%Z
               else nearest_even (100 * Zpos m) (2 ^ (- e)) in
      (if (s : bool) then "-" else "") +:+ fixed2 h
  | S754_zero s => (if (s : bool) then "-" else "") +:+ "0.00"
  | S754_infinity s => if (s : bool) then "-Inf" else "+Inf"
  | S754_nan => "NaN"
  end.

Definition formatBytes (b : Z) : string :=
  if bool_decide (2 ^ 30 <= b)%Z then fmt_2f (f64_div (f64_of_Z b) (f64_of_Z (2 ^ 30))) +:+ " GB"
  else if bool_decide (2 ^ 20 <= b)%Z then fmt_2f (f64_div (f64_of_Z b) (f64_of_Z (2 ^ 20))) +:+ " MB"
  else if bool_decide (2 ^ 10 <= b)%Z then fmt_2f (f64_div (f64_of_Z b) (f64_of_Z (2 ^ 10))) +:+ " KB"
  else fmt_d b +:+ " B".

(** ** The summary *)
Definition newline : string := String (Ascii.ascii_of_nat 10) "".

(** [sort.Strings]: by bytes. *)
Definition sort_Strings (l : list string) : list string := merge_sort String.le l.

(** [strings.Join]. *)
Fixpoint join (sep : string) (l : list string) : string :=
  match l with
  | [] => ""
  | [s] => s
  | s :: l' => s +:+ sep +:+ join sep l'
  end.

(** The keys of the map, as [for k := range s.Errors] yields them. *)
Definition error_lines (errs : gmap string Z) (keys : list string) : string :=
  if bool_decide (length keys = 0) then "" else
  let parts := map (fun k => k +:+ "=" +:+ fmt_d (default 0%Z (errs !! k))) (sort_Strings keys) in
  "  errors      : " +:+ join " " parts +:+ newline.

Definition stats_String (s : DebugStats) (keys : list string) : string :=
  "wshub metrics (uptime: " +:+ dur_String (StatsUptime s) +:+ ")" +:+ newline +:+
  "  connections : " +:+ fmt_d (ActiveConnections s) +:+ " active, " +:+
    fmt_d (TotalConnections s) +:+ " total" +:+ newline +:+
  "  messages    : " +:+ fmt_d (TotalMessagesRecv s) +:+ " recv, " +:+
    fmt_d (TotalMessagesSent s) +:+ " sent, " +:+ fmt_d (TotalDropped s) +:+ " dropped, " +:+
    formatBytes (TotalMessageBytes s) +:+ newline +:+
  "  rooms       : " +:+ fmt_d (ActiveRooms s) +:+ " active, " +:+ fmt_d (TotalRoomJoins s) +:+
    " joins, " +:+ fmt_d (TotalRoomLeaves s) +:+ " leaves" +:+ newline +:+
  (if bool_decide (0 < AvgLatency s)%Z
   then "  avg latency : " +:+ dur_String (AvgLatency s) +:+ newline else "") +:+
  (if bool_decide (0 < AvgBroadcast s)%Z
   then "  avg bcast   : " +:+ dur_String (AvgBroadcast s) +:+ newline else "") +:+
  error_lines (Errors s) keys.

(** [DebugMetrics.String], when the runtime enumerates the error map so. *)
Definition DebugMetrics_String (range : gset string -> list string) (now : Z) (d : DebugMetrics) : string :=
  let s := Stats now d in stats_String s (range (dom (Errors s))).

(** Any order is possible, each key comes once. *)
Definition ranges (range : gset string -> list string) : Prop := ∀ X, range X ≡ₚ elements X.

Example dur_String_examples :
  map dur_String [0; 999; 1500; 2000000; 1500000000; 60000000000; 3661000000000; -5000000]%Z =
  ["0s"; "999ns"; "1.5" +:+ micro +:+ "s"; "2ms"; "1.5s"; "1m0s"; "1h1m1s"; "-5ms"].
Proof. by vm_compute. Qed.

Example formatBytes_examples :
  map formatBytes [-3; 0; 1023; 1024; 1536; 1048575; 1048576; 5368709120]%Z =
  ["-3 B"; "0 B"; "1023 B"; "1.00 KB"; "1.50 KB"; "1024.00 KB"; "1.00 MB"; "5.00 GB"].
Proof. by vm_compute. Qed.

(** ** The order of the map does not show *)
Lemma sort_Strings_perm l1 l2 : l1 ≡ₚ l2 -> sort_Strings l1 = sort_Strings l2.
Proof.
  intros Hp. apply (StronglySorted_unique String.le);
    [apply StronglySorted_merge_sort; apply _..|].
  unfold sort_Strings. by rewrite !merge_sort_Permutation.
Qed.

Lemma error_lines_perm errs l1 l2 : l1 ≡ₚ l2 -> error_lines errs l1 = error_lines errs l2.
Proof.
  intros Hp. unfold error_lines. rewrite (sort_Strings_perm _ _ Hp). by rewrite (Permutation_length Hp).
Qed.

(** The summary is a function of the collector alone: however the runtime
    enumerates the error map, [String] prints the same text, the one in which
    the error kinds that have been reported come once each, in increasing
    order of their bytes. *)
Theorem DebugMetrics_String_deterministic (now : Z) (d : DebugMetrics) :
  ∃ keys, StronglySorted String.le keys /\ NoDup keys /\
    (∀ k, k ∈ keys <-> is_Some (dm_errors d !! k)) /\ sort_Strings keys = keys /\
    ∀ range, ranges range ->
      DebugMetrics_String range now d = stats_String (Stats now d) keys.
Proof.
  set (l := elements (dom (dm_errors d))). exists (sort_Strings l).
  assert (sort_Strings l ≡ₚ l) as Hp by apply merge_sort_Permutation.
  split; [apply StronglySorted_merge_sort; apply _|].
  split; [rewrite Hp; apply NoDup_elements|].
  split; [intros k; rewrite Hp; unfold l; by rewrite elem_of_elements, elem_of_dom|].
  split; [by apply sort_Strings_perm|]. intros range Hr. unfold DebugMetrics_String, stats_String.
  cbn zeta. rewrite (error_lines_perm _ (range (dom (Errors (Stats now d)))) (sort_Strings l)); [done|].
  rewrite Hp. apply Hr.
Qed.

(** ** What [formatBytes] prints *)
Lemma nearest_even_scale n d c :
  (0 < d)%Z -> (0 < c)%Z -> nearest_even (n * c) (d * c) = nearest_even n d.
Proof.
  intros Hd Hc. unfold nearest_even.
  rewrite Z.div_mul_cancel_r, Z.mul_mod_distr_r by lia. rewrite Z.mul_assoc.
  rewrite (Z.compare_sub (2 * (n mod d) * c)), (Z.compare_sub (2 * (n mod d))).
  rewrite <-Z.mul_sub_distr_r.
  destruct (2 * (n mod d) - d)%Z; [done|..]; by destruct c.
Qed.

(** At most half a unit away. *)
Lemma nearest_even_bound n d :
  (0 < d)%Z -> (2 * Z.abs (nearest_even n d * d - n) <= d)%Z.
Proof.
  intros Hd. unfold nearest_even. pose proof (Z.div_mod n d ltac:(lia)) as Hn.
  pose proof (Z.mod_pos_bound n d Hd) as Hr.
  set (q := (n / d)%Z) in *. set (r := (n mod d)%Z) in *. clearbody q r. subst n.
  assert (∀ z, (z * d - (d * q + r))%Z = ((z - q) * d - r)%Z) as Hz by (intros z; nia).
  destruct (2 * r ?= d)%Z eqn:Hc; [apply Z.compare_eq in Hc; destruct (Z.even _)|
    change (2 * r < d)%Z in Hc|apply Z.compare_gt_iff in Hc];
    rewrite Hz, ?Z.sub_diag, ?Z.add_simpl_l; lia.
Qed.

Lemma fmt_2f_quotient b k m2 :
  (0 < b < 2 ^ 53)%Z -> (0 <= k <= 52)%Z ->
  f64_of_Z (2 ^ k) = S754_finite false m2 (k - 52) -> Zpos m2 = (2 ^ 52)%Z ->
  Zpos (digits2_pos m2) = 53%Z ->
  fmt_2f (f64_div (f64_of_Z b) (f64_of_Z (2 ^ k))) = fixed2 (nearest_even (100 * b) (2 ^ k)).
Proof.
  intros Hb Hk Hf Hm Hd. destruct b as [|p|p]; [lia| |lia].
  destruct (f64_div_pow2 p k m2) as (m & e & -> & He & Hv); [lia|done..|].
  unfold fmt_2f. change ("" +:+ ?s) with s. f_equal. case_bool_decide as He0.
  - assert (e = 0%Z) as -> by lia. cbn [Z.opp] in Hv. rewrite Z.pow_0_r, Z.mul_1_r in *.
    rewrite <-Hv, Z.mul_assoc. unfold nearest_even.
    rewrite Z.div_mul, Z.mod_mul by lia. by destruct (2 ^ k)%Z eqn:H2; [lia|..|lia].
  - assert (0 < 2 ^ k)%Z by lia. assert (0 < 2 ^ (- e))%Z by lia.
    rewrite <-(nearest_even_scale _ _ (2 ^ k)), <-(nearest_even_scale (100 * Zpos p) _ (2 ^ (- e))) by done.
    f_equal; [|lia]. rewrite <-!Z.mul_assoc. by rewrite Hv.
Qed.

(** [formatBytes] on every count below 2^53: the number itself below a
    kibibyte; otherwise the unit is the largest one not above it and the printed
    hundredths are [100 b / unit] rounded to the nearest, halves to even, so
    they are within half a hundredth of the true quotient, and at least 1.00;
    below a gibibyte they never exceed 1024.00. *)
Theorem formatBytes_rounds (b : Z) (Hb : (b < 2 ^ 53)%Z) :
  ((b < 1024)%Z -> formatBytes b = pretty b +:+ " B") /\
  (∀ k suffix,
     (k, suffix) ∈ [(10%Z, " KB"); (20%Z, " MB"); (30%Z, " GB")] ->
     (2 ^ k <= b)%Z -> (b < 2 ^ (k + 10) \/ k = 30)%Z ->
     let h := nearest_even (100 * b) (2 ^ k) in
     formatBytes b = fixed2 h +:+ suffix /\
     (2 * Z.abs (h * 2 ^ k - 100 * b) <= 2 ^ k)%Z /\ (100 <= h)%Z /\
     (k <> 30%Z -> (h <= 102400)%Z)).
Proof.
  split; [intros H; unfold formatBytes; by rewrite !bool_decide_eq_false_2 by lia|].
  intros k suffix Hks Hlo Hhi. set (h := nearest_even (100 * b) (2 ^ k)).
  assert (formatBytes b = fixed2 h +:+ suffix /\ (0 < 2 ^ k)%Z /\ (k <> 30%Z -> 100 * b < 102400 * 2 ^ k)%Z)
    as (Hfmt & Hk & Hb').
  { unfold formatBytes. subst h.
    rewrite !elem_of_cons, elem_of_nil in Hks; destruct Hks as [|[|[|[]]]]; simplify_eq;
      repeat (first [rewrite bool_decide_eq_true_2 by lia | rewrite bool_decide_eq_false_2 by lia]);
      (split; [|lia]); f_equal;
      apply (fmt_2f_quotient _ _ 4503599627370496); (lia || by vm_compute). }
  pose proof (nearest_even_bound (100 * b) (2 ^ k) Hk) as Hbound. fold h in Hbound.
  split; [done|]. split; [done|]. split; [nia|]. intros Hk30. specialize (Hb' Hk30). nia.
Qed.

Lemma formatBytes_rounds_witness :
  (1536 < 2 ^ 53)%Z /\ formatBytes 1536 = fixed2 (nearest_even (100 * 1536) (2 ^ 10)) +:+ " KB".
Proof.
  split; [done|].
  refine (proj1 (proj2 (formatBytes_rounds 1536 _) 10%Z " KB" _ _ _)); [done|by left|done|by left].
Defined.

Lemma DebugMetrics_String_deterministic_witness :
  ∃ keys, DebugMetrics_String elements 5 (record (IncrementErrors "b") (record (IncrementErrors "a")
    (NewDebugMetrics 0))) = stats_String (Stats 5 (record (IncrementErrors "b")
      (record (IncrementErrors "a") (NewDebugMetrics 0)))) keys /\ NoDup keys.
Proof.
  destruct (DebugMetrics_String_deterministic 5 (record (IncrementErrors "b")
    (record (IncrementErrors "a") (NewDebugMetrics 0)))) as (keys & _ & Hnd & _ & _ & H).
  exists keys. split; [apply (H elements); by intros X|done].
Defined.
