(* ===== verification/Prometheus.v ===== *)
(** * Prometheus: the Prometheus collector (prometheus/prometheus.go)

    The collector forwards every call of the metrics interface to an object of
    the Prometheus client library.  The library is a parameter: a heap of
    metric objects, their constructors and methods ([PromClient]), with what
    its documentation promises about their values ([PromLaws]).  A panic of the
    library is [None]. *)

From S2P Require Import Prelude Float64 Prog Types Config World Metrics.
From Stdlib.Floats Require Import SpecFloat.

(** ** The client library *)
Inductive metric_type := GaugeType | CounterType | HistogramType | CounterVecType.

(** [GaugeOpts], [CounterOpts], [HistogramOpts] and the label names of a vector. *)
Record Opts := mkOpts {
  o_type : metric_type;
  Namespace : string;
  Name : string;
  Help : string;
  Buckets : list spec_float;
  labelNames : list string
}.

Class PromClient := {
  prom : Type;                          (** the library's heap *)
  Metric : Type;
  Registerer : Type;
  DefaultRegisterer : Registerer;
  DefBuckets : list spec_float;
  NewMetric : Opts -> prom -> Metric * prom;
  MustRegister : Registerer -> list Metric -> prom -> option prom;
  Inc : Metric -> prom -> prom;
  Dec : Metric -> prom -> prom;
  Add : Metric -> spec_float -> prom -> option prom;
  Observe : Metric -> spec_float -> prom -> prom;
  IncLabelled : Metric -> list string -> prom -> option prom;
    (** [WithLabelValues(...).Inc()] *)
  live : prom -> Metric -> Prop;
  opts_of : Metric -> Opts;
  read : prom -> Metric -> list string -> Z
    (** the whole value of a counter or gauge, the sample count of a histogram *)
}.

(** [p'] is [p] with [n] added to one value. *)
Definition added {PC : PromClient} (m : Metric) (ls : list string) (n : Z) (p p' : prom) : Prop :=
  read p' m ls = (read p m ls + n)%Z /\
  (∀ m' ls', m' <> m \/ ls' <> ls -> read p' m' ls' = read p m' ls').

(** Whole numbers a float counts without loss. *)
Definition exact (n : Z) : Prop := (Z.abs n <= 2 ^ 53)%Z.

Class PromLaws (PC : PromClient) := {
  new_fresh o p : let '(m, p') := NewMetric o p in
    ~ live p m /\ live p' m /\ opts_of m = o /\ (∀ ls, read p' m ls = 0%Z) /\
    ∀ m', live p m' -> live p' m' /\ ∀ ls, read p' m' ls = read p m' ls;
  register_reads r ms p p' : MustRegister r ms p = Some p' ->
    ∀ m, (live p m -> live p' m) /\ ∀ ls, read p' m ls = read p m ls;
  inc_adds m p : exact (read p m [] + 1) -> added m [] 1 p (Inc m p);
  dec_adds m p : exact (read p m [] - 1) -> added m [] (-1) p (Dec m p);
  add_adds m n p : (0 <= n)%Z -> exact n -> exact (read p m [] + n) ->
    ∃ p', Add m (f64_of_Z n) p = Some p' /\ added m [] n p p';
  observe_counts m x p : exact (read p m [] + 1) -> added m [] 1 p (Observe m x p);
  label_adds m ls p : length ls = length (labelNames (opts_of m)) -> exact (read p m ls + 1) ->
    ∃ p', IncLabelled m ls p = Some p' /\ added m ls 1 p p'
}.

Section Prometheus.
Context {PC : PromClient}.

(** Library calls in sequence; a panic ends them. *)
Definition lib (A : Type) : Type := prom -> option (A * prom).

Definition new_metric (o : Opts) : lib Metric := fun p => Some (NewMetric o p).

Definition bind {A B} (m : lib A) (k : A -> lib B) : lib B :=
  fun p => match m p with Some (a, p') => k a p' | None => None end.

(** ** The collector *)
Record Collector := mkCollector {
  registerer : Registerer;
  namespace : string;
  latencyBuckets : list spec_float;
  broadcastBuckets : list spec_float;
  connectionsActive : Metric;
  connectionsTotal : Metric;
  messagesReceived : Metric;
  messagesSent : Metric;
  messagesDropped : Metric;
  messageBytes : Metric;
  latency : Metric;
  broadcastDuration : Metric;
  roomsActive : Metric;
  roomJoins : Metric;
  roomLeaves : Metric;
  errors : Metric
}.

(** The part of a collector its options see. *)
Record settings := mkSettings {
  s_registerer : Registerer;
  s_namespace : string;
  s_latencyBuckets : list spec_float;
  s_broadcastBuckets : list spec_float
}.

Definition CollectorOption : Type := settings -> settings.

Definition WithRegistry (reg : Registerer) : CollectorOption := fun c =>
  mkSettings reg (s_namespace c) (s_latencyBuckets c) (s_broadcastBuckets c).
Definition WithNamespace (ns : string) : CollectorOption := fun c =>
  mkSettings (s_registerer c) ns (s_latencyBuckets c) (s_broadcastBuckets c).
Definition WithLatencyBuckets (buckets : list spec_float) : CollectorOption := fun c =>
  mkSettings (s_registerer c) (s_namespace c) buckets (s_broadcastBuckets c).
Definition WithBroadcastBuckets (buckets : list spec_float) : CollectorOption := fun c =>
  mkSettings (s_registerer c) (s_namespace c) (s_latencyBuckets c) buckets.

(** [.0001] is the float nearest to the fraction, as the division is. *)
Definition decimal (n d : Z) : spec_float := f64_div (f64_of_Z n) (f64_of_Z d).

Definition default_settings : settings :=
  mkSettings DefaultRegisterer "wshub" DefBuckets
    [decimal 1 10000; decimal 5 10000; decimal 1 1000; decimal 5 1000; decimal 1 100;
     decimal 5 100; decimal 1 10; decimal 5 10; f64_of_Z 1].

Definition New (opts : list CollectorOption) : lib Collector :=
  let c := foldl (fun c opt => opt c) default_settings opts in
  let ns := s_namespace c in
  let gauge n h := mkOpts GaugeType ns n h [] [] in
  let counter n h := mkOpts CounterType ns n h [] [] in
  let histogram n h b := mkOpts HistogramType ns n h b [] in
  bind (new_metric (gauge "connections_active" "Number of active WebSocket connections.")) (fun m1 =>
  bind (new_metric (counter "connections_total" "Total number of WebSocket connections opened.")) (fun m2 =>
  bind (new_metric (counter "messages_received_total" "Total number of messages received from clients.")) (fun m3 =>
  bind (new_metric (counter "messages_sent_total" "Total number of messages sent to clients.")) (fun m4 =>
  bind (new_metric (counter "messages_dropped_total" "Total number of messages dropped due to full send buffers.")) (fun m5 =>
  bind (new_metric (counter "message_received_bytes_total" "Total bytes received from clients.")) (fun m6 =>
  bind (new_metric (histogram "message_latency_seconds" "Message handler processing latency in seconds." (s_latencyBuckets c))) (fun m7 =>
  bind (new_metric (histogram "broadcast_duration_seconds" "Duration of local broadcast fanout in seconds." (s_broadcastBuckets c))) (fun m8 =>
  bind (new_metric (gauge "rooms_active" "Number of active rooms.")) (fun m9 =>
  bind (new_metric (counter "room_joins_total" "Total number of room join operations.")) (fun m10 =>
  bind (new_metric (counter "room_leaves_total" "Total number of room leave operations.")) (fun m11 =>
  bind (new_metric (mkOpts CounterVecType ns "errors_total" "Total number of errors by type." [] ["type"])) (fun m12 =>
  fun p =>
    match MustRegister (s_registerer c) [m1; m2; m3; m4; m5; m6; m7; m8; m9; m10; m11; m12] p with
    | None => None
    | Some p' =>
        Some (mkCollector (s_registerer c) ns (s_latencyBuckets c) (s_broadcastBuckets c)
                m1 m2 m3 m4 m5 m6 m7 m8 m9 m10 m11 m12, p')
    end)))))))))))).

(** Its methods, one per metric of the hub. *)
Definition Collector_call (c : Collector) (m : metric) (p : prom) : option prom :=
  match m with
  | IncrementConnections => Some (Inc (connectionsTotal c) (Inc (connectionsActive c) p))
  | DecrementConnections => Some (Dec (connectionsActive c) p)
  | IncrementMessagesReceived => Some (Inc (messagesReceived c) p)
  | IncrementMessagesSent count => Add (messagesSent c) (f64_of_Z count) p
  | IncrementMessagesDropped => Some (Inc (messagesDropped c) p)
  | RecordMessageSize size => Add (messageBytes c) (f64_of_Z size) p
  | RecordLatency duration => Some (Observe (latency c) (dur_Seconds duration) p)
  | RecordBroadcastDuration duration =>
      Some (Observe (broadcastDuration c) (dur_Seconds duration) p)
  | IncrementRoomJoins => Some (Inc (roomJoins c) p)
  | IncrementRoomLeaves => Some (Inc (roomLeaves c) p)
  | IncrementRooms => Some (Inc (roomsActive c) p)
  | DecrementRooms => Some (Dec (roomsActive c) p)
  | IncrementErrors errorType => IncLabelled (errors c) [errorType] p
  end.

(** A sequence of calls, oldest first. *)
Fixpoint Collector_calls (c : Collector) (ms : list metric) (p : prom) : option prom :=
  match ms with
  | [] => Some p
  | m :: ms' => match Collector_call c m p with
                | Some p' => Collector_calls c ms' p'
                | None => None
                end
  end.
End Prometheus.
