(* ===== verification/PrometheusSpec.v ===== *)
(** * PrometheusSpec: two collectors, one meaning

    The Prometheus collector and [DebugMetrics] implement the same interface;
    fed the same calls they report the same numbers, as long as these are small
    enough for both. *)

From S2P Require Import Prelude Float64 Prog Types Config World Metrics Prometheus.
From Stdlib.Floats Require Import SpecFloat.

(** The numbers a collector keeps, and where each implementation has them. *)
Inductive number :=
  | Active | Total | Received | Sent | Dropped | Bytes | Latencies | Broadcasts
  | Rooms | Joins | Leaves | ErrorsOf (kind : string).

#[export] Instance number_eq_dec : EqDecision number.
Proof. solve_decision. Defined.

Definition debug_read (d : DebugMetrics) (k : number) : Z :=
  match k with
  | Active => activeConnections d
  | Total => totalConnections d
  | Received => totalMessagesRecv d
  | Sent => totalMessagesSent d
  | Dropped => totalDropped d
  | Bytes => totalMessageBytes d
  | Latencies => latencyCount d
  | Broadcasts => broadcastCount d
  | Rooms => activeRooms d
  | Joins => totalRoomJoins d
  | Leaves => totalRoomLeaves d
  | ErrorsOf e => default 0%Z (dm_errors d !! e)
  end.

(** What a call adds to each number. *)
Definition adds (m : metric) (k : number) : Z :=
  match m, k with
  | IncrementConnections, (Active | Total) => 1
  | DecrementConnections, Active => -1
  | IncrementMessagesReceived, Received => 1
  | IncrementMessagesSent n, Sent => n
  | IncrementMessagesDropped, Dropped => 1
  | RecordMessageSize n, Bytes => n
  | RecordLatency _, Latencies => 1
  | RecordBroadcastDuration _, Broadcasts => 1
  | IncrementRoomJoins, Joins => 1
  | IncrementRoomLeaves, Leaves => 1
  | IncrementRooms, Rooms => 1
  | DecrementRooms, Rooms => -1
  | IncrementErrors e, ErrorsOf e' => if decide (e = e') then 1 else 0
  | _, _ => 0
  end%Z.

Lemma debug_record m d k :
  in_int64 (debug_read d k) -> debug_read (record m d) k = wrap64 (debug_read d k + adds m k).
Proof.
  intros H. destruct d as [ac tc mr ms dr mb rj rl ar lt lc bt bc er st].
  destruct m, k; cbn in *; try done; try (rewrite Z.add_0_r; by rewrite wrap64_small).
  destruct (decide _) as [->|Hne]; [by rewrite lookup_insert_eq|].
  rewrite lookup_insert_ne, Z.add_0_r by done. by rewrite wrap64_small.
Qed.

(** What a call can add at most. *)
Definition size_of (m : metric) : Z :=
  match m with IncrementMessagesSent n | RecordMessageSize n => Z.max 1 (Z.abs n) | _ => 1 end%Z.

Lemma adds_size m k : (Z.abs (adds m k) <= size_of m)%Z.
Proof. destruct m, k; cbn; try lia. case_decide; lia. Qed.

Section Agree.
Context {PC : PromClient} {PL : PromLaws PC}.

Definition handle (c : Collector) (k : number) : Metric :=
  match k with
  | Active => connectionsActive c
  | Total => connectionsTotal c
  | Received => messagesReceived c
  | Sent => messagesSent c
  | Dropped => messagesDropped c
  | Bytes => messageBytes c
  | Latencies => latency c
  | Broadcasts => broadcastDuration c
  | Rooms => roomsActive c
  | Joins => roomJoins c
  | Leaves => roomLeaves c
  | ErrorsOf _ => errors c
  end.

Definition labels (k : number) : list string :=
  match k with ErrorsOf e => [e] | _ => [] end.

Definition prom_read (c : Collector) (p : prom) (k : number) : Z := read p (handle c k) (labels k).

Definition handles (c : Collector) : list Metric :=
  [connectionsActive c; connectionsTotal c; messagesReceived c; messagesSent c; messagesDropped c;
   messageBytes c; latency c; broadcastDuration c; roomsActive c; roomJoins c; roomLeaves c;
   errors c].

Definition position (k : number) : nat :=
  match k with
  | Active => 0 | Total => 1 | Received => 2 | Sent => 3 | Dropped => 4 | Bytes => 5
  | Latencies => 6 | Broadcasts => 7 | Rooms => 8 | Joins => 9 | Leaves => 10 | ErrorsOf _ => 11
  end.

(** The objects of a collector are distinct, and the vector has one label. *)
Record collector_ok (c : Collector) : Prop := {
  co_distinct : NoDup (handles c);
  co_label : length (labelNames (opts_of (errors c))) = 1
}.

Lemma handle_position c k : handles c !! position k = Some (handle c k).
Proof. by destruct k. Qed.

(** Two numbers of one collector are kept apart. *)
Lemma handle_apart c k1 k2 :
  collector_ok c -> k1 <> k2 -> handle c k1 <> handle c k2 \/ labels k1 <> labels k2.
Proof.
  intros Hc Hne. destruct (decide (labels k1 = labels k2)) as [Hl|]; [left|by right].
  intros Heq. destruct Hne.
  pose proof (handle_position c k1) as H1. pose proof (handle_position c k2) as H2.
  rewrite Heq in H1. pose proof (NoDup_lookup _ _ _ _ (co_distinct c Hc) H1 H2) as Hp.
  destruct k1, k2; cbn in *; congruence.
Qed.

Lemma added_reads c k n p p' :
  collector_ok c -> added (handle c k) (labels k) n p p' ->
  ∀ k', prom_read c p' k' = (prom_read c p k' + (if decide (k' = k) then n else 0))%Z.
Proof.
  intros Hc [H1 H2] k'. unfold prom_read. case_decide as Hk; [by subst|].
  rewrite Z.add_0_r. apply H2. by apply handle_apart.
Qed.

Lemma exact_le n m : (Z.abs n <= m)%Z -> (m <= 2 ^ 53)%Z -> exact n.
Proof. unfold exact. lia. Qed.

(** A method that moves one number by a constant. *)
Ltac one_call Hone Hex k n law :=
  eexists; split; [done|]; apply (Hone k n); [apply law, (Hex k n); done|by intros []].

(** One call, on numbers bounded by [B]. *)
Lemma Collector_call_reads c m p (B : Z) :
  collector_ok c -> (∀ n, m = IncrementMessagesSent n \/ m = RecordMessageSize n -> (0 <= n)%Z) ->
  (∀ k, Z.abs (prom_read c p k) <= B)%Z -> (0 <= B)%Z -> (B + size_of m <= 2 ^ 53)%Z ->
  ∃ p', Collector_call c m p = Some p' /\ ∀ k, prom_read c p' k = (prom_read c p k + adds m k)%Z.
Proof.
  intros Hc Hpos Hb HB Hs.
  assert (∀ k n, (Z.abs n <= size_of m)%Z -> exact (read p (handle c k) (labels k) + n)) as Hex.
  { intros k n Hn. pose proof (Hb k) as Hk. unfold prom_read in Hk.
    apply (exact_le _ (B + size_of m)); lia. }
  assert (∀ k n p', added (handle c k) (labels k) n p p' -> (∀ k', adds m k' = if decide (k' = k) then n else 0%Z) ->
    ∀ k', prom_read c p' k' = (prom_read c p k' + adds m k')%Z) as Hone.
  { intros k n p' Ha Hadds k'. rewrite Hadds. by apply added_reads. }
  destruct m as [| | |n| |n|x|x| | | | |e]; cbn [Collector_call].
  - eexists. split; [done|]. intros k.
    assert (added (connectionsActive c) [] 1 p (Inc (connectionsActive c) p)) as H1
      by (apply inc_adds, (Hex Active 1%Z); done).
    pose proof (added_reads c Active 1 _ _ Hc H1) as R1.
    assert (added (connectionsTotal c) [] 1 (Inc (connectionsActive c) p)
      (Inc (connectionsTotal c) (Inc (connectionsActive c) p))) as H2.
    { apply inc_adds. pose proof (R1 Total) as R. unfold prom_read in R. cbn in R. rewrite R.
      rewrite Z.add_0_r. apply (Hex Total 1%Z). done. }
    rewrite (added_reads c Total 1 _ _ Hc H2), R1.
    destruct k; cbn [adds]; repeat case_decide; try done; lia.
  - one_call Hone Hex Active (-1)%Z dec_adds.
  - one_call Hone Hex Received 1%Z inc_adds.
  - assert (0 <= n)%Z as Hn by eauto. cbn [size_of] in Hs, Hex.
    destruct (add_adds (messagesSent c) n p Hn) as (p' & Hp & Ha);
      [apply (exact_le _ (B + Z.max 1 (Z.abs n))); lia|apply (Hex Sent n); lia|].
    exists p'. split; [done|]. apply (Hone Sent n); [done|by intros []].
  - one_call Hone Hex Dropped 1%Z inc_adds.
  - assert (0 <= n)%Z as Hn by eauto. cbn [size_of] in Hs, Hex.
    destruct (add_adds (messageBytes c) n p Hn) as (p' & Hp & Ha);
      [apply (exact_le _ (B + Z.max 1 (Z.abs n))); lia|apply (Hex Bytes n); lia|].
    exists p'. split; [done|]. apply (Hone Bytes n); [done|by intros []].
  - one_call Hone Hex Latencies 1%Z observe_counts.
  - one_call Hone Hex Broadcasts 1%Z observe_counts.
  - one_call Hone Hex Joins 1%Z inc_adds.
  - one_call Hone Hex Leaves 1%Z inc_adds.
  - one_call Hone Hex Rooms 1%Z inc_adds.
  - one_call Hone Hex Rooms (-1)%Z dec_adds.
  - destruct (label_adds (errors c) [e] p) as (p' & Hp & Ha);
      [by rewrite (co_label c Hc)|apply (Hex (ErrorsOf e) 1%Z); done|].
    exists p'. split; [done|]. apply (Hone (ErrorsOf e) 1%Z); [done|].
    intros []; cbn; try done. repeat case_decide; congruence.
Qed.

(** ** Construction *)

(** Distinct new objects, all at zero. *)
Definition made (ms : list Metric) (p : prom) : Prop :=
  NoDup ms /\ ∀ m, m ∈ ms -> live p m /\ ∀ ls, read p m ls = 0%Z.

Lemma made_new ms p o m p' :
  made ms p -> NewMetric o p = (m, p') -> made (m :: ms) p' /\ opts_of m = o.
Proof.
  intros [Hnd Hms] Hnew. pose proof (new_fresh o p) as H. rewrite Hnew in H.
  destruct H as (Hfresh & Hlive & Ho & Hz & Hold). split; [|done]. split.
  - apply NoDup_cons. split; [|done]. intros Hin. by destruct Hfresh; apply Hms.
  - intros m' [->|Hin]%elem_of_cons; [done|]. destruct (Hms m' Hin) as [Hl Hr].
    destruct (Hold m' Hl) as [Hl' Hr']. split; [done|]. intros ls. by rewrite Hr'.
Qed.

Ltac next_metric H :=
  match goal with
  | Hm : made ?ms ?p |- _ =>
      match type of H with
      | context [NewMetric ?o p] =>
          let m := fresh "m" in let p' := fresh "p" in let E := fresh "E" in let Ho := fresh "Ho" in
          destruct (NewMetric o p) as [m p'] eqn:E;
          apply (made_new ms p o m p' Hm) in E as [? Ho]; clear Hm
      end
  end.

Lemma New_makes opts p c p' :
  New opts p = Some (c, p') -> collector_ok c /\ ∀ k, prom_read c p' k = 0%Z.
Proof.
  unfold New, bind, new_metric. cbn zeta. intros H.
  assert (made [] p) as Hm by (split; [constructor|by intros m ?%elem_of_nil]).
  do 12 next_metric H.
  destruct (MustRegister _ _ _) as [pr|] eqn:Hreg; [|done]. injection H as <- <-.
  match goal with Hm : made ?ms _ |- _ => destruct Hm as [Hnd Hms]; set (l := ms) in * end.
  split; [split|].
  - assert (l ≡ₚ handles (mkCollector _ _ _ _ m m0 m1 m2 m3 m4 m5 m6 m7 m8 m9 m10)) as <-; [|done].
    subst l. symmetry. exact (Permutation_rev _).
  - cbn [errors]. by rewrite Ho10.
  - intros k. unfold prom_read. rewrite (proj2 (register_reads _ _ _ _ Hreg _)).
    apply Hms. destruct k; cbn; subst l; rewrite !elem_of_cons; auto 20.
Qed.

(** ** The two collectors *)
Definition weight (ms : list metric) : Z := foldr (fun m acc => size_of m + acc)%Z 0%Z ms.

Definition counts_nonnegative (ms : list metric) : Prop :=
  ∀ n, IncrementMessagesSent n ∈ ms \/ RecordMessageSize n ∈ ms -> (0 <= n)%Z.

Lemma size_of_pos m : (1 <= size_of m)%Z.
Proof. destruct m; cbn; lia. Qed.

Lemma weight_nonneg ms : (0 <= weight ms)%Z.
Proof.
  induction ms as [|m ms IH]; [done|]. change (0 <= size_of m + weight ms)%Z.
  pose proof (size_of_pos m). lia.
Qed.

Lemma Collector_calls_agree c ms d p (B : Z) :
  collector_ok c -> counts_nonnegative ms ->
  (∀ k, prom_read c p k = debug_read d k) -> (∀ k, Z.abs (debug_read d k) <= B)%Z -> (0 <= B)%Z ->
  (B + weight ms <= 2 ^ 53)%Z ->
  ∃ p', Collector_calls c ms p = Some p' /\
    ∀ k, prom_read c p' k = debug_read (foldl (fun d m => record m d) d ms) k.
Proof.
  intros Hc. revert d p B. induction ms as [|m ms IH]; intros d p B Hpos Heq Hb HB Hw; [by exists p|].
  cbn [Collector_calls foldl]. change (B + (size_of m + weight ms) <= 2 ^ 53)%Z in Hw.
  pose proof (weight_nonneg ms) as Hms.
  destruct (Collector_call_reads c m p B Hc) as (p1 & -> & Hr1).
  { intros n [-> | ->]; apply Hpos; rewrite !elem_of_cons; auto. }
  { intros k. rewrite Heq. apply Hb. }
  { done. }
  { lia. }
  assert (∀ k, Z.abs (debug_read d k + adds m k) <= B + size_of m)%Z as Hb1.
  { intros k. pose proof (Hb k). pose proof (adds_size m k). lia. }
  assert (∀ k, debug_read (record m d) k = debug_read d k + adds m k)%Z as Hd1.
  { intros k. pose proof (Hb k). pose proof (Hb1 k). pose proof (size_of_pos m).
    rewrite debug_record, wrap64_small by (unfold in_int64, min_int64, max_int64; lia). done. }
  apply (IH _ _ (B + size_of m)%Z).
  - intros n Hn. apply Hpos. rewrite !elem_of_cons. naive_solver.
  - intros k. by rewrite Hr1, Hd1, Heq.
  - intros k. rewrite Hd1. apply Hb1.
  - pose proof (size_of_pos m). lia.
  - lia.
Qed.
End Agree.

(** C40: The two collectors agree.  A Prometheus collector that [New] has built
    and registered, fed any sequence of calls of the metrics interface with
    counts that are not negative and add up to at most 2^53, never panics, and
    every one of its counters and gauges, every error kind's counter and the
    sample counts of its histograms then read what a [DebugMetrics] fed the
    same calls holds. *)
Theorem collectors_agree {PC : PromClient} {PL : PromLaws PC} (opts : list CollectorOption)
    (p p0 : prom) (c : Collector) (now : Z) (ms : list metric)
    (HNew : New opts p = Some (c, p0)) (Hpos : counts_nonnegative ms)
    (Hsmall : (weight ms <= 2 ^ 53)%Z) :
  ∃ p', Collector_calls c ms p0 = Some p' /\
    let d := foldl (fun d m => record m d) (NewDebugMetrics now) ms in
    ∀ k, prom_read c p' k = debug_read d k.
Proof.
  destruct (New_makes opts p c p0 HNew) as [Hc Hz].
  apply (Collector_calls_agree c ms (NewDebugMetrics now) p0 0 Hc Hpos); try lia.
  - intros k. rewrite Hz. by destruct k.
  - intros k. by destruct k.
Qed.

(** ** A library that keeps the promises *)
#[export] Instance spec_float_eq_dec : EqDecision spec_float.
Proof. solve_decision. Defined.
#[export] Instance metric_type_eq_dec : EqDecision metric_type.
Proof. solve_decision. Defined.
#[export] Instance Opts_eq_dec : EqDecision Opts.
Proof. solve_decision. Defined.

(** The integer part of a float. *)
Definition whole (x : spec_float) : Z :=
  match x with
  | S754_finite s m e =>
      let v := if bool_decide (0 <= e)%Z then (Zpos m * 2 ^ e)%Z else (Zpos m / 2 ^ (- e))%Z in
      if (s : bool) then (- v)%Z else v
  | _ => 0%Z
  end.

Lemma whole_of_Z n : (0 <= n)%Z -> exact n -> whole (f64_of_Z n) = n.
Proof.
  unfold exact. intros Hn He. destruct (decide (n = 2 ^ 53)%Z) as [->|Hne]; [by vm_compute|].
  destruct n as [|q|q]; [done| |lia].
  destruct (f64_of_pos q) as (m & e & -> & _ & Hr & Hm); [lia|]. unfold whole.
  case_bool_decide; [assert (e = 0%Z) as -> by lia; cbn [Z.opp] in Hm; lia|].
  rewrite Hm. apply Z.div_mul. lia.
Qed.

Record heap := mkHeap { hp_next : nat; hp_read : nat * Opts -> list string -> Z }.

Definition bump_value (m : nat * Opts) (ls : list string) (n : Z) (p : heap) : heap :=
  mkHeap (hp_next p) (fun m' ls' =>
    if decide (m' = m /\ ls' = ls) then (hp_read p m' ls' + n)%Z else hp_read p m' ls').

#[export] Instance heap_client : PromClient := {|
  prom := heap; Metric := nat * Opts; Registerer := unit; DefaultRegisterer := tt; DefBuckets := [];
  NewMetric := fun o p => ((hp_next p, o), mkHeap (S (hp_next p)) (fun m ls =>
    if decide (m.1 = hp_next p) then 0%Z else hp_read p m ls));
  MustRegister := fun _ _ p => Some p;
  Inc := fun m => bump_value m [] 1;
  Dec := fun m => bump_value m [] (-1);
  Add := fun m x p => if bool_decide (whole x < 0)%Z then None else Some (bump_value m [] (whole x) p);
  Observe := fun m _ => bump_value m [] 1;
  IncLabelled := fun m ls p =>
    if bool_decide (length ls = length (labelNames m.2)) then Some (bump_value m ls 1 p) else None;
  live := fun p m => m.1 < hp_next p;
  opts_of := snd;
  read := hp_read
|}.

Lemma bump_value_added m ls n p : added (PC := heap_client) m ls n p (bump_value m ls n p).
Proof.
  split; cbn; [by rewrite decide_True|]. intros m' ls' H. rewrite decide_False; [done|naive_solver].
Qed.

#[export] Instance heap_laws : PromLaws heap_client.
Proof.
  split; cbn.
  - intros o p. split; [lia|]. split; [lia|]. split; [done|]. split; [intros ls; by rewrite decide_True|].
    intros m' Hm. split; [lia|]. intros ls. rewrite decide_False by lia. done.
  - by intros r ms p p' [= <-].
  - intros m p _. apply bump_value_added.
  - intros m p _. apply bump_value_added.
  - intros m n p Hn He _. rewrite whole_of_Z by done. rewrite bool_decide_eq_false_2 by lia.
    eexists. split; [done|]. apply bump_value_added.
  - intros m x p _. apply bump_value_added.
  - intros m ls p Hl _. rewrite bool_decide_eq_true_2 by done. eexists. split; [done|].
    apply bump_value_added.
Qed.

Definition empty_heap : heap := mkHeap 0 (fun _ _ => 0%Z).

Lemma collectors_agree_witness :
  ∃ (c : Collector) (p p' : heap), New (PC := heap_client) [WithNamespace "app"] empty_heap = Some (c, p) /\
    Collector_calls c [IncrementConnections; IncrementErrors "read_error"; RecordMessageSize 5;
      IncrementConnections; DecrementConnections] p = Some p' /\ prom_read c p' Active = 1%Z.
Proof.
  destruct (New (PC := heap_client) [WithNamespace "app"] empty_heap) as [[c p]|] eqn:HN; [|by vm_compute in HN].
  destruct (collectors_agree (PC := heap_client) [WithNamespace "app"] empty_heap p c 0 [IncrementConnections;
    IncrementErrors "read_error"; RecordMessageSize 5; IncrementConnections; DecrementConnections] HN)
    as (p' & Hp & Hr).
  - clear HN. intros n [H|H]; repeat (apply elem_of_cons in H as [H|H]; [by simplify_eq|]); by apply elem_of_nil in H.
  - by vm_compute.
  - exists c, p, p'. split; [done|]. split; [exact Hp|]. rewrite Hr. by vm_compute.
Defined.
