(* ===== verification/Loadtest.v ===== *)
(** * Loadtest: the load test tool (cmd/loadtest/main.go)

    The tool starts a hub in its own process, connects real clients to it and
    measures.  Here: its payloads, its latency collector, the goroutines that
    read and send on one connection, the distribution over rooms, and the
    message handlers its scenarios install in the hub.

    The goroutines run over the variables a scenario shares with them
    ([load]).  The peer of a connection is a parameter: which message a read
    delivers, when, and whether a write or a dial fails. *)

From S2P Require Import Prelude Float64 Prog Types Config World Invariant Send Rooms Registry Pool.
From S2P Require Import Broadcast Options MetricsString.
From stdpp Require Import pretty sorting strings.
From Stdlib.Floats Require Import SpecFloat.
#[local] Open Scope string_scope.
#[local] Open Scope list_scope.

(** ** Payloads: [binary.LittleEndian] *)
Fixpoint le_put (n : nat) (z : Z) : bytes :=
  match n with
  | 0 => []
  | S n => byte_of z :: le_put n (z / 256)%Z
  end.

Fixpoint le_get (l : bytes) : Z :=
  match l with
  | [] => 0%Z
  | b :: l => (byte_val b + 256 * le_get l)%Z
  end.

(** [binary.LittleEndian.PutUint64(buf[:8], v)] and [Uint64(buf[:8])]; both
    panic on a shorter buffer. *)
Definition PutUint64 (buf : bytes) (v : Z) : option bytes :=
  if bool_decide (length buf < 8) then None else Some (le_put 8 v ++ drop 8 buf).

Definition Uint64 (buf : bytes) : option Z :=
  if bool_decide (length buf < 8) then None else Some (le_get (take 8 buf)).

(** [stampPayload], at time [now] ([uint64(now)] is modulo 2^64). *)
Definition stampPayload (now : Z) (buf : bytes) : option bytes := PutUint64 buf (now mod 2 ^ 64)%Z.

Definition makePayload (now : Z) (size : Z) : option bytes :=
  let size := if bool_decide (size < 8)%Z then 8%Z else size in
  stampPayload now (replicate (Z.to_nat size) Byte.x00).

(** ** The latency collector *)
Record latencyCollector := mkLatencyCollector { samples : list Z }.

(** [make] panics when the capacity is negative. *)
Definition newLatencyCollector (cap : Z) : option latencyCollector :=
  if bool_decide (cap < 0)%Z then None else Some (mkLatencyCollector []).

Definition lc_add (d : Z) (lc : latencyCollector) : latencyCollector :=
  mkLatencyCollector (samples lc ++ [d]).

(** [slices.Sort]. *)
Definition slices_Sort (l : list Z) : list Z := merge_sort Z.le l.

(** [l[i]], [None] out of range. *)
Definition at_index (l : list Z) (i : Z) : option Z :=
  if bool_decide (i < 0)%Z then None else l !! Z.to_nat i.

(** The quantiles, and the collector with its samples sorted in place. *)
Definition percentiles (lc : latencyCollector) : option ((Z * Z * Z * Z) * latencyCollector) :=
  if bool_decide (length (samples lc) = 0) then Some ((0, 0, 0, 0)%Z, lc) else
  let l := slices_Sort (samples lc) in
  let n := Z.of_nat (length l) in
  let rank p := dur_div (wrap64 (n * p)) 100 in
  p50 ← at_index l (rank 50%Z) ;
  p95 ← at_index l (rank 95%Z) ;
  p99 ← at_index l (rank 99%Z) ;
  pMax ← at_index l (n - 1)%Z ;
  Some ((p50, p95, p99, pMax), mkLatencyCollector l).

(** ** Connections *)
Abbreviation conn := nat (only parsing).

(** The first connection of the slice that was established. *)
Fixpoint firstConn (conns : list (option conn)) : option conn :=
  match conns with
  | [] => None
  | Some c :: _ => Some c
  | None :: conns => firstConn conns
  end.

(** [pickRoomSenders]: the loop's [i] from 0. *)
Definition pickRoomSenders (conns : list (option conn)) (numRooms perRoom : nat) : list conn :=
  let pick i := if bool_decide (i * perRoom < length conns)
                then mjoin (conns !! (i * perRoom)) else None in
  omap pick (seq 0 (numRooms `min` length conns)).

(** [time.Second / time.Duration(rate)], the period [time.NewTicker] gets:
    [None] when the division or the ticker panics. *)
Definition ticker_period (rate : Z) : option Z :=
  if bool_decide (rate = 0)%Z then None else
  let d := dur_div Second rate in
  if bool_decide (d <= 0)%Z then None else Some d.

(** ** The peers of the connections *)
Class Peer := {
  pr_read : nat -> conn -> option (nat * (error + bytes));
    (** how long a read takes and what it answers; [None]: it never does *)
  pr_write : nat -> conn -> option error;
  pr_dial : nat -> option conn
}.

(** What the goroutines of a scenario share. *)
Record load := mkLoad {
  l_now : Z;
  l_nonce : nat;
  l_done : bool;                          (** the scenario's [ctx] is done *)
  l_latencies : latencyCollector;
  l_recv : Z;                             (** [recvCount], or [roundTrips] *)
  l_sent : Z;                             (** [sentCount] *)
  l_errors : Z;                           (** [sendErrors], or the churner's [errors] *)
  l_connects : Z;
  l_disconnects : Z;
  l_launched : nat;                       (** goroutines the churner has launched *)
  l_written : list (conn * Z * bytes);    (** frames written and when, newest first *)
  l_goodbyes : list conn;                 (** close frames written, newest first *)
  l_closed : list conn                    (** connections closed, newest first *)
}.

Abbreviation lprg := (prog load).

Definition set_l_latencies x w :=
  mkLoad (l_now w) (l_nonce w) (l_done w) x (l_recv w) (l_sent w) (l_errors w)
    (l_connects w) (l_disconnects w) (l_launched w) (l_written w) (l_goodbyes w) (l_closed w).
Definition set_l_recv x w :=
  mkLoad (l_now w) (l_nonce w) (l_done w) (l_latencies w) x (l_sent w) (l_errors w)
    (l_connects w) (l_disconnects w) (l_launched w) (l_written w) (l_goodbyes w) (l_closed w).
Definition set_l_sent x w :=
  mkLoad (l_now w) (l_nonce w) (l_done w) (l_latencies w) (l_recv w) x (l_errors w)
    (l_connects w) (l_disconnects w) (l_launched w) (l_written w) (l_goodbyes w) (l_closed w).
Definition set_l_errors x w :=
  mkLoad (l_now w) (l_nonce w) (l_done w) (l_latencies w) (l_recv w) (l_sent w) x
    (l_connects w) (l_disconnects w) (l_launched w) (l_written w) (l_goodbyes w) (l_closed w).
Definition set_l_connects x w :=
  mkLoad (l_now w) (l_nonce w) (l_done w) (l_latencies w) (l_recv w) (l_sent w) (l_errors w)
    x (l_disconnects w) (l_launched w) (l_written w) (l_goodbyes w) (l_closed w).
Definition set_l_disconnects x w :=
  mkLoad (l_now w) (l_nonce w) (l_done w) (l_latencies w) (l_recv w) (l_sent w) (l_errors w)
    (l_connects w) x (l_launched w) (l_written w) (l_goodbyes w) (l_closed w).
Definition set_l_launched x w :=
  mkLoad (l_now w) (l_nonce w) (l_done w) (l_latencies w) (l_recv w) (l_sent w) (l_errors w)
    (l_connects w) (l_disconnects w) x (l_written w) (l_goodbyes w) (l_closed w).
Definition set_l_written x w :=
  mkLoad (l_now w) (l_nonce w) (l_done w) (l_latencies w) (l_recv w) (l_sent w) (l_errors w)
    (l_connects w) (l_disconnects w) (l_launched w) x (l_goodbyes w) (l_closed w).
Definition set_l_goodbyes x w :=
  mkLoad (l_now w) (l_nonce w) (l_done w) (l_latencies w) (l_recv w) (l_sent w) (l_errors w)
    (l_connects w) (l_disconnects w) (l_launched w) (l_written w) x (l_closed w).
Definition set_l_closed x w :=
  mkLoad (l_now w) (l_nonce w) (l_done w) (l_latencies w) (l_recv w) (l_sent w) (l_errors w)
    (l_connects w) (l_disconnects w) (l_launched w) (l_written w) (l_goodbyes w) x.

(** An operation of the peer that took [d]. *)
Definition elapse (d : nat) (w : load) : load :=
  mkLoad (l_now w + Z.of_nat d) (S (l_nonce w)) (l_done w) (l_latencies w) (l_recv w) (l_sent w) (l_errors w)
    (l_connects w) (l_disconnects w) (l_launched w) (l_written w) (l_goodbyes w) (l_closed w).

Definition count (f : load -> Z) (set : Z -> load -> load) : lprg unit :=
  modify (fun w => set (wrap64 (f w + 1)) w).

Definition latencies_add (d : Z) : lprg unit :=
  modify (fun w => set_l_latencies (lc_add d (l_latencies w)) w).

Section Goroutines.
Context {RT : Runtime} {PR : Peer}.

Definition conn_ReadMessage (c : conn) : lprg (error + bytes) :=
  await (fun w =>
    match pr_read (l_nonce w) c with
    | Some (d, res) => Some (res, elapse d w)
    | None => None
    end).

Definition conn_WriteMessage (c : conn) (payload : bytes) : lprg (option error) :=
  atomically (fun w =>
    match pr_write (l_nonce w) c with
    | Some e => (Some e, elapse 0 w)
    | None => (None, set_l_written ((c, l_now w, payload) :: l_written w) (elapse 0 w))
    end).

(** [WriteMessage(CloseMessage, FormatCloseMessage(CloseNormalClosure, ""))],
    whose error is ignored, and [Close]. *)
Definition say_goodbye (c : conn) : lprg unit :=
  modify (fun w => set_l_goodbyes (c :: l_goodbyes w) w) ;;
  modify (fun w => set_l_closed (c :: l_closed w) w).

(** ** readLoop, for at most [fuel] messages *)
Definition record_message (msg : bytes) : lprg unit :=
  count l_recv set_l_recv ;;
  match Uint64 msg with
  | Some sent =>
      now ← gets l_now ;
      latencies_add (wrap64 (now - wrap64 sent))
  | None => mret tt
  end.

Fixpoint readLoop (fuel : nat) (c : conn) : lprg unit :=
  match fuel with
  | 0 => out_of_fuel
  | S f =>
      res ← conn_ReadMessage c ;
      match res with
      | inl _ => mret tt
      | inr msg => record_message msg ;; readLoop f c
      end
  end.

(** [startReaders]: a goroutine per connection that was established. *)
Definition startReaders (fuel : nat) (conns : list (option conn)) : list (lprg unit) :=
  readLoop fuel <$> omap id conns.

(** [closeAll]: a goroutine per connection, all of which it waits for. *)
Definition closeAll (conns : list (option conn)) : list (lprg unit) :=
  say_goodbye <$> omap id conns.

(** ** Senders *)

(** [select { case <-ctx.Done(): return; case <-ticker.C: ... }]: [true] for a
    tick. *)
Definition select_tick : lprg bool :=
  await (fun w =>
    match l_done w, rt_tick (l_nonce w) with
    | true, true => Some (rt_select (l_nonce w), elapse 0 w)
    | true, false => Some (false, w)
    | false, true => Some (true, elapse 0 w)
    | false, false => None
    end).

(** A statement that panics. *)
Definition or_panic {A} (o : option A) : lprg A :=
  match o with Some a => mret a | None => await (fun _ => None) end.

Definition now_stamp (payload : bytes) : lprg bytes :=
  now ← gets l_now ; or_panic (stampPayload now payload).

Fixpoint send_loop (fuel : nat) (c : conn) (payload : bytes) : lprg unit :=
  match fuel with
  | 0 => out_of_fuel
  | S f =>
      tick ← select_tick ;
      if negb tick then mret tt else
      payload' ← now_stamp payload ;
      err ← conn_WriteMessage c payload' ;
      match err with
      | Some _ => mret tt
      | None => count l_sent set_l_sent ;; send_loop f c payload'
      end
  end.

(** The goroutine of [startBroadcaster]. *)
Definition startBroadcaster (fuel : nat) (c : conn) (rate size : Z) : lprg unit :=
  now ← gets l_now ;
  payload ← or_panic (makePayload now size) ;
  _ ← or_panic (ticker_period rate) ;
  send_loop fuel c payload.

(** [startMultiSenders]: the same goroutine for each of the senders. *)
Definition startMultiSenders (fuel : nat) (senders : list conn) (rate size : Z) : list (lprg unit) :=
  (fun c => startBroadcaster fuel c rate size) <$> senders.

(** ** The echo goroutine of [runEcho], for at most [fuel] round trips *)
Fixpoint echo_loop (fuel : nat) (c : conn) (payload : bytes) : lprg unit :=
  match fuel with
  | 0 => out_of_fuel
  | S f =>
      stop ← gets l_done ;
      if (stop : bool) then mret tt else
      payload' ← now_stamp payload ;
      sendTime ← gets l_now ;
      err ← conn_WriteMessage c payload' ;
      match err with
      | Some _ => count l_errors set_l_errors
      | None =>
          res ← conn_ReadMessage c ;
          match res with
          | inl _ =>
              late ← gets l_done ;
              if (late : bool) then mret tt else count l_errors set_l_errors
          | inr _ =>
              now ← gets l_now ;
              latencies_add (time_Sub now sendTime) ;;
              count l_recv set_l_recv ;;
              echo_loop f c payload'
          end
      end
  end.

Definition echo_sender (fuel : nat) (size : Z) (c : conn) : lprg unit :=
  now ← gets l_now ;
  payload ← or_panic (makePayload now size) ;
  echo_loop fuel c payload.

(** ** The churner *)

(** One ephemeral connection; [i] names the dial. *)
Definition churn_one (i : nat) : lprg unit :=
  match pr_dial i with
  | None => count l_errors set_l_errors
  | Some c =>
      count l_connects set_l_connects ;;
      _ ← conn_ReadMessage c ;
      say_goodbye c ;;
      count l_disconnects set_l_disconnects
  end.

(** [startChurner]: a tick launches the next ephemeral connection. *)
Fixpoint churn_loop (fuel : nat) : lprg unit :=
  match fuel with
  | 0 => out_of_fuel
  | S f =>
      tick ← select_tick ;
      if negb tick then mret tt else
      modify (fun w => set_l_launched (S (l_launched w)) w) ;;
      churn_loop f
  end.

Definition startChurner (fuel : nat) (rate : Z) : lprg unit :=
  _ ← or_panic (ticker_period rate) ;
  churn_loop fuel.

(** The [i]-th goroutine launched. *)
Definition churn_thread (i : nat) : lprg unit :=
  await (fun w => if bool_decide (i < l_launched w) then Some (tt, w) else None) ;;
  churn_one i.
End Goroutines.

(** ** The server and the scenarios' message handlers *)
Section Server.
Context {RT : Runtime}.

Definition room_label (i numRooms : Z) : string := "room-" +:+ fmt_d (Z.rem i numRooms).

(** The loop of [assignRooms]; [i % 0] panics. *)
Definition assign_one (env : HubEnv) (numRooms : Z) (p : Z * cref) : prg unit :=
  if bool_decide (numRooms = 0)%Z then crash else
  _ ← JoinRoom env p.2 (room_label p.1 numRooms) ;
  mret tt.

Definition assignRooms (env : HubEnv) (numRooms : Z) : prg (Z * nat) :=
  clients ← Clients ;
  start ← time_Now ;
  for_each (imap (fun i c => (Z.of_nat i, c)) clients) (assign_one env numRooms) ;;
  now ← time_Now ;
  mret (time_Sub now start, length clients).

(** [runFanout] and [runChurn]: everyone gets everything. *)
Definition fanout_handler (env : HubEnv) (c : cref) (msg : Message) : prg (option error) :=
  Broadcast env (Data msg) ;;
  mret None.

(** [runRooms]: the first of the sender's rooms. *)
Definition rooms_handler (env : HubEnv) (c : cref) (msg : Message) : prg (option error) :=
  clientRooms ← Client_Rooms c ;
  match clientRooms with
  | name :: _ => _ ← BroadcastToRoom env name (Data msg) ; mret None
  | [] => mret None
  end.

(** [runEcho]. *)
Definition echo_handler (env : HubEnv) (c : cref) (msg : Message) : prg (option error) :=
  SendRaw env c (Data msg).

(** The options of [newServer] before the scenario's own; [parallel] is the
    flag. *)
Definition loadtest_config : Config :=
  mkConfig 0 0 0 0 0 0 256 false false (Some (fun _ => true)) [].

Definition newServer_options (parallel : Z) : list Option_ :=
  WithConfig loadtest_config ::
  (if bool_decide (0 < parallel)%Z then [WithParallelBroadcast parallel] else []).
End Server.

(** ** Scenario arithmetic: [None] is a division by zero *)
Definition go_div (a b : Z) : option Z := if bool_decide (b = 0)%Z then None else Some (wrap64 (Z.quot a b)).

(** [max(n/rooms, 1)], for clients and for the message rate. *)
Definition perRoom (n rooms : Z) : option Z := q ← go_div n rooms ; Some (Z.max q 1).

(** ** main *)
Inductive scenario := connect | fanout | rooms | echo | churn.

Definition scenarios : list (string * scenario) :=
  [("connect", connect); ("fanout", fanout); ("rooms", rooms); ("echo", echo); ("churn", churn)].

(** The scenarios run, in order; [None] for an unknown name, which exits
    with status 1. *)
Definition main (flag : string) : option (list scenario) :=
  if bool_decide (flag = "all") then Some (map snd scenarios)
  else match list_find (fun s => s.1 = flag) scenarios with
       | Some (_, s) => Some [s.2]
       | None => None
       end.

(** ** Formatting *)

(** [%.0f]: the exact value, rounded once. *)
Definition fmt_0f (x : spec_float) : string :=
  match x with
  | S754_finite s m e =>
      let v := if bool_decide (0 <= e)%Z then (Zpos m * 2 ^ e)%Z
               else nearest_even (Zpos m) (2 ^ (- e)) in
      (if (s : bool) then "-" else "") +:+ pretty v
  | S754_zero s => (if (s : bool) then "-" else "") +:+ "0"
  | S754_infinity s => if (s : bool) then "-Inf" else "+Inf"
  | S754_nan => "NaN"
  end.

Definition latStr (d : Z) : string :=
  if bool_decide (d = 0)%Z then "n/a" else
  let us := f64_div (f64_of_Z d) (f64_of_Z 1000) in
  if SFltb us (f64_of_Z 1000) then fmt_0f us +:+ "us" else
  let ms := f64_div (f64_of_Z d) (f64_of_Z Millisecond) in
  if SFltb ms (f64_of_Z 1000) then fmt_2f ms +:+ "ms" else
  fmt_2f (dur_Seconds d) +:+ "s".

(** [formatBytes] of a float; the numbers of the switch are constants. *)
Definition formatBytes (b : spec_float) : string :=
  let abs := SFabs b in
  if SFleb (f64_of_Z (2 ^ 30)) abs then fmt_2f (f64_div b (f64_of_Z (2 ^ 30))) +:+ " GB"
  else if SFleb (f64_of_Z (2 ^ 20)) abs then fmt_2f (f64_div b (f64_of_Z (2 ^ 20))) +:+ " MB"
  else if SFleb (f64_of_Z (2 ^ 10)) abs then fmt_2f (f64_div b (f64_of_Z (2 ^ 10))) +:+ " KB"
  else fmt_0f b +:+ " B".

Example latStr_examples :
  map latStr [0; 999600; 1000000; 1234567; 2500000000; -1500]%Z =
  ["n/a"; "1000us"; "1.00ms"; "1.23ms"; "2.50s"; "-2us"].
Proof. by vm_compute. Qed.

Example formatBytes_float_examples :
  map (fun z => formatBytes (f64_of_Z z)) [0; -3; 1536; -1048576; 5368709120]%Z =
  ["0 B"; "-3 B"; "1.50 KB"; "-1.00 MB"; "5.00 GB"].
Proof. by vm_compute. Qed.

Example main_examples :
  main "rooms" = Some [rooms] /\ main "all" = Some [connect; fanout; rooms; echo; churn] /\
  main "other" = None.
Proof. done. Qed.
