(* ===== verification/LoadtestSpec.v ===== *)
(** * LoadtestSpec: what the load test reports

    A reader records for every stamped message the time it travelled; the
    quantiles printed at the end are order statistics of what was recorded. *)

From S2P Require Import Prelude Float64 Prog Types Config World Loadtest.
From stdpp Require Import sorting.
#[local] Open Scope Z_scope.

(** ** Stamps *)
Lemma le_get_put n z : le_get (le_put n z) = z mod 2 ^ (8 * Z.of_nat n).
Proof.
  revert z. induction n as [|n IH]; intros z; cbn [le_put le_get]; [by rewrite Z.mod_1_r|].
  rewrite byte_val_of, IH. replace (8 * Z.of_nat (S n)) with (8 + 8 * Z.of_nat n) by lia.
  rewrite Z.pow_add_r by lia. change (2 ^ 8) with 256. rewrite Z.rem_mul_r by lia. done.
Qed.

Lemma length_le_put n z : length (le_put n z) = n.
Proof. revert z. induction n as [|n IH]; intros z; simpl; [done|]. by rewrite IH. Qed.

(** What a reader makes of a stamped buffer. *)
Lemma Uint64_stamp t buf msg :
  in_int64 t -> stampPayload t buf = Some msg ->
  length msg = length buf /\ ∃ s, Uint64 msg = Some s /\ wrap64 s = t.
Proof.
  intros Ht. unfold stampPayload, PutUint64. case_bool_decide as Hl; [done|].
  intros Hm. apply (inj Some) in Hm. subst msg.
  assert (length (le_put 8 (t mod 2 ^ 64) ++ drop 8 buf) = length buf)%nat as Hlen.
  { rewrite length_app, length_le_put, length_drop. lia. }
  split; [done|]. unfold Uint64. rewrite bool_decide_eq_false_2 by (rewrite Hlen; lia).
  eexists. split; [done|]. rewrite take_app_length' by (by rewrite length_le_put).
  rewrite le_get_put, Zmod_mod. unfold wrap64. rewrite Zplus_mod_idemp_l.
  fold (wrap64 t). by apply wrap64_small.
Qed.

Lemma makePayload_stamped t size :
  ∃ msg, makePayload t size = Some msg /\ length msg = Z.to_nat (Z.max size 8).
Proof.
  unfold makePayload. set (sz := if bool_decide (size < 8) then 8 else size).
  assert (sz = Z.max size 8) as Hsz by (subst sz; case_bool_decide; lia).
  unfold stampPayload, PutUint64. rewrite bool_decide_eq_false_2 by (rewrite length_replicate; lia).
  eexists. split; [done|].
  rewrite length_app, length_le_put, length_drop, length_replicate, Hsz. lia.
Qed.

(** ** The reader *)
Section Reader.
Context {PR : Peer}.

(** One message: after how long it arrives, when it was stamped, and its bytes. *)
Record arrival := mkArrival { ar_delay : nat; ar_sent : Z; ar_bytes : bytes }.

(** The [k]-th read from nonce [n] on answers the [k]-th arrival, the one
    after them an error. *)
Definition delivers (n : nat) (c : conn) (l : list arrival) : Prop :=
  (∀ k a, l !! k = Some a -> pr_read (n + k) c = Some (ar_delay a, inr (ar_bytes a))) /\
  ∃ d e, pr_read (n + length l) c = Some (d, inl e).

(** The messages are stamped payloads. *)
Definition stamped (a : arrival) : Prop :=
  in_int64 (ar_sent a) /\ ∃ buf, stampPayload (ar_sent a) buf = Some (ar_bytes a).

(** How long each has travelled when it arrives, from time [now] on. *)
Fixpoint travelled (now : Z) (l : list arrival) : list Z :=
  match l with
  | [] => []
  | a :: l => let t := now + Z.of_nat (ar_delay a) in (t - ar_sent a) :: travelled t l
  end.

Lemma delivers_cons n c a l :
  delivers n c (a :: l) ->
  pr_read n c = Some (ar_delay a, inr (ar_bytes a)) /\ delivers (S n) c l.
Proof.
  intros [Ha (d & e & He)]. split; [rewrite <-(Ha 0%nat a eq_refl); f_equal; lia|].
  split; [|exists d, e; rewrite <-He; f_equal; simpl; lia].
  intros k b Hb. rewrite <-(Ha (S k) b Hb). f_equal. lia.
Qed.

Lemma run_readLoop l c w :
  delivers (l_nonce w) c l -> Forall stamped l -> Forall in_int64 (travelled (l_now w) l) ->
  ∃ w', run (readLoop (S (length l)) c) w = Some (tt, w') /\
    l_recv w' = fold_right (fun _ z => wrap64 (z + 1)) (l_recv w) l /\
    samples (l_latencies w') = samples (l_latencies w) ++ travelled (l_now w) l.
Proof.
  revert w. induction l as [|a l IH]; intros w Hd Hs Hr.
  - destruct Hd as [_ (d & e & He)]. rewrite Nat.add_0_r in He. cbn [length readLoop].
    unfold conn_ReadMessage. rewrite run_bind, run_await, He. eexists.
    split; [done|]. split; [done|]. by rewrite app_nil_r.
  - apply delivers_cons in Hd as [Hr0 Hd]. apply Forall_cons in Hs as [[Hi [buf Hb]] Hs].
    cbn [travelled] in Hr. apply Forall_cons in Hr as [Hin Hr].
    destruct (Uint64_stamp _ _ _ Hi Hb) as [_ (s & Hu & Hw)].
    change (S (length (a :: l))) with (S (S (length l))). set (f := S (length l)) in *.
    cbn [readLoop].
    unfold conn_ReadMessage at 1. rewrite run_bind, run_await, Hr0. cbn beta iota.
    unfold record_message, count, latencies_add. rewrite Hu, Hw. run_simpl.
    cbn [l_now set_l_recv elapse]. rewrite wrap64_small by exact Hin.
    match goal with |- context [run (readLoop f c) ?w1] =>
      destruct (IH w1 Hd Hs Hr) as (w' & Hrun & Hn & Hsm) end.
    exists w'. split; [exact Hrun|]. rewrite Hn, Hsm. cbn -[wrap64].
    split; [|by rewrite <-(assoc_L (++))].
    clear. generalize (l_recv w). induction l as [|b l IHl]; intros z; [done|].
    cbn -[wrap64]. by rewrite IHl.
Qed.
End Reader.

(** ** Order statistics *)
Definition below (x : Z) (l : list Z) : nat := length (filter (fun y => y < x) l).
Definition upto (x : Z) (l : list Z) : nat := length (filter (fun y => y <= x) l).

(** [x] is the sample of rank [n * p / 100], counted from 0: at most so many
    samples are smaller, and more than so many are no larger. *)
Definition quantile (p : Z) (l : list Z) (x : Z) : Prop :=
  x ∈ l /\ Z.of_nat (below x l) <= Z.of_nat (length l) * p / 100 < Z.of_nat (upto x l).

Definition maximum (l : list Z) (x : Z) : Prop := x ∈ l /\ ∀ y, y ∈ l -> y <= x.

#[export] Instance quantile_perm p : Proper ((≡ₚ) ==> (=) ==> iff) (quantile p).
Proof. intros l1 l2 Hl x ? <-. unfold quantile, below, upto. by rewrite Hl. Qed.

#[export] Instance maximum_perm : Proper ((≡ₚ) ==> (=) ==> iff) maximum.
Proof. intros l1 l2 Hl x ? <-. unfold maximum. by setoid_rewrite Hl. Qed.

Lemma slices_Sort_perm l : slices_Sort l ≡ₚ l.
Proof. apply merge_sort_Permutation. Qed.

Lemma slices_Sort_sorted l : StronglySorted Z.le (slices_Sort l).
Proof. apply StronglySorted_merge_sort; apply _. Qed.

Lemma filter_none {A} (P : A -> Prop) `{∀ x, Decision (P x)} (l : list A) :
  Forall (fun x => ¬ P x) l -> filter P l = [].
Proof. induction 1; [done|]. by rewrite filter_cons_False. Qed.

Lemma sorted_rank l k x :
  StronglySorted Z.le l -> l !! k = Some x -> (below x l <= k < upto x l)%nat.
Proof.
  intros Hs. revert k. induction Hs as [|a l Hs IH Ha]; intros k Hk; [done|].
  unfold below, upto. destruct k as [|k]; simpl in Hk.
  - injection Hk as ->. rewrite filter_cons_False by lia. rewrite filter_cons_True by lia.
    split; [|simpl; lia]. assert (filter (fun y => y < x) l = []) as ->; [|done].
    apply filter_none, (Forall_impl _ _ _ Ha). lia.
  - destruct (IH k Hk) as [H1 H2].
    assert (a <= x) by (rewrite Forall_forall in Ha; by eapply Ha, list_elem_of_lookup_2).
    rewrite (filter_cons_True (fun y => y <= x)) by done. simpl. unfold below, upto in *.
    rewrite filter_cons. case_decide; simpl; lia.
Qed.

Lemma sorted_le l i j x y :
  StronglySorted Z.le l -> l !! i = Some x -> l !! j = Some y -> (i <= j)%nat -> x <= y.
Proof.
  intros Hs. revert i j. induction Hs as [|a l Hs IH Ha]; intros [|i] [|j] Hi Hj Hij;
    simplify_eq/=; try lia.
  - rewrite Forall_forall in Ha. by eapply Ha, list_elem_of_lookup_2.
  - eapply IH; eauto. lia.
Qed.

(** The rank of a percentage is in range. *)
Lemma at_rank l p :
  0 < Z.of_nat (length l) < 2 ^ 56 -> 0 <= p < 100 ->
  ∃ x, at_index l (dur_div (wrap64 (Z.of_nat (length l) * p)) 100) = Some x /\
    l !! Z.to_nat (Z.of_nat (length l) * p / 100) = Some x.
Proof.
  intros Hn Hp. set (n := Z.of_nat (length l)) in *.
  assert (0 <= n * p < n * 100) by nia.
  rewrite wrap64_small by (unfold in_int64, min_int64, max_int64; lia).
  unfold dur_div. rewrite Z.quot_div_nonneg by lia.
  assert (0 <= n * p / 100 < n) by (split; [apply Z.div_pos; lia|apply Z.div_lt_upper_bound; lia]).
  destruct (lookup_lt_is_Some_2 l (Z.to_nat (n * p / 100))) as [x Hx]; [lia|].
  exists x. unfold at_index. rewrite bool_decide_eq_false_2 by lia. done.
Qed.

Lemma percentiles_ranks lc :
  0 < Z.of_nat (length (samples lc)) < 2 ^ 56 ->
  ∃ p50 p95 p99 pMax lc', percentiles lc = Some ((p50, p95, p99, pMax), lc') /\
    quantile 50 (samples lc) p50 /\ quantile 95 (samples lc) p95 /\ quantile 99 (samples lc) p99 /\
    maximum (samples lc) pMax /\ p50 <= p95 <= p99 /\ p99 <= pMax /\
    samples lc' ≡ₚ samples lc /\ StronglySorted Z.le (samples lc').
Proof.
  intros Hn. unfold percentiles. rewrite bool_decide_eq_false_2 by lia.
  set (l := slices_Sort (samples lc)).
  assert (l ≡ₚ samples lc) as Hl by apply slices_Sort_perm.
  assert (StronglySorted Z.le l) as Hs by apply slices_Sort_sorted.
  rewrite <-(Permutation_length Hl) in Hn. setoid_rewrite <-Hl. clearbody l.
  destruct (at_rank l 50) as (p50 & E1 & L1); [lia..|]. rewrite E1.
  destruct (at_rank l 95) as (p95 & E2 & L2); [lia..|]. rewrite E2.
  destruct (at_rank l 99) as (p99 & E3 & L3); [lia..|]. rewrite E3. clear E1 E2 E3.
  destruct (lookup_lt_is_Some_2 l (length l - 1)) as [pm L4]; [lia|].
  unfold at_index at 1. rewrite bool_decide_eq_false_2 by lia.
  replace (Z.to_nat (Z.of_nat (length l) - 1)) with (length l - 1)%nat by lia. rewrite L4.
  assert (∀ p x, 0 <= p -> l !! Z.to_nat (Z.of_nat (length l) * p / 100) = Some x -> quantile p l x) as Hq.
  { intros p x Hp Hx. split; [by eapply list_elem_of_lookup_2|].
    pose proof (sorted_rank _ _ _ Hs Hx). pose proof (Z.div_pos (Z.of_nat (length l) * p) 100). lia. }
  assert (∀ p q, p <= q -> Z.of_nat (length l) * p / 100 <= Z.of_nat (length l) * q / 100) as Hmono.
  { intros p q Hpq. apply Z.div_le_mono; nia. }
  exists p50, p95, p99, pm, (mkLatencyCollector l). split; [done|].
  split_and!; try (by apply Hq); try done.
  - split; [by eapply list_elem_of_lookup_2|]. intros y [i Hi]%list_elem_of_lookup. eapply (sorted_le l i); eauto.
    apply lookup_lt_Some in Hi. lia.
  - eapply sorted_le; eauto. specialize (Hmono 50 95). lia.
  - eapply sorted_le; eauto. specialize (Hmono 95 99). lia.
  - eapply sorted_le; eauto. apply lookup_lt_Some in L3. lia.
Qed.

(** C32: The latencies printed are those of the messages: when a connection
    delivers stamped payloads one after another and then fails, its reader
    counts each of them once and records for each exactly the time from its
    stamp to its arrival, and the quantiles computed afterwards from these and
    the samples already there are in range, are samples of the ranks they
    name, and are in order, with the largest sample last. *)
Theorem reported_latencies {PR : Peer} (l : list arrival) (c : conn) (w : load)
    (Hd : delivers (l_nonce w) c l) (Hs : Forall stamped l)
    (Hr : Forall in_int64 (travelled (l_now w) l))
    (Hn : 0 < Z.of_nat (length (samples (l_latencies w)) + length l) < 2 ^ 56) :
  let lat := samples (l_latencies w) ++ travelled (l_now w) l in
  ∃ w' p50 p95 p99 pMax lc,
    run (readLoop (S (length l)) c) w = Some (tt, w') /\
    l_recv w' = fold_right (fun _ z => wrap64 (z + 1)) (l_recv w) l /\
    percentiles (l_latencies w') = Some ((p50, p95, p99, pMax), lc) /\
    quantile 50 lat p50 /\ quantile 95 lat p95 /\ quantile 99 lat p99 /\ maximum lat pMax /\
    p50 <= p95 <= p99 /\ p99 <= pMax /\ samples lc ≡ₚ lat.
Proof.
  intros lat. destruct (run_readLoop l c w Hd Hs Hr) as (w' & Hrun & Hrecv & Hsm). fold lat in Hsm.
  assert (length (travelled (l_now w) l) = length l) as Hlen.
  { generalize (l_now w). clear. induction l; intros z; simpl; [done|]. by rewrite IHl. }
  destruct (percentiles_ranks (l_latencies w')) as (p50 & p95 & p99 & pm & lc & Hp & Hq).
  { rewrite Hsm. subst lat. rewrite length_app, Hlen. lia. }
  rewrite Hsm in Hq. exists w', p50, p95, p99, pm, lc. naive_solver.
Qed.
