(* ===== verification/LoadtestRooms.v ===== *)
(** * LoadtestRooms: the rooms scenario of the load test

    [assignRooms] deals the connected clients over the rooms like cards; the
    scenario's message handler then sends what a client says to the clients
    that share its room. *)

From stdpp Require Import pretty strings.
From S2P Require Import Prelude Prog Types Config World Invariant Send Rooms RoomSpec Registry.
From S2P Require Import Broadcast BroadcastSpec DeliverySpec MetricsString Loadtest.

(** ** Dealing [n] cards to [r] players *)
Definition dealt (r k n : nat) : list nat := filter (fun i => i mod r = k) (seq 0 n).

Lemma div_bump q r x : 0 < r -> x < 2 * r -> (r * q + x) / r = q + (if decide (r <= x) then 1 else 0).
Proof.
  intros Hr Hx. case_decide; symmetry; [eapply (Nat.div_unique _ _ _ (x - r))|eapply (Nat.div_unique _ _ _ x)]; lia.
Qed.

Lemma length_dealt r k n : k < r -> length (dealt r k n) = (n + (r - 1 - k)) / r.
Proof.
  intros Hk. induction n as [|n IH]; [symmetry; apply Nat.div_small; lia|].
  unfold dealt in *. rewrite seq_S, filter_app, length_app, IH, Nat.add_0_l. clear IH.
  rewrite filter_cons, filter_nil. pose proof (Nat.div_mod_eq n r) as Hn.
  pose proof (Nat.mod_upper_bound n r ltac:(lia)) as Hm.
  set (q := n / r) in *. set (m := n mod r) in *. clearbody q m.
  replace (S n + (r - 1 - k)) with (r * q + (m + (r - k))) by lia.
  replace (n + (r - 1 - k)) with (r * q + (m + (r - 1 - k))) by lia.
  rewrite !div_bump by lia. repeat case_decide; simpl; lia.
Qed.

(** Shares differ by at most one. *)
Lemma dealt_fair r k n : k < r -> n / r <= length (dealt r k n) <= n / r + 1.
Proof.
  intros Hk. rewrite length_dealt by done. pose proof (Nat.div_mod_eq n r) as Hn.
  pose proof (Nat.mod_upper_bound n r ltac:(lia)) as Hm.
  replace (n + (r - 1 - k)) with (r * (n / r) + (n mod r + (r - 1 - k))) by lia.
  rewrite div_bump by lia. case_decide; lia.
Qed.

Lemma room_label_mod i r :
  0 < r -> room_label (Z.of_nat i) (Z.of_nat r) = "room-" +:+ fmt_d (Z.of_nat (i mod r)).
Proof. intros Hr. unfold room_label. rewrite Z.rem_mod_nonneg by lia. by rewrite Nat2Z.inj_mod. Qed.

Lemma room_label_inj i j r :
  0 < r -> room_label (Z.of_nat i) (Z.of_nat r) = room_label (Z.of_nat j) (Z.of_nat r) <-> i mod r = j mod r.
Proof.
  intros Hr. rewrite !room_label_mod by done. split; [|by intros ->].
  intros H. apply (inj (String.append _)), (inj pretty) in H. by apply Nat2Z.inj.
Qed.

Section Assign.
Context {RT : Runtime} (env : HubEnv) (known : gset cref) (id : cref -> string).
Abbreviation lim := (limits env).
Context (Hveto : join_hook_policy env (fun _ _ => None)).
Context (Hroom : (MaxClientsPerRoom lim <= 0)%Z) (Hclient : (MaxRoomsPerClient lim <= 0)%Z).

(** The membership [assignRooms] makes. *)
Definition assigned (r : Z) (l : list cref) : membership :=
  list_to_set (imap (fun i c => (room_label (Z.of_nat i) r, c)) l).

Lemma elem_of_assigned r l n c :
  (n, c) ∈ assigned r l <-> ∃ i, l !! i = Some c /\ n = room_label (Z.of_nat i) r.
Proof.
  unfold assigned. rewrite elem_of_list_to_set, elem_of_lookup_imap. naive_solver.
Qed.

(** A first join of a connected client. *)
Lemma total_first_join M c n :
  c ∈ known -> (∀ n, (n, c) ∉ M) -> n <> "" ->
  total (rep lim known id M M None) (JoinRoom env c n)
    (fun _ => rep lim known id (M ∪ {[(n, c)]}) (M ∪ {[(n, c)]}) None).
Proof.
  intros Hc Hn Hne. eapply total_conseq; [done| |apply (total_JoinRoom env known id _ M c n Hveto)].
  intros res w. unfold abs_join, join_check.
  rewrite bool_decide_eq_false_2 by done. rewrite bool_decide_eq_true_2 by done. cbn [negb].
  rewrite !limit_off by done. rewrite bool_decide_eq_false_2 by done. by intros [_ Hw].
Qed.

Lemma total_assign_loop (r : Z) (ps : list (Z * cref)) M :
  (r <> 0)%Z -> NoDup ps.*2 -> (∀ c, c ∈ ps.*2 -> c ∈ known /\ ∀ n, (n, c) ∉ M) ->
  total (rep lim known id M M None)
    (for_each ps (assign_one env r))
    (fun _ => let M' := M ∪ list_to_set ((fun p => (room_label p.1 r, p.2)) <$> ps) in
      rep lim known id M' M' None).
Proof.
  intros Hr. revert M. induction ps as [|[i c] ps IH]; intros M Hnd Hps; cbn [for_each fmap list_fmap].
  { apply total_ret. intros w. cbn [list_to_set]. by rewrite (right_id_L ∅ (∪)). }
  cbn [fmap list_fmap snd] in Hnd, Hps. apply NoDup_cons in Hnd as [Hc Hnd].
  set (M1 := M ∪ {[(room_label i r, c)]}).
  apply (total_bind _ _ _ (fun _ => rep lim known id M1 M1 None)).
  { unfold assign_one. rewrite bool_decide_eq_false_2 by done. cbn [fst snd].
    eapply total_bind; [apply total_first_join; [apply Hps; by left|apply Hps; by left|done]|].
    intros e. by apply total_ret. }
  intros []. cbn beta. eapply total_conseq; [done| |apply (IH M1)]; [|done|].
  - intros [] w. cbn [list_to_set]. by rewrite (assoc_L (∪)).
  - intros c' Hc'. destruct (Hps c') as [Hk HM]; [by right|]. split; [done|]. intros n.
    unfold M1. rewrite elem_of_union, elem_of_singleton. intros [?|[= _ ->]]; [by eapply HM|done].
Qed.

Lemma run_assignRooms (r : Z) l w :
  (r <> 0)%Z -> snapshot_slice w = l -> l ≡ₚ elements known -> rep lim known id ∅ ∅ None w ->
  ∃ d w', run (assignRooms env r) w = Some ((d, length l), w') /\
    rep lim known id (assigned r l) (assigned r l) None w'.
Proof.
  intros Hr Hl Hk Hrep. unfold assignRooms, Clients, loadSnapshot, time_Now. run_simpl.
  fold (snapshot_slice w). rewrite Hl.
  assert ((imap (fun i c => (Z.of_nat i, c)) l).*2 = l) as H2.
  { rewrite fmap_imap. clear. induction l as [|c l IH] using rev_ind; [done|].
    rewrite imap_app, IH. done. }
  destruct (total_assign_loop r (imap (fun i c => (Z.of_nat i, c)) l) ∅ Hr) with (w := w)
    as ([] & w' & Hrun & Hrep'); [..|done|].
  - rewrite H2. by apply (NoDup_perm_elements l known).
  - intros c. rewrite H2, Hk. intros Hc%elem_of_elements. split; [done|]. set_solver.
  - rewrite Hrun. run_simpl. eexists _, w'. split; [done|].
    cbn zeta in Hrep'. rewrite (left_id_L ∅ (∪)), fmap_imap in Hrep'. exact Hrep'.
Qed.

(** ** Who is in which room *)
Section Members.
Context (r : nat) (l : list cref) (Hr : 0 < r) (Hnd : NoDup l).
Abbreviation M := (assigned (Z.of_nat r) l).

(** The clients dealt the same room as the [i]-th. *)
Definition roommates (i : nat) : gset cref :=
  list_to_set ((fun j => l !!! j) <$> dealt r (i mod r) (length l)).

Lemma elem_of_dealt i j : j ∈ dealt r (i mod r) (length l) <-> j < length l /\ j mod r = i mod r.
Proof. unfold dealt. rewrite list_elem_of_filter, elem_of_seq. naive_solver lia. Qed.

Lemma elem_of_roommates i c : c ∈ roommates i <-> ∃ j, l !! j = Some c /\ j mod r = i mod r.
Proof.
  unfold roommates. rewrite elem_of_list_to_set, list_elem_of_fmap. setoid_rewrite elem_of_dealt. split.
  - intros (j & -> & Hj & Hm). exists j. split; [by apply list_lookup_lookup_total_lt|done].
  - intros (j & Hj & Hm). exists j. split; [symmetry; by apply list_lookup_total_correct|].
    split; [by eapply lookup_lt_Some|done].
Qed.

Lemma size_roommates i : size (roommates i) = length (dealt r (i mod r) (length l)).
Proof.
  unfold roommates. rewrite size_list_to_set, length_fmap; [done|].
  apply NoDup_fmap_2_strong; [|by apply NoDup_filter, NoDup_seq].
  intros j j'. rewrite !elem_of_dealt. intros [Hj _] [Hj' _] He.
  eapply NoDup_lookup; [done| |]; [by apply list_lookup_lookup_total_lt|].
  rewrite He. by apply list_lookup_lookup_total_lt.
Qed.

Lemma room_members_assigned i :
  room_members M (room_label (Z.of_nat i) (Z.of_nat r)) = roommates i.
Proof.
  apply set_eq. intros c. rewrite elem_of_room_members, elem_of_assigned, elem_of_roommates.
  setoid_rewrite room_label_inj; [|done]. naive_solver.
Qed.

Lemma client_rooms_assigned i c :
  l !! i = Some c -> client_rooms M c = {[room_label (Z.of_nat i) (Z.of_nat r)]}.
Proof.
  intros Hi. apply set_eq. intros n. rewrite elem_of_client_rooms, elem_of_assigned, elem_of_singleton.
  split; [|by eauto]. intros (j & Hj & ->). by rewrite (NoDup_lookup l i j c).
Qed.
End Members.

(** ** The handler *)
Lemma range_singleton (n : string) w : range_keys {[n]} w = [n].
Proof.
  apply Permutation_singleton_r. unfold range_keys. etrans; [apply rt_range_perm|].
  by rewrite elements_singleton.
Qed.

Context (Hhook : silent_drop_hook env) (Hpar : useParallel env = false) (Ha : adapter_answers env).

Lemma run_rooms_handler M c n msg w :
  rep lim known id M M None w -> client_rooms M c = {[n]} -> n <> "" ->
  (∀ c', c' ∈ room_members M n -> ready w c') ->
  ∃ w', run (rooms_handler env c msg) w = Some (None, w') /\
    delivered env (mkSendItem TextMessage (Data msg)) (room_members M n)
      (publishes env (adapter_msg_room TextMessage (Data msg) n)) w w'.
Proof.
  intros Hrep Hc Hn Hready. unfold rooms_handler, Client_Rooms. run_simpl.
  rewrite (rep_client _ _ _ _ _ _ _ Hrep c), Hc, range_singleton.
  destruct (run_broadcastToRoom env Hhook Hpar Ha known id M n (Data msg) TextMessage (bump w))
    as (w' & Hrun & Hd); [by apply rep_bump|done|exact Hready|].
  unfold BroadcastToRoom. rewrite run_bind, Hrun. cbn beta iota. run_simpl. by exists w'.
Qed.

(** C31: In the rooms scenario of the load test, when the hub has no room
    limits and no join hook refuses: dealing the connected clients over [r]
    rooms reports how many there are and leaves each client in exactly one
    room, the sizes of the rooms differing by at most one; and from any later
    state with these memberships, a message of the [i]-th client is delivered
    exactly once to the clients dealt the same room, itself included, and to
    nobody else. *)
Theorem rooms_scenario (r : nat) (l : list cref) (w : world)
    (Hr : 0 < r) (Hl : snapshot_slice w = l) (Hk : l ≡ₚ elements known)
    (Hrep : rep lim known id ∅ ∅ None w) :
  let M := assigned (Z.of_nat r) l in
  (∃ d w', run (assignRooms env (Z.of_nat r)) w = Some ((d, length l), w') /\
     rep lim known id M M None w') /\
  (∀ i c, l !! i = Some c ->
     let n := room_label (Z.of_nat i) (Z.of_nat r) in
     client_rooms M c = {[n]} /\
     (∀ c', c' ∈ room_members M n <-> ∃ j, l !! j = Some c' /\ j mod r = i mod r) /\
     length l / r <= size (room_members M n) <= length l / r + 1 /\
     ∀ msg w2, rep lim known id M M None w2 -> (∀ c', c' ∈ known -> ready w2 c') ->
       ∃ w3, run (rooms_handler env c msg) w2 = Some (None, w3) /\
         delivered env (mkSendItem TextMessage (Data msg)) (room_members M n)
           (publishes env (adapter_msg_room TextMessage (Data msg) n)) w2 w3).
Proof.
  intros M. assert (NoDup l) as Hnd by by apply (NoDup_perm_elements l known).
  split; [apply run_assignRooms; (done || lia)|]. intros i c Hi n.
  assert (room_members M n = roommates r l i) as Hm by by apply room_members_assigned.
  assert (client_rooms M c = {[n]}) as Hc by by apply client_rooms_assigned.
  split; [done|]. split; [intros c'; rewrite Hm; by apply elem_of_roommates|].
  split; [rewrite Hm, size_roommates by done; by apply dealt_fair, Nat.mod_upper_bound; lia|].
  intros msg w2 Hrep2 Hready. apply run_rooms_handler; [done..|].
  intros c' Hc'. apply Hready. rewrite Hm in Hc'. apply elem_of_roommates in Hc' as (j & Hj & _); [|done].
  apply (elem_of_perm_elements l); [done|]. by eapply list_elem_of_lookup_2.
Qed.
End Assign.
