(* ===== verification/LoadtestPool.v ===== *)
(** * LoadtestPool: opening and closing connections in parallel

    [connectN] of the load test opens [n] connections with at most two hundred
    handshakes at a time: a buffered channel serves as a semaphore, a
    [WaitGroup] waits for the dials, and every dial writes its own element of
    the slice.  [closeAll] says goodbye on all of them in parallel.  Both are
    pools here: the caller, and the goroutines it launches, which are in the
    pool from the start and wait to be launched. *)

From S2P Require Import Prelude Prog Owned Types World Loadtest.

Definition max_handshakes : nat := 200.

(** The variables of one call of [connectN] and what it tells its caller. *)
Record dials := mkDials {
  d_conns : list (option conn);
  d_errors : Z;
  d_sem : nat;                       (** elements in the semaphore channel *)
  d_wg : nat;
  d_launched : gset nat;             (** goroutines launched that have not started to run *)
  d_handshakes : nat;                (** dials in progress *)
  d_now : Z;
  d_result : option (list (option conn) * Z * Z)
}.

Abbreviation dprg := (prog dials).

Definition set_d_conns x w :=
  mkDials x (d_errors w) (d_sem w) (d_wg w) (d_launched w) (d_handshakes w) (d_now w) (d_result w).
Definition set_d_errors x w :=
  mkDials (d_conns w) x (d_sem w) (d_wg w) (d_launched w) (d_handshakes w) (d_now w) (d_result w).
Definition set_d_sem x w :=
  mkDials (d_conns w) (d_errors w) x (d_wg w) (d_launched w) (d_handshakes w) (d_now w) (d_result w).
Definition set_d_wg x w :=
  mkDials (d_conns w) (d_errors w) (d_sem w) x (d_launched w) (d_handshakes w) (d_now w) (d_result w).
Definition set_d_launched x w :=
  mkDials (d_conns w) (d_errors w) (d_sem w) (d_wg w) x (d_handshakes w) (d_now w) (d_result w).
Definition set_d_handshakes x w :=
  mkDials (d_conns w) (d_errors w) (d_sem w) (d_wg w) (d_launched w) x (d_now w) (d_result w).
Definition set_d_now x w :=
  mkDials (d_conns w) (d_errors w) (d_sem w) (d_wg w) (d_launched w) (d_handshakes w) x (d_result w).
Definition set_d_result x w :=
  mkDials (d_conns w) (d_errors w) (d_sem w) (d_wg w) (d_launched w) (d_handshakes w) (d_now w) x.

Definition no_dials (now : Z) : dials := mkDials [] 0 0 0 ∅ 0 now None.

Section ConnectN.
Context {PR : Peer}.

(** ** connectN *)
Definition sem_acquire : dprg unit :=
  await (fun w => if bool_decide (d_sem w < max_handshakes) then Some (tt, set_d_sem (S (d_sem w)) w) else None).

Definition sem_release : dprg unit :=
  await (fun w => match d_sem w with S k => Some (tt, set_d_sem k w) | 0 => None end).

(** The goroutine of index [idx].  The dial is two blocks, its start and its
    end; deferred calls run in reverse order. *)
Definition dial_one (idx : nat) : dprg unit :=
  modify (fun w => set_d_handshakes (S (d_handshakes w)) w) ;;
  answer ← atomically (fun w => (pr_dial idx, set_d_handshakes (pred (d_handshakes w)) w)) ;
  match answer with
  | None => modify (fun w => set_d_errors (wrap64 (d_errors w + 1)) w)
  | Some c => modify (fun w => set_d_conns (<[idx := Some c]> (d_conns w)) w)
  end ;;
  sem_release ;;
  modify (fun w => set_d_wg (pred (d_wg w)) w).

Definition dial_thread (idx : nat) : dprg unit :=
  await (fun w => if bool_decide (idx ∈ d_launched w)
                  then Some (tt, set_d_launched (d_launched w ∖ {[idx]}) w) else None) ;;
  dial_one idx.

Definition connectN (n : nat) : dprg (list (option conn) * Z * Z) :=
  modify (set_d_conns (replicate n None)) ;;
  start ← gets d_now ;
  for_each (seq 0 n) (fun i =>
    modify (fun w => set_d_wg (S (d_wg w)) w) ;;
    sem_acquire ;;
    modify (fun w => set_d_launched (d_launched w ∪ {[i]}) w)) ;;
  await (fun w => if bool_decide (d_wg w = 0) then Some (tt, w) else None) ;;
  elapsed ← gets (fun w => time_Sub (d_now w) start) ;
  errors ← gets d_errors ;
  conns ← gets d_conns ;
  mret (conns, elapsed, errors).

(** A call, the goroutines it launches, and the clock. *)
Definition connect_caller (n : nat) : dprg unit :=
  r ← connectN n ; modify (set_d_result (Some r)).

Definition clock_tick (d : nat) : dprg unit := modify (fun w => set_d_now (d_now w + Z.of_nat d) w).

Definition connect_pool (n : nat) (ticks : list nat) : list (dprg unit) :=
  connect_caller n :: map dial_thread (seq 0 n) ++ map clock_tick ticks.

End ConnectN.

(** ** Tokens *)

(** Where a dialling goroutine is, and where the caller is. *)
Inductive dstage := Parked | Ready | Shaking | Answered | Recorded | Leaving.
Inductive lstage := Started | Next | Added | Slotted | Waited.

Inductive dtok := Dial (s : dstage) (i : nat) | Launch (s : lstage) (k : nat).

#[export] Instance dstage_eq_dec : EqDecision dstage.
Proof. solve_decision. Defined.
#[export] Instance lstage_eq_dec : EqDecision lstage.
Proof. solve_decision. Defined.
#[export] Instance dtok_eq_dec : EqDecision dtok.
Proof. solve_decision. Defined.

#[export] Instance dstage_countable : Countable dstage.
Proof.
  refine (inj_countable'
    (fun s => match s with Parked => 0 | Ready => 1 | Shaking => 2 | Answered => 3 | Recorded => 4 | Leaving => 5 end)
    (fun n => match n with 0 => Parked | 1 => Ready | 2 => Shaking | 3 => Answered | 4 => Recorded | _ => Leaving end) _).
  by intros [].
Defined.
#[export] Instance lstage_countable : Countable lstage.
Proof.
  refine (inj_countable'
    (fun s => match s with Started => 0 | Next => 1 | Added => 2 | Slotted => 3 | Waited => 4 end)
    (fun n => match n with 0 => Started | 1 => Next | 2 => Added | 3 => Slotted | _ => Waited end) _).
  by intros [].
Defined.
#[export] Instance dtok_countable : Countable dtok.
Proof.
  refine (inj_countable'
    (fun t => match t with Dial s i => inl (s, i) | Launch s k => inr (s, k) end)
    (fun x => match x with inl p => Dial p.1 p.2 | inr p => Launch p.1 p.2 end) _).
  by intros [].
Defined.

Abbreviation tokens := (gmultiset dtok).

(** ** Weights *)
Definition unrecorded (s : dstage) : bool :=
  match s with Parked | Ready | Shaking | Answered => true | _ => false end.

(** What the [WaitGroup] and the semaphore count. *)
Definition in_wg (t : dtok) : nat :=
  match t with Dial Parked _ => 0 | Dial _ _ => 1 | Launch Added _ | Launch Slotted _ => 1 | _ => 0 end.
Definition in_sem (t : dtok) : nat :=
  match t with
  | Dial Parked _ | Dial Leaving _ => 0 | Dial _ _ => 1 | Launch Slotted _ => 1 | _ => 0
  end.
Definition shaking (t : dtok) : nat := match t with Dial Shaking _ => 1 | _ => 0 end.

Definition parked (i : nat) (t : dtok) : nat :=
  match t with Dial Parked j => if decide (j = i) then 1 else 0 | _ => 0 end.
Definition unrec (i : nat) (t : dtok) : nat :=
  match t with Dial s j => if unrecorded s then if decide (j = i) then 1 else 0 else 0 | _ => 0 end.
Definition unrecs (t : dtok) : nat := match t with Dial s _ => if unrecorded s then 1 else 0 | _ => 0 end.
Definition failing {PR : Peer} (t : dtok) : nat :=
  match t with
  | Dial s i => if unrecorded s then match pr_dial i with None => 1 | Some _ => 0 end else 0
  | _ => 0
  end.

Definition launcher (t : dtok) : nat := match t with Launch _ _ => 1 | _ => 0 end.
Definition starting (t : dtok) : nat := match t with Launch Started _ => 1 | _ => 0 end.
Definition waited (t : dtok) : nat := match t with Launch Waited _ => 1 | _ => 0 end.

(** The caller has yet to launch the goroutine of index [i]. *)
Definition before (i : nat) (t : dtok) : nat :=
  match t with Launch _ k => if decide (k <= i) then 1 else 0 | _ => 0 end.

Section Spec.
Context {PR : Peer} (n : nat) (Hn : (Z.of_nat n < 2 ^ 63)%Z).

Definition failures : nat := length (filter (fun i => pr_dial i = None) (seq 0 n)).

Record inv (T : tokens) (w : dials) : Prop := {
  i_wg : d_wg w = weigh in_wg T + size (d_launched w);
  i_sem : d_sem w = weigh in_sem T + size (d_launched w);
  i_cap : d_sem w <= max_handshakes;
  i_shaking : d_handshakes w = weigh shaking T;
  i_launched : ∀ i, i ∈ d_launched w -> 0 < weigh (parked i) T /\ weigh (before i) T = 0;
  i_parked : ∀ i, 0 < weigh (parked i) T -> i ∈ d_launched w \/ 0 < weigh (before i) T;
  i_future : ∀ i, i < n -> 0 < weigh (before i) T -> 0 < weigh (parked i) T;
  i_launcher : weigh launcher T <= 1;
  i_unrec : ∀ i, weigh (unrec i) T <= 1 /\ (0 < weigh (unrec i) T -> i < n);
  i_start : 0 < weigh starting T -> d_wg w = 0 /\ ∀ i, i < n -> weigh (unrec i) T = 1;
  i_conns : weigh starting T = 0 -> length (d_conns w) = n /\
    ∀ i, i < n -> (weigh (unrec i) T = 0 -> d_conns w !! i = Some (pr_dial i)) /\
                  (0 < weigh (unrec i) T -> d_conns w !! i = Some None);
  i_errors : (d_errors w + Z.of_nat (weigh failing T) = Z.of_nat failures)%Z /\ (0 <= d_errors w)%Z;
  i_waited : 0 < weigh waited T -> weigh unrecs T = 0;
  i_result : ∀ conns d errs, d_result w = Some (conns, d, errs) ->
    conns = map pr_dial (seq 0 n) /\ errs = Z.of_nat failures;
  i_done : weigh launcher T = 0 -> is_Some (d_result w)
}.

Lemma failures_le : failures <= n.
Proof.
  unfold failures. etrans; [apply length_filter|]. by rewrite length_seq.
Qed.

Definition waiting (r : tokens) (w : dials) : Prop :=
  (∃ k, r = {[+ Launch Added k +]} /\ max_handshakes <= d_sem w) \/
  (∃ k, r = {[+ Launch Next k +]} /\ d_wg w <> 0) \/
  (∃ i, r = {[+ Dial Parked i +]} /\ i ∉ d_launched w).

(** The weights of single tokens, in the hypotheses or in the goal. *)
Ltac weights_in :=
  repeat match goal with
         | H : context [weigh _ (_ ⊎ _)] |- _ => setoid_rewrite weigh_disj_union in H
         | H : context [weigh _ {[+ _ +]}] |- _ => setoid_rewrite weigh_singleton in H
         end; simpl in *.

Ltac weights :=
  repeat match goal with
         | |- context [weigh _ (_ ⊎ _)] => setoid_rewrite weigh_disj_union
         | |- context [weigh _ {[+ _ +]}] => setoid_rewrite weigh_singleton
         | |- context [weigh _ ∅] => setoid_rewrite weigh_empty
         end; simpl.

(** Bounds between the weights of the others' tokens. *)
Lemma others_mono F :
  weigh starting F <= weigh launcher F /\ weigh waited F <= weigh launcher F /\
  (∀ i, weigh (before i) F <= weigh launcher F) /\ (∀ i, weigh (parked i) F <= weigh (unrec i) F) /\
  (∀ i, weigh (unrec i) F <= weigh unrecs F) /\ weigh failing F <= weigh unrecs F /\
  weigh shaking F <= weigh in_wg F /\
  (∀ i, weigh (unrec i) F <= weigh (parked i) F + weigh in_wg F).
Proof.
  split_and!; try intros ?; rewrite <-?weigh_plus; apply weigh_mono;
    intros [[] ?|[] ?]; simpl; repeat case_decide; try case_match; lia.
Qed.

(** One step of one goroutine: the weights before and after, and what was
    known of the rest. *)
Ltac step_inv :=
  intros [H1 H2 H3 H4 H5 H6 H7 H8 H9 H10 H11 H12 H13 H14 H15];
  match goal with F : tokens |- _ => pose proof (others_mono F) as (M1 & M2 & M3 & M4 & M5 & M6 & M7 & M8) end;
  weights_in; constructor; weights; try done; try lia.

Lemma inv_begin F w :
  inv ({[+ Launch Started 0 +]} ⊎ F) w ->
  inv ({[+ Launch Next 0 +]} ⊎ F) (set_d_conns (replicate n None) w).
Proof.
  step_inv. intros _. rewrite length_replicate. split; [done|]. intros i Hi. destruct H10 as [_ H10]; [lia|].
  specialize (H10 i Hi). split; [lia|]. intros _. by apply lookup_replicate.
Qed.

Lemma inv_add k F w :
  inv ({[+ Launch Next k +]} ⊎ F) w -> inv ({[+ Launch Added k +]} ⊎ F) (set_d_wg (S (d_wg w)) w).
Proof. step_inv. Qed.

Lemma inv_acquire k F w :
  inv ({[+ Launch Added k +]} ⊎ F) w -> d_sem w < max_handshakes ->
  inv ({[+ Launch Slotted k +]} ⊎ F) (set_d_sem (S (d_sem w)) w).
Proof. step_inv. Qed.

Lemma inv_go k F w :
  inv ({[+ Launch Slotted k +]} ⊎ F) w -> k < n ->
  inv ({[+ Launch Next (S k) +]} ⊎ F) (set_d_launched (d_launched w ∪ {[k]}) w).
Proof.
  step_inv;
    assert (k ∉ d_launched w) as Hk by (intros Hk; destruct (H5 k Hk); case_decide; lia);
    rewrite ?size_insert_new by done; try lia;
    intros i; specialize (H5 i); specialize (H6 i); specialize (H7 i); specialize (M3 i);
    rewrite ?elem_of_union, ?elem_of_singleton.
  - intros [Hi | ->]; [destruct (H5 Hi)|]; repeat case_decide; lia.
  - intros Hp. destruct (decide (i = k)); [by left; right|]. destruct (H6 Hp) as [|]; [by left; left|].
    repeat case_decide; lia.
  - repeat case_decide; lia.
Qed.

Lemma inv_run i F w :
  inv ({[+ Dial Parked i +]} ⊎ F) w -> i ∈ d_launched w ->
  inv ({[+ Dial Ready i +]} ⊎ F) (set_d_launched (d_launched w ∖ {[i]}) w).
Proof.
  intros HI Hi. pose proof (size_delete_elem _ _ Hi) as Hs. revert HI.
  step_inv;
    intros j; specialize (H5 j); specialize (H6 j); specialize (H7 j);
    specialize (H9 j); specialize (M4 j); rewrite ?elem_of_difference, ?elem_of_singleton.
  - intros [Hj Hne]. destruct (H5 Hj). case_decide; [congruence|lia].
  - intros Hp. case_decide; [lia|]. destruct (H6 ltac:(lia)) as [|]; [left|by right]. by split.
  - intros Hj Hb. case_decide; [|by apply H7]. subst. destruct (H5 Hi). lia.
Qed.

Lemma inv_shake i F w :
  inv ({[+ Dial Ready i +]} ⊎ F) w ->
  inv ({[+ Dial Shaking i +]} ⊎ F) (set_d_handshakes (S (d_handshakes w)) w).
Proof. step_inv. Qed.

Lemma inv_answer i F w :
  inv ({[+ Dial Shaking i +]} ⊎ F) w ->
  inv ({[+ Dial Answered i +]} ⊎ F) (set_d_handshakes (pred (d_handshakes w)) w).
Proof. step_inv. Qed.

Lemma inv_connected i c F w :
  inv ({[+ Dial Answered i +]} ⊎ F) w -> pr_dial i = Some c ->
  inv ({[+ Dial Recorded i +]} ⊎ F) (set_d_conns (<[i := Some c]> (d_conns w)) w).
Proof.
  step_inv; [intros j; specialize (H9 j); case_decide; lia| |by rewrite H in H12].
  - intros Hs. destruct (H11 Hs) as [Hl Hc]. rewrite length_insert. split; [done|]. intros j Hj. specialize (Hc j Hj).
    specialize (H9 j). case_decide as Hij.
    + subst j. rewrite list_lookup_insert_eq by lia. rewrite H. split; [done|lia].
    + by rewrite list_lookup_insert_ne by done.
Qed.

Lemma inv_failed i F w :
  inv ({[+ Dial Answered i +]} ⊎ F) w -> pr_dial i = None ->
  inv ({[+ Dial Recorded i +]} ⊎ F) (set_d_errors (wrap64 (d_errors w + 1)) w).
Proof.
  pose proof failures_le. step_inv; [intros j; specialize (H9 j); case_decide; lia|..].
  - intros Hs. destruct (H11 Hs) as [Hl Hc]. split; [done|]. intros j Hj. specialize (Hc j Hj).
    specialize (H9 j). case_decide as Hij; [|done]. subst j. rewrite H0.
    split; [intros _; apply Hc|]; lia.
  - rewrite H0 in H12. rewrite wrap64_small; [lia|]. unfold in_int64, min_int64, max_int64. lia.
Qed.

Lemma inv_free i F w m :
  inv ({[+ Dial Recorded i +]} ⊎ F) w -> d_sem w = S m ->
  inv ({[+ Dial Leaving i +]} ⊎ F) (set_d_sem m w).
Proof. step_inv. Qed.

Lemma inv_gone i F w :
  inv ({[+ Dial Leaving i +]} ⊎ F) w -> inv (∅ ⊎ F) (set_d_wg (pred (d_wg w)) w).
Proof. step_inv. Qed.

(** Nobody is counted any more: everything has been recorded. *)
Lemma all_recorded F w :
  inv ({[+ Launch Next n +]} ⊎ F) w -> d_wg w = 0 -> weigh unrecs F = 0.
Proof.
  intros [H1 H2 H3 H4 H5 H6 H7 H8 H9 H10 H11 H12 H13 H14 H15] Hw. weights_in.
  destruct (others_mono F) as (M1 & M2 & M3 & M4 & M5 & M6 & M7 & M8).
  destruct (decide (weigh unrecs F = 0)) as [|Hu]; [done|exfalso].
  destruct (weigh_pos unrecs F) as ([s i|] & Ht & Hp); [lia|simpl in Hp|by simpl in Hp; lia].
  pose proof (weigh_elem (unrec i) F _ Ht) as He. simpl in He. rewrite decide_True in He by done.
  specialize (H6 i). specialize (H9 i). specialize (M3 i). specialize (M8 i).
  destruct (unrecorded s); [|lia]. destruct H6 as [Hi|Hi]; [lia| |].
  - assert (size (d_launched w) = 0) as Hz by lia. apply size_empty_inv in Hz. set_solver.
  - case_decide; lia.
Qed.

Lemma inv_wait F w :
  inv ({[+ Launch Next n +]} ⊎ F) w -> d_wg w = 0 -> inv ({[+ Launch Waited n +]} ⊎ F) w.
Proof.
  intros HI Hw. pose proof (all_recorded F w HI Hw) as Hu. revert HI. step_inv.
Qed.

(** What the caller reads after its wait. *)
Lemma waited_reads F w :
  inv ({[+ Launch Waited n +]} ⊎ F) w ->
  d_conns w = map pr_dial (seq 0 n) /\ d_errors w = Z.of_nat failures.
Proof.
  intros [H1 H2 H3 H4 H5 H6 H7 H8 H9 H10 H11 H12 H13 H14 H15]. weights_in.
  destruct (others_mono F) as (M1 & M2 & M3 & M4 & M5 & M6 & M7 & M8).
  specialize (H13 ltac:(lia)). split; [|lia]. destruct H11 as [Hl Hc]; [lia|].
  apply list_eq. intros i. destruct (decide (i < n)) as [Hi|Hi].
  - specialize (M5 i). rewrite (proj1 (Hc i Hi)) by lia.
    rewrite list_lookup_fmap, lookup_seq_lt by done. done.
  - rewrite !lookup_ge_None_2; [done|rewrite length_map, length_seq; lia|lia].
Qed.

Lemma inv_return d F w :
  inv ({[+ Launch Waited n +]} ⊎ F) w ->
  inv (∅ ⊎ F) (set_d_result (Some (map pr_dial (seq 0 n), d, Z.of_nat failures)) w).
Proof.
  step_inv; [..|by intros ??? [= <- _ <-]];
    intros i; specialize (H5 i); specialize (H6 i); specialize (M3 i); specialize (M4 i); specialize (H9 i).
  - intros Hi. destruct (H5 Hi). lia.
  - intros Hp. destruct (H6 Hp); [by left|]. case_decide; lia.
  - lia.
Qed.

Lemma handshakes_bounded T w : inv T w -> d_handshakes w <= max_handshakes.
Proof.
  intros HI. rewrite (i_shaking _ _ HI).
  pose proof (weigh_mono shaking in_sem T ltac:(intros [[] ?|[] ?]; simpl; lia)).
  pose proof (i_sem _ _ HI). pose proof (i_cap _ _ HI). lia.
Qed.

(** ** The goroutines *)
Abbreviation own := (owned inv waiting (fun _ => True)).

Lemma own_dial_thread i : own {[+ Dial Parked i +]} (dial_thread i) (fun _ r => r = ∅).
Proof.
  apply owned_await; [done|]. intros F w HI. case_bool_decide as Hi; [|right; right; by exists i].
  exists {[+ Dial Ready i +]}. split; [by apply inv_run|]. clear HI Hi F w.
  apply owned_modify; [done|]. intros F w HI. exists {[+ Dial Shaking i +]}.
  split; [by apply inv_shake|]. clear HI F w.
  apply owned_atomically; [done|]. intros F w HI. exists {[+ Dial Answered i +]}.
  split; [by apply inv_answer|]. cbn [fst]. clear HI F w.
  eapply (owned_bind _ _ _ _ _ _ _ (fun _ r => r = {[+ Dial Recorded i +]})).
  { destruct (pr_dial i) as [c|] eqn:Hc; apply owned_last_atomically; try done; intros F w HI;
      (exists {[+ Dial Recorded i +]}); (split; [|done]); [by apply inv_connected|by apply inv_failed]. }
  intros [] r _ ->. apply owned_await; [done|]. intros F w HI. destruct (d_sem w) as [|m] eqn:Hm.
  { exfalso. pose proof (i_sem _ _ HI) as Hs. rewrite weigh_disj_union, weigh_singleton in Hs.
    simpl in Hs. lia. }
  exists {[+ Dial Leaving i +]}. split; [by apply inv_free|]. clear HI Hm F w.
  apply owned_last_atomically; [done|]. intros F w HI. exists ∅. split; [by apply (inv_gone i)|done].
Qed.

Lemma own_connect_loop m k :
  k + m <= n ->
  own {[+ Launch Next k +]}
    (for_each (seq k m) (fun i =>
       modify (fun w => set_d_wg (S (d_wg w)) w) ;;
       sem_acquire ;;
       modify (fun w => set_d_launched (d_launched w ∪ {[i]}) w)))
    (fun _ r => r = {[+ Launch Next (k + m) +]}).
Proof.
  revert k. induction m as [|m IH]; intros k Hk; cbn [seq for_each].
  { apply owned_ret; [done|]. by rewrite Nat.add_0_r. }
  eapply (owned_bind _ _ _ _ _ _ _ (fun _ r => r = {[+ Launch Next (S k) +]})).
  - apply owned_modify; [done|]. intros F w HI. exists {[+ Launch Added k +]}.
    split; [by apply inv_add|]. clear HI F w.
    apply owned_await; [done|]. intros F w HI. case_bool_decide as Hs; [|left; exists k; split; [done|lia]].
    exists {[+ Launch Slotted k +]}. split; [by apply inv_acquire|]. clear HI Hs F w.
    apply owned_last_atomically; [done|]. intros F w HI. exists {[+ Launch Next (S k) +]}.
    split; [apply inv_go; [done|lia]|done].
  - intros [] r _ ->. replace (k + S m) with (S k + m) by lia. apply IH. lia.
Qed.

Lemma own_connect_caller : own {[+ Launch Started 0 +]} (connect_caller n) (fun _ r => r = ∅).
Proof.
  unfold connect_caller, connectN.
  eapply (owned_bind _ _ _ _ _ _ _ (fun res r => r = {[+ Launch Waited n +]} /\
    ∃ d, res = (map pr_dial (seq 0 n), d, Z.of_nat failures))).
  - apply owned_modify; [done|]. intros F w HI. exists {[+ Launch Next 0 +]}.
    split; [by apply inv_begin|]. clear HI F w.
    apply owned_atomically; [done|]. intros F w HI. exists {[+ Launch Next 0 +]}. split; [done|].
    cbn [fst]. clear HI F. eapply owned_bind; [by apply own_connect_loop|]. intros [] r _ ->.
    rewrite Nat.add_0_l. apply owned_await; [done|]. intros F w1 HI.
    case_bool_decide as Hw; [|right; left; by exists n].
    exists {[+ Launch Waited n +]}. split; [by apply inv_wait|]. clear HI Hw F w1.
    apply owned_atomically; [done|]. intros F w1 HI. exists {[+ Launch Waited n +]}. split; [done|].
    cbn [fst]. clear HI F. generalize (time_Sub (d_now w1) (d_now w)). intros d. clear w1.
    apply owned_atomically; [done|]. intros F w1 HI. exists {[+ Launch Waited n +]}. split; [done|].
    cbn [fst]. rewrite (proj2 (waited_reads _ _ HI)). clear HI F w1.
    apply owned_atomically; [done|]. intros F w1 HI. exists {[+ Launch Waited n +]}. split; [done|].
    cbn [fst]. rewrite (proj1 (waited_reads _ _ HI)). apply owned_ret; [done|]. eauto.
  - intros res r _ [-> [d ->]]. apply owned_last_atomically; [done|]. intros F w HI. exists ∅.
    split; [by apply inv_return|done].
Qed.

(** ** The pool *)
Definition connect_tokens (ticks : list nat) : list tokens :=
  {[+ Launch Started 0 +]} :: map (fun i => {[+ Dial Parked i +]}) (seq 0 n) ++ map (fun _ => ∅) ticks.

Lemma connect_threads_ok ticks :
  Forall3 (thread_ok inv waiting) (map (fun _ _ => True) (connect_tokens ticks))
    (connect_pool n ticks) (connect_tokens ticks).
Proof.
  unfold connect_pool, connect_tokens. cbn [map]. constructor; [apply own_connect_caller|].
  rewrite map_app, !map_map. apply Forall3_app.
  - generalize (seq 0 n). intros l. induction l; simpl; constructor; [apply own_dial_thread|done].
  - induction ticks as [|d ticks IH]; simpl; constructor; [|done].
    apply owned_last_atomically; [done|]. intros F w HI. exists ∅. split; [by destruct HI|done].
Qed.

Lemma weigh_connect_tokens f ticks :
  weigh f (held (connect_tokens ticks)) =
  f (Launch Started 0) + sum_list_with (fun i => f (Dial Parked i)) (seq 0 n).
Proof.
  unfold connect_tokens. rewrite weigh_held. cbn [sum_list_with]. rewrite weigh_singleton.
  rewrite sum_list_with_app. f_equal.
  assert (sum_list_with (weigh f) (map (fun _ => ∅) ticks) = 0) as ->.
  { induction ticks; simpl; [done|]. by rewrite weigh_empty. }
  rewrite Nat.add_0_r. induction (seq 0 n) as [|i l IH]; simpl; [done|]. by rewrite weigh_singleton, IH.
Qed.

Lemma sum_indicator i k m :
  sum_list_with (fun j => if decide (j = i) then 1 else 0) (seq k m) =
  if decide (k <= i < k + m) then 1 else 0.
Proof.
  revert k. induction m as [|m IH]; intros k; simpl; [case_decide; lia|].
  rewrite IH. repeat case_decide; lia.
Qed.

Lemma sum_failing l :
  sum_list_with (fun i => failing (Dial Parked i)) l = length (filter (fun i => pr_dial i = None) l).
Proof.
  induction l as [|i l IH]; [done|]. rewrite filter_cons. simpl in *.
  destruct (pr_dial i); case_decide; simpl; (done || lia).
Qed.

Lemma sum_zero (f : nat -> nat) l : (∀ i, f i = 0) -> sum_list_with f l = 0.
Proof. intros Hf. induction l as [|i l IH]; simpl; [done|]. by rewrite Hf. Qed.

Lemma connect_initial ticks now : inv (held (connect_tokens ticks)) (no_dials now).
Proof.
  assert (∀ i, weigh (unrec i) (held (connect_tokens ticks)) = if decide (0 <= i < 0 + n) then 1 else 0) as Hu.
  { intros i. rewrite weigh_connect_tokens. cbn [unrec unrecorded]. by rewrite sum_indicator. }
  assert (∀ i, weigh (parked i) (held (connect_tokens ticks)) = if decide (0 <= i < 0 + n) then 1 else 0) as Hp.
  { intros i. rewrite weigh_connect_tokens. cbn [parked]. by rewrite sum_indicator. }
  assert (∀ i, weigh (before i) (held (connect_tokens ticks)) = 1) as Hb.
  { intros i. rewrite weigh_connect_tokens, sum_zero by done. cbn [before]. by rewrite decide_True by lia. }
  assert (∀ f, (∀ i, f (Dial Parked i) = 0) ->
    weigh f (held (connect_tokens ticks)) = f (Launch Started 0)) as Hz.
  { intros f Hf. rewrite weigh_connect_tokens, sum_zero by done. lia. }
  constructor; cbn [no_dials d_wg d_sem d_handshakes d_launched d_conns d_errors d_result];
    try setoid_rewrite Hu; try setoid_rewrite Hp; try setoid_rewrite Hb; rewrite ?Hz by done;
    cbn [in_wg in_sem shaking starting launcher waited]; try done; try lia.
  - intros i Hi _. rewrite decide_True by lia. lia.
  - intros i. case_decide; lia.
  - intros _. split; [done|]. intros i Hi. by rewrite decide_True by lia.
  - rewrite weigh_connect_tokens, sum_failing. done.
Qed.

Lemma connect_reach ticks now ps w :
  pool_reach (connect_pool n ticks, no_dials now) (ps, w) ->
  ∃ rs, Forall3 (thread_ok inv waiting) (map (fun _ _ => True) (connect_tokens ticks)) ps rs /\ inv (held rs) w.
Proof.
  intros Hr. eapply (pool_owned_reach inv waiting) in Hr; [exact Hr|].
  exists (connect_tokens ticks). split; [apply connect_threads_ok|apply connect_initial].
Qed.

(** A pool in which nobody can move holds no tokens. *)
Lemma connect_stuck Ks ps rs w :
  Forall3 (thread_ok inv waiting) Ks ps rs -> inv (held rs) w -> (∀ s, ¬ pool_step (ps, w) s) ->
  ∀ i r, rs !! i = Some r -> r = ∅ /\ ps !! i = Some (mret tt).
Proof.
  intros HF HI Hst.
  assert (∀ t, t ∈ held rs -> match t with
    | Launch Added _ => max_handshakes <= d_sem w | Launch Next _ => d_wg w <> 0
    | Dial Parked i => i ∉ d_launched w | _ => False end) as Ht.
  { intros t (i & r & Hi & Hr)%elem_of_held.
    destruct (pool_owned_stuck inv waiting Ks ps w rs i r HF HI Hst Hi) as [[-> _]|Hw]; [set_solver|].
    destruct Hw as [(k & -> & Hw)|[(k & -> & Hw)|(k & -> & Hw)]];
      apply gmultiset_elem_of_singleton in Hr; by subst. }
  assert (∀ f, (∀ t, t ∈ held rs -> f t = 0) -> weigh f (held rs) = 0) as Hz by (intros; by apply weigh_zero).
  assert (d_launched w = ∅) as HL.
  { apply set_eq. intros i. split; [|set_solver]. intros Hi.
    destruct (i_launched _ _ HI i Hi) as [Hp _]. apply weigh_pos in Hp as ([[] j|] & Hin & Hp); simpl in Hp; try lia.
    case_decide; [|lia]. subst. by destruct (Ht _ Hin). }
  pose proof (i_sem _ _ HI) as Hsem. rewrite HL, size_empty in Hsem.
  rewrite (Hz in_sem) in Hsem; [|intros [[] ?|[] ?] Hin; by specialize (Ht _ Hin)].
  assert (∀ k, Launch Added k ∉ held rs) as Hadd.
  { intros k Hin%Ht. simpl in Hin. unfold max_handshakes in Hin. lia. }
  pose proof (i_wg _ _ HI) as Hwg. rewrite HL, size_empty in Hwg.
  rewrite (Hz in_wg) in Hwg; [|intros [[] ?|[] k] Hin; try by specialize (Ht _ Hin)].
  2: { by destruct (Hadd k). }
  assert (∀ s k, Launch s k ∉ held rs) as Hl.
  { intros s k Hin. pose proof (Ht _ Hin) as Hs. destruct s; try done; try lia; by eapply Hadd. }
  intros i r Hi. destruct (pool_owned_stuck inv waiting Ks ps w rs i r HF HI Hst Hi) as [|Hw]; [done|exfalso].
  assert (∀ t, t ∈ r -> t ∈ held rs) as Hin by (intros t; by apply (elem_of_held_2 t rs i)).
  destruct Hw as [(k & -> & _)|[(k & -> & _)|(k & -> & Hk)]].
  { eapply Hl, Hin. by apply gmultiset_elem_of_singleton. }
  { eapply Hl, Hin. by apply gmultiset_elem_of_singleton. }
  destruct (i_parked _ _ HI k) as [Hlk|Hb].
  - pose proof (weigh_elem (parked k) (held rs) (Dial Parked k)) as Hp. simpl in Hp.
    rewrite decide_True in Hp by done. apply Hp, Hin. by apply gmultiset_elem_of_singleton.
  - by rewrite HL in Hlk.
  - apply weigh_pos in Hb as ([s j|s j] & Hin' & Hp); [simpl in Hp; lia|by eapply Hl].
Qed.

Lemma established_count l :
  length (omap id (map pr_dial l)) + length (filter (fun i => pr_dial i = None) l) = length l.
Proof.
  induction l as [|i l IH]; [done|]. rewrite filter_cons. cbn [map].
  set (k := map pr_dial l) in *.
  change (omap id (pr_dial i :: k)) with (match pr_dial i with Some y => y :: omap id k | None => omap id k end).
  destruct (pr_dial i); case_decide; cbn [length]; (done || lia).
Qed.

(** C30: However the caller of [connectN], its dialling goroutines and the clock
    interleave: at most two hundred handshakes are in progress at any moment;
    no schedule runs for ever; and when nobody can move, every goroutine has
    returned and the call has answered with what each dial answered, at its own
    index, and with the number of dials that failed, so that the connections
    made and the errors add up to [n]. *)
Theorem connectN_connects (ticks : list nat) (now : Z) :
  let s0 := (connect_pool n ticks, no_dials now) in
  (∀ ps w, pool_reach s0 (ps, w) -> d_handshakes w <= max_handshakes) /\
  Acc (fun s' s => pool_step s s') s0 /\
  (∀ ps w, pool_reach s0 (ps, w) -> (∀ s, ¬ pool_step (ps, w) s) ->
     Forall (fun p => p = mret tt) ps /\
     ∃ d errs, d_result w = Some (map pr_dial (seq 0 n), d, errs) /\
       (errs = Z.of_nat failures)%Z /\ (Z.of_nat (length (omap id (map pr_dial (seq 0 n)))) = Z.of_nat n - errs)%Z).
Proof.
  cbn zeta. split; [|split; [apply pool_step_acc|]].
  - intros ps w (rs & _ & HI)%connect_reach. by eapply handshakes_bounded.
  - intros ps w (rs & HF & HI)%connect_reach Hst. pose proof (connect_stuck _ _ _ _ HF HI Hst) as Hr. split.
    + apply Forall_lookup. intros i p Hp.
      destruct (Forall3_lookup_m _ _ _ _ _ _ HF Hp) as (K & r & _ & Hi & _).
      destruct (Hr i r Hi) as [_ Hp']. congruence.
    + assert (weigh launcher (held rs) = 0) as Hl.
      { apply weigh_zero. intros t (i & r & Hi & Hin)%elem_of_held. destruct (Hr i r Hi) as [-> _]. set_solver. }
      destruct (i_done _ _ HI Hl) as [[[conns d] errs] Hres].
      destruct (i_result _ _ HI _ _ _ Hres) as [-> ->]. exists d, (Z.of_nat failures).
      split; [done|]. split; [done|]. pose proof (established_count (seq 0 n)) as Hc.
      rewrite length_seq in Hc. unfold failures. lia.
Qed.
End Spec.
