(* ===== verification/Nats.v ===== *)
(** * Nats: the NATS adapter (adapter/nats/nats.go)

    An adapter owns at most one current subscription.  [Subscribe] replaces it
    without holding the lock while it talks to NATS, so calls of [Subscribe]
    and [Close] overlap freely: a generation counter tells a call that it has
    been superseded, and whoever takes a subscription out of [cur] must release
    its watcher and drain it.  A watcher goroutine per subscription waits for
    the context or for the release.

    The NATS connection is a parameter: whether a subscription can be made and
    what draining it answers.  The [i]-th call of a pool allocates the
    subscription with address [i]; the watcher it launches is in the pool from
    the start and waits for its launch. *)

From S2P Require Import Prelude Prog Owned Types World.

(** What the watcher goroutine of a subscription is doing. *)
Inductive watcher_state :=
  | Absent                       (** nothing launches it yet *)
  | Pending                      (** counted, about to be launched *)
  | Running
  | Exited.                      (** no longer counted *)

#[export] Instance watcher_state_eq_dec : EqDecision watcher_state.
Proof. solve_decision. Defined.

Record subscription := mkSubscription {
  s_stop : bool;                         (** [stop] is closed *)
  s_done : bool;                         (** [done] is closed *)
  s_drained : option (option error);     (** [drainOnce] has run, with [drainErr] *)
  s_watcher : watcher_state
}.

Record nats := mkNats {
  n_cur : option nat;
  n_closed : bool;
  n_gen : Z;                             (** [uint64] *)
  n_watchers : Z;                        (** [atomic.Int64] *)
  n_subs : gmap nat subscription;        (** the heap *)
  n_cancelled : gset nat;                (** contexts that are done *)
  n_drains : list nat;                   (** calls of NATS's [Drain], newest first *)
  n_published : list (string * bytes);   (** subject and payload, newest first *)
  n_nonce : nat
}.

Abbreviation nprg := (prog nats).

Inductive nats_error := ErrClosed | ErrCtx | ErrFrom (e : error).

(** ** New and its options

    [W] is the state of whoever handles the messages: the hub's world. *)
Record adapter_config (W : Type) := mkAdapterConfig {
  subject : string;
  unmarshalErrorHandler : option (bytes -> error -> prog W unit)
}.
Arguments mkAdapterConfig {W} subject unmarshalErrorHandler.
Arguments subject {W} a.
Arguments unmarshalErrorHandler {W} a.

Definition WithSubject {W} (s : string) (c : adapter_config W) : adapter_config W :=
  if bool_decide (s = "") then c else mkAdapterConfig s (unmarshalErrorHandler c).

Definition WithUnmarshalErrorHandler {W} (h : option (bytes -> error -> prog W unit))
    (c : adapter_config W) : adapter_config W :=
  mkAdapterConfig (subject c) h.

Definition New {W} (opts : list (adapter_config W -> adapter_config W)) : adapter_config W :=
  foldl (fun c opt => opt c) (mkAdapterConfig "wshub.messages" None) opts.

(** ** Field updates *)
Definition upd_sub (f : subscription -> subscription) (i : nat) (w : nats) : nats :=
  mkNats (n_cur w) (n_closed w) (n_gen w) (n_watchers w) (alter f i (n_subs w)) (n_cancelled w)
    (n_drains w) (n_published w) (n_nonce w).

Definition set_stop (s : subscription) : subscription :=
  mkSubscription true (s_done s) (s_drained s) (s_watcher s).
Definition set_done (s : subscription) : subscription :=
  mkSubscription (s_stop s) true (s_drained s) (s_watcher s).
Definition set_drained (e : option error) (s : subscription) : subscription :=
  mkSubscription (s_stop s) (s_done s) (Some e) (s_watcher s).
Definition set_watcher (x : watcher_state) (s : subscription) : subscription :=
  mkSubscription (s_stop s) (s_done s) (s_drained s) x.

Definition sub_at (w : nats) (i : nat) : subscription :=
  default (mkSubscription false false None Absent) (n_subs w !! i).

Definition set_cur (c : option nat) (w : nats) : nats :=
  mkNats c (n_closed w) (n_gen w) (n_watchers w) (n_subs w) (n_cancelled w) (n_drains w)
    (n_published w) (n_nonce w).

Definition add_watchers (k : Z) (w : nats) : nats :=
  mkNats (n_cur w) (n_closed w) (n_gen w) (wrap64 (n_watchers w + k)) (n_subs w) (n_cancelled w)
    (n_drains w) (n_published w) (n_nonce w).

Section Adapter.
Context (conn_Subscribe : nat -> option error) (sub_Drain : nat -> option error).
Context (subj : string) (conn_Publish : string -> bytes -> option error).
Context (json_Marshal : AdapterMessage -> error + bytes)
        (json_Unmarshal : bytes -> error + AdapterMessage).
Context (choose : nat -> bool).          (** which of two ready [select] cases *)

Definition ctx_done (w : nats) (ctx : context) : bool :=
  match ctx with Background => false | Ctx n => bool_decide (n ∈ n_cancelled w) end.

(** ** subscription *)
Definition release (i : nat) : nprg unit :=
  modify (upd_sub set_stop i) ;;
  await (fun w => if s_done (sub_at w i) then Some (tt, w) else None).

(** [drainOnce]: the first call drains, every call gets its answer. *)
Definition drain (i : nat) : nprg (option error) :=
  atomically (fun w =>
    match s_drained (sub_at w i) with
    | Some e => (e, w)
    | None =>
        let w' := upd_sub (set_drained (sub_Drain i)) i w in
        (sub_Drain i,
         mkNats (n_cur w') (n_closed w') (n_gen w') (n_watchers w') (n_subs w') (n_cancelled w')
           (i :: n_drains w') (n_published w') (n_nonce w'))
    end).

(** ** Publish *)
Definition Publish (ctx : context) (msg : AdapterMessage) : nprg (option nats_error) :=
  closed ← gets n_closed ;
  if (closed : bool) then mret (Some ErrClosed) else
  done ← gets (fun w => ctx_done w ctx) ;
  if (done : bool) then mret (Some ErrCtx) else
  match json_Marshal msg with
  | inl e => mret (Some (ErrFrom e))
  | inr d =>
      modify (fun w => mkNats (n_cur w) (n_closed w) (n_gen w) (n_watchers w) (n_subs w)
        (n_cancelled w) (n_drains w) ((subj, d) :: n_published w) (n_nonce w)) ;;
      mret (ErrFrom <$> conn_Publish subj d)
  end.

(** The callback NATS runs for a message. *)
Definition on_message {W : Type} (cfg : adapter_config W)
    (handler : AdapterMessage -> prog W unit) (d : bytes) : prog W unit :=
  match json_Unmarshal d with
  | inl err => match unmarshalErrorHandler cfg with Some h => h d err | None => mret tt end
  | inr am => handler am
  end.

(** ** Subscribe *)

(** Under the lock: the generation claimed and the subscription taken over. *)
Definition claim_generation : nprg (option (Z * option nat)) :=
  atomically (fun w =>
    if n_closed w then (None, w) else
    let g := ((n_gen w + 1) mod 2 ^ 64)%Z in
    (Some (g, n_cur w),
     mkNats None (n_closed w) g (n_watchers w) (n_subs w) (n_cancelled w) (n_drains w)
       (n_published w) (n_nonce w))).

Definition conn_subscribe (i : nat) : nprg (option error) :=
  atomically (fun w =>
    match conn_Subscribe i with
    | Some e => (Some e, w)
    | None =>
        (None, mkNats (n_cur w) (n_closed w) (n_gen w) (n_watchers w)
                 (<[i := mkSubscription false false None Absent]> (n_subs w)) (n_cancelled w)
                 (n_drains w) (n_published w) (n_nonce w))
    end).

Inductive install_result := AdapterClosed | Superseded | Installed.

Definition install (i : nat) (myGen : Z) : nprg install_result :=
  atomically (fun w =>
    if n_closed w then (AdapterClosed, w)
    else if negb (bool_decide (n_gen w = myGen)) then (Superseded, w)
    else (Installed, add_watchers 1 (upd_sub (set_watcher Pending) i (set_cur (Some i) w)))).

Definition Subscribe (i : nat) : nprg (option nats_error) :=
  claim ← claim_generation ;
  match claim with
  | None => mret (Some ErrClosed)
  | Some (myGen, prev) =>
      (match prev with
       | Some p => release p ;; _ ← drain p ; mret tt
       | None => mret tt
       end) ;;
      err ← conn_subscribe i ;
      match err with
      | Some e => mret (Some (ErrFrom e))
      | None =>
          verdict ← install i myGen ;
          match verdict with
          | AdapterClosed => _ ← drain i ; mret (Some ErrClosed)
          | Superseded => e ← drain i ; mret (ErrFrom <$> e)
          | Installed => modify (upd_sub (set_watcher Running) i) ;; mret None
          end
      end
  end.

(** The goroutine [Subscribe] launches, from its launch on. *)
Definition watcher (i : nat) (ctx : context) : nprg unit :=
  await (fun w => if bool_decide (s_watcher (sub_at w i) = Running) then Some (tt, w) else None) ;;
  cancelled ← await (fun w =>
    let bump := mkNats (n_cur w) (n_closed w) (n_gen w) (n_watchers w) (n_subs w) (n_cancelled w)
                  (n_drains w) (n_published w) (S (n_nonce w)) in
    match ctx_done w ctx, s_stop (sub_at w i) with
    | true, true => Some (choose (n_nonce w), bump)
    | true, false => Some (true, w)
    | false, true => Some (false, w)
    | false, false => None
    end) ;
  (if (cancelled : bool) then _ ← drain i ; mret tt else mret tt) ;;
  modify (fun w => add_watchers (-1) (upd_sub (set_watcher Exited) i w)) ;;
  modify (upd_sub set_done i).

(** ** Close *)
Definition Close : nprg (option nats_error) :=
  cur ← atomically (fun w =>
    if n_closed w then (None, w)
    else (n_cur w, mkNats None true (n_gen w) (n_watchers w) (n_subs w) (n_cancelled w)
                     (n_drains w) (n_published w) (n_nonce w))) ;
  match cur with
  | None => mret None
  | Some s => release s ;; e ← drain s ; mret (ErrFrom <$> e)
  end.

(** ** A pool of calls *)
Inductive call :=
  | CallSubscribe (ctx : context)
  | CallClose
  | CallPublish (ctx : context) (msg : AdapterMessage)
  | CancelContext (n : nat).

Definition call_thread (i : nat) (c : call) : nprg unit :=
  match c with
  | CallSubscribe _ => _ ← Subscribe i ; mret tt
  | CallClose => _ ← Close ; mret tt
  | CallPublish ctx msg => _ ← Publish ctx msg ; mret tt
  | CancelContext n =>
      modify (fun w => mkNats (n_cur w) (n_closed w) (n_gen w) (n_watchers w) (n_subs w)
        ({[n]} ∪ n_cancelled w) (n_drains w) (n_published w) (n_nonce w)) ;; mret tt
  end.

Definition watcher_thread (i : nat) (c : call) : nprg unit :=
  match c with CallSubscribe ctx => watcher i ctx | _ => mret tt end.

Definition adapter_pool (calls : list call) : list (nprg unit) :=
  imap call_thread calls ++ imap watcher_thread calls.

Definition new_adapter : nats := mkNats None false 0 0 ∅ ∅ [] [] 0.
End Adapter.
