(* ===== verification/NatsSpec.v ===== *)
(** * NatsSpec: the NATS adapter never leaks a subscription

    Any number of calls of [Subscribe], [Close] and [Publish] overlap in any
    way, with contexts cancelled at any time.  Responsibility for a
    subscription passes from the call that made it to [cur], and from there to
    the one call that takes it out; the tokens below follow it. *)

From S2P Require Import Prelude Prog Owned Types World Nats.

(** ** Tokens *)
Inductive tok :=
  | Call                     (** a call of [Subscribe] that has not claimed a generation *)
  | Gen (g : Z)              (** a call that may still install with generation [g] *)
  | New_ (i : nat)           (** the call that may still make subscription [i] *)
  | Made (i : nat)           (** it has made it and not installed it *)
  | Launch (i : nat)         (** it has installed it and must launch the watcher *)
  | Taken (i : nat)          (** the call that has taken it out of [cur] *)
  | Stopped (i : nat)        (** it has released the watcher and waits for it *)
  | Dead (i : nat)           (** it has seen the watcher exit and must drain *)
  | Watch (i : nat)          (** the watcher, waiting for its launch *)
  | Active (i : nat)         (** the watcher, until it is no longer counted *)
  | Closing (i : nat).       (** the watcher, until it has closed [done] *)

#[export] Instance tok_eq_dec : EqDecision tok.
Proof. solve_decision. Defined.

#[export] Instance tok_countable : Countable tok.
Proof.
  refine (inj_countable'
    (fun t => match t with
              | Call => (0, inl 0) | Gen g => (1, inr g) | New_ i => (2, inl i)
              | Made i => (3, inl i) | Launch i => (4, inl i) | Taken i => (5, inl i)
              | Dead i => (6, inl i) | Watch i => (7, inl i) | Closing i => (8, inl i)
              | Stopped i => (9, inl i) | Active i => (10, inl i)
              end : nat * (nat + Z))
    (fun p => match p with
              | (1, inr g) => Gen g | (2, inl i) => New_ i | (3, inl i) => Made i
              | (4, inl i) => Launch i | (5, inl i) => Taken i | (6, inl i) => Dead i
              | (7, inl i) => Watch i | (8, inl i) => Closing i
              | (9, inl i) => Stopped i | (10, inl i) => Active i | _ => Call
              end) _); by intros [].
Defined.

Abbreviation tokens := (gmultiset tok).
Abbreviation m := multiplicity.

(** ** The invariant *)

(** The propositions of the invariant as numbers, so that [lia] decides them. *)
Definition at_cur (cur : option nat) (i : nat) : nat := if bool_decide (cur = Some i) then 1 else 0.
Definition is_drained (s : subscription) : nat := match s_drained s with Some _ => 1 | None => 0 end.
Definition installed (s : subscription) : nat := match s_watcher s with Absent => 0 | _ => 1 end.

(** A live subscription has one owner. *)
Definition owners (T : tokens) (cur : option nat) (i : nat) : nat :=
  m (Made i) T + m (Taken i) T + m (Stopped i) T + m (Dead i) T + at_cur cur i.

Definition sub_ok (T : tokens) (cur : option nat) (i : nat) (o : option subscription) : Prop :=
  m (Watch i) T + m (Active i) T <= 1 /\
  match o with
  | None =>
      m (New_ i) T <= m (Watch i) T /\ owners T cur i = 0 /\ m (Launch i) T = 0 /\
      m (Closing i) T = 0 /\ m (Active i) T = 0
  | Some s =>
      m (New_ i) T = 0 /\ owners T cur i <= 1 /\
      (* who is still responsible *)
      (is_drained s = 0 -> owners T cur i = 1) /\
      (installed s = 1 -> s_done s = false -> m (Taken i) T + m (Stopped i) T + at_cur cur i = 1) /\
      (* what each owner knows *)
      (m (Made i) T = 1 -> installed s = 0) /\
      (at_cur cur i = 1 -> s_stop s = false) /\
      (m (Taken i) T + m (Stopped i) T + at_cur cur i = 1 -> installed s = 1) /\
      (m (Stopped i) T = 1 -> s_stop s = true) /\
      (m (Dead i) T = 1 -> s_done s = true) /\
      (* the watcher *)
      (s_stop s = true -> installed s = 1) /\
      match s_watcher s with
      | Absent => m (Watch i) T = 1 /\ m (Launch i) T = 0 /\ m (Closing i) T = 0 /\ s_done s = false
      | Pending => m (Watch i) T = 1 /\ m (Launch i) T = 1 /\ m (Closing i) T = 0 /\ s_done s = false
      | Running => m (Watch i) T + m (Active i) T = 1 /\ m (Launch i) T = 0 /\ m (Closing i) T = 0 /\ s_done s = false
      | Exited => m (Watch i) T + m (Active i) T = 0 /\ m (Launch i) T = 0 /\
                  m (Closing i) T = if s_done s then 0 else 1
      end
  end.

(** The watchers that are counted. *)
Definition counted (s : subscription) : bool :=
  match s_watcher s with Pending | Running => true | _ => false end.

Definition live_watchers (w : nats) : nat :=
  count_if counted (n_subs w).

Record inv (n : nat) (T : tokens) (w : nats) : Prop := {
  inv_gen : (0 <= n_gen w)%Z /\ (n_gen w + Z.of_nat (m Call T) <= Z.of_nat n)%Z;
  inv_gens : ∀ g, m (Gen g) T <= 1 /\ (m (Gen g) T = 1 -> (g <= n_gen w)%Z);
  inv_claim : m (Gen (n_gen w)) T = 1 -> n_cur w = None;
  inv_closed : n_closed w = true -> n_cur w = None;
  inv_sub : ∀ i, sub_ok T (n_cur w) i (n_subs w !! i);
  inv_count : n_watchers w = wrap64 (Z.of_nat (live_watchers w));
  inv_drains : NoDup (n_drains w) /\
    ∀ i, i ∈ n_drains w <-> ∃ s, n_subs w !! i = Some s /\ is_Some (s_drained s)
}.

(** ** Moving one subscription on *)
Definition about (t : tok) : option nat :=
  match t with
  | Call | Gen _ => None
  | New_ i | Made i | Launch i | Taken i | Stopped i | Dead i | Active i | Watch i | Closing i => Some i
  end.

Lemma sub_ok_ext T T' cur cur' i o :
  (∀ t, about t = Some i -> m t T' = m t T) -> (cur' = Some i <-> cur = Some i) ->
  sub_ok T cur i o -> sub_ok T' cur' i o.
Proof.
  intros HT Hc. unfold sub_ok, owners.
  assert (at_cur cur' i = at_cur cur i) as ->.
  { unfold at_cur. by rewrite (bool_decide_ext _ _ Hc). }
  rewrite !(HT (New_ i)), !(HT (Made i)), !(HT (Launch i)), !(HT (Taken i)), !(HT (Stopped i)), !(HT (Dead i)),
    !(HT (Watch i)), !(HT (Active i)), !(HT (Closing i)) by done.
  done.
Qed.

Definition weight : subscription -> nat := one_if counted.

Section Inv.
Context (n : nat).
Abbreviation I := (inv n).

(** A step that concerns the subscription [i] only. *)
Lemma inv_at T T' w w' i :
  I T w -> (∀ t, about t <> Some i -> m t T' = m t T) ->
  n_gen w' = n_gen w -> n_closed w' = n_closed w -> n_cur w' = n_cur w ->
  (∀ j, j <> i -> n_subs w' !! j = n_subs w !! j) ->
  sub_ok T' (n_cur w) i (n_subs w' !! i) ->
  n_watchers w' = wrap64 (Z.of_nat (live_watchers w')) ->
  (NoDup (n_drains w') /\
    ∀ i, i ∈ n_drains w' <-> ∃ s, n_subs w' !! i = Some s /\ is_Some (s_drained s)) ->
  I T' w'.
Proof.
  intros [H1 H2 H3 H4 H5 H6 H7] HT Eg Ec Eu Hj Hi Hc Hd.
  constructor; rewrite ?Eg, ?Ec, ?Eu; try done.
  - by rewrite HT.
  - intros g. by rewrite HT.
  - by rewrite HT.
  - intros j. destruct (decide (j = i)) as [->|Hne]; [done|]. rewrite Hj by done.
    eapply sub_ok_ext; [|done|apply H5]. intros t Ht. apply HT. congruence.
Qed.

(** The counter follows the state of one watcher. *)
Lemma live_upd f i w s :
  n_subs w !! i = Some s ->
  live_watchers (upd_sub f i w) + weight s = live_watchers w + weight (f s).
Proof.
  apply count_if_alter.
Qed.

Lemma live_same f i w :
  (∀ s, n_subs w !! i = Some s -> weight (f s) = weight s) -> live_watchers (upd_sub f i w) = live_watchers w.
Proof.
  intros Hf. destruct (n_subs w !! i) as [s|] eqn:Hs.
  - pose proof (live_upd f i w s Hs). specialize (Hf s eq_refl). lia.
  - unfold live_watchers, upd_sub. simpl. f_equal. f_equal. apply map_eq. intros j.
    destruct (decide (j = i)) as [->|Hne]; [by rewrite lookup_alter_eq, Hs|by rewrite lookup_alter_ne].
Qed.

Lemma drains_upd f i w :
  (∀ s, s_drained (f s) = s_drained s) ->
  (∀ j, j ∈ n_drains w <-> ∃ s, n_subs w !! j = Some s /\ is_Some (s_drained s)) ->
  ∀ j, j ∈ n_drains w <-> ∃ s, n_subs (upd_sub f i w) !! j = Some s /\ is_Some (s_drained s).
Proof.
  intros Hf Hd j. rewrite Hd. simpl. destruct (decide (j = i)) as [->|Hne].
  - rewrite lookup_alter_eq. destruct (n_subs w !! i) as [s|]; simpl; [|naive_solver].
    split; intros (s' & [= <-] & Hs); eexists; (split; [done|]); [by rewrite Hf|by rewrite <-Hf].
  - by rewrite lookup_alter_ne.
Qed.

(** A change of one subscription that neither drains nor counts. *)
Lemma inv_upd T T' w i f :
  I T w -> (∀ t, about t <> Some i -> m t T' = m t T) ->
  (∀ s, n_subs w !! i = Some s -> weight (f s) = weight s) -> (∀ s, s_drained (f s) = s_drained s) ->
  sub_ok T' (n_cur w) i (f <$> n_subs w !! i) -> I T' (upd_sub f i w).
Proof.
  intros HI HT Hw Hf Hi. eapply inv_at; try done.
  - intros j Hj. simpl. by rewrite lookup_alter_ne.
  - simpl. by rewrite lookup_alter_eq.
  - simpl. rewrite live_same by done. apply HI.
  - destruct (inv_drains _ _ _ HI) as [Hn Hd]. split; [done|]. exact (drains_upd f i w Hf Hd).
Qed.

(** A change of hands that leaves the state alone. *)
Lemma inv_tokens T T' w i :
  I T w -> (∀ t, about t <> Some i -> m t T' = m t T) ->
  sub_ok T' (n_cur w) i (n_subs w !! i) -> I T' w.
Proof. intros HI HT Hi. eapply inv_at; try done; apply HI. Qed.
End Inv.

(** Decide a goal about one subscription. *)
Ltac sub_tokens := unfold sub_ok, owners; eval_tokens.

Ltac sub_cases := unfold is_drained, installed; simpl; intros; try done; lia.

Section Threads.
Context (n : nat).
Context (sub_Drain : nat -> option error).

(** Nothing that somebody else may be waiting for. *)
Definition aside (X : tokens) : Prop :=
  ∀ j, m (Launch j) X = 0 /\ m (Watch j) X = 0 /\ m (Active j) X = 0 /\ m (Closing j) X = 0.

(** What a goroutine that waits may hold: a watcher whose subscription nobody
    has released, or a call that waits for a watcher it has released. *)
Definition waiting (r : tokens) (w : nats) : Prop :=
  (∃ i, r = {[+ Watch i +]} /\ s_watcher (sub_at w i) <> Running) \/
  (∃ i, r = {[+ Active i +]} /\ s_stop (sub_at w i) = false) \/
  (∃ i X, r = {[+ Stopped i +]} ⊎ X /\ aside X /\ s_done (sub_at w i) = false).

(** What the two kinds of goroutines ever hold. *)
Definition call_holds (r : tokens) : Prop :=
  ∀ i, m (Watch i) r = 0 /\ m (Active i) r = 0 /\ m (Closing i) r = 0.

Definition watcher_holds (i : nat) (r : tokens) : Prop :=
  r = {[+ Watch i +]} \/ r = {[+ Active i +]} \/ r = {[+ Closing i +]} \/ r = ∅.

Abbreviation own := (owned (inv n) waiting).

Ltac by_sub HI i :=
  let Hi := fresh "Hi" in
  pose proof (inv_sub _ _ _ HI i) as Hi; revert Hi;
  lazymatch goal with
  | |- context [n_subs ?w !! i] =>
      let st := fresh "st" in let dn := fresh "dn" in let dr := fresh "dr" in
      let wt := fresh "wt" in let Hs := fresh "Hs" in
      sub_tokens; destruct (n_subs w !! i) as [[st dn dr wt]|] eqn:Hs;
      [destruct wt, dn, st|]; sub_cases
  end.

Lemma inv_release X F w i :
  inv n (({[+ Taken i +]} ⊎ X) ⊎ F) w -> inv n (({[+ Stopped i +]} ⊎ X) ⊎ F) (upd_sub set_stop i w).
Proof. intros HI. eapply inv_upd; try done; [intros t Ht; mult|]. by_sub HI i. Qed.

Lemma inv_released X F w i :
  s_done (sub_at w i) = true ->
  inv n (({[+ Stopped i +]} ⊎ X) ⊎ F) w -> inv n (({[+ Dead i +]} ⊎ X) ⊎ F) w.
Proof.
  intros Hd HI. eapply inv_tokens; [exact HI|intros t Ht; mult|].
  unfold sub_at in Hd. revert Hd. by_sub HI i.
Qed.

(** What [drain] leaves behind. *)
Definition after_drain (i : nat) (w : nats) : nats :=
  default w (snd <$> run (drain sub_Drain i) w).

Lemma after_drain_subs i w :
  n_subs (after_drain i w) !! i =
  (fun s => if s_drained s is Some _ then s else set_drained (sub_Drain i) s) <$> n_subs w !! i.
Proof.
  unfold after_drain, drain. rewrite run_atomically. simpl. unfold sub_at.
  destruct (n_subs w !! i) as [[st dn [e|] wt]|] eqn:Hs; simpl; rewrite ?lookup_alter_eq, ?Hs; done.
Qed.

Lemma inv_after_drain T w i : is_Some (n_subs w !! i) -> inv n T w -> inv n T (after_drain i w).
Proof.
  intros [s Hs] HI. unfold after_drain, drain. rewrite run_atomically. simpl.
  unfold sub_at. rewrite Hs. simpl. destruct (s_drained s) as [e|] eqn:Hd; simpl; [done|].
  eapply inv_at; [exact HI|done|done|done|done| | | |]; simpl.
  - intros j Hj. by rewrite lookup_alter_ne.
  - rewrite lookup_alter_eq, Hs. simpl. pose proof (inv_sub _ _ _ HI i) as Hi. rewrite Hs in Hi.
    unfold sub_ok in *. destruct s as [st dn dr wt]. unfold is_drained in *. simpl in *. naive_solver.
  - transitivity (wrap64 (Z.of_nat (live_watchers (upd_sub (set_drained (sub_Drain i)) i w))));
      [|done]. rewrite live_same by done. apply HI.
  - destruct (inv_drains _ _ _ HI) as [Hn Hdr]. split.
    + constructor; [|done]. rewrite Hdr. intros (s' & Hs' & Hd'). rewrite Hs in Hs'. simplify_eq.
      rewrite Hd in Hd'. by destruct Hd'.
    + intros j. rewrite elem_of_cons, Hdr. destruct (decide (j = i)) as [->|Hne].
      * rewrite lookup_alter_eq, Hs. simpl. naive_solver.
      * rewrite lookup_alter_ne by done. naive_solver.
Qed.

(** Draining ends a responsibility. *)
Lemma inv_drain_dead X F w i :
  inv n (({[+ Dead i +]} ⊎ X) ⊎ F) w -> inv n (X ⊎ F) (after_drain i w).
Proof.
  intros HI. assert (is_Some (n_subs w !! i)) as Hs.
  { pose proof (inv_sub _ _ _ HI i) as Hi. destruct (n_subs w !! i); [done|]. revert Hi. sub_tokens. sub_cases. }
  apply (inv_tokens n (({[+ Dead i +]} ⊎ X) ⊎ F) _ _ i); [by apply inv_after_drain|intros t Ht; mult|].
  pose proof (inv_sub _ _ _ (inv_after_drain _ _ _ Hs HI) i) as Hi. rewrite after_drain_subs in *.
  destruct Hs as [[st dn [e|] wt] Hs]; rewrite Hs in *; revert Hi; clear; simpl;
    sub_tokens; destruct wt, dn, st; sub_cases.
Qed.

Lemma inv_drain_made X F w i :
  inv n (({[+ Made i +]} ⊎ X) ⊎ F) w -> inv n (X ⊎ F) (after_drain i w).
Proof.
  intros HI. assert (is_Some (n_subs w !! i)) as Hs.
  { pose proof (inv_sub _ _ _ HI i) as Hi. destruct (n_subs w !! i); [done|]. revert Hi. sub_tokens. sub_cases. }
  apply (inv_tokens n (({[+ Made i +]} ⊎ X) ⊎ F) _ _ i); [by apply inv_after_drain|intros t Ht; mult|].
  pose proof (inv_sub _ _ _ (inv_after_drain _ _ _ Hs HI) i) as Hi. rewrite after_drain_subs in *.
  destruct Hs as [[st dn [e|] wt] Hs]; rewrite Hs in *; revert Hi; clear; simpl;
    sub_tokens; destruct wt, dn, st; sub_cases.
Qed.

(** Leaving [Subscribe] before anything was made. *)
Lemma inv_forget X F w i :
  inv n (({[+ New_ i +]} ⊎ X) ⊎ F) w -> inv n (X ⊎ F) w.
Proof. intros HI. eapply inv_tokens; [exact HI|intros t Ht; mult|]. by_sub HI i. Qed.

Lemma inv_forget_gen T T' w :
  inv n T w -> (∀ t, m t T' <= m t T) -> (∀ t, about t <> None -> m t T' = m t T) -> inv n T' w.
Proof.
  intros [H1 H2 H3 H4 H5 H6 H7] Hle Heq. constructor; try done.
  - pose proof (Hle Call). lia.
  - intros g. pose proof (Hle (Gen g)). destruct (H2 g) as [? Hg]. split; [lia|].
    intros. apply Hg. lia.
  - intros Hg. apply H3. pose proof (Hle (Gen (n_gen w))). destruct (H2 (n_gen w)). lia.
  - intros i. eapply sub_ok_ext; [|done|apply H5]. intros t Ht. apply Heq. congruence.
Qed.

(** [conn.Subscribe] has returned a subscription. *)
Definition after_subscribe (i : nat) (w : nats) : nats :=
  mkNats (n_cur w) (n_closed w) (n_gen w) (n_watchers w)
    (<[i := mkSubscription false false None Absent]> (n_subs w)) (n_cancelled w)
    (n_drains w) (n_published w) (n_nonce w).

Lemma inv_make X F w i :
  inv n (({[+ New_ i +]} ⊎ X) ⊎ F) w -> inv n (({[+ Made i +]} ⊎ X) ⊎ F) (after_subscribe i w).
Proof.
  intros HI. assert (n_subs w !! i = None) as Hn.
  { pose proof (inv_sub _ _ _ HI i) as Hi. destruct (n_subs w !! i); [|done]. revert Hi. sub_tokens. sub_cases. }
  eapply inv_at; [exact HI|intros t Ht; mult|done|done|done| | | |]; simpl.
  - intros j Hj. by rewrite lookup_insert_ne.
  - rewrite lookup_insert_eq. pose proof (inv_sub _ _ _ HI i) as Hi. rewrite Hn in Hi.
    revert Hi. sub_tokens. sub_cases.
  - rewrite (inv_count _ _ _ HI). do 2 f_equal. unfold live_watchers. simpl.
    pose proof (count_if_insert counted i (mkSubscription false false None Absent) (n_subs w)) as Hl.
    rewrite Hn in Hl. unfold one_if in Hl. simpl in Hl. lia.
  - destruct (inv_drains _ _ _ HI) as [Hnd Hd]. split; [done|]. intros j. rewrite Hd.
    destruct (decide (j = i)) as [->|Hne].
    + rewrite Hn, lookup_insert_eq. split; [naive_solver|]. intros (s & [= <-] & [? [=]]).
    + by rewrite lookup_insert_ne.
Qed.

(** The claim of a generation takes the current subscription over. *)
Definition taken (o : option nat) : tokens :=
  match o with Some p => {[+ Taken p +]} | None => ∅ end.

Definition after_claim (w : nats) : nats :=
  mkNats None (n_closed w) ((n_gen w + 1) mod 2 ^ 64) (n_watchers w) (n_subs w) (n_cancelled w)
    (n_drains w) (n_published w) (n_nonce w).

Lemma sub_ok_take T T' cur i o :
  (∀ t, about t = Some i -> m t T' = m t T + m t (taken cur)) ->
  sub_ok T cur i o -> sub_ok T' None i o.
Proof.
  intros HT. unfold sub_ok, owners.
  rewrite !(HT (New_ i)), !(HT (Made i)), !(HT (Launch i)), !(HT (Taken i)), !(HT (Stopped i)),
    !(HT (Dead i)), !(HT (Watch i)), !(HT (Active i)), !(HT (Closing i)) by done.
  unfold at_cur, taken. destruct cur as [p|].
  - destruct (decide (p = i)) as [->|Hne].
    + rewrite (bool_decide_true (Some i = Some i)) by done. rewrite bool_decide_false by done.
      eval_tokens. unfold is_drained, installed. destruct o as [[st dn dr wt]|]; simpl; [|lia].
      destruct wt, dn, st; lia.
    + rewrite (bool_decide_false (Some p = Some i)) by congruence.
      rewrite (multiplicity_singleton_ne (Taken i)) by congruence. eval_tokens.
      rewrite !Nat.add_0_r. done.
  - rewrite !multiplicity_empty, !Nat.add_0_r. done.
Qed.

Lemma inv_claimed X F w :
  (Z.of_nat n < 2 ^ 64)%Z -> inv n (({[+ Call +]} ⊎ X) ⊎ F) w ->
  inv n ((taken (n_cur w) ⊎ ({[+ Gen ((n_gen w + 1) mod 2 ^ 64) +]} ⊎ X)) ⊎ F) (after_claim w).
Proof.
  intros Hn [H1 H2 H3 H4 H5 H6 H7].
  assert (∀ t, about t = None -> m t (taken (n_cur w)) = 0) as Ht0.
  { intros t Ht. unfold taken. destruct (n_cur w); mult. }
  assert (((n_gen w + 1) mod 2 ^ 64) = n_gen w + 1)%Z as E by (apply Z.mod_small; mult).
  unfold after_claim. rewrite E. constructor; simpl; try done.
  - rewrite !multiplicity_disj_union, Ht0 by done. mult.
  - intros g. rewrite !multiplicity_disj_union, Ht0 by done.
    specialize (H2 g). mult.
  - intros i. eapply sub_ok_take; [|apply H5]. intros t Ht. clear -Ht. mult.
Qed.

Lemma inv_install X F w i :
  n_closed w = false ->
  inv n (({[+ Made i +]} ⊎ ({[+ Gen (n_gen w) +]} ⊎ X)) ⊎ F) w ->
  inv n (({[+ Launch i +]} ⊎ X) ⊎ F)
    (add_watchers 1 (upd_sub (set_watcher Pending) i (set_cur (Some i) w))).
Proof.
  clear sub_Drain. intros Hcl HI. pose proof HI as [H1 H2 H3 H4 H5 H6 H7].
  destruct (H2 (n_gen w)) as [Hg _].
  assert (n_cur w = None) as Hc by (apply H3; revert Hg; eval_tokens; lia).
  pose proof (H5 i) as Hi. rewrite Hc in *.
  assert (∃ s, n_subs w !! i = Some s /\ s_watcher s = Absent) as (s & Hs & Hw).
  { destruct (n_subs w !! i) as [s|]; [exists s; split; [done|]|]; revert Hi; unfold at_cur; sub_tokens.
    - destruct s as [st dn dr wt]. destruct wt, dn, st; sub_cases.
    - sub_cases. }
  constructor; simpl; try done.
  - revert H1. eval_tokens. mult.
  - intros g. specialize (H2 g). mult.
  - revert Hg. eval_tokens. intros. exfalso. lia.
  - by rewrite Hcl.
  - intros j. destruct (decide (j = i)) as [->|Hne].
    + rewrite lookup_alter_eq, Hs. revert Hi. rewrite Hs. simpl. destruct s as [st dn dr wt].
      simpl in Hw. subst wt. sub_tokens. unfold at_cur.
      rewrite (bool_decide_true (Some i = Some i)) by done.
      rewrite bool_decide_false by done. destruct dn, st; sub_cases.
    + rewrite lookup_alter_ne by done. eapply sub_ok_ext; [| |exact (H5 j)]; [|naive_solver].
      intros t Ht. mult.
  - pose proof (live_upd (set_watcher Pending) i (set_cur (Some i) w) s Hs) as Hl.
    unfold weight, one_if, counted in Hl. rewrite Hw in Hl. simpl in Hl.
    change (live_watchers (set_cur (Some i) w)) with (live_watchers w) in Hl.
    rewrite H6, wrap64_add_l. f_equal.
    change (live_watchers (add_watchers 1 (upd_sub (set_watcher Pending) i (set_cur (Some i) w))))
      with (live_watchers (upd_sub (set_watcher Pending) i (set_cur (Some i) w))). lia.
  - split; [apply H7|]. exact (drains_upd (set_watcher Pending) i (set_cur (Some i) w) (fun _ => eq_refl) (proj2 H7)).
Qed.

Lemma inv_launch X F w i :
  inv n (({[+ Launch i +]} ⊎ X) ⊎ F) w -> inv n (X ⊎ F) (upd_sub (set_watcher Running) i w).
Proof.
  intros HI. eapply inv_upd; try done; [intros t Ht; mult| |by_sub HI i].
  intros s Hs. pose proof (inv_sub _ _ _ HI i) as Hi. rewrite Hs in Hi. revert Hi.
  destruct s as [st dn dr wt]. unfold weight, one_if, counted. sub_tokens. destruct wt; sub_cases.
Qed.

Lemma inv_activate F w i :
  s_watcher (sub_at w i) = Running ->
  inv n ({[+ Watch i +]} ⊎ F) w -> inv n ({[+ Active i +]} ⊎ F) w.
Proof.
  intros Hd HI. eapply inv_tokens; [exact HI|intros t Ht; mult|].
  unfold sub_at in Hd. revert Hd. by_sub HI i.
Qed.

Lemma inv_exit F w i :
  inv n ({[+ Active i +]} ⊎ F) w ->
  inv n ({[+ Closing i +]} ⊎ F) (add_watchers (-1) (upd_sub (set_watcher Exited) i w)).
Proof.
  intros HI. pose proof (inv_sub _ _ _ HI i) as Hi.
  assert (∃ s, n_subs w !! i = Some s /\ s_watcher s = Running) as (s & Hs & Hw).
  { destruct (n_subs w !! i) as [s|]; [exists s; split; [done|]|]; revert Hi; sub_tokens;
      [destruct s as [st dn dr wt]; destruct wt|]; sub_cases. }
  eapply inv_at; [exact HI|intros t Ht; mult|done|done|done| | | |]; simpl.
  - intros j Hj. by rewrite lookup_alter_ne.
  - rewrite lookup_alter_eq. by_sub HI i.
  - pose proof (live_upd (set_watcher Exited) i w s Hs) as Hl. unfold weight, one_if, counted in Hl.
    rewrite Hw in Hl. simpl in Hl.
    change (live_watchers (add_watchers (-1) (upd_sub (set_watcher Exited) i w)))
      with (live_watchers (upd_sub (set_watcher Exited) i w)).
    rewrite (inv_count _ _ _ HI), wrap64_add_l. f_equal. lia.
  - destruct (inv_drains _ _ _ HI) as [Hn Hd]. split; [done|].
    exact (drains_upd (set_watcher Exited) i w (fun _ => eq_refl) Hd).
Qed.

Lemma inv_close_done F w i :
  inv n ({[+ Closing i +]} ⊎ F) w -> inv n (∅ ⊎ F) (upd_sub set_done i w).
Proof. intros HI. eapply inv_upd; try done; [intros t Ht; mult|]. by_sub HI i. Qed.

(** [Close] takes the current subscription and shuts the door. *)
Lemma inv_shut F w :
  n_closed w = false -> inv n (∅ ⊎ F) w ->
  inv n ((taken (n_cur w) ⊎ ∅) ⊎ F)
    (mkNats None true (n_gen w) (n_watchers w) (n_subs w) (n_cancelled w) (n_drains w)
       (n_published w) (n_nonce w)).
Proof.
  intros Hc [H1 H2 H3 H4 H5 H6 H7].
  assert (∀ t, about t = None -> m t (taken (n_cur w)) = 0) as Ht0.
  { intros t Ht. unfold taken. destruct (n_cur w); mult. }
  constructor; simpl; try done.
  - rewrite !multiplicity_disj_union, Ht0 by done. mult.
  - intros g. rewrite !multiplicity_disj_union, Ht0 by done. specialize (H2 g). mult.
  - intros i. eapply sub_ok_take; [|apply H5]. intros t Ht. clear -Ht. mult.
Qed.

(** Contexts, publications and the runtime's choices are nobody's business. *)
Lemma inv_other T w cs ps k :
  inv n T w ->
  inv n T (mkNats (n_cur w) (n_closed w) (n_gen w) (n_watchers w) (n_subs w) cs (n_drains w) ps k).
Proof. intros []. by constructor. Qed.
End Threads.
