(* ===== verification/NatsPool.v ===== *)
(** * NatsPool: calls of the NATS adapter, overlapping in any way

    Every goroutine follows the tokens of [NatsSpec], so a pool of calls never
    drains a subscription twice, never leaves one behind, and never stops with
    a call that waits. *)

From S2P Require Import Prelude Prog Owned Types World Nats NatsSpec.

#[local] Arguments owned : simpl never.

Section Threads.
Context (n : nat).
Context (conn_Subscribe sub_Drain : nat -> option error) (choose : nat -> bool).
Abbreviation own := (owned (inv n) waiting).

Lemma call_holds_union X Y : call_holds (X ⊎ Y) <-> call_holds X /\ call_holds Y.
Proof.
  unfold call_holds. split.
  - intros H. split; intros i; specialize (H i); revert H; eval_tokens; lia.
  - intros [H1 H2] i. specialize (H1 i). specialize (H2 i). revert H1 H2. eval_tokens. lia.
Qed.

Ltac holds :=
  rewrite ?call_holds_union in *; destruct_and?; split_and?; try done;
  intros ?; unfold taken; repeat case_match; eval_tokens; lia.

Lemma own_release p X :
  call_holds X -> aside X ->
  own call_holds ({[+ Taken p +]} ⊎ X) (release p) (fun _ r => r = {[+ Dead p +]} ⊎ X).
Proof.
  intros HK Ha. unfold release. apply owned_modify; [holds|]. intros F w HI.
  exists ({[+ Stopped p +]} ⊎ X). split; [by apply inv_release|].
  apply owned_last; [holds|]. intros F' w' HI'. destruct (s_done (sub_at w' p)) eqn:Hd.
  - exists ({[+ Dead p +]} ⊎ X). split; [by apply inv_released|]. split; [holds|done].
  - right. right. by exists p, X.
Qed.

Lemma own_drain t p X :
  call_holds X -> t = Dead p \/ t = Made p ->
  own call_holds ({[+ t +]} ⊎ X) (drain sub_Drain p) (fun _ r => r = X).
Proof.
  intros HK Ht. apply owned_last_atomically; [destruct Ht as [-> | ->]; holds|].
  intros F w HI. exists X. split; [|done].
  assert (inv n (X ⊎ F) (after_drain sub_Drain p w)) as HI'
    by (destruct Ht as [-> | ->]; [by apply inv_drain_dead|by apply inv_drain_made]).
  unfold after_drain, drain in HI'. by rewrite run_atomically in HI'.
Qed.

Lemma own_drain_made {A} i (k : option error -> A) :
  own call_holds {[+ Made i +]} (e ← drain sub_Drain i ; mret (k e)) (fun _ r => r = ∅).
Proof.
  eapply owned_bind.
  - rewrite <-(right_id_L ∅ (⊎) {[+ Made i +]}). apply own_drain; [intros ?; mult|auto].
  - intros e r _ ->. by apply owned_ret; [intros ?; mult|].
Qed.

(** A subscription that was taken over is released and drained. *)
Lemma own_release_drain p X {A} (k : option error -> nprg A) Q :
  call_holds X -> aside X -> (∀ e, own call_holds X (k e) Q) ->
  own call_holds ({[+ Taken p +]} ⊎ X) (release p ;; e ← drain sub_Drain p ; k e) Q.
Proof.
  intros HK Ha Hk. eapply owned_bind; [by apply own_release|]. intros [] r _ ->.
  eapply owned_bind; [apply (own_drain (Dead p)); auto|]. intros e r _ ->. apply Hk.
Qed.

Lemma own_conn_subscribe i g :
  own call_holds ({[+ New_ i +]} ⊎ {[+ Gen g +]}) (conn_subscribe conn_Subscribe i)
    (fun e r => match e with None => r = {[+ Made i +]} ⊎ {[+ Gen g +]} | Some _ => r = ∅ end).
Proof.
  apply owned_last_atomically; [holds|]. intros F w HI.
  destruct (conn_Subscribe i) as [e|]; simpl.
  - exists ∅. split; [|split; [intros ?; mult|done]]. apply (inv_forget n ∅ F w i).
    eapply inv_forget_gen; [exact HI|intros t; mult|intros t Ht; mult].
  - exists ({[+ Made i +]} ⊎ {[+ Gen g +]}). split; [by apply inv_make|]. split; [holds|done].
Qed.

(** Without its generation a call still owns what it has made. *)
Lemma own_install i g :
  own call_holds ({[+ Made i +]} ⊎ {[+ Gen g +]}) (install i g)
    (fun v r => match v with Installed => r = {[+ Launch i +]} | _ => r = {[+ Made i +]} end).
Proof.
  apply owned_last_atomically; [holds|]. intros F w HI.
  assert (inv n ({[+ Made i +]} ⊎ F) w) as HI'.
  { eapply inv_forget_gen; [exact HI|intros t; mult|intros t Ht; mult]. }
  destruct (n_closed w) eqn:Hc; simpl.
  { exists {[+ Made i +]}. split; [done|]. split; [holds|done]. }
  case_bool_decide as Hg; simpl.
  - exists {[+ Launch i +]}. split; [|split; [holds|done]].
    rewrite <-(right_id_L ∅ (⊎) {[+ Launch i +]}). apply inv_install; [done|]. by rewrite Hg, (right_id_L ∅ (⊎)).
  - exists {[+ Made i +]}. split; [done|]. split; [holds|done].
Qed.

Lemma own_Subscribe i :
  (Z.of_nat n < 2 ^ 64)%Z ->
  own call_holds ({[+ Call +]} ⊎ {[+ New_ i +]}) (Subscribe conn_Subscribe sub_Drain i)
    (fun _ r => r = ∅).
Proof.
  clear choose. intros Hn. unfold Subscribe, claim_generation. apply owned_atomically; [holds|].
  intros F w HI. destruct (n_closed w) eqn:Hc; cbn [fst snd].
  { exists ∅. split; [|by apply owned_ret; [intros ?; mult|]].
    apply (inv_forget n ∅ F w i). eapply inv_forget_gen; [exact HI|intros t; mult|intros t Ht; mult]. }
  exists (taken (n_cur w) ⊎ ({[+ Gen ((n_gen w + 1) mod 2 ^ 64) +]} ⊎ {[+ New_ i +]})).
  split; [by rewrite <-Hc; apply inv_claimed|]. clear HI Hc F. generalize ((n_gen w + 1) mod 2 ^ 64)%Z as g.
  intros g. eapply (owned_bind _ _ _ _ _ _ _ (fun _ r => r = {[+ New_ i +]} ⊎ {[+ Gen g +]})).
  { rewrite (comm_L (⊎) {[+ Gen g +]}). destruct (n_cur w) as [p|]; cbn [taken].
    - apply (own_release_drain p _ (fun _ => mret tt)); [holds|intros ?; mult|]. intros e. apply owned_ret; [holds|done].
    - rewrite (left_id_L ∅ (⊎)). apply owned_ret; [holds|done]. }
  intros [] r _ ->. eapply owned_bind; [apply own_conn_subscribe|].
  intros [e|] r _ ->; [by apply owned_ret; [intros ?; mult|]|].
  eapply owned_bind; [apply own_install|]. intros [] r _ ->.
  - by apply own_drain_made.
  - by apply own_drain_made.
  - apply owned_modify; [holds|]. intros F' w' HI'. exists ∅.
    split; [|by apply owned_ret; [intros ?; mult|]]. apply inv_launch.
    by rewrite (right_id_L ∅ (⊎)).
Qed.

(** ** Close, Publish and the contexts *)
Lemma own_Close : own call_holds ∅ (Close sub_Drain) (fun _ r => r = ∅).
Proof.
  apply owned_atomically; [intros ?; mult|]. intros F w HI.
  destruct (n_closed w) eqn:Hc; cbn [fst snd].
  { exists ∅. split; [done|]. by apply owned_ret; [intros ?; mult|]. }
  exists (taken (n_cur w) ⊎ ∅). split; [by apply inv_shut|]. destruct (n_cur w) as [p|]; cbn [taken].
  - apply own_release_drain; [intros ?; mult|intros ?; mult|]. intros e. by apply owned_ret; [intros ?; mult|].
  - rewrite (left_id_L ∅ (⊎)). by apply owned_ret; [intros ?; mult|].
Qed.

Lemma own_Publish subj conn_Publish json_Marshal ctx msg :
  own call_holds ∅ (Publish subj conn_Publish json_Marshal ctx msg) (fun _ r => r = ∅).
Proof.
  assert (call_holds ∅) as H0 by (intros ?; mult).
  apply owned_atomically; [done|]. intros F w HI. exists ∅. split; [done|].
  destruct (n_closed w); [by apply owned_ret|].
  apply owned_atomically; [done|]. intros F' w' HI'. exists ∅. split; [done|].
  destruct (ctx_done w' ctx); [by apply owned_ret|].
  destruct (json_Marshal msg); [by apply owned_ret|].
  apply owned_modify; [done|]. intros F2 w2 HI2. exists ∅. split; [by apply inv_other|by apply owned_ret].
Qed.
(** ** The watcher *)
Lemma watcher_holds_at i t :
  t = Watch i \/ t = Active i \/ t = Closing i -> watcher_holds i {[+ t +]}.
Proof. unfold watcher_holds. naive_solver. Qed.

(** The watcher drains without being responsible. *)
Lemma own_drain_active i :
  own (watcher_holds i) {[+ Active i +]} (drain sub_Drain i) (fun _ r => r = {[+ Active i +]}).
Proof.
  apply owned_last_atomically; [apply watcher_holds_at; auto|]. intros F w HI.
  exists {[+ Active i +]}. split; [|split; [apply watcher_holds_at; auto|done]].
  assert (inv n ({[+ Active i +]} ⊎ F) (after_drain sub_Drain i w)) as HI'.
  { apply inv_after_drain; [|done]. pose proof (inv_sub _ _ _ HI i) as Hi.
    destruct (n_subs w !! i); [done|]. revert Hi. sub_tokens. sub_cases. }
  unfold after_drain, drain in HI'. by rewrite run_atomically in HI'.
Qed.

Lemma own_watcher_exit i (b : bool) :
  own (watcher_holds i) {[+ Active i +]}
    ((if b then _ ← drain sub_Drain i ; mret tt else mret tt) ;;
     modify (fun w => add_watchers (-1) (upd_sub (set_watcher Exited) i w)) ;;
     modify (upd_sub set_done i)) (fun _ r => r = ∅).
Proof.
  eapply (owned_bind _ _ _ _ _ _ _ (fun _ r => r = {[+ Active i +]})).
  { destruct b; [|apply owned_ret; [apply watcher_holds_at; auto|done]].
    eapply owned_bind; [apply own_drain_active|]. intros e r _ ->.
    apply owned_ret; [apply watcher_holds_at; auto|done]. }
  intros [] r _ ->. apply owned_modify; [apply watcher_holds_at; auto|]. intros F w HI.
  exists {[+ Closing i +]}. split; [by apply inv_exit|].
  apply owned_last_atomically; [apply watcher_holds_at; auto|]. intros F' w' HI'.
  exists ∅. split; [by apply inv_close_done|]. split; [by right; right; right|done].
Qed.

Lemma own_watcher i ctx :
  own (watcher_holds i) {[+ Watch i +]} (watcher sub_Drain choose i ctx) (fun _ r => r = ∅).
Proof.
  apply owned_await; [apply watcher_holds_at; auto|]. intros F w HI. case_bool_decide as Hr.
  2: { left. by exists i. }
  exists {[+ Active i +]}. split; [by apply inv_activate|].
  apply owned_await; [apply watcher_holds_at; auto|]. clear HI Hr F w. intros F w HI.
  destruct (ctx_done w ctx), (s_stop (sub_at w i)) eqn:Hs.
  - exists {[+ Active i +]}. split; [by apply inv_other|apply own_watcher_exit].
  - exists {[+ Active i +]}. split; [done|apply (own_watcher_exit i true)].
  - exists {[+ Active i +]}. split; [done|apply (own_watcher_exit i false)].
  - right. left. by exists i.
Qed.
End Threads.

(** ** Pools of calls *)
Section Pool.
Context (conn_Subscribe sub_Drain : nat -> option error).
Context (subj : string) (conn_Publish : string -> bytes -> option error).
Context (json_Marshal : AdapterMessage -> error + bytes) (choose : nat -> bool).
Context (calls : list call).
Abbreviation pool := (adapter_pool conn_Subscribe sub_Drain subj conn_Publish json_Marshal choose calls).

Definition call_tokens (i : nat) (c : call) : tokens :=
  match c with CallSubscribe _ => {[+ Call +]} ⊎ {[+ New_ i +]} | _ => ∅ end.

Definition watcher_tokens (i : nat) (c : call) : tokens :=
  match c with CallSubscribe _ => {[+ Watch i +]} | _ => ∅ end.

Definition holders : list (tokens -> Prop) :=
  imap (fun _ _ => call_holds) calls ++ imap (fun i _ => watcher_holds i) calls.

Abbreviation I := (inv (length calls)).
Abbreviation ok := (thread_ok I waiting).

Lemma call_thread_ok i c :
  (Z.of_nat (length calls) < 2 ^ 64)%Z ->
  ok call_holds (call_thread conn_Subscribe sub_Drain subj conn_Publish json_Marshal i c) (call_tokens i c).
Proof.
  intros Hn. assert (call_holds ∅) as H0 by (intros ?; mult).
  unfold thread_ok. destruct c as [ctx| |ctx msg|k]; cbn [call_thread call_tokens].
  - eapply owned_bind; [by apply own_Subscribe|]. intros e r _ ->. by apply owned_ret.
  - eapply owned_bind; [by apply own_Close|]. intros e r _ ->. by apply owned_ret.
  - eapply owned_bind; [by apply own_Publish|]. intros e r _ ->. by apply owned_ret.
  - apply owned_modify; [done|]. intros F w HI. exists ∅. split; [by apply inv_other|by apply owned_ret].
Qed.

Lemma watcher_thread_ok i c :
  ok (watcher_holds i) (watcher_thread sub_Drain choose i c) (watcher_tokens i c).
Proof.
  destruct c as [ctx| |ctx msg|k]; cbn [watcher_thread watcher_tokens].
  1: by apply own_watcher.
  all: by apply owned_ret; [right; right; right|].
Qed.

Definition initial : list tokens := imap call_tokens calls ++ imap watcher_tokens calls.

Lemma initial_mult t i :
  about t = Some i ->
  m t (held initial) =
  from_option (fun c => m t (call_tokens i c) + m t (watcher_tokens i c)) 0 (calls !! i).
Proof.
  intros Ht. unfold initial. rewrite multiplicity_held_app.
  rewrite !(multiplicity_held_imap_at _ _ _ i).
  - by destruct (calls !! i).
  - intros j [] Hj; simpl; mult.
  - intros j [] Hj; simpl; mult.
Qed.

Lemma initial_inv : I (held initial) new_adapter.
Proof.
  assert (∀ t, about t = None -> m t (held (imap watcher_tokens calls)) = 0) as Hw.
  { intros t Ht. apply multiplicity_held_imap_zero. intros j []; simpl; mult. }
  constructor; simpl; try done.
  - unfold initial. rewrite multiplicity_held_app, Hw by done.
    assert (m Call (held (imap call_tokens calls)) <= length calls); [|lia].
    apply multiplicity_held_imap_le. intros j []; simpl; mult.
  - intros g. assert (m (Gen g) (held initial) = 0) as ->; [|lia].
    unfold initial. rewrite multiplicity_held_app, Hw by done.
    rewrite multiplicity_held_imap_zero; [done|]. intros j []; simpl; mult.
  - intros i. unfold sub_ok, owners. rewrite lookup_empty, !(initial_mult _ i) by done.
    unfold at_cur. rewrite bool_decide_false by done.
    destruct (calls !! i) as [[]|]; simpl; eval_tokens; lia.
  - split; [constructor|]. intros i. rewrite lookup_empty. split; [by intros ?%elem_of_nil|naive_solver].
Qed.

Context (Hlen : (Z.of_nat (length calls) < 2 ^ 64)%Z).

Lemma initial_owned : pool_owned I waiting holders (pool, new_adapter).
Proof.
  exists initial. split; [|by apply initial_inv]. apply Forall3_app.
  - apply Forall3_imap. intros i c. by apply call_thread_ok.
  - apply Forall3_imap. intros i c. apply watcher_thread_ok.
Qed.

Lemma reach_owned ps w :
  pool_reach (pool, new_adapter) (ps, w) -> pool_owned I waiting holders (ps, w).
Proof. intros Hr. eapply pool_owned_reach; [done|apply initial_owned]. Qed.

(** ** What the tokens say at the end *)
Definition returned (ps : list (nprg unit)) : Prop :=
  ∀ i, i < length calls -> ps !! i = Some (mret tt).

(** Once the calls have returned only watchers hold anything. *)
Lemma returned_tokens ps rs t :
  Forall3 ok (holders) ps rs -> returned ps -> t ∈ held rs ->
  ∃ i, t = Watch i \/ t = Active i \/ t = Closing i.
Proof.
  intros HF Hret (i & r & Hi & Ht)%elem_of_held.
  destruct (Forall3_lookup_r _ _ _ _ _ _ HF Hi) as (K & p & HK & Hp & Hok).
  destruct (decide (i < length calls)) as [Hlt|Hge].
  - rewrite (Hret i Hlt) in Hp. simplify_eq. destruct Hok as [_ ->]. multiset_solver.
  - unfold holders in HK. rewrite lookup_app_r in HK by (rewrite length_imap; lia).
    rewrite list_lookup_imap, length_imap in HK. apply fmap_Some in HK as (c & _ & ->).
    apply owned_K in Hok. exists (i - length calls).
    destruct Hok as [-> |[-> |[-> | ->]]]; multiset_solver.
Qed.

(** In a pool that cannot move, nobody holds what somebody else waits for. *)
Lemma stuck_tokens ps w rs t j :
  Forall3 ok holders ps rs -> I (held rs) w -> (∀ s, ¬ pool_step (ps, w) s) ->
  t ∈ held rs -> t = Launch j \/ t = Watch j \/ t = Active j \/ t = Closing j ->
  (t = Watch j /\ s_watcher (sub_at w j) <> Running) \/ (t = Active j /\ s_stop (sub_at w j) = false).
Proof.
  intros HF HI Hst (i & r & Hi & Ht)%elem_of_held Hj.
  destruct (pool_owned_stuck _ _ _ _ _ _ _ _ HF HI Hst Hi) as [[-> _]|Hw]; [multiset_solver|].
  destruct Hw as [(k & -> & Hr)|[(k & -> & Hr)|(k & X & -> & HX & Hr)]].
  - left. apply gmultiset_elem_of_singleton in Ht. naive_solver.
  - right. apply gmultiset_elem_of_singleton in Ht. naive_solver.
  - exfalso. apply gmultiset_elem_of_disj_union in Ht as [Ht|Ht].
    + apply gmultiset_elem_of_singleton in Ht. naive_solver.
    + rewrite elem_of_multiplicity in Ht. specialize (HX j). destruct_or? Hj; subst; lia.
Qed.

(** A call is never left waiting. *)
Lemma stuck_returned ps w :
  pool_owned I waiting holders (ps, w) -> (∀ s, ¬ pool_step (ps, w) s) -> returned ps.
Proof.
  intros (rs & HF & HI) Hst i Hlt. simpl in *.
  pose proof (Forall3_length_lm _ _ _ _ HF). pose proof (Forall3_length_lr _ _ _ _ HF).
  unfold holders in *. rewrite length_app, !length_imap in *.
  destruct (lookup_lt_is_Some_2 rs i) as [r Hi]; [lia|].
  destruct (pool_owned_stuck _ _ _ _ _ _ _ _ HF HI Hst Hi) as [[_ Hp]|Hw]; [done|exfalso].
  destruct (Forall3_lookup_r _ _ _ _ _ _ HF Hi) as (K & p & HK & Hp & Hok).
  rewrite lookup_app_l, list_lookup_imap in HK by (rewrite length_imap; lia).
  apply fmap_Some in HK as (c & _ & ->). apply owned_K in Hok.
  destruct Hw as [(k & -> & _)|[(k & -> & _)|(k & X & -> & HX & Hd)]].
  1, 2: specialize (Hok k); revert Hok; eval_tokens; lia.
  assert (0 < m (Stopped k) (held rs)) as HS.
  { rewrite <-elem_of_multiplicity. eapply elem_of_held_2; [done|]. multiset_solver. }
  assert (∀ t, t = Launch k \/ t = Watch k \/ t = Active k \/ t = Closing k -> 0 < m t (held rs) ->
    (t = Watch k /\ s_watcher (sub_at w k) <> Running) \/ (t = Active k /\ s_stop (sub_at w k) = false))
    as Hbusy.
  { intros t Ht Hm. eapply stuck_tokens; [done..| |done]. by rewrite elem_of_multiplicity. }
  pose proof (inv_sub _ _ _ HI k) as Hk. 
  pose proof (Hbusy (Launch k)) as HL. pose proof (Hbusy (Watch k)) as HWt.
  pose proof (Hbusy (Active k)) as HA. pose proof (Hbusy (Closing k)) as HC.
  clear Hbusy. revert Hk Hd HL HWt HA HC. unfold sub_at, sub_ok, owners.
  destruct (n_subs w !! k) as [[st dn dr wt]|]; simpl; [|lia].
  intros Hk -> HL HWt HA HC. assert (st = true) as -> by (apply Hk; lia).
  assert (m (Launch k) (held rs) = 0) by (destruct (m (Launch k) (held rs)); naive_solver lia).
  assert (m (Active k) (held rs) = 0) by (destruct (m (Active k) (held rs)); naive_solver lia).
  assert (m (Closing k) (held rs) = 0) by (destruct (m (Closing k) (held rs)); naive_solver lia).
  destruct wt; unfold installed in Hk; simpl in Hk; [lia|lia| |lia].
  assert (m (Watch k) (held rs) = 0) by (destruct (m (Watch k) (held rs)); naive_solver lia). lia.
Qed.

(** ** Properties *)

(** however the calls of [Subscribe], [Close] and [Publish] overlap,
    whatever contexts are cancelled and whatever NATS answers, no subscription
    is drained twice, only subscriptions that were made are drained, and
    [watchers] counts exactly the watcher goroutines that are alive. *)
Theorem nats_drains_once ps w :
  pool_reach (pool, new_adapter) (ps, w) ->
  NoDup (n_drains w) /\
  (∀ i, i ∈ n_drains w <-> ∃ s, n_subs w !! i = Some s /\ is_Some (s_drained s)) /\
  n_watchers w = wrap64 (Z.of_nat (live_watchers w)).
Proof.
  intros (rs & _ & HI)%reach_owned. destruct (inv_drains _ _ _ HI). split; [done|].
  split; [done|]. apply HI.
Qed.

(** C15: a closed adapter leaks nothing.  Once every call has returned, every
    subscription ever made has been drained and no watcher is left running,
    also for the calls that lost a race against [Close] or against another
    [Subscribe] while NATS was making their subscription. *)
Theorem nats_closed_no_leak ps w :
  pool_reach (pool, new_adapter) (ps, w) -> returned ps -> n_closed w = true ->
  (∀ i s, n_subs w !! i = Some s ->
     is_Some (s_drained s) /\ (s_watcher s = Absent \/ s_watcher s = Exited)) /\
  n_watchers w = 0%Z.
Proof.
  intros (rs & HF & HI)%reach_owned Hret Hcl. simpl in *.
  assert (∀ t, (∀ i, t <> Watch i /\ t <> Active i /\ t <> Closing i) -> m t (held rs) = 0) as H0.
  { intros t Ht. destruct (m t (held rs)) eqn:Hm; [done|exfalso].
    destruct (returned_tokens ps rs t HF Hret) as [i Hi]; [rewrite elem_of_multiplicity; lia|].
    specialize (Ht i). naive_solver. }
  assert (∀ i s, n_subs w !! i = Some s ->
     is_Some (s_drained s) /\ (s_watcher s = Absent \/ s_watcher s = Exited)) as Hall.
  { intros i s Hs. pose proof (inv_sub _ _ _ HI i) as Hi. rewrite Hs in Hi. revert Hi.
    unfold sub_ok, owners, at_cur. rewrite (inv_closed _ _ _ HI Hcl), bool_decide_false by done.
    rewrite (H0 (Made i)), (H0 (Taken i)), (H0 (Stopped i)), (H0 (Dead i)) by done.
    destruct s as [st dn [e|] wt]; unfold is_drained, installed; simpl; [|intros Hi; exfalso; lia].
    destruct wt, dn; simpl; intros Hi; try (split; [done|auto]; fail); exfalso; lia. }
  split; [done|]. rewrite (inv_count _ _ _ HI).
  assert (¬ 0 < live_watchers w) as Hl; [|by replace (live_watchers w) with 0 by lia].
  intros (i & s & Hs & Hc)%count_if_pos. destruct (Hall i s Hs) as [_ [Hw|Hw]];
    unfold counted in Hc; by rewrite Hw in Hc.
Qed.

(** C16: the calls return.  No schedule runs for ever, and when no goroutine of
    the pool can move, every call of [Subscribe], [Close] and [Publish] has
    returned; a wait for a watcher always ends. *)
Theorem nats_calls_return ps w :
  pool_reach (pool, new_adapter) (ps, w) ->
  Acc (fun s' s => pool_step s s') (ps, w) /\
  ((∀ s, ¬ pool_step (ps, w) s) -> returned ps).
Proof.
  intros Hr. split; [apply pool_step_acc|]. by apply stuck_returned, reach_owned.
Qed.
End Pool.

(** ** A pool at work *)
Section Example.

(** Two calls of [Subscribe] race, the first is superseded while NATS makes
    its subscription; then the adapter is closed. *)
Definition race_calls : list call := [CallSubscribe Background; CallSubscribe (Ctx 0); CallClose].

Definition race_pool : list (nprg unit) :=
  adapter_pool (fun _ => None) (fun _ => None) "wshub.messages" (fun _ _ => None)
    (fun _ => inl ErrContext) (fun _ => true) race_calls.

Definition race_schedule : list nat := [0; 1; 0; 0; 0; 1; 1; 1; 4; 2; 2; 4; 4; 4; 2; 2].

Lemma race_reaches :
  ∃ ps w, pool_reach (race_pool, new_adapter) (ps, w) /\ returned race_calls ps /\
    n_closed w = true /\ n_drains w = [1; 0].
Proof.
  destruct (replay race_schedule (race_pool, new_adapter) (fun ps w =>
    forallb has_returned (take 3 ps) && bool_decide (3 <= length ps) && n_closed w &&
    bool_decide (n_drains w = [1; 0]))) as (ps & w & Hr & Ho); [by vm_compute|].
  apply andb_prop in Ho as [Ho Hd]. apply andb_prop in Ho as [Ho Hc]. apply andb_prop in Ho as [Ho Hl].
  apply bool_decide_eq_true in Hd, Hl. exists ps, w. split; [done|]. split; [|done].
  intros i Hi. destruct (lookup_lt_is_Some_2 ps i) as [p Hp]; [simpl in Hi; lia|].
  rewrite forallb_forall in Ho. rewrite Hp. f_equal. apply has_returned_ret, Ho.
  apply list_elem_of_In. apply list_elem_of_lookup. exists i. by rewrite lookup_take_lt.
Qed.
End Example.

(** ** The properties at work *)
Lemma nats_drains_once_witness :
  ∃ ps w, pool_reach (race_pool, new_adapter) (ps, w) /\ n_drains w = [1; 0] /\ NoDup (n_drains w).
Proof.
  destruct race_reaches as (ps & w & Hr & _ & _ & Hd). exists ps, w. split; [done|]. split; [done|].
  apply (nats_drains_once (fun _ => None) (fun _ => None) "wshub.messages" (fun _ _ => None)
           (fun _ => inl ErrContext) (fun _ => true) race_calls ltac:(vm_compute; done) ps w Hr).
Defined.

Lemma nats_closed_no_leak_witness :
  ∃ ps w, pool_reach (race_pool, new_adapter) (ps, w) /\ n_drains w = [1; 0] /\ n_watchers w = 0%Z.
Proof.
  destruct race_reaches as (ps & w & Hr & Hret & Hc & Hd). exists ps, w. split; [done|]. split; [done|].
  apply (nats_closed_no_leak (fun _ => None) (fun _ => None) "wshub.messages" (fun _ _ => None)
           (fun _ => inl ErrContext) (fun _ => true) race_calls ltac:(vm_compute; done) ps w Hr Hret Hc).
Defined.

Lemma nats_calls_return_witness :
  ∃ ps w, pool_reach (race_pool, new_adapter) (ps, w) /\ n_drains w = [1; 0] /\
    Acc (fun s' s => pool_step s s') (ps, w).
Proof.
  destruct race_reaches as (ps & w & Hr & Hret & Hc & Hd). exists ps, w. split; [done|]. split; [done|].
  apply (nats_calls_return (fun _ => None) (fun _ => None) "wshub.messages" (fun _ _ => None)
           (fun _ => inl ErrContext) (fun _ => true) race_calls ltac:(vm_compute; done) ps w Hr).
Defined.
