(* ===== verification/Network.v ===== *)
(** * Network: several nodes and the bus between them

    A cluster is a map from node IDs to nodes: a hub's environment, its state
    and the messages its subscription has not handled yet.  Whatever a node
    hands to its adapter is encoded and put in every node's inbox, its own
    included, as NATS and Redis do; a step of the cluster is one node handling
    the first message of its inbox with the callback of [Nats] over
    [handleAdapterMessage].  Nodes proceed in any order. *)

From S2P Require Import Nats.
From S2P Require Import Prelude Prog Types Config World Invariant Send Client Rooms RoomSpec.
From S2P Require Import Registry RegistrySpec Pool Broadcast BroadcastSpec DeliverySpec Presence.
From S2P Require Import PresenceSpec Cluster ClusterSpec.

Record node := mkNode {
  nd_env : HubEnv;
  nd_cfg : adapter_config world;
  nd_world : world;
  nd_inbox : list bytes
}.

Abbreviation cluster := (gmap string node).

(** What a run published, oldest first. *)
Definition sent (w w' : world) : list AdapterMessage :=
  reverse (take (length (published (w_trace w')) - length (published (w_trace w)))
             (published (w_trace w'))).

Lemma sent_app w w' l :
  published (w_trace w') = l ++ published (w_trace w) -> sent w w' = reverse l.
Proof. intros H. unfold sent. rewrite H, length_app, Nat.add_sub. by rewrite take_app_length. Qed.

Section Bus.
Context {RT : Runtime}.
Context (marshal : AdapterMessage -> error + bytes) (unmarshal : bytes -> error + AdapterMessage).
Context (dec : bytes -> error + nodePresence).

(** A message the codec refuses is not published. *)
Definition on_wire (ms : list AdapterMessage) : list bytes :=
  omap (fun m => match marshal m with inr d => Some d | inl _ => None end) ms.

Definition deposit (ds : list bytes) (n : node) : node :=
  mkNode (nd_env n) (nd_cfg n) (nd_world n) (nd_inbox n ++ ds).

(** Node [k], which was [n], ends in [w'] with inbox [ds]; what it published is
    in every inbox. *)
Definition perform (k : string) (n : node) (ds : list bytes) (w' : world) (C : cluster) : cluster :=
  deposit (on_wire (sent (nd_world n) w')) <$> <[k := mkNode (nd_env n) (nd_cfg n) w' ds]> C.

Definition receive (n : node) (d : bytes) : prg unit :=
  on_message unmarshal (nd_cfg n) (handleAdapterMessage (nd_env n) dec) d.

Inductive cstep : cluster -> cluster -> Prop :=
  | step_receive C k n d ds w' :
      C !! k = Some n -> nd_inbox n = d :: ds -> run (receive n d) (nd_world n) = Some (tt, w') ->
      cstep C (perform k n ds w' C).

(** ** A cluster that only receives *)

(** Handling [ds] in order from [w] ends in [w'] and publishes nothing. *)
Inductive receives (n : node) : list bytes -> world -> world -> Prop :=
  | receives_nil w : receives n [] w w
  | receives_cons d ds w w1 w' :
      run (receive n d) w = Some (tt, w1) -> published (w_trace w1) = published (w_trace w) ->
      receives n ds w1 w' -> receives n (d :: ds) w w'.

(** Every node will handle its inbox and end as [fin] says. *)
Definition settling (fin : string -> world) (C : cluster) : Prop :=
  ∀ k n, C !! k = Some n -> receives n (nd_inbox n) (nd_world n) (fin k).

Lemma deposit_nil n : deposit [] n = n.
Proof. unfold deposit. rewrite app_nil_r. by destruct n. Qed.

Lemma perform_silent k n ds w' C :
  published (w_trace w') = published (w_trace (nd_world n)) ->
  perform k n ds w' C = <[k := mkNode (nd_env n) (nd_cfg n) w' ds]> C.
Proof.
  intros Hp. unfold perform. rewrite (sent_app _ _ [] Hp). cbn [reverse on_wire omap].
  rewrite <-(map_fmap_id (<[_ := _]> C)) at 2. apply map_fmap_ext.
  intros i n' _. apply deposit_nil.
Qed.

(** The wires of a node do not change the way it handles a message. *)
Lemma receives_same n n' ds w w' :
  nd_env n' = nd_env n -> nd_cfg n' = nd_cfg n -> receives n ds w w' -> receives n' ds w w'.
Proof.
  intros He Hc. induction 1 as [|d ds w w1 w' Hr Hp _ IH]; [constructor|].
  econstructor; [|done..]. unfold receive. by rewrite He, Hc.
Qed.

Lemma settling_step fin C C' : settling fin C -> cstep C C' -> settling fin C'.
Proof.
  intros Hs Hst. destruct Hst as [C k n d ds w' Hk Hin Hrun].
  pose proof (Hs k n Hk) as Hn. rewrite Hin in Hn.
  inversion Hn as [|? ? ? w1 ? Hr Hp Hrest]; simplify_eq.
  rewrite perform_silent by done. intros j n'. rewrite lookup_insert_Some.
  intros [[<- <-]|[Hne Hj]]; [|by apply Hs]. by apply (receives_same n).
Qed.

Lemma settling_steps fin C C' : settling fin C -> rtc cstep C C' -> settling fin C'.
Proof. intros Hs. induction 1; eauto using settling_step. Qed.

Lemma settling_progress fin C k n :
  settling fin C -> C !! k = Some n -> nd_inbox n <> [] -> red cstep C.
Proof.
  intros Hs Hk Hne. pose proof (Hs k n Hk) as Hn.
  destruct (nd_inbox n) as [|d ds] eqn:Hin; [done|].
  inversion Hn as [|? ? ? w1 ? Hr]; simplify_eq. eexists. by eapply step_receive.
Qed.

(** Messages still to be handled, in the whole cluster. *)
Definition pending (C : cluster) : nat := map_fold (fun _ n acc => length (nd_inbox n) + acc) 0 C.

Lemma pending_lookup C k n :
  C !! k = Some n -> pending C = length (nd_inbox n) + pending (delete k C).
Proof.
  intros Hk. unfold pending.
  rewrite <-(insert_delete_id C k n Hk) at 1.
  rewrite (map_fold_insert_L (fun _ n acc => length (nd_inbox n) + acc)); [done|intros; lia|].
  apply lookup_delete_eq.
Qed.

Lemma pending_silent C k n d ds w' :
  C !! k = Some n -> nd_inbox n = d :: ds ->
  published (w_trace w') = published (w_trace (nd_world n)) ->
  pending (perform k n ds w' C) < pending C.
Proof.
  intros Hk Hin Hp. rewrite perform_silent by done. rewrite (pending_lookup C k n Hk).
  rewrite (pending_lookup _ k (mkNode (nd_env n) (nd_cfg n) w' ds)) by apply lookup_insert_eq.
  rewrite delete_insert_eq, Hin. cbn [nd_inbox length]. lia.
Qed.

Lemma pending_step fin C C' : settling fin C -> cstep C C' -> pending C' < pending C.
Proof.
  intros Hs Hst. destruct Hst as [C k n d ds w' Hk Hin Hrun].
  pose proof (Hs k n Hk) as Hn. rewrite Hin in Hn.
  inversion Hn as [|? ? ? w1 ? Hr Hp Hrest]; simplify_eq. by eapply pending_silent.
Qed.

(** It always comes to rest, whatever the order of the steps, and every node
    where its own messages lead it. *)
Lemma settling_sn fin C : settling fin C -> sn cstep C.
Proof.
  remember (pending C) as m eqn:Hm. revert C Hm.
  induction m as [m IH] using lt_wf_ind. intros C -> Hs. constructor. intros C' Hst.
  eapply IH; [|done|by eapply settling_step]. by eapply pending_step.
Qed.

Lemma settling_rest fin C C' k n' :
  settling fin C -> rtc cstep C C' -> nf cstep C' -> C' !! k = Some n' ->
  nd_inbox n' = [] /\ nd_world n' = fin k.
Proof.
  intros Hs Hsteps Hnf Hk. pose proof (settling_steps _ _ _ Hs Hsteps) as Hs'.
  destruct (decide (nd_inbox n' = [])) as [He|Hne].
  - split; [done|]. specialize (Hs' k n' Hk). rewrite He in Hs'. by inversion Hs'.
  - destruct Hnf. by eapply settling_progress.
Qed.

(** Choosing, for each node, where it ends. *)
Definition after (n : node) (ds : list bytes) (w : world) : world :=
  foldl (fun w d => match run (receive n d) w with Some (_, w') => w' | None => w end) w ds.

Lemma receives_after n ds w w' : receives n ds w w' -> after n ds w = w'.
Proof. induction 1 as [|d ds w w1 w' Hr _ _ IH]; [done|]. cbn [after foldl]. by rewrite Hr. Qed.

Lemma settling_intro (w0 : world) (Q : string -> node -> world -> Prop) C :
  (∀ k n, C !! k = Some n -> ∃ w', receives n (nd_inbox n) (nd_world n) w' /\ Q k n w') ->
  ∃ fin, settling fin C /\ ∀ k n, C !! k = Some n -> Q k n (fin k).
Proof.
  intros H. exists (fun k => match C !! k with
    | Some n => after n (nd_inbox n) (nd_world n) | None => w0 end).
  split; intros k n Hk; rewrite Hk; destruct (H k n Hk) as (w' & Hr & HQ);
    by rewrite (receives_after _ _ _ _ Hr).
Qed.

Lemma lookup_perform k n ds w' C j :
  perform k n ds w' C !! j = deposit (on_wire (sent (nd_world n) w')) <$>
    (if decide (k = j) then Some (mkNode (nd_env n) (nd_cfg n) w' ds) else C !! j).
Proof.
  unfold perform. rewrite lookup_fmap. f_equal. case_decide.
  - subst. apply lookup_insert_eq.
  - by apply lookup_insert_ne.
Qed.

(** A node drops what it sent itself. *)
Lemma receive_own n m d w :
  unmarshal d = inr m -> am_NodeID m = nodeID (nd_env n) -> run (receive n d) w = Some (tt, w).
Proof.
  intros Hd Hm. unfold receive, on_message. rewrite Hd. unfold handleAdapterMessage.
  by rewrite bool_decide_eq_true_2.
Qed.

Lemma receives_one n d w w' :
  run (receive n d) w = Some (tt, w') -> published (w_trace w') = published (w_trace w) ->
  receives n [d] w w'.
Proof. intros Hr Hp. by econstructor; [..|constructor]. Qed.

(** ** Casting a message to an audience *)

Inductive audience :=
  | Everyone (except : list cref)
  | InRoom (name : string) (except : list cref)
  | OfUser (userID : string)
  | OneClient (id : string).

(** The operation of the hub for each. *)
Definition cast (env : HubEnv) (a : audience) (d : bytes) (mt : Z) : prg unit :=
  match a with
  | Everyone except => broadcastExceptWithType env d mt except
  | InRoom name except => _ ← broadcastToRoomExceptWithType env name d mt except ; mret tt
  | OfUser u => sendToUserWithType env u d mt
  | OneClient i => _ ← sendToClientWithType env i d mt ; mret tt
  end.

Definition exceptions (a : audience) : list cref :=
  match a with Everyone l | InRoom _ l => l | _ => [] end.

Definition excluded_ids (a : audience) (w : world) : list string :=
  map (fun c => c_ID (client w c)) (exceptions a).

(** The clients of one node that the audience names. *)
Definition addressed (a : audience) (ids : list string) (w : world) : gset cref :=
  match a with
  | Everyone _ => filter (fun c => c_ID (client w c) ∉ ids) (h_clients (w_hub w))
  | InRoom name _ =>
      match h_rooms (w_hub w) !! name with
      | Some r => filter (fun c => c_ID (client w c) ∉ ids) (r_clients (room w r))
      | None => ∅
      end
  | OfUser u => clients_of u w
  | OneClient i => clients_with_id i w
  end.

Definition message (a : audience) (ids : list string) (mt : Z) (d : bytes) : AdapterMessage :=
  match a with
  | Everyone _ => broadcast_msg mt d ids
  | InRoom name _ => room_msg mt d name ids
  | OfUser u => adapter_msg_user mt d u
  | OneClient i => adapter_msg_client mt d i
  end.

(** A node between operations: its records agree, its event loop has caught up
    with them, and its adapter answers. *)
Record healthy (k : string) (n : node) : Prop := {
  hl_id : nodeID (nd_env n) = k;
  hl_hook : silent_drop_hook (nd_env n);
  hl_serial : useParallel (nd_env n) = false;
  hl_adapter : is_Some (adapter (nd_env n));
  hl_answers : adapter_answers (nd_env n);
  hl_registry : registry (limits (nd_env n)) ∅ (nd_world n);
  hl_rooms : ∃ M, rep (limits (nd_env n)) (h_clients (w_hub (nd_world n)))
                    (fun c => c_ID (client (nd_world n) c)) M M None (nd_world n);
  hl_members : ∀ name r, h_rooms (w_hub (nd_world n)) !! name = Some r ->
    r_clients (room (nd_world n) r) ⊆ h_clients (w_hub (nd_world n));
  hl_nodup : NoDup (snapshot_slice (nd_world n));
  hl_snapshot : list_to_set (snapshot_slice (nd_world n)) = h_clients (w_hub (nd_world n));
  hl_ready : ∀ c, c ∈ h_clients (w_hub (nd_world n)) -> ready (nd_world n) c
}.

(** The excluded clients are told apart from the connected ones by their IDs;
    a room has a name. *)
Definition castable (a : audience) (w : world) : Prop :=
  match a with InRoom name _ => name <> "" | _ => True end /\
  ∀ c c', c ∈ h_clients (w_hub w) -> c' ∈ exceptions a ->
    c_ID (client w c) = c_ID (client w c') -> c = c'.

Lemma excluded_by_id a w (S : gset cref) :
  castable a w -> S ⊆ h_clients (w_hub w) ->
  S ∖ list_to_set (exceptions a) = filter (fun c => c_ID (client w c) ∉ excluded_ids a w) S.
Proof.
  intros [_ Hid] HS. apply set_eq. intros c. unfold excluded_ids.
  rewrite elem_of_filter, elem_of_difference, elem_of_list_to_set, list_elem_of_fmap.
  split; [|naive_solver]. intros [Hc Hn]. split; [|done]. intros (c' & Heq & Hc').
  destruct Hn. by rewrite (Hid c c') by auto.
Qed.

Lemma excluded_nil a w : bool_decide (exceptions a = []) = bool_decide (excluded_ids a w = []).
Proof. apply bool_decide_ext. unfold excluded_ids. by destruct (exceptions a). Qed.

Lemma healthy_members k n M name :
  healthy k n ->
  rep (limits (nd_env n)) (h_clients (w_hub (nd_world n)))
    (fun c => c_ID (client (nd_world n) c)) M M None (nd_world n) ->
  room_members M name ⊆ h_clients (w_hub (nd_world n)).
Proof.
  intros Hk Hrep. destruct (h_rooms (w_hub (nd_world n)) !! name) as [r|] eqn:Hr.
  - rewrite <-(rep_room_clients _ _ _ _ _ _ _ _ _ Hrep Hr). by eapply (hl_members _ _ Hk).
  - rewrite (rep_no_room _ _ _ _ _ _ _ _ Hrep Hr). set_solver.
Qed.

Lemma addressed_room a name l ids n M :
  a = InRoom name l ->
  rep (limits (nd_env n)) (h_clients (w_hub (nd_world n)))
    (fun c => c_ID (client (nd_world n) c)) M M None (nd_world n) ->
  addressed a ids (nd_world n) =
    filter (fun c => c_ID (client (nd_world n) c) ∉ ids) (room_members M name).
Proof.
  intros -> Hrep. cbn [addressed]. destruct (h_rooms (w_hub (nd_world n)) !! name) as [r|] eqn:Hr.
  - by rewrite (rep_room_clients _ _ _ _ _ _ _ _ _ Hrep Hr).
  - rewrite (rep_no_room _ _ _ _ _ _ _ _ Hrep Hr). set_solver.
Qed.

(** Whether the origin leaves the message to the others. *)
Definition relayed (a : audience) (w : world) : bool :=
  match a with OneClient i => bool_decide (clients_with_id i w = ∅) | _ => true end.

(** The origin's half. *)
Lemma cast_local k n a d mt :
  healthy k n -> castable a (nd_world n) ->
  let ids := excluded_ids a (nd_world n) in
  ∃ w', run (cast (nd_env n) a d mt) (nd_world n) = Some (tt, w') /\
    delivered (nd_env n) (mkSendItem mt d) (addressed a ids (nd_world n))
      (if relayed a (nd_world n) then [am_withNode k (message a ids mt d)] else []) (nd_world n) w'.
Proof.
  intros Hk Ha ids.
  assert (∀ m, publishes (nd_env n) m = [am_withNode k m]) as Hpub.
  { intros m. unfold publishes. destruct (hl_adapter _ _ Hk) as [a' ->]. by rewrite (hl_id _ _ Hk). }
  destruct a as [l|name l|u|i]; cbn [cast message relayed].
  - destruct (broadcastExcept_delivers (nd_env n) (hl_hook _ _ Hk) d mt l (nd_world n)
      (hl_serial _ _ Hk) (hl_answers _ _ Hk) (hl_nodup _ _ Hk)) as (w' & Hr & Hd).
    { intros c Hc. apply (hl_ready _ _ Hk). rewrite <-(hl_snapshot _ _ Hk). by apply elem_of_list_to_set. }
    exists w'. split; [done|]. rewrite (hl_snapshot _ _ Hk) in Hd.
    change l with (exceptions (Everyone l)) in Hd.
    rewrite (excluded_by_id (Everyone l) (nd_world n)), (excluded_nil _ (nd_world n)) in Hd by done.
    rewrite Hpub in Hd. unfold broadcast_msg. exact Hd.
  - destruct (hl_rooms _ _ Hk) as [M Hrep].
    destruct (broadcastToRoomExcept_delivers (nd_env n) (hl_hook _ _ Hk) (hl_serial _ _ Hk)
      (hl_answers _ _ Hk) _ _ M name d mt l (nd_world n) Hrep (proj1 Ha)) as (r & w' & Hr & Hd).
    { intros c Hc. apply (hl_ready _ _ Hk). by apply (healthy_members k n M name). }
    exists w'. rewrite run_bind, Hr. split; [done|].
    rewrite (addressed_room _ name l ids n M eq_refl Hrep).
    change l with (exceptions (InRoom name l)) in Hd.
    rewrite (excluded_by_id (InRoom name l) (nd_world n)), (excluded_nil _ (nd_world n)) in Hd
      by (done || by apply (healthy_members k n M name)).
    rewrite Hpub in Hd. unfold room_msg. exact Hd.
  - destruct (sendToUser_delivers (nd_env n) (hl_hook _ _ Hk) (hl_answers _ _ Hk)
      u d mt (nd_world n) (hl_registry _ _ Hk) (hl_ready _ _ Hk)) as (w' & Hr & Hd).
    exists w'. rewrite Hpub in Hd. by split.
  - destruct (sendToClient_delivers (nd_env n) (hl_hook _ _ Hk) (hl_answers _ _ Hk)
      i d mt (nd_world n) (hl_registry _ _ Hk) (hl_ready _ _ Hk)) as (r & w' & Hr & Hd).
    exists w'. rewrite run_bind, Hr. rewrite Hpub in Hd. split; [done|]. cbn [addressed]. by case_bool_decide.
Qed.

(** Another node's half. *)
Lemma cast_remote k j n a ids d mt bs :
  healthy j n -> k <> j -> unmarshal bs = inr (am_withNode k (message a ids mt d)) ->
  ∃ w', run (receive n bs) (nd_world n) = Some (tt, w') /\
    delivered (nd_env n) (mkSendItem mt d) (addressed a ids (nd_world n)) [] (nd_world n) w'.
Proof.
  intros Hj Hne Hbs. unfold receive, on_message. rewrite Hbs.
  assert (k <> nodeID (nd_env n)) as Hne' by (by rewrite (hl_id _ _ Hj)).
  destruct a as [l|name l|u|i]; cbn [message].
  - destruct (relayed_broadcast_delivers (nd_env n) (hl_hook _ _ Hj) (hl_serial _ _ Hj) dec k Hne'
      mt d ids (nd_world n) (hl_nodup _ _ Hj)) as (w' & Hr & Hd).
    { intros c Hc. apply (hl_ready _ _ Hj). rewrite <-(hl_snapshot _ _ Hj). by apply elem_of_list_to_set. }
    exists w'. split; [done|]. by rewrite (hl_snapshot _ _ Hj) in Hd.
  - destruct (hl_rooms _ _ Hj) as [M Hrep].
    destruct (relayed_room_delivers (nd_env n) (hl_hook _ _ Hj) (hl_serial _ _ Hj) dec k Hne'
      _ _ M name mt d ids (nd_world n) Hrep) as (w' & Hr & Hd).
    { intros c Hc. apply (hl_ready _ _ Hj). by apply (healthy_members j n M name). }
    exists w'. split; [done|]. by rewrite (addressed_room _ name l ids n M eq_refl Hrep).
  - by apply relayed_user_delivers; [apply (hl_hook _ _ Hj)|done|apply (hl_registry _ _ Hj)|apply (hl_ready _ _ Hj)].
  - by apply relayed_client_delivers;
      [apply (hl_hook _ _ Hj)|apply (hl_serial _ _ Hj)|done|apply (hl_registry _ _ Hj)|apply (hl_ready _ _ Hj)].
Qed.

(** No two nodes have connected clients of the same ID. *)
Definition distinct_ids (C : cluster) : Prop :=
  ∀ j1 j2 n1 n2 c1 c2, C !! j1 = Some n1 -> C !! j2 = Some n2 ->
    c1 ∈ h_clients (w_hub (nd_world n1)) -> c2 ∈ h_clients (w_hub (nd_world n2)) ->
    c_ID (client (nd_world n1) c1) = c_ID (client (nd_world n2) c2) -> j1 = j2.

Lemma not_relayed_elsewhere C k j n nj a ids :
  distinct_ids C -> C !! k = Some n -> C !! j = Some nj -> k <> j ->
  relayed a (nd_world n) = false -> addressed a ids (nd_world nj) = ∅.
Proof.
  intros Hd Hk Hj Hne. destruct a as [| | |i]; cbn [relayed addressed]; try done.
  rewrite bool_decide_eq_false. intros [c Hc]%set_choose_L. apply set_eq. intros c'.
  unfold clients_with_id in *. rewrite elem_of_filter in *. split; [|set_solver].
  intros [Hi' Hc']. destruct Hne. eapply (Hd k j n nj c c'); naive_solver congruence.
Qed.

Lemma delivered_nobody env x w : delivered env x ∅ [] w w.
Proof. by repeat split. Qed.
End Bus.

(** C10: One message, one cluster.  A node of a healthy cluster at rest casts a
    message to everyone, to a room (with exclusions), to a user or to a client
    ID.  The call returns; then, in whatever order the nodes handle what is in
    their inboxes, the cluster comes to rest, and when it does the item has
    been delivered exactly once to every connected client of every node that
    the audience names, to nobody else, and no hub or room has changed. *)
Theorem cluster_cast_delivers {RT : Runtime} (marshal : AdapterMessage -> error + bytes)
    (unmarshal : bytes -> error + AdapterMessage) (dec : bytes -> error + nodePresence)
    (C : gmap string node) (k : string) (n : node) (a : audience) (d : bytes) (mt : Z)
    (Hhealthy : ∀ j nj, C !! j = Some nj -> healthy j nj /\ nd_inbox nj = [])
    (Hids : distinct_ids C) (Hk : C !! k = Some n) (Ha : castable a (nd_world n))
    (Hcodec : ∃ bs, let m := am_withNode k (message a (excluded_ids a (nd_world n)) mt d) in
                    marshal m = inr bs /\ unmarshal bs = inr m) :
  ∃ w', run (cast (nd_env n) a d mt) (nd_world n) = Some (tt, w') /\
    let C1 := perform marshal k n [] w' C in
    sn (cstep marshal unmarshal dec) C1 /\
    ∀ C' j nj nj', rtc (cstep marshal unmarshal dec) C1 C' -> nf (cstep marshal unmarshal dec) C' ->
      C !! j = Some nj -> C' !! j = Some nj' ->
      nd_inbox nj' = [] /\
      w_hub (nd_world nj') = w_hub (nd_world nj) /\ w_rooms (nd_world nj') = w_rooms (nd_world nj) /\
      ∀ c, client (nd_world nj') c =
        if bool_decide (c ∈ addressed a (excluded_ids a (nd_world n)) (nd_world nj))
        then deliver (nd_env nj) (mkSendItem mt d) (client (nd_world nj) c)
        else client (nd_world nj) c.
Proof.
  destruct Hcodec as (bs & Henc & Hdec). set (ids := excluded_ids a (nd_world n)) in *.
  destruct (Hhealthy k n Hk) as [Hn Hempty].
  destruct (cast_local k n a d mt Hn Ha) as (w' & Hrun & Hd). fold ids in Hd.
  exists w'. split; [done|]. intros C1.
  assert (on_wire marshal (sent (nd_world n) w') = if relayed a (nd_world n) then [bs] else []) as Hw.
  { destruct Hd as (_ & _ & _ & Hp). rewrite (sent_app _ _ _ Hp).
    destruct (relayed a (nd_world n)); [|done]. cbn. by rewrite Henc. }
  set (Q := fun j (_ : node) wj => ∀ nj, C !! j = Some nj -> ∃ pub,
    delivered (nd_env nj) (mkSendItem mt d) (addressed a ids (nd_world nj)) pub (nd_world nj) wj).
  destruct (settling_intro unmarshal dec w' Q C1) as (fin & Hset & Hfin).
  { intros j nj1. subst C1. rewrite lookup_perform, Hw, fmap_Some. intros (nj & Hj & ->).
    unfold Q. case_decide as Hkj.
    - simplify_eq Hj. intros <-. subst j. exists w'. split; [|intros nj Hj'; simplify_eq; eauto].
      unfold deposit. cbn [nd_world nd_inbox app nd_env].
      destruct (relayed a (nd_world n)); [|constructor].
      apply receives_one; [|done]. eapply receive_own; [exact Hdec|]. cbn. by rewrite (hl_id _ _ Hn).
    - destruct (Hhealthy j nj Hj) as [Hnj Hej].
      unfold deposit. cbn [nd_world nd_inbox nd_env]. rewrite Hej. cbn [app].
      destruct (relayed a (nd_world n)) eqn:Hrel.
      + destruct (cast_remote unmarshal dec k j nj a ids d mt bs Hnj Hkj Hdec) as (wj & Hrj & Hdj).
        exists wj. split; [|intros nj' Hj'; simplify_eq; eauto].
        destruct Hdj as (_ & _ & _ & Hp). by apply receives_one.
      + exists (nd_world nj). split; [constructor|]. intros nj2 Hj2. rewrite Hj in Hj2. injection Hj2 as <-.
        exists []. rewrite (not_relayed_elsewhere C k j n _ a ids Hids Hk Hj Hkj Hrel).
        apply delivered_nobody. }
  split; [by eapply settling_sn|]. intros C' j nj nj' Hsteps Hnf Hj Hj'.
  destruct (settling_rest _ _ _ fin C1 C' j nj' Hset Hsteps Hnf Hj') as [Hin ->].
  assert (is_Some (C1 !! j)) as [n1 Hn1].
  { subst C1. rewrite lookup_perform, Hj. case_decide; by eexists. }
  destruct (Hfin j n1 Hn1 nj Hj) as (pub & H1 & H2 & H3 & _). by split_and!.
Qed.
