(* ===== verification/Gossip.v ===== *)
(** * Gossip: the cluster-wide counts converge

    The presence goroutines of all nodes over the bus of [Network]: a step is
    either one node handling its first message or one node's tick, which
    publishes a heartbeat and evicts the silent.  While no hub changes its
    clients or rooms, once every node has ticked and handled its messages all
    nodes report the same totals: the sums over the whole cluster. *)

From S2P Require Import Nats.
From S2P Require Import Prelude Prog Types Config World Invariant Send Client Rooms RoomSpec.
From S2P Require Import Registry RegistrySpec Pool Broadcast BroadcastSpec DeliverySpec Presence.
From S2P Require Import PresenceSpec Cluster ClusterSpec Network.

(** The nodes, what their presence goroutines remember, who has ticked. *)
Record gossip := mkGossip {
  g_nodes : gmap string node;
  g_states : gmap string presenceState;
  g_ticked : gset string
}.

Section Gossip.
Context {RT : Runtime}.
Context (marshal : AdapterMessage -> error + bytes) (unmarshal : bytes -> error + AdapterMessage).
Context (enc : nodePresence -> error + bytes) (dec : bytes -> error + nodePresence).

(** The body of a tick ([presence_step] after its wait). *)
Definition tick (env : HubEnv) (s : presenceState) : prg presenceState :=
  s' ← publishPresence env enc s ; evictStaleNodes env ;; mret s'.

Inductive gstep : gossip -> gossip -> Prop :=
  | gossip_receive C C' S T : cstep marshal unmarshal dec C C' ->
      gstep (mkGossip C S T) (mkGossip C' S T)
  | gossip_tick C S T k n s s' w' :
      C !! k = Some n -> S !! k = Some s -> run (tick (nd_env n) s) (nd_world n) = Some (s', w') ->
      gstep (mkGossip C S T)
        (mkGossip (perform marshal k n (nd_inbox n) w' C) (<[k := s']> S) ({[k]} ∪ T)).

(** ** What stays and what moves *)

(** Nothing a heartbeat reports has changed, nor the clock. *)
Record same_view (w0 w : world) : Prop := {
  sv_clients : h_clientCount (w_hub w) = h_clientCount (w_hub w0);
  sv_version : h_roomVersion (w_hub w) = h_roomVersion (w_hub w0);
  sv_names : h_rooms (w_hub w) = h_rooms (w_hub w0);
  sv_rooms : w_rooms w = w_rooms w0;
  sv_now : w_now w = w_now w0
}.

Lemma same_view_counts w0 w : same_view w0 w -> room_counts w = room_counts w0.
Proof. intros H. unfold room_counts, room. by rewrite (sv_names _ _ H), (sv_rooms _ _ H). Qed.

Lemma same_view_trans w0 w1 w2 : same_view w0 w1 -> same_view w1 w2 -> same_view w0 w2.
Proof. intros [H1 H2 H3 H4 H5] [G1 G2 G3 G4 G5]. split; congruence. Qed.

Lemma same_view_cache evs f w : same_view w (emits evs (on_cache f w)).
Proof. by split. Qed.

(** [d] is a heartbeat of node [i], with the counts of [n0]. *)
Definition heartbeat_of (i : string) (n0 : node) (d : bytes) : Prop :=
  ∃ bs t, unmarshal d = inr (am_withNode i (adapter_msg AdapterPresence 0 bs)) /\
    dec bs = inr (mkNodePresence i (h_clientCount (w_hub (nd_world n0)))
                    (room_counts (nd_world n0)) t).

Lemma heartbeat_sender i j n m d : heartbeat_of i n d -> heartbeat_of j m d -> i = j.
Proof. intros (b1 & t1 & H1 & _) (b2 & t2 & H2 & _). rewrite H1 in H2. by injection H2. Qed.

(** The codecs carry the heartbeats of the cluster: whatever the timestamp, the
    encoded presence is not empty and reads back as it was, and so does the
    message around it. *)
Definition codecs_carry (C0 : gmap string node) : Prop :=
  ∀ k n0 t, C0 !! k = Some n0 ->
    let p := mkNodePresence k (h_clientCount (w_hub (nd_world n0))) (room_counts (nd_world n0)) t in
    ∃ bs d, enc p = inr bs /\ bs <> [] /\ dec bs = inr p /\
      marshal (am_withNode k (adapter_msg AdapterPresence 0 bs)) = inr d /\
      unmarshal d = inr (am_withNode k (adapter_msg AdapterPresence 0 bs)).

(** A node that can gossip: its presence is on and its adapter answers. *)
Record gossips (k : string) (n : node) : Prop := {
  gs_id : nodeID (nd_env n) = k;
  gs_adapter : is_Some (adapter (nd_env n));
  gs_answers : adapter_answers (nd_env n);
  gs_ttl : (0 <= presenceTTL (nd_env n))%Z
}.

Section Window.
Context (C0 : gmap string node) (Hnodes : ∀ k n, C0 !! k = Some n -> gossips k n).
Context (Hcodec : codecs_carry C0).

(** What a node should know of node [i] at the time [now]. *)
Definition known_as (m : gmap string nodeStats) (now : Z) (i : string) (ni : node) : Prop :=
  m !! i = Some (mkNodeStats (h_clientCount (w_hub (nd_world ni))) (room_counts (nd_world ni)) now).

(** One node in the window: [T] have ticked. *)
Record node_inv (T : gset string) (k : string) (n : node) (s : presenceState) (n0 : node) : Prop := {
  ni_env : nd_env n = nd_env n0;
  ni_view : same_view (nd_world n0) (nd_world n);
  ni_state : gossip_ok (nd_env n) s (nd_world n);
  ni_inbox : ∀ d, d ∈ nd_inbox n -> ∃ i ni, C0 !! i = Some ni /\ heartbeat_of i ni d;
  ni_cache : ∃ m, h_presenceCache (w_hub (nd_world n)) = Some m /\
    dom m ⊆ dom C0 ∖ {[k]} /\
    ∀ i ni, i ∈ T -> i <> k -> C0 !! i = Some ni ->
      known_as m (w_now (nd_world n)) i ni \/ ∃ d, d ∈ nd_inbox n /\ heartbeat_of i ni d
}.

Record gossip_inv (g : gossip) : Prop := {
  gi_dom : ∀ k, is_Some (C0 !! k) -> is_Some (g_nodes g !! k);
  gi_node : ∀ k n, g_nodes g !! k = Some n ->
    ∃ n0 s, C0 !! k = Some n0 /\ g_states g !! k = Some s /\ node_inv (g_ticked g) k n s n0
}.

(** Handling the first message of a node's inbox. *)
Lemma run_receive_heartbeat T k n s n0 d ds :
  C0 !! k = Some n0 -> node_inv T k n s n0 -> nd_inbox n = d :: ds ->
  ∃ w', run (receive unmarshal dec n d) (nd_world n) = Some (tt, w') /\
    published (w_trace w') = published (w_trace (nd_world n)) /\
    node_inv T k (mkNode (nd_env n) (nd_cfg n) w' ds) s n0.
Proof.
  intros Hk Hn Hin. destruct (ni_inbox _ _ _ _ _ Hn d) as (i & ni & Hi & Hd); [rewrite Hin; by left|].
  pose proof Hd as (bs & t & Hu & Hdec).
  assert (nodeID (nd_env n) = k) as Hid by (rewrite (ni_env _ _ _ _ _ Hn); apply Hnodes, Hk).
  destruct (ni_cache _ _ _ _ _ Hn) as (m & Hm & Hdom & Hknown).
  assert (∀ j nj, j <> i -> (∃ d', d' ∈ nd_inbox n /\ heartbeat_of j nj d') ->
    ∃ d', d' ∈ ds /\ heartbeat_of j nj d') as Hrest.
  { intros j nj Hji (d' & Hd' & Hj). rewrite Hin in Hd'. apply elem_of_cons in Hd' as [->|Hd'].
    - by destruct Hji; eapply heartbeat_sender.
    - eauto. }
  destruct (decide (i = k)) as [->|Hik].
  - exists (nd_world n). split; [by eapply receive_own|]. split; [done|].
    split; cbn [nd_env nd_world nd_inbox]; try apply Hn.
    + intros d' Hd'. apply (ni_inbox _ _ _ _ _ Hn). rewrite Hin. by right.
    + exists m. split; [done|]. split; [done|]. intros j nj Hj Hjk Hcj.
      destruct (Hknown j nj Hj Hjk Hcj); auto.
  - exists (on_cache (<[i := mkNodeStats (h_clientCount (w_hub (nd_world ni)))
      (room_counts (nd_world ni)) (w_now (nd_world n))]>) (nd_world n)). split.
    + unfold receive, on_message. rewrite Hu. rewrite handle_other by (by rewrite Hid).
      cbn [am_Type adapter_msg]. 
      exact (run_handlePresenceMessage dec
        (am_withNode i (adapter_msg AdapterPresence 0 bs)) _ (nd_world n) (ex_intro _ m Hm) Hdec).
    + split; [done|]. split; cbn [nd_env nd_world nd_inbox]; try apply Hn.
      * eapply same_view_trans; [apply Hn|]. apply (same_view_cache []).
      * intros d' Hd'. apply (ni_inbox _ _ _ _ _ Hn). rewrite Hin. by right.
      * eexists. unfold on_cache. world_simpl. rewrite Hm. split; [reflexivity|]. split.
        { rewrite dom_insert_L. apply elem_of_dom_2 in Hi. set_solver. }
        intros j nj Hj Hjk Hcj. unfold known_as. destruct (decide (j = i)) as [->|Hji].
        { left. simplify_eq. by rewrite lookup_insert_eq. }
        rewrite lookup_insert_ne by done. destruct (Hknown j nj Hj Hjk Hcj); auto.
Qed.

(** A tick of node [k]: a heartbeat, and nothing anyone fresh loses. *)
Lemma run_tick T k n s n0 :
  C0 !! k = Some n0 -> node_inv T k n s n0 ->
  ∃ s' w' d, run (tick (nd_env n) s) (nd_world n) = Some (s', w') /\
    on_wire marshal (sent (nd_world n) w') = [d] /\ heartbeat_of k n0 d /\
    node_inv T k (mkNode (nd_env n) (nd_cfg n) w' (nd_inbox n)) s' n0.
Proof.
  intros Hk Hn. pose proof (Hnodes k n0 Hk) as Hg.
  pose proof (ni_view _ _ _ _ _ Hn) as Hv.
  destruct Hg as [Hid Had Hans Httl]. rewrite <-(ni_env _ _ _ _ _ Hn) in Hid, Had, Hans, Httl.
  destruct (Hcodec k n0 (UnixMilli (w_now (nd_world n))) Hk) as (bs & d & Henc & Hne & Hdec & Hma & Hun).
  destruct (publishPresence_current (nd_env n) enc s (nd_world n) bs Had Hans
    (ni_state _ _ _ _ _ Hn)) as (s' & evs & Hr & Hp & Hok); [|done|].
  { rewrite Hid, (sv_clients _ _ Hv), (same_view_counts _ _ Hv). exact Henc. }
  destruct (run_evictStaleNodes (nd_env n) (emits evs (nd_world n))) as (evs2 & Hr2 & Hp2).
  set (w1 := emits evs (nd_world n)) in *. set (cut := (w_now w1 - presenceTTL (nd_env n))%Z) in *.
  set (f := filter (fun p => stale cut p.2 = false)) in *.
  exists s', (emits evs2 (on_cache f w1)), d. split.
  { unfold tick. rewrite run_bind, Hr. cbn beta iota. rewrite run_bind, Hr2. by rewrite run_ret. }
  assert (published (w_trace (emits evs2 (on_cache f w1))) =
    [am_withNode k (adapter_msg AdapterPresence 0 bs)] ++ published (w_trace (nd_world n))) as Hpub.
  { change (published (evs2 ++ evs ++ w_trace (nd_world n)) =
      [am_withNode k (adapter_msg AdapterPresence 0 bs)] ++ published (w_trace (nd_world n))).
    by rewrite !published_app, Hp2, Hp, Hid. }
  split; [rewrite (sent_app _ _ _ Hpub); cbn; by rewrite Hma|].
  split; [by eexists _, _|].
  assert (same_view (nd_world n) (emits evs2 (on_cache f w1))) as Hv2 by (by split).
  split; cbn [nd_env nd_world nd_inbox]; try apply Hn.
  - by eapply same_view_trans.
  - intros H1 H2. rewrite (same_view_counts _ _ Hv2). apply Hok; [exact H1|exact H2].
  - destruct (ni_cache _ _ _ _ _ Hn) as (m & Hm & Hdom & Hknown). exists (f m).
    unfold on_cache. world_simpl. unfold w1. world_simpl. rewrite Hm. split; [done|]. split.
    + etrans; [|exact Hdom]. apply dom_filter_subseteq.
    + intros i ni Hi Hik Hci. destruct (Hknown i ni Hi Hik Hci) as [Hl|]; [left|by right].
      unfold known_as, f in *. rewrite lookup_evicted, Hl. cbn [ns_lastSeen].
      by rewrite bool_decide_eq_true_2 by (unfold cut, w1; cbn [w_now emits]; lia).
Qed.

Lemma node_inv_deposit T j n s n0 k nk d :
  C0 !! k = Some nk -> heartbeat_of k nk d -> node_inv T j n s n0 ->
  node_inv ({[k]} ∪ T) j (deposit [d] n) s n0.
Proof.
  intros Hk Hd Hn. split; cbn [deposit nd_env nd_world nd_inbox]; try apply Hn.
  - intros d' [Hd'|Hd']%elem_of_app; [by apply (ni_inbox _ _ _ _ _ Hn)|].
    apply list_elem_of_singleton in Hd'. subst. eauto.
  - destruct (ni_cache _ _ _ _ _ Hn) as (m & Hm & Hdom & Hknown). exists m.
    split; [done|]. split; [done|]. intros i ni Hi Hij Hci.
    destruct (decide (i = k)) as [->|Hik].
    + right. exists d. rewrite elem_of_app, list_elem_of_singleton. simplify_eq. auto.
    + destruct (Hknown i ni) as [|(d' & Hd' & Hh)]; [set_solver|done|done|by left|right].
      exists d'. rewrite elem_of_app. auto.
Qed.

Lemma gossip_inv_receive C S T k n d ds w' :
  gossip_inv (mkGossip C S T) -> C !! k = Some n -> nd_inbox n = d :: ds ->
  run (receive unmarshal dec n d) (nd_world n) = Some (tt, w') ->
  published (w_trace w') = published (w_trace (nd_world n)) /\
  gossip_inv (mkGossip (perform marshal k n ds w' C) S T).
Proof.
  intros [Hdom Hinv] Hk Hin Hrun. cbn [g_nodes g_states g_ticked] in *.
  destruct (Hinv k n Hk) as (n0 & s & H0 & Hs & Hn).
  destruct (run_receive_heartbeat T k n s n0 d ds H0 Hn Hin) as (w1 & Hr & Hp & Hn').
  rewrite Hrun in Hr. injection Hr as ->. split; [done|].
  rewrite perform_silent by done. split; cbn [g_nodes g_states g_ticked].
  - intros j Hj. apply lookup_insert_is_Some'. eauto.
  - intros j nj. rewrite lookup_insert_Some. intros [[<- <-]|[Hne Hj]]; eauto.
Qed.

Lemma gossip_inv_step g g' : gossip_inv g -> gstep g g' -> gossip_inv g'.
Proof.
  intros Hg Hst. destruct Hst as [C C' S T Hst|C S T k n s s' w' Hk Hs Hrun].
  - destruct Hst as [C k n d ds w' Hk Hin Hrun]. by eapply gossip_inv_receive.
  - destruct Hg as [Hdom Hinv]. cbn [g_nodes g_states g_ticked] in *.
    destruct (Hinv k n Hk) as (n0 & s0 & H0 & Hs0 & Hn). simplify_eq.
    destruct (run_tick T k n s n0 H0 Hn) as (s1 & w1 & d & Hr & Hw & Hd & Hn').
    rewrite Hrun in Hr. injection Hr as <- <-.
    split; cbn [g_nodes g_states g_ticked].
    + intros j Hj. rewrite lookup_perform, fmap_is_Some. case_decide; [by eexists|auto].
    + intros j nj. rewrite lookup_perform, Hw, fmap_Some. intros (nj0 & Hj & ->).
      case_decide as Hkj.
      * subst j. injection Hj as <-. exists n0, s'. rewrite lookup_insert_eq.
        split; [done|]. split; [done|]. by eapply node_inv_deposit.
      * destruct (Hinv j nj0 Hj) as (nj1 & sj & Hj1 & Hsj & Hnj). exists nj1, sj.
        rewrite lookup_insert_ne by done. split; [done|]. split; [done|].
        by eapply node_inv_deposit.
Qed.

(** Handling messages ends, in any order. *)
Lemma gossip_inv_sn C S T : gossip_inv (mkGossip C S T) -> sn (cstep marshal unmarshal dec) C.
Proof.
  remember (pending C) as m eqn:Hm. revert C Hm.
  induction m as [m IH] using lt_wf_ind. intros C -> Hg. constructor. intros C' Hst.
  destruct Hst as [C k n d ds w' Hk Hin Hrun].
  destruct (gossip_inv_receive C S T k n d ds w' Hg Hk Hin Hrun) as [Hp Hg'].
  eapply IH; [by eapply pending_silent|done|done].
Qed.

Lemma gossip_inv_rest C S T k n :
  gossip_inv (mkGossip C S T) -> nf (cstep marshal unmarshal dec) C -> C !! k = Some n -> nd_inbox n = [].
Proof.
  intros Hg Hnf Hk. destruct (nd_inbox n) as [|d ds] eqn:Hin; [done|].
  destruct (gi_node _ Hg k n Hk) as (n0 & s & H0 & Hs & Hn).
  destruct (run_receive_heartbeat T k n s n0 d ds H0 Hn Hin) as (w1 & Hr & _).
  destruct Hnf. eexists. by eapply step_receive.
Qed.

(** ** Totals *)
Definition cluster_sum (f : node -> Z) (C : gmap string node) : Z :=
  map_fold (fun _ n acc => f n + acc)%Z 0%Z C.

Definition count_of (n : node) : Z := h_clientCount (w_hub (nd_world n)).
Definition room_count_of (name : string) (n : node) : Z :=
  default 0%Z (room_counts (nd_world n) !! name).

Lemma cluster_sum_delete f C k n : C !! k = Some n -> cluster_sum f C = (f n + cluster_sum f (delete k C))%Z.
Proof.
  intros Hk. unfold cluster_sum. rewrite <-(insert_delete_id C k n Hk) at 1.
  rewrite (map_fold_insert_L (fun _ n acc => f n + acc)%Z); [done|intros; lia|].
  apply lookup_delete_eq.
Qed.

(** A cache that knows every other node adds up to the rest of the total. *)
Lemma stats_sum_cluster (f : nodeStats -> Z) (now : Z) (C : gmap string node) :
  stats_sum f ((fun n => mkNodeStats (count_of n) (room_counts (nd_world n)) now) <$> C) =
  cluster_sum (fun n => f (mkNodeStats (count_of n) (room_counts (nd_world n)) now)) C.
Proof.
  unfold stats_sum, cluster_sum. induction C as [|k n C Hk IH] using map_ind.
  { by rewrite fmap_empty. }
  rewrite fmap_insert, !map_fold_insert_L; [by rewrite IH|..]; try done; try (intros; lia).
  by rewrite lookup_fmap, Hk.
Qed.

Lemma settled_cache T k n s n0 :
  C0 !! k = Some n0 -> node_inv T k n s n0 -> nd_inbox n = [] -> dom C0 ⊆ T ->
  h_presenceCache (w_hub (nd_world n)) =
    Some ((fun ni => mkNodeStats (count_of ni) (room_counts (nd_world ni)) (w_now (nd_world n))) <$>
            delete k C0).
Proof.
  intros Hk Hn Hin HT. destruct (ni_cache _ _ _ _ _ Hn) as (m & Hm & Hdom & Hknown).
  rewrite Hm. f_equal. apply map_eq. intros i. rewrite lookup_fmap.
  destruct (decide (i = k)) as [->|Hik].
  - rewrite lookup_delete_eq. apply not_elem_of_dom. set_solver.
  - rewrite lookup_delete_ne by done. destruct (C0 !! i) as [ni|] eqn:Hi.
    + apply elem_of_dom_2 in Hi as Hid. destruct (Hknown i ni) as [Hl|(d & Hd & _)]; [set_solver|done..|].
      rewrite Hin in Hd. by apply elem_of_nil in Hd.
    + apply not_elem_of_dom in Hi. apply not_elem_of_dom. set_solver.
Qed.

Lemma cluster_sum_ext f g C : (∀ n, f n = g n) -> cluster_sum f C = cluster_sum g C.
Proof.
  intros Hfg. induction C as [|k n C Hk IH] using map_ind; [done|].
  rewrite !(cluster_sum_delete _ (<[k := n]> C) k n) by apply lookup_insert_eq.
  by rewrite delete_insert_id, Hfg, IH.
Qed.

Lemma run_global_sum T k n s n0 (f : nodeStats -> Z) (g : node -> Z) :
  C0 !! k = Some n0 -> node_inv T k n s n0 -> nd_inbox n = [] -> dom C0 ⊆ T ->
  (∀ ni, f (mkNodeStats (count_of ni) (room_counts (nd_world ni)) (w_now (nd_world n))) = g ni) ->
  in_int64 (g n0) ->
  ∃ w', run (global_total f (g n0)) (nd_world n) = Some (wrap64 (cluster_sum g C0), w').
Proof.
  intros Hk Hn Hin HT Hfg Hg.
  destruct (run_global_total f (g n0) (nd_world n) Hg) as (w' & Hr & _).
  rewrite (settled_cache T k n s n0 Hk Hn Hin HT), stats_sum_cluster in Hr.
  exists w'. rewrite Hr, (cluster_sum_delete g C0 k n0 Hk). do 4 f_equal. by apply cluster_sum_ext.
Qed.

Lemma run_RoomCount name w :
  ∃ m, run (RoomCount name) w = Some (m, w) /\ Z.of_nat m = default 0%Z (room_counts w !! name).
Proof.
  unfold RoomCount, lookup_room, room_counts. run_simpl. rewrite lookup_fmap.
  destruct (h_rooms (w_hub w) !! name) as [r|]; run_simpl; by eexists.
Qed.
End Window.

End Gossip.

