(* ===== verification/Redis.v ===== *)
(** * Redis: the Redis adapter (adapter/redis/redis.go)

    [Subscribe] cancels the context of the subscription it replaces and starts
    two goroutines: a watcher that closes the subscription when its context is
    done, and a receiver that hands messages to the handler until the channel
    is closed.  [Close] cancels the current context and waits for every
    goroutine on a [WaitGroup] whose slots are reserved under the lock.

    The Redis client is a parameter: what [Receive] answers, given whether its
    context is done ([None] while it has to wait), and what [Publish] answers.
    The [i]-th call of a pool allocates subscription [i] and its context; the
    goroutines it launches are in the pool from the start and wait for it. *)

From S2P Require Import Prelude Prog Owned Types World.

Inductive goroutine_state := NotStarted | Started | Finished.

#[export] Instance goroutine_state_eq_dec : EqDecision goroutine_state.
Proof. solve_decision. Defined.

Record pubsub := mkPubSub {
  ps_closed : bool;
  ps_queue : list bytes;                 (** received and not yet handled *)
  ps_watch : goroutine_state;
  ps_recv : goroutine_state
}.

(** What can be seen from outside: the handler's calls, and the ends of the
    waits in [Close]. *)
Inductive redis_event :=
  | Handled (i : nat) (am : AdapterMessage)
  | BadPayload (i : nat) (d : bytes) (e : error)
  | Published (channel : string) (d : bytes)
  | WaitDone.

Record redis := mkRedis {
  r_cancel : option nat;                 (** whose context [a.cancel] cancels *)
  r_wg : Z;                              (** the counter of [a.wg], kept exact *)
  r_closed : bool;
  r_cancelled : gset nat;                (** contexts cancelled by their [cancel] *)
  r_parents : gset nat;                  (** callers' contexts that are done *)
  r_subs : gmap nat pubsub;
  r_events : list redis_event            (** newest first *)
}.

Abbreviation rprg := (prog redis).

Inductive redis_error := RErrClosed | RErrWrap (text : string) (e : error) | RErrFrom (e : error).

(** ** Field updates *)
Definition set_r_cancel x w :=
  mkRedis x (r_wg w) (r_closed w) (r_cancelled w) (r_parents w) (r_subs w) (r_events w).
Definition set_r_closed w :=
  mkRedis (r_cancel w) (r_wg w) true (r_cancelled w) (r_parents w) (r_subs w) (r_events w).
Definition set_r_subs x w :=
  mkRedis (r_cancel w) (r_wg w) (r_closed w) (r_cancelled w) (r_parents w) x (r_events w).
Definition wg_Add (k : Z) (w : redis) : redis :=
  mkRedis (r_cancel w) (r_wg w + k) (r_closed w) (r_cancelled w) (r_parents w) (r_subs w) (r_events w).
Definition record_event (e : redis_event) (w : redis) : redis :=
  mkRedis (r_cancel w) (r_wg w) (r_closed w) (r_cancelled w) (r_parents w) (r_subs w) (e :: r_events w).

Definition upd_pubsub (f : pubsub -> pubsub) (i : nat) (w : redis) : redis :=
  set_r_subs (alter f i (r_subs w)) w.

Definition set_ps_closed p := mkPubSub true (ps_queue p) (ps_watch p) (ps_recv p).
Definition set_ps_queue q p := mkPubSub (ps_closed p) q (ps_watch p) (ps_recv p).
Definition set_ps_watch x p := mkPubSub (ps_closed p) (ps_queue p) x (ps_recv p).
Definition set_ps_recv x p := mkPubSub (ps_closed p) (ps_queue p) (ps_watch p) x.

Definition pubsub_at (w : redis) (i : nat) : pubsub :=
  default (mkPubSub false [] NotStarted NotStarted) (r_subs w !! i).

(** ** Contexts: the [i]-th subscription's is derived from its caller's. *)
Definition parent_done (w : redis) (ctx : context) : bool :=
  match ctx with Background => false | Ctx n => bool_decide (n ∈ r_parents w) end.

Definition sub_ctx_done (w : redis) (ctx : context) (i : nat) : bool :=
  bool_decide (i ∈ r_cancelled w) || parent_done w ctx.

Definition cancel_ctx (i : nat) : rprg unit :=
  modify (fun w => mkRedis (r_cancel w) (r_wg w) (r_closed w) ({[i]} ∪ r_cancelled w)
                     (r_parents w) (r_subs w) (r_events w)).

(** ** New and its options *)
Record redis_config (W : Type) := mkRedisConfig {
  channel : string;
  on_unmarshal_error : option (bytes -> error -> prog W unit)
}.
Arguments mkRedisConfig {W} channel on_unmarshal_error.
Arguments channel {W} r.
Arguments on_unmarshal_error {W} r.

Definition WithChannel {W} (c : string) (a : redis_config W) : redis_config W :=
  if bool_decide (c = "") then a else mkRedisConfig c (on_unmarshal_error a).

Definition WithUnmarshalErrorHandler {W} (h : option (bytes -> error -> prog W unit))
    (a : redis_config W) : redis_config W :=
  mkRedisConfig (channel a) h.

Definition New {W} (opts : list (redis_config W -> redis_config W)) : redis_config W :=
  foldl (fun a opt => opt a) (mkRedisConfig "wshub:messages" None) opts.

Section Adapter.
Context (sub_Receive : nat -> bool -> option (option error)).
Context (chan : string) (client_Publish : bool -> string -> bytes -> option error).
Context (json_Marshal : AdapterMessage -> error + bytes)
        (json_Unmarshal : bytes -> error + AdapterMessage).

(** ** Publish *)
Definition Publish (ctx : context) (msg : AdapterMessage) : rprg (option redis_error) :=
  closed ← gets r_closed ;
  if (closed : bool) then mret (Some RErrClosed) else
  match json_Marshal msg with
  | inl e => mret (Some (RErrWrap "marshal message" e))
  | inr d =>
      err ← atomically (fun w =>
        match client_Publish (parent_done w ctx) chan d with
        | Some e => (Some e, w)
        | None => (None, record_event (Published chan d) w)
        end) ;
      mret (RErrWrap ("publish to channel " +:+ chan) <$> err)
  end.

(** ** Subscribe *)

(** Under the lock: the cancel function is replaced, two slots are reserved. *)
Definition claim_slots (i : nat) : rprg (option (option nat)) :=
  atomically (fun w =>
    if r_closed w then (None, w)
    else (Some (r_cancel w), wg_Add 2 (set_r_cancel (Some i) w))).

Definition client_Subscribe (i : nat) : rprg unit :=
  modify (fun w => set_r_subs (<[i := mkPubSub false [] NotStarted NotStarted]> (r_subs w)) w).

Definition Receive (i : nat) (ctx : context) : rprg (option error) :=
  await (fun w => (fun o => (o, w)) <$> sub_Receive i (sub_ctx_done w ctx i)).

Definition PubSub_Close (i : nat) : rprg unit := modify (upd_pubsub set_ps_closed i).

Definition Subscribe (i : nat) (ctx : context) : rprg (option redis_error) :=
  claim ← claim_slots i ;
  match claim with
  | None => cancel_ctx i ;; mret (Some RErrClosed)
  | Some prev =>
      (match prev with Some p => cancel_ctx p | None => mret tt end) ;;
      client_Subscribe i ;;
      err ← Receive i ctx ;
      match err with
      | Some e => PubSub_Close i ;; cancel_ctx i ;; modify (wg_Add (-2)) ;; mret (Some (RErrFrom e))
      | None =>
          modify (upd_pubsub (set_ps_watch Started) i) ;;
          modify (upd_pubsub (set_ps_recv Started) i) ;;
          mret None
      end
  end.

(** ** The goroutines of a subscription, from their launch on *)
Definition watch_context (i : nat) (ctx : context) : rprg unit :=
  await (fun w => if bool_decide (ps_watch (pubsub_at w i) = Started) then Some (tt, w) else None) ;;
  await (fun w => if sub_ctx_done w ctx i then Some (tt, w) else None) ;;
  PubSub_Close i ;;
  modify (fun w => wg_Add (-1) (upd_pubsub (set_ps_watch Finished) i w)).

(** [for msg := range ch]: [None] when the channel is closed and empty. *)
Definition next_message (i : nat) : rprg (option bytes) :=
  await (fun w =>
    match ps_queue (pubsub_at w i) with
    | d :: q => Some (Some d, upd_pubsub (set_ps_queue q) i w)
    | [] => if ps_closed (pubsub_at w i) then Some (None, w) else None
    end).

Definition on_payload (onError : option (bytes -> error -> rprg unit))
    (handler : AdapterMessage -> rprg unit) (d : bytes) : rprg unit :=
  match json_Unmarshal d with
  | inl err => match onError with Some h => h d err | None => mret tt end
  | inr am => handler am
  end.

(** The loop, for at most [fuel] messages. *)
Fixpoint receive_loop (fuel : nat) (onError : option (bytes -> error -> rprg unit))
    (handler : AdapterMessage -> rprg unit) (i : nat) : rprg unit :=
  match fuel with
  | 0 => out_of_fuel
  | S f =>
      o ← next_message i ;
      match o with
      | None => modify (fun w => wg_Add (-1) (upd_pubsub (set_ps_recv Finished) i w))
      | Some d => on_payload onError handler d ;; receive_loop f onError handler i
      end
  end.

Definition receive_messages (fuel : nat) (onError : option (bytes -> error -> rprg unit))
    (handler : AdapterMessage -> rprg unit) (i : nat) : rprg unit :=
  await (fun w => if bool_decide (ps_recv (pubsub_at w i) = Started) then Some (tt, w) else None) ;;
  receive_loop fuel onError handler i.

(** ** Close *)
Definition Close : rprg (option redis_error) :=
  claim ← atomically (fun w => if r_closed w then (None, w) else (Some (r_cancel w), set_r_closed w)) ;
  match claim with
  | None => mret None
  | Some cancel =>
      (match cancel with Some p => cancel_ctx p | None => mret tt end) ;;
      await (fun w => if bool_decide (r_wg w = 0%Z) then Some (tt, record_event WaitDone w) else None) ;;
      mret None
  end.

(** ** A pool of calls *)
Inductive redis_call :=
  | RSubscribe (ctx : context)
  | RClose
  | RPublish (ctx : context) (msg : AdapterMessage)
  | RCancelContext (n : nat)
  | RDeliver (i : nat) (d : bytes).      (** Redis delivers to subscription [i] *)

(** The handlers of the pool: what they are called with is recorded. *)
Definition log_handled (i : nat) (am : AdapterMessage) : rprg unit := modify (record_event (Handled i am)).
Definition log_bad (i : nat) (d : bytes) (e : error) : rprg unit := modify (record_event (BadPayload i d e)).

Definition redis_thread (i : nat) (c : redis_call) : rprg unit :=
  match c with
  | RSubscribe ctx => _ ← Subscribe i ctx ; mret tt
  | RClose => _ ← Close ; mret tt
  | RPublish ctx msg => _ ← Publish ctx msg ; mret tt
  | RCancelContext n =>
      modify (fun w => mkRedis (r_cancel w) (r_wg w) (r_closed w) (r_cancelled w)
                         ({[n]} ∪ r_parents w) (r_subs w) (r_events w)) ;; mret tt
  | RDeliver j d =>
      modify (fun w => if ps_closed (pubsub_at w j) then w
                       else upd_pubsub (fun p => set_ps_queue (ps_queue p ++ [d]) p) j w) ;; mret tt
  end.

Definition watch_thread (i : nat) (c : redis_call) : rprg unit :=
  match c with RSubscribe ctx => watch_context i ctx | _ => mret tt end.

Definition receive_thread (fuel i : nat) (c : redis_call) : rprg unit :=
  match c with
  | RSubscribe _ => receive_messages fuel (Some (log_bad i)) (log_handled i) i
  | _ => mret tt
  end.

(** A receiver handles one message per delivery, so the number of calls is
    fuel enough. *)
Definition redis_pool (calls : list redis_call) : list (rprg unit) :=
  imap redis_thread calls ++ imap watch_thread calls ++
  imap (receive_thread (S (length calls))) calls.

Definition new_redis : redis := mkRedis None 0 false ∅ ∅ ∅ [].
End Adapter.
