(* ===== verification/RedisSpec.v ===== *)
(** * RedisSpec: the invariant of the Redis adapter

    Tokens follow the slots of the [WaitGroup] and the duty to cancel a
    context that is no longer the current one. *)

From S2P Require Import Prelude Prog Owned Types World Redis.

(** ** Tokens *)
Inductive rtok :=
  | Slot                     (** a slot reserved and not yet given to a goroutine *)
  | Shut                     (** the call that has closed the adapter *)
  | Del                      (** a message that Redis has still to deliver *)
  | Fresh (i : nat)          (** the call that may still make subscription [i] *)
  | Sub (i : nat)            (** it has reserved its slots *)
  | Made (i : nat)           (** it has the subscription *)
  | Launch (i : nat)         (** it has launched the watcher, not the receiver *)
  | Cancel (i : nat)         (** whoever must cancel context [i] *)
  | WatchT (i : nat)         (** the watcher, waiting for its launch *)
  | WActive (i : nat)        (** waiting for the context *)
  | WClosed (i : nat)        (** having closed the subscription *)
  | RecvT (i : nat)          (** the receiver, waiting for its launch *)
  | RActive (i : nat)        (** in its loop *)
  | Fuel (i k : nat).        (** the fuel left to it *)

#[export] Instance rtok_eq_dec : EqDecision rtok.
Proof. solve_decision. Defined.

#[export] Instance rtok_countable : Countable rtok.
Proof.
  refine (inj_countable'
    (fun t => match t with
              | Slot => (0, 0, 0) | Shut => (13, 0, 0) | Del => (1, 0, 0) | Fresh i => (2, i, 0)
              | Sub i => (3, i, 0) | Made i => (4, i, 0) | Launch i => (5, i, 0)
              | Cancel i => (6, i, 0) | WatchT i => (7, i, 0) | WActive i => (8, i, 0)
              | WClosed i => (9, i, 0) | RecvT i => (10, i, 0) | RActive i => (11, i, 0)
              | Fuel i k => (12, i, k)
              end : nat * nat * nat)
    (fun p => match p with
              | (0, _, _) => Slot | (1, _, _) => Del | (2, i, _) => Fresh i | (3, i, _) => Sub i
              | (4, i, _) => Made i | (5, i, _) => Launch i | (6, i, _) => Cancel i
              | (7, i, _) => WatchT i | (8, i, _) => WActive i | (9, i, _) => WClosed i
              | (10, i, _) => RecvT i | (11, i, _) => RActive i | (12, i, k) => Fuel i k | _ => Shut
              end) _); by intros [].
Defined.

Abbreviation tokens := (gmultiset rtok).
Abbreviation m := multiplicity.

Definition about (t : rtok) : option nat :=
  match t with
  | Slot | Shut | Del => None
  | Fresh i | Sub i | Made i | Launch i | Cancel i | WatchT i | WActive i | WClosed i
  | RecvT i | RActive i | Fuel i _ => Some i
  end.

(** ** The invariant *)
Definition num (b : bool) : nat := if b then 1 else 0.

Definition watching (p : pubsub) : bool := bool_decide (ps_watch p = Started).
Definition receiving (p : pubsub) : bool := bool_decide (ps_recv p = Started).

Definition sub_ok (T : tokens) (i : nat) (o : option pubsub) : Prop :=
  m (WatchT i) T + m (WActive i) T + m (WClosed i) T <= 1 /\
  m (RecvT i) T + m (RActive i) T <= 1 /\
  match o with
  | None =>
      m (Fresh i) T + m (Sub i) T <= m (WatchT i) T /\
      m (Fresh i) T + m (Sub i) T <= m (RecvT i) T /\
      m (Made i) T + m (Launch i) T + m (WActive i) T + m (WClosed i) T + m (RActive i) T = 0
  | Some p =>
      m (Fresh i) T + m (Sub i) T = 0 /\
      match ps_watch p, ps_recv p with
      | NotStarted, NotStarted =>
          m (WatchT i) T = 1 /\ m (RecvT i) T = 1 /\ m (Launch i) T = 0 /\
          m (Made i) T + num (ps_closed p) = 1
      | NotStarted, _ => False
      | w, r =>
          m (Made i) T = 0 /\
          m (WatchT i) T + m (WActive i) T + m (WClosed i) T = num (bool_decide (w = Started)) /\
          m (WClosed i) T <= num (ps_closed p) /\
          num (bool_decide (w = Finished)) <= num (ps_closed p) /\
          m (Launch i) T = num (bool_decide (r = NotStarted)) /\
          m (RecvT i) T + m (RActive i) T = num (negb (bool_decide (r = Finished))) /\
          m (RActive i) T <= num (bool_decide (r = Started))
      end
  end.

(** No handler runs after a [Close] has waited. *)
Fixpoint quiet (l : list redis_event) : Prop :=
  match l with
  | [] => True
  | (Handled _ _ | BadPayload _ _ _) :: l' => WaitDone ∉ l' /\ quiet l'
  | _ :: l' => quiet l'
  end.

Lemma quiet_app later earlier i am d e :
  quiet (later ++ WaitDone :: earlier) -> Handled i am ∉ later /\ BadPayload i d e ∉ later.
Proof.
  induction later as [|x later IH]; simpl; [by split; intros ?%elem_of_nil|].
  rewrite !not_elem_of_cons. intros Hq.
  assert (quiet (later ++ WaitDone :: earlier)) as Hq' by (by destruct x; try apply Hq).
  destruct (IH Hq'). split; (split; [|done]); intros <-; destruct Hq as [Hq _]; set_solver.
Qed.

Definition claimed (T : tokens) (w : redis) (i : nat) : Prop :=
  0 < m (Sub i) T \/ is_Some (r_subs w !! i).

(** A context is cancelled, or somebody will cancel it: a call that has taken
    it over, or the next [Subscribe] or [Close]. *)
Definition ctx_ok (T : tokens) (w : redis) (i : nat) : Prop :=
  claimed T w i ->
  i ∈ r_cancelled w \/ 0 < m (Cancel i) T \/ (r_cancel w = Some i /\ r_closed w = false).

Definition fuel_ok (T : tokens) (w : redis) (i : nat) : Prop :=
  ∀ k, 0 < m (Fuel i k) T -> length (ps_queue (pubsub_at w i)) + m Del T < k.

Definition running (w : redis) : nat := count_if watching (r_subs w) + count_if receiving (r_subs w).

Record inv (T : tokens) (w : redis) : Prop := {
  inv_wg : r_wg w = Z.of_nat (m Slot T + running w);
  inv_sub : ∀ i, sub_ok T i (r_subs w !! i);
  inv_ctx : ∀ i, ctx_ok T w i;
  inv_fuel : ∀ i, fuel_ok T w i;
  inv_shut : 0 < m Shut T -> r_closed w = true;
  inv_closed : r_closed w = true -> 0 < m Shut T \/ WaitDone ∈ r_events w;
  inv_wait : WaitDone ∈ r_events w -> r_closed w = true /\ r_wg w = 0%Z;
  inv_quiet : quiet (r_events w)
}.

(** ** One subscription moves on *)
Lemma redis_sub_ok_ext T T' i o :
  (∀ t, about t = Some i -> t <> Cancel i -> (∀ k, t <> Fuel i k) -> m t T' = m t T) ->
  sub_ok T i o -> sub_ok T' i o.
Proof.
  intros HT. unfold sub_ok.
  rewrite !(HT (Fresh i)), !(HT (Sub i)), !(HT (Made i)), !(HT (Launch i)), !(HT (WatchT i)),
    !(HT (WActive i)), !(HT (WClosed i)), !(HT (RecvT i)), !(HT (RActive i)) by done.
  done.
Qed.

Lemma inv_local T T' w w' i :
  inv T w -> (∀ t, about t <> Some i -> t <> Slot -> m t T' = m t T) ->
  r_cancel w' = r_cancel w -> r_closed w' = r_closed w -> r_events w' = r_events w ->
  r_cancelled w' = r_cancelled w -> (∀ j, j <> i -> r_subs w' !! j = r_subs w !! j) ->
  sub_ok T' i (r_subs w' !! i) ->
  (claimed T' w' i -> claimed T w i) -> m (Cancel i) T' = m (Cancel i) T ->
  fuel_ok T' w' i ->
  r_wg w' = Z.of_nat (m Slot T' + running w') -> (r_wg w' <= r_wg w)%Z ->
  inv T' w'.
Proof.
  intros [H1 H2 H3 H4 H7 H8 H5 H6] HT Ec El Ee Ek Hj Hi Hcl HC Hf Hw Hle.
  constructor; rewrite ?Ee, ?El; try done.
  - intros j. destruct (decide (j = i)) as [->|Hne]; [done|]. rewrite Hj by done.
    eapply redis_sub_ok_ext; [|apply H2]. intros t Ht _ _. apply HT; [congruence|by intros ->].
  - intros j. unfold ctx_ok. rewrite Ek, El, Ec. destruct (decide (j = i)) as [->|Hne].
    + rewrite HC. intros Hc. by apply H3, Hcl.
    + unfold claimed. rewrite !HT, Hj by (simpl; congruence). apply H3.
  - intros j. destruct (decide (j = i)) as [->|Hne]; [done|].
    intros k. unfold pubsub_at. rewrite (HT (Fuel j k)), (HT Del), Hj by (simpl; congruence). apply H4.
  - by rewrite HT.
  - by rewrite HT.
  - intros He. destruct (H5 He) as [Hc Hz]. split; [done|]. lia.
Qed.

(** The subscription [i] exists and is changed by [f]; [k] slots are given back. *)
Lemma redis_inv_upd T T' w w' i f p k :
  inv T w -> r_subs w !! i = Some p ->
  (∀ t, about t <> Some i -> t <> Slot -> m t T' = m t T) ->
  r_subs w' = alter f i (r_subs w) -> r_wg w' = (r_wg w - Z.of_nat k)%Z ->
  r_cancel w' = r_cancel w -> r_closed w' = r_closed w -> r_events w' = r_events w ->
  r_cancelled w' = r_cancelled w ->
  sub_ok T' i (Some (f p)) -> m (Cancel i) T' = m (Cancel i) T ->
  (∀ k, 0 < m (Fuel i k) T' -> length (ps_queue (f p)) + m Del T < k) ->
  m Slot T + one_if watching p + one_if receiving p =
  m Slot T' + one_if watching (f p) + one_if receiving (f p) + k ->
  inv T' w'.
Proof.
  intros HI Hs HT Es Ew Ec El Ee Ek Hi HC Hf Hk. eapply inv_local; try done.
  - intros j Hj. by rewrite Es, lookup_alter_ne.
  - by rewrite Es, lookup_alter_eq, Hs.
  - intros _. by right; rewrite Hs.
  - unfold fuel_ok, pubsub_at. rewrite (HT Del) by done. rewrite Es, lookup_alter_eq, Hs. done.
  - rewrite Ew, (inv_wg _ _ HI). unfold running. rewrite Es.
    pose proof (count_if_alter watching f i p _ Hs).
    pose proof (count_if_alter receiving f i p _ Hs). lia.
  - lia.
Qed.

Ltac sub_tokens := unfold sub_ok; eval_tokens.
Ltac sub_cases := simpl; intros; try done; lia.

(** Goals about the subscription [i] of [w]: case analysis and arithmetic. *)
Ltac by_sub HI i :=
  let Hi := fresh "Hi" in
  pose proof (inv_sub _ _ HI i) as Hi; revert Hi;
  lazymatch goal with
  | |- context [r_subs ?w !! i] =>
      let cl := fresh "cl" in let q := fresh "q" in let wt := fresh "wt" in
      let rc := fresh "rc" in let Hs := fresh "Hs" in
      sub_tokens; destruct (r_subs w !! i) as [[cl q wt rc]|] eqn:Hs;
      [destruct wt, rc, cl|]; sub_cases
  end.

Lemma redis_inv_tokens T T' w i :
  inv T w -> (∀ t, about t <> Some i -> m t T' = m t T) ->
  sub_ok T' i (r_subs w !! i) -> (m (Sub i) T' = 0 \/ m (Sub i) T' = m (Sub i) T) ->
  m (Cancel i) T' = m (Cancel i) T ->
  (∀ k, m (Fuel i k) T' <= m (Fuel i k) T) ->
  inv T' w.
Proof.
  intros HI HT Hi HS HC Hf. eapply inv_local; try done.
  - intros t Ht _. by apply HT.
  - unfold claimed. intros [Hc|Hc]; [left; lia|by right].
  - intros k Hk. rewrite (HT Del) by done. apply (inv_fuel _ _ HI). specialize (Hf k). lia.
  - rewrite (HT Slot) by done. apply HI.
Qed.

(** ** The steps of the goroutines *)
(** The subscription whose tokens are held exists, in the states they allow. *)
Ltac sub_exists HI i cl q wt rc Hs :=
  pose proof (inv_sub _ _ HI i) as Hsub; revert Hsub; sub_tokens;
  lazymatch goal with
  | |- context [r_subs ?w !! i] => destruct (r_subs w !! i) as [[cl q wt rc]|] eqn:Hs
  end; simpl; [intros Hsub|intros; exfalso; lia].

Ltac state_is x v :=
  assert (x = v) as -> by (repeat match goal with y : goroutine_state |- _ => destruct y end;
    simpl in *; try reflexivity; exfalso; lia).

(** The side conditions of [redis_inv_upd] for a state known field by field. *)
Ltac upd_sides HI i Hs :=
  first
    [ done
    | intros ? ? ?; mult
    | simpl; lia
    | progress sub_tokens; simpl in *; lia
    | unfold one_if, watching, receiving; eval_tokens; simpl; lia
    | let Hf := fresh in let k := fresh in
      intros k; pose proof (inv_fuel _ _ HI i k) as Hf; revert Hf;
      unfold pubsub_at; rewrite Hs; eval_tokens; simpl; lia ].

Lemma inv_launch_watch F w i :
  inv (({[+ Made i +]} ⊎ ({[+ Slot +]} ⊎ {[+ Slot +]})) ⊎ F) w ->
  inv (({[+ Launch i +]} ⊎ {[+ Slot +]}) ⊎ F) (upd_pubsub (set_ps_watch Started) i w).
Proof.
  intros HI. sub_exists HI i cl q wt rc Hs. state_is wt NotStarted. state_is rc NotStarted.
  eapply (redis_inv_upd _ _ _ _ i _ _ 0 HI Hs); upd_sides HI i Hs.
Qed.

Lemma inv_launch_recv F w i :
  inv (({[+ Launch i +]} ⊎ {[+ Slot +]}) ⊎ F) w ->
  inv (∅ ⊎ F) (upd_pubsub (set_ps_recv Started) i w).
Proof.
  intros HI. sub_exists HI i cl q wt rc Hs. state_is rc NotStarted.
  eapply (redis_inv_upd _ _ _ _ i _ _ 0 HI Hs); destruct wt; try (exfalso; simpl in *; lia); upd_sides HI i Hs.
Qed.

(** The error path of [Subscribe]. *)
Lemma inv_receive_failed X F w i :
  inv (({[+ Made i +]} ⊎ X) ⊎ F) w -> inv (X ⊎ F) (upd_pubsub set_ps_closed i w).
Proof.
  intros HI. sub_exists HI i cl q wt rc Hs. state_is wt NotStarted. state_is rc NotStarted.
  eapply (redis_inv_upd _ _ _ _ i _ _ 0 HI Hs); upd_sides HI i Hs.
Qed.

(** The watcher. *)
Lemma inv_watch_active F w i :
  ps_watch (pubsub_at w i) = Started ->
  inv ({[+ WatchT i +]} ⊎ F) w -> inv ({[+ WActive i +]} ⊎ F) w.
Proof.
  unfold pubsub_at. intros Hw HI. eapply redis_inv_tokens; [exact HI|intros t Ht; mult| |..]; try (intros; eval_tokens; lia).
  revert Hw. by_sub HI i.
Qed.

Lemma inv_watch_close F w i :
  inv ({[+ WActive i +]} ⊎ F) w -> inv ({[+ WClosed i +]} ⊎ F) (upd_pubsub set_ps_closed i w).
Proof.
  intros HI. sub_exists HI i cl q wt rc Hs. state_is wt Started.
  eapply (redis_inv_upd _ _ _ _ i _ _ 0 HI Hs); destruct rc; upd_sides HI i Hs.
Qed.

Lemma inv_watch_end F w i :
  inv ({[+ WClosed i +]} ⊎ F) w ->
  inv (∅ ⊎ F) (wg_Add (-1) (upd_pubsub (set_ps_watch Finished) i w)).
Proof.
  intros HI. sub_exists HI i cl q wt rc Hs. state_is wt Started.
  eapply (redis_inv_upd _ _ _ _ i _ _ 1 HI Hs); destruct rc; upd_sides HI i Hs.
Qed.

(** The receiver. *)
Lemma inv_recv_active X F w i :
  ps_recv (pubsub_at w i) = Started ->
  inv (({[+ RecvT i +]} ⊎ X) ⊎ F) w -> inv (({[+ RActive i +]} ⊎ X) ⊎ F) w.
Proof.
  unfold pubsub_at. intros Hw HI. eapply redis_inv_tokens; [exact HI|intros t Ht; mult| |..]; try (intros; eval_tokens; lia).
  revert Hw. by_sub HI i.
Qed.

Lemma inv_pop d q k F w i :
  ps_queue (pubsub_at w i) = d :: q ->
  inv (({[+ RActive i +]} ⊎ {[+ Fuel i (S k) +]}) ⊎ F) w ->
  inv (({[+ RActive i +]} ⊎ {[+ Fuel i k +]}) ⊎ F) (upd_pubsub (set_ps_queue q) i w).
Proof.
  intros Hq HI. sub_exists HI i cl q' wt rc Hs. state_is rc Started.
  eapply (redis_inv_upd _ _ _ _ i _ _ 0 HI Hs); try (by destruct wt; upd_sides HI i Hs).
  intros k'. simpl. pose proof (inv_fuel _ _ HI i) as Hf. unfold fuel_ok, pubsub_at in *.
  rewrite Hs in *. simpl in Hq, Hf. subst q'. simpl in Hf.
  pose proof (Hf (S k)) as Hf1. specialize (Hf k'). revert Hf Hf1. mult.
Qed.

Lemma inv_recv_end k F w i :
  inv (({[+ RActive i +]} ⊎ {[+ Fuel i k +]}) ⊎ F) w ->
  inv (∅ ⊎ F) (wg_Add (-1) (upd_pubsub (set_ps_recv Finished) i w)).
Proof.
  intros HI. sub_exists HI i cl q wt rc Hs. state_is rc Started.
  eapply (redis_inv_upd _ _ _ _ i _ _ 1 HI Hs); destruct wt; try done; upd_sides HI i Hs.
Qed.

(** ** Steps that concern the whole adapter *)

(** A context is cancelled, by whoever had to or by anybody else. *)
Lemma inv_cancel T T' w i :
  inv T w -> (∀ t, t <> Cancel i -> m t T' = m t T) ->
  inv T' (mkRedis (r_cancel w) (r_wg w) (r_closed w) ({[i]} ∪ r_cancelled w)
            (r_parents w) (r_subs w) (r_events w)).
Proof.
  intros [H1 H2 H3 H4 H7 H8 H5 H6] HT. constructor; simpl; try done.
  - by rewrite (HT Slot).
  - intros j. eapply redis_sub_ok_ext; [|apply H2]. intros t Ht HC _. apply HT. intros ->. simpl in Ht. congruence.
  - intros j. specialize (H3 j). unfold ctx_ok, claimed in *. simpl. rewrite (HT (Sub j)) by done.
    destruct (decide (j = i)) as [->|Hne]; [set_solver|]. rewrite (HT (Cancel j)) by congruence. set_solver.
  - intros j k. rewrite (HT (Fuel j k)), (HT Del) by done. apply H4.
  - by rewrite (HT Shut).
  - by rewrite (HT Shut).
Qed.

(** The duty to cancel the context that was the current one. *)
Definition duty (o : option nat) : tokens :=
  match o with Some p => {[+ Cancel p +]} | None => ∅ end.

Lemma duty_other t o : (∀ p, t <> Cancel p) -> m t (duty o) = 0.
Proof. intros Ht. unfold duty. destruct o as [p|]; [|done]. rewrite multiplicity_singleton_ne; auto. Qed.

Ltac eval_duty := eval_tokens; rewrite ?duty_other by done.

Lemma inv_claim F w i :
  r_closed w = false -> inv ({[+ Fresh i +]} ⊎ F) w ->
  inv ((duty (r_cancel w) ⊎ ({[+ Sub i +]} ⊎ ({[+ Slot +]} ⊎ {[+ Slot +]}))) ⊎ F)
    (wg_Add 2 (set_r_cancel (Some i) w)).
Proof.
  intros Hcl [H1 H2 H3 H4 H7 H8 H5 H6]. constructor; simpl; try done.
  - rewrite H1. eval_duty. unfold running. simpl. lia.
  - intros j. specialize (H2 j). destruct (decide (j = i)) as [->|Hne].
    + revert H2. unfold sub_ok. eval_duty. destruct (r_subs w !! i) as [[cl q [] []]|]; simpl; lia.
    + eapply redis_sub_ok_ext; [|exact H2]. intros t Ht HC _. rewrite !multiplicity_disj_union, duty_other by (intros ? ->; simpl in Ht; congruence). mult.
  - intros j Hj. destruct (decide (j = i)) as [->|Hne]; [by right; right|].
    assert (claimed ({[+ Fresh i +]} ⊎ F) w j) as Hc.
    { revert Hj. unfold claimed. simpl. rewrite !multiplicity_disj_union, duty_other by done. mult. }
    simpl. destruct (H3 j Hc) as [Hd|[Hd|[Hd _]]]; [by left| |]; right; left.
    + revert Hd. mult.
    + rewrite Hd. simpl. mult.
  - intros j k. generalize (H4 j k). eval_duty. done.
  - revert H7. eval_duty. done.
  - congruence.
  - intros Hw. destruct (H5 Hw). congruence.
Qed.

Lemma inv_close F w :
  inv (∅ ⊎ F) w -> inv ((duty (r_cancel w) ⊎ {[+ Shut +]}) ⊎ F) (set_r_closed w).
Proof.
  intros [H1 H2 H3 H4 H7 H8 H5 H6]. constructor; simpl; try done.
  - rewrite H1. by eval_duty.
  - intros j. eapply redis_sub_ok_ext; [|apply H2]. intros t Ht HC _.
    rewrite !multiplicity_disj_union, duty_other by (intros ? ->; simpl in Ht; congruence). mult.
  - intros j Hj. assert (claimed (∅ ⊎ F) w j) as Hc.
    { revert Hj. unfold claimed. simpl. by eval_duty. }
    simpl. destruct (H3 j Hc) as [Hd|[Hd|[Hd _]]]; [by left| |]; right; left.
    + revert Hd. mult.
    + rewrite Hd. simpl. mult.
  - intros j k. generalize (H4 j k). by eval_duty.
  - intros _. left. eval_duty. lia.
  - intros Hw. by destruct (H5 Hw).
Qed.

Lemma inv_wait_done F w :
  r_wg w = 0%Z -> inv ({[+ Shut +]} ⊎ F) w -> inv (∅ ⊎ F) (record_event WaitDone w).
Proof.
  intros Hz [H1 H2 H3 H4 H7 H8 H5 H6]. constructor; simpl; try done.
  - rewrite H1. by eval_tokens.
  - intros j. eapply redis_sub_ok_ext; [|apply H2]. intros t Ht _ _. mult.
  - intros j. specialize (H3 j). unfold ctx_ok, claimed in *. revert H3. by eval_tokens.
  - intros j k. generalize (H4 j k). by eval_tokens.
  - intros Hs. apply H7. eval_tokens. lia.
  - intros _. right. by left.
  - intros _. split; [|done]. apply H7. eval_tokens. lia.
Qed.

(** What the handlers do is recorded while their receiver is counted. *)
Lemma inv_record T w e :
  inv T w -> (e <> WaitDone) -> (r_wg w <> 0%Z \/ ∃ c d, e = Published c d) -> inv T (record_event e w).
Proof.
  intros [H1 H2 H3 H4 H7 H8 H5 H6] He Hwg. constructor; simpl; try done.
  - intros Hc. destruct (H8 Hc); [by left|right; by right].
  - rewrite elem_of_cons. intros [?|?]; [congruence|auto].
  - destruct Hwg as [Hwg|(c & d & ->)]; [|done].
    destruct e; [split..|done|done]; try done; intros Hw; by destruct (H5 Hw).
Qed.

Lemma active_counted F w i : inv ({[+ RActive i +]} ⊎ F) w -> r_wg w <> 0%Z.
Proof.
  intros HI. sub_exists HI i cl q wt rc Hs. state_is rc Started.
  rewrite (inv_wg _ _ HI). assert (0 < count_if receiving (r_subs w)); [|unfold running; lia].
  apply count_if_pos. by exists i, (mkPubSub cl q wt Started).
Qed.

(** [client.Subscribe] has returned. *)
Lemma inv_subscribed X F w i :
  inv (({[+ Sub i +]} ⊎ X) ⊎ F) w ->
  inv (({[+ Made i +]} ⊎ X) ⊎ F)
    (set_r_subs (<[i := mkPubSub false [] NotStarted NotStarted]> (r_subs w)) w).
Proof.
  intros HI. assert (r_subs w !! i = None) as Hn.
  { pose proof (inv_sub _ _ HI i) as Hi. revert Hi. sub_tokens.
    destruct (r_subs w !! i) as [[cl q [] []]|]; simpl; try done; lia. }
  eapply (inv_local _ _ _ _ i HI); try done; simpl.
  - intros t Ht Hn'. mult.
  - intros j Hj. by rewrite lookup_insert_ne.
  - rewrite lookup_insert_eq. pose proof (inv_sub _ _ HI i) as Hi. rewrite Hn in Hi.
    revert Hi. sub_tokens. simpl. lia.
  - intros _. left. eval_tokens. lia.
  - by eval_tokens.
  - intros k. generalize (inv_fuel _ _ HI i k). unfold pubsub_at. simpl.
    rewrite Hn, lookup_insert_eq. by eval_tokens.
  - rewrite (inv_wg _ _ HI). eval_tokens. unfold running. simpl.
    pose proof (count_if_insert watching i (mkPubSub false [] NotStarted NotStarted) (r_subs w)) as Hw.
    pose proof (count_if_insert receiving i (mkPubSub false [] NotStarted NotStarted) (r_subs w)) as Hr.
    rewrite Hn in Hw, Hr. unfold one_if in *. simpl in *. lia.
Qed.

(** The slots go back when nothing was started. *)
Lemma inv_slots_back F w :
  inv (({[+ Slot +]} ⊎ {[+ Slot +]}) ⊎ F) w -> inv (∅ ⊎ F) (wg_Add (-2) w).
Proof.
  intros [H1 H2 H3 H4 H7 H8 H5 H6]. constructor; simpl; try done.
  - rewrite H1. eval_tokens. unfold running. simpl. lia.
  - intros j. eapply redis_sub_ok_ext; [|apply H2]. intros t Ht _ _. mult.
  - intros j. specialize (H3 j). unfold ctx_ok, claimed in *. revert H3. by eval_tokens.
  - intros j k. generalize (H4 j k). by eval_tokens.
  - revert H7. by eval_tokens.
  - revert H8. by eval_tokens.
  - intros Hw. destruct (H5 Hw) as [Hc Hz]. exfalso. revert H1. eval_tokens. lia.
Qed.

Lemma inv_forget_fresh F w i : inv ({[+ Fresh i +]} ⊎ F) w -> inv (∅ ⊎ F) w.
Proof.
  intros HI. eapply (redis_inv_tokens _ _ _ i HI); [intros t Ht; mult| |..]; try (intros; eval_tokens; lia).
  by_sub HI i.
Qed.

Lemma upd_pubsub_None f i w : r_subs w !! i = None -> upd_pubsub f i w = w.
Proof.
  intros Hs. destruct w as [c g cl k ps sb ev]. unfold upd_pubsub, set_r_subs. simpl in *. f_equal.
  apply map_eq. intros j. destruct (decide (j = i)) as [->|Hne];
    [by rewrite lookup_alter_eq, Hs|by rewrite lookup_alter_ne].
Qed.

(** Redis delivers a message, or the closed subscription drops it. *)
Lemma inv_deliver F w i d :
  inv ({[+ Del +]} ⊎ F) w ->
  inv (∅ ⊎ F) (if ps_closed (pubsub_at w i) then w
               else upd_pubsub (fun p => set_ps_queue (ps_queue p ++ [d]) p) i w).
Proof.
  intros [H1 H2 H3 H4 H7 H8 H5 H6].
  assert (∀ j, sub_ok (∅ ⊎ F) j (r_subs w !! j)) as H2'.
  { intros j. eapply redis_sub_ok_ext; [|apply H2]. intros t Ht _ _. mult. }
  assert (∀ j, ctx_ok (∅ ⊎ F) w j) as H3'.
  { intros j. specialize (H3 j). unfold ctx_ok, claimed in *. revert H3. by eval_tokens. }
  destruct (r_subs w !! i) as [p|] eqn:Hs;
    [|rewrite upd_pubsub_None by done]; destruct (ps_closed (pubsub_at w i));
    (constructor; simpl; try done).
  all: try (intros j k; generalize (H4 j k); eval_tokens; lia).
  all: try (revert H7; by eval_tokens).
  all: try (revert H8; by eval_tokens).
  all: try (rewrite H1; by eval_tokens).
  - rewrite H1. eval_tokens. unfold running. simpl.
    rewrite !(count_if_alter_same _ _ i p _ Hs) by done. done.
  - intros j. destruct (decide (j = i)) as [->|Hne]; [|by rewrite lookup_alter_ne].
    rewrite lookup_alter_eq, Hs. specialize (H2' i). rewrite Hs in H2'. exact H2'.
  - intros j. specialize (H3' j). unfold ctx_ok, claimed in *. simpl.
    destruct (decide (j = i)) as [->|Hne]; [|by rewrite lookup_alter_ne].
    rewrite lookup_alter_eq, Hs. simpl. rewrite Hs in H3'. intros _. apply H3'. right. by eexists.
  - intros j k. generalize (H4 j k). unfold pubsub_at. simpl.
    destruct (decide (j = i)) as [->|Hne].
    + rewrite lookup_alter_eq, Hs. simpl. rewrite length_app. eval_tokens. simpl. lia.
    + rewrite lookup_alter_ne by done. eval_tokens. lia.
Qed.

(** Callers' contexts are nobody's business. *)
Lemma inv_parents T w ps :
  inv T w ->
  inv T (mkRedis (r_cancel w) (r_wg w) (r_closed w) (r_cancelled w) ps (r_subs w) (r_events w)).
Proof. intros []. by constructor. Qed.
