(* ===== verification/RedisPool.v ===== *)
(** * RedisPool: calls of the Redis adapter, overlapping in any way

    Every goroutine follows the tokens of [RedisSpec]: [Close] waits for
    everything that was started, nothing runs after it, and it does not wait
    for ever. *)

From S2P Require Import Prelude Prog Owned Types World Redis RedisSpec.

#[local] Arguments owned : simpl never.

(** What a goroutine that waits may hold. *)
Definition waiting (r : tokens) (w : redis) : Prop :=
  (∃ i, r = {[+ WatchT i +]} /\ ps_watch (pubsub_at w i) <> Started) \/
  (∃ i k, r = {[+ RecvT i +]} ⊎ {[+ Fuel i k +]} /\ ps_recv (pubsub_at w i) <> Started) \/
  (∃ i, r = {[+ WActive i +]} /\ i ∉ r_cancelled w) \/
  (∃ i k, r = {[+ RActive i +]} ⊎ {[+ Fuel i k +]} /\ ps_closed (pubsub_at w i) = false) \/
  (∃ i, r = {[+ Made i +]} ⊎ ({[+ Slot +]} ⊎ {[+ Slot +]}) /\ i ∉ r_cancelled w) \/
  (r = {[+ Shut +]} /\ r_wg w <> 0%Z).

(** What the three kinds of goroutines ever hold. *)
Definition calls_K (r : tokens) : Prop :=
  ∀ i, m (WatchT i) r = 0 /\ m (WActive i) r = 0 /\ m (WClosed i) r = 0 /\
       m (RecvT i) r = 0 /\ m (RActive i) r = 0.

Definition watch_K (i : nat) (r : tokens) : Prop :=
  r = {[+ WatchT i +]} \/ r = {[+ WActive i +]} \/ r = {[+ WClosed i +]} \/ r = ∅.

Definition recv_K (i : nat) (r : tokens) : Prop :=
  (∃ k, r = {[+ RecvT i +]} ⊎ {[+ Fuel i k +]}) \/
  (∃ k, r = {[+ RActive i +]} ⊎ {[+ Fuel i k +]}) \/ r = ∅.

Abbreviation own := (owned inv waiting).

(** ** The calls *)
Section Calls.
Context (sub_Receive : nat -> bool -> option (option error)).
Context (Hreceive : ∀ i, sub_Receive i true <> None).

Ltac holds := intros ?; eval_duty; lia.

(** Cancelling what has to be cancelled. *)
Lemma own_cancel o X {A} (k : rprg A) Q :
  calls_K X -> own calls_K X k Q ->
  own calls_K (duty o ⊎ X) ((match o with Some p => cancel_ctx p | None => mret tt end) ;; k) Q.
Proof.
  intros HK Hk. destruct o as [p|]; cbn [duty].
  - apply owned_modify; [intros i; specialize (HK i); eval_tokens; lia|]. intros F w HI.
    exists X. split; [|done]. eapply inv_cancel; [exact HI|]. intros t Ht. mult.
  - by rewrite (left_id_L ∅ (⊎)).
Qed.

Lemma redis_own_Subscribe i ctx :
  own calls_K {[+ Fresh i +]} (Subscribe sub_Receive i ctx) (fun _ r => r = ∅).
Proof.
  apply owned_atomically; [holds|]. intros F w HI. destruct (r_closed w) eqn:Hc; cbn [fst snd].
  { exists ∅. split; [by eapply inv_forget_fresh|]. apply owned_modify; [holds|]. intros F' w' HI'.
    exists ∅. split; [by eapply inv_cancel|]. by apply owned_ret; [holds|]. }
  exists (duty (r_cancel w) ⊎ ({[+ Sub i +]} ⊎ ({[+ Slot +]} ⊎ {[+ Slot +]}))).
  split; [by apply inv_claim|]. apply own_cancel; [holds|]. clear HI Hc F w.
  apply owned_modify; [holds|]. intros F w HI. exists ({[+ Made i +]} ⊎ ({[+ Slot +]} ⊎ {[+ Slot +]})).
  split; [by apply inv_subscribed|]. clear HI F w.
  apply owned_await; [holds|]. intros F w HI.
  destruct (sub_Receive i (sub_ctx_done w ctx i)) as [[e|]|] eqn:Hr; simpl.
  - exists ({[+ Made i +]} ⊎ ({[+ Slot +]} ⊎ {[+ Slot +]})). split; [done|]. clear HI Hr F w.
    apply owned_modify; [holds|]. intros F w HI. exists ({[+ Slot +]} ⊎ {[+ Slot +]}).
    split; [by apply inv_receive_failed|]. clear HI F w.
    apply owned_modify; [holds|]. intros F w HI. exists ({[+ Slot +]} ⊎ {[+ Slot +]}).
    split; [by eapply inv_cancel|]. clear HI F w.
    apply owned_modify; [holds|]. intros F w HI. exists ∅.
    split; [by apply inv_slots_back|by apply owned_ret; [holds|]].
  - exists ({[+ Made i +]} ⊎ ({[+ Slot +]} ⊎ {[+ Slot +]})). split; [done|]. clear HI Hr F w.
    apply owned_modify; [holds|]. intros F w HI. exists ({[+ Launch i +]} ⊎ {[+ Slot +]}).
    split; [by apply inv_launch_watch|]. clear HI F w.
    apply owned_modify; [holds|]. intros F w HI. exists ∅.
    split; [by apply inv_launch_recv|by apply owned_ret; [holds|]].
  - do 4 right. left. exists i. split; [done|]. intros Hi. apply (Hreceive i).
    unfold sub_ctx_done in Hr. by rewrite bool_decide_true in Hr.
Qed.

Lemma redis_own_Close : own calls_K ∅ Close (fun _ r => r = ∅).
Proof.
  apply owned_atomically; [holds|]. intros F w HI. destruct (r_closed w); cbn [fst snd].
  { exists ∅. split; [done|]. by apply owned_ret; [holds|]. }
  exists (duty (r_cancel w) ⊎ {[+ Shut +]}). split; [by apply inv_close|].
  apply own_cancel; [holds|]. clear HI F w.
  apply owned_await; [holds|]. intros F w HI. case_bool_decide as Hz.
  - exists ∅. split; [by apply inv_wait_done|]. by apply owned_ret; [holds|].
  - do 5 right. done.
Qed.

Lemma redis_own_Publish chan client_Publish json_Marshal ctx msg :
  own calls_K ∅ (Publish chan client_Publish json_Marshal ctx msg) (fun _ r => r = ∅).
Proof.
  assert (calls_K ∅) as H0 by holds.
  apply owned_atomically; [done|]. intros F w HI. exists ∅. split; [done|].
  destruct (r_closed w); [by apply owned_ret|]. destruct (json_Marshal msg) as [e|d]; [by apply owned_ret|].
  apply owned_atomically; [done|]. intros F' w' HI'. exists ∅.
  split; [|by apply owned_ret]. destruct (client_Publish _ _ _); [done|].
  apply inv_record; [done|done|by eauto].
Qed.
End Calls.

(** ** The goroutines of a subscription *)
Section Goroutines.
Context (json_Unmarshal : bytes -> error + AdapterMessage).

Lemma watch_K_at i t : t = WatchT i \/ t = WActive i \/ t = WClosed i -> watch_K i {[+ t +]}.
Proof. unfold watch_K. naive_solver. Qed.

#[local] Hint Resolve watch_K_at : core.

Lemma own_watch_context i ctx :
  own (watch_K i) {[+ WatchT i +]} (watch_context i ctx) (fun _ r => r = ∅).
Proof.
  assert (watch_K i ∅) as H0 by by do 3 right.
  apply owned_await; [auto|]. intros F w HI. case_bool_decide as Hs; [|left; by exists i].
  exists {[+ WActive i +]}. split; [by apply inv_watch_active|]. clear HI Hs F w.
  apply owned_await; [auto|]. intros F w HI. destruct (sub_ctx_done w ctx i) eqn:Hd.
  2: { right. right. left. exists i. split; [done|]. intros Hi. unfold sub_ctx_done in Hd.
       by rewrite bool_decide_true in Hd. }
  exists {[+ WActive i +]}. split; [done|]. clear HI Hd F w.
  apply owned_modify; [auto|]. intros F w HI. exists {[+ WClosed i +]}.
  split; [by apply inv_watch_close|]. clear HI F w.
  apply owned_last_atomically; [auto|]. intros F w HI. exists ∅. split; [by apply inv_watch_end|done].
Qed.

Lemma recv_K_active i k : recv_K i ({[+ RActive i +]} ⊎ {[+ Fuel i k +]}).
Proof. right. left. by exists k. Qed.

#[local] Hint Resolve recv_K_active : core.

(** A handler of the pool only records its call. *)
Lemma own_on_payload i k d :
  own (recv_K i) ({[+ RActive i +]} ⊎ {[+ Fuel i k +]})
    (on_payload json_Unmarshal (Some (log_bad i)) (log_handled i) d)
    (fun _ r => r = {[+ RActive i +]} ⊎ {[+ Fuel i k +]}).
Proof.
  assert (∀ F w, inv ({[+ RActive i +]} ⊎ {[+ Fuel i k +]} ⊎ F) w -> r_wg w <> 0%Z) as Hwg.
  { intros F w HI. eapply active_counted. by rewrite (assoc_L (⊎)). }
  unfold on_payload. destruct (json_Unmarshal d); apply owned_last_atomically; try done; intros F w HI;
    exists ({[+ RActive i +]} ⊎ {[+ Fuel i k +]}); (split; [|done]);
    apply inv_record; eauto.
Qed.

Lemma own_receive_loop i k :
  own (recv_K i) ({[+ RActive i +]} ⊎ {[+ Fuel i k +]})
    (receive_loop json_Unmarshal k (Some (log_bad i)) (log_handled i) i) (fun _ r => r = ∅).
Proof.
  induction k as [|k IH]; cbn [receive_loop].
  - apply owned_last; [done|]. intros F w HI. exfalso.
    pose proof (inv_fuel _ _ HI i 0) as Hf. revert Hf. eval_tokens. lia.
  - apply owned_await; [done|]. intros F w HI.
    destruct (ps_queue (pubsub_at w i)) as [|d q] eqn:Hq.
    + destruct (ps_closed (pubsub_at w i)) eqn:Hc; [|right; right; right; left; by exists i, (S k)].
      exists ({[+ RActive i +]} ⊎ {[+ Fuel i (S k) +]}). split; [done|].
      apply owned_last_atomically; [done|]. intros F' w' HI'. exists ∅.
      split; [by eapply inv_recv_end|]. split; [by right; right|done].
    + exists ({[+ RActive i +]} ⊎ {[+ Fuel i k +]}). split; [by eapply inv_pop|].
      eapply owned_bind; [apply own_on_payload|]. intros [] r _ ->. apply IH.
Qed.

Lemma own_receive_messages i k :
  own (recv_K i) ({[+ RecvT i +]} ⊎ {[+ Fuel i k +]})
    (receive_messages json_Unmarshal k (Some (log_bad i)) (log_handled i) i) (fun _ r => r = ∅).
Proof.
  apply owned_await; [left; by exists k|]. intros F w HI.
  case_bool_decide as Hs; [|right; left; by exists i, k].
  exists ({[+ RActive i +]} ⊎ {[+ Fuel i k +]}). split; [by apply inv_recv_active|apply own_receive_loop].
Qed.
End Goroutines.

(** ** Pools of calls *)
Section Pool.
Context (sub_Receive : nat -> bool -> option (option error)).
Context (chan : string) (client_Publish : bool -> string -> bytes -> option error).
Context (json_Marshal : AdapterMessage -> error + bytes)
        (json_Unmarshal : bytes -> error + AdapterMessage).
Context (calls : list redis_call).
Context (Hreceive : ∀ i, sub_Receive i true <> None).
Abbreviation pool := (redis_pool sub_Receive chan client_Publish json_Marshal json_Unmarshal calls).
Abbreviation ok := (thread_ok inv waiting).

Definition call_tokens (i : nat) (c : redis_call) : tokens :=
  match c with RSubscribe _ => {[+ Fresh i +]} | RDeliver _ _ => {[+ Del +]} | _ => ∅ end.

Definition watch_tokens (i : nat) (c : redis_call) : tokens :=
  match c with RSubscribe _ => {[+ WatchT i +]} | _ => ∅ end.

Definition recv_tokens (i : nat) (c : redis_call) : tokens :=
  match c with
  | RSubscribe _ => {[+ RecvT i +]} ⊎ {[+ Fuel i (S (length calls)) +]}
  | _ => ∅
  end.

Definition initial : list tokens :=
  imap call_tokens calls ++ imap watch_tokens calls ++ imap recv_tokens calls.

Definition holders : list (tokens -> Prop) :=
  imap (fun _ _ => calls_K) calls ++ imap (fun i _ => watch_K i) calls ++
  imap (fun i _ => recv_K i) calls.

Lemma redis_thread_ok i c :
  ok calls_K (redis_thread sub_Receive chan client_Publish json_Marshal i c) (call_tokens i c).
Proof.
  assert (calls_K ∅) as H0 by (intros ?; mult).
  unfold thread_ok. destruct c as [ctx| |ctx msg|k|j d]; cbn [redis_thread call_tokens].
  - eapply owned_bind; [by apply redis_own_Subscribe|]. intros e r _ ->. by apply owned_ret.
  - eapply owned_bind; [by apply redis_own_Close|]. intros e r _ ->. by apply owned_ret.
  - eapply owned_bind; [by apply redis_own_Publish|]. intros e r _ ->. by apply owned_ret.
  - apply owned_modify; [done|]. intros F w HI. exists ∅. split; [by apply inv_parents|by apply owned_ret].
  - apply owned_modify; [intros i'; eval_tokens; lia|]. intros F w HI. exists ∅.
    split; [by apply inv_deliver|by apply owned_ret].
Qed.

Lemma watch_thread_ok i c : ok (watch_K i) (watch_thread i c) (watch_tokens i c).
Proof.
  destruct c; cbn [watch_thread watch_tokens]; [apply own_watch_context|..];
    by apply owned_ret; [do 3 right|].
Qed.

Lemma receive_thread_ok i c :
  ok (recv_K i) (receive_thread json_Unmarshal (S (length calls)) i c) (recv_tokens i c).
Proof.
  destruct c; cbn [receive_thread recv_tokens]; [apply own_receive_messages|..];
    by apply owned_ret; [right; right|].
Qed.

Lemma redis_initial_mult t i :
  about t = Some i ->
  m t (held initial) =
  from_option (fun c => m t (call_tokens i c) + m t (watch_tokens i c) + m t (recv_tokens i c)) 0 (calls !! i).
Proof.
  intros Ht. unfold initial. rewrite !multiplicity_held_app.
  rewrite !(multiplicity_held_imap_at _ _ _ i).
  - destruct (calls !! i); simpl; lia.
  - intros j [] Hj; simpl; mult.
  - intros j [] Hj; simpl; mult.
  - intros j [] Hj; simpl; mult.
Qed.

Lemma initial_zero t : t = Slot \/ t = Shut -> m t (held initial) = 0.
Proof.
  intros Ht. unfold initial. rewrite !multiplicity_held_app, !multiplicity_held_imap_zero; [done|..];
    intros j []; simpl; destruct Ht as [-> | ->]; mult.
Qed.

Lemma initial_del : m Del (held initial) <= length calls.
Proof.
  unfold initial. rewrite !multiplicity_held_app, (multiplicity_held_imap_zero _ watch_tokens),
    (multiplicity_held_imap_zero _ recv_tokens) by (intros j []; simpl; mult).
  assert (m Del (held (imap call_tokens calls)) <= length calls); [|lia].
  apply multiplicity_held_imap_le. intros j []; simpl; mult.
Qed.

Lemma redis_initial_inv : inv (held initial) new_redis.
Proof.
  constructor; simpl; try done.
  - rewrite initial_zero by auto. done.
  - intros i. unfold sub_ok. rewrite lookup_empty, !(redis_initial_mult _ i) by done.
    destruct (calls !! i) as [[]|]; simpl; eval_tokens; lia.
  - intros i [Hc|Hc]; simpl in Hc; [|by rewrite lookup_empty in Hc; destruct Hc].
    exfalso. rewrite (redis_initial_mult _ i) in Hc by done. revert Hc.
    destruct (calls !! i) as [[]|]; simpl; eval_tokens; lia.
  - intros i k Hk. unfold pubsub_at. simpl. rewrite lookup_empty. simpl.
    pose proof initial_del. rewrite (redis_initial_mult _ i) in Hk by done. revert Hk.
    destruct (calls !! i) as [[]|]; simpl; mult.
  - rewrite initial_zero by auto. lia.
  - by intros ?%elem_of_nil.
Qed.

Lemma redis_initial_owned : pool_owned inv waiting holders (pool, new_redis).
Proof.
  exists initial. split; [|by apply redis_initial_inv]. apply Forall3_app; [|apply Forall3_app].
  - apply Forall3_imap. intros i c. apply redis_thread_ok.
  - apply Forall3_imap. intros i c. apply watch_thread_ok.
  - apply Forall3_imap. intros i c. apply receive_thread_ok.
Qed.

Lemma redis_reach_owned ps w :
  pool_reach (pool, new_redis) (ps, w) -> pool_owned inv waiting holders (ps, w).
Proof. intros Hr. eapply pool_owned_reach; [done|apply redis_initial_owned]. Qed.

(** ** What the tokens say at the end *)
Definition returned (ps : list (rprg unit)) : Prop :=
  ∀ i, i < length calls -> ps !! i = Some (mret tt).

(** The tokens of the goroutines of a subscription. *)
Definition of_goroutine (t : rtok) : Prop :=
  match t with
  | WatchT _ | WActive _ | WClosed _ | RecvT _ | RActive _ | Fuel _ _ => True
  | _ => False
  end.

Lemma redis_returned_tokens ps rs t :
  Forall3 ok holders ps rs -> returned ps -> ¬ of_goroutine t -> m t (held rs) = 0.
Proof.
  intros HF Hret Ht. destruct (m t (held rs)) eqn:Hm; [done|exfalso]. apply Ht.
  assert (t ∈ held rs) as (i & r & Hi & Hr)%elem_of_held by (rewrite elem_of_multiplicity; lia).
  destruct (Forall3_lookup_r _ _ _ _ _ _ HF Hi) as (K & p & HK & Hp & Hok).
  destruct (decide (i < length calls)) as [Hlt|Hge].
  { rewrite (Hret i Hlt) in Hp. simplify_eq. destruct Hok as [_ ->]. multiset_solver. }
  apply owned_K in Hok. unfold holders in HK.
  rewrite lookup_app_r, length_imap in HK by (rewrite length_imap; lia).
  apply lookup_app_Some in HK as [HK|[_ HK]]; rewrite list_lookup_imap in HK;
    apply fmap_Some in HK as (c & _ & ->).
  - destruct Hok as [-> |[-> |[-> | ->]]]; try multiset_solver;
      apply gmultiset_elem_of_singleton in Hr; by subst.
  - destruct Hok as [[k ->]|[[k ->]| ->]]; [..|multiset_solver];
      apply gmultiset_elem_of_disj_union in Hr as [Hr|Hr];
      apply gmultiset_elem_of_singleton in Hr; by subst.
Qed.

(** Which tokens a waiting goroutine holds. *)
Lemma waiting_elem r w t :
  waiting r w -> t ∈ r ->
  match t with
  | WatchT i => ps_watch (pubsub_at w i) <> Started
  | RecvT i => ps_recv (pubsub_at w i) <> Started
  | WActive i => i ∉ r_cancelled w
  | RActive i => ps_closed (pubsub_at w i) = false
  | Made i => i ∉ r_cancelled w
  | Slot => ∃ i, Made i ∈ r /\ i ∉ r_cancelled w
  | Shut | Fuel _ _ => True
  | _ => False
  end.
Proof.
  intros Hw Hr. destruct Hw as [(i & -> & Hw)|[(i & k & -> & Hw)|[(i & -> & Hw)|
    [(i & k & -> & Hw)|[(i & -> & Hw)|(-> & Hw)]]]]];
    rewrite ?gmultiset_elem_of_disj_union, !gmultiset_elem_of_singleton in Hr;
    destruct_or? Hr; subst; try done; exists i; (split; [multiset_solver|done]).
Qed.

(** ** A closed adapter that cannot move *)
Section Stuck.
Context (ps : list (rprg unit)) (w : redis) (rs : list tokens).
Context (HF : Forall3 ok holders ps rs) (HI : inv (held rs) w).
Context (Hst : ∀ s, ¬ pool_step (ps, w) s) (Hclosed : r_closed w = true).

(** What is held is held by somebody who waits. *)
Lemma stuck_elem t :
  0 < m t (held rs) ->
  ∃ r, waiting r w /\ t ∈ r /\ (∀ t', t' ∈ r -> 0 < m t' (held rs)).
Proof.
  intros Ht. rewrite <-elem_of_multiplicity in Ht.
  destruct (elem_of_held _ _ Ht) as (i & r & Hi & Hr). exists r.
  destruct (pool_owned_stuck _ _ _ _ _ _ _ _ HF HI Hst Hi) as [[-> _]|Hw]; [multiset_solver|].
  split; [done|]. split; [done|]. intros t' Ht'. rewrite <-elem_of_multiplicity.
  by eapply elem_of_held_2.
Qed.

(** Every context is cancelled. *)
Lemma stuck_cancelled i : is_Some (r_subs w !! i) -> i ∈ r_cancelled w.
Proof.
  intros Hs. destruct (inv_ctx _ _ HI i) as [Hi|[Hi|[_ Hi]]]; [by right|done| |congruence].
  destruct (stuck_elem _ Hi) as (r & Hw & Hr & _). by destruct (waiting_elem _ _ _ Hw Hr).
Qed.

(** No watcher is left running. *)
Lemma stuck_no_watcher i p : r_subs w !! i = Some p -> watching p = false.
Proof.
  intros Hs. destruct (watching p) eqn:Hp; [exfalso|done]. apply bool_decide_eq_true in Hp.
  pose proof (inv_sub _ _ HI i) as Hi. rewrite Hs in Hi. unfold sub_ok in Hi. rewrite Hp in Hi.
  pose proof (stuck_cancelled i (mk_is_Some _ _ Hs)) as Hk.
  assert (0 < m (WatchT i) (held rs) + m (WActive i) (held rs) + m (WClosed i) (held rs)) as Hm
    by (destruct (ps_recv p); simpl in Hi; lia).
  assert (∃ t, (t = WatchT i \/ t = WActive i \/ t = WClosed i) /\ 0 < m t (held rs)) as (t & Ht & Hm').
  { destruct (decide (0 < m (WatchT i) (held rs))); [by eauto|].
    destruct (decide (0 < m (WActive i) (held rs))); [by eauto|]. exists (WClosed i). split; [auto|lia]. }
  destruct (stuck_elem _ Hm') as (r & Hw & Hr & _). pose proof (waiting_elem _ _ _ Hw Hr) as He.
  destruct Ht as [-> |[-> | ->]]; simpl in He; try done. unfold pubsub_at in He. by rewrite Hs in He.
Qed.

(** No receiver either: its channel is closed. *)
Lemma stuck_no_receiver i p : r_subs w !! i = Some p -> receiving p = false.
Proof.
  intros Hs. destruct (receiving p) eqn:Hp; [exfalso|done]. apply bool_decide_eq_true in Hp.
  pose proof (stuck_no_watcher i p Hs) as Hnw. apply bool_decide_eq_false in Hnw.
  pose proof (inv_sub _ _ HI i) as Hi. rewrite Hs in Hi. unfold sub_ok in Hi. rewrite Hp in Hi.
  assert (0 < m (RecvT i) (held rs) + m (RActive i) (held rs) /\ ps_closed p = true) as [Hm Hcl]
    by (destruct (ps_watch p), (ps_closed p); simpl in Hi; try done; lia).
  assert (∃ t, (t = RecvT i \/ t = RActive i) /\ 0 < m t (held rs)) as (t & Ht & Hm').
  { destruct (decide (0 < m (RecvT i) (held rs))); [by eauto|]. exists (RActive i). split; [auto|lia]. }
  destruct (stuck_elem _ Hm') as (r & Hw & Hr & _). pose proof (waiting_elem _ _ _ Hw Hr) as He.
  destruct Ht as [-> | ->]; simpl in He; unfold pubsub_at in He; rewrite Hs in He; simpl in He; congruence.
Qed.

Lemma stuck_made i : m (Made i) (held rs) = 0.
Proof.
  destruct (m (Made i) (held rs)) eqn:Hm; [done|exfalso].
  destruct (stuck_elem (Made i)) as (r & Hw & Hr & _); [lia|].
  apply (waiting_elem _ _ _ Hw Hr), stuck_cancelled.
  pose proof (inv_sub _ _ HI i) as Hi. destruct (r_subs w !! i); [done|]. unfold sub_ok in Hi. lia.
Qed.

(** So there is nothing to wait for. *)
Lemma stuck_idle : r_wg w = 0%Z.
Proof.
  assert (m Slot (held rs) = 0) as HS.
  { destruct (m Slot (held rs)) eqn:Hm; [done|exfalso].
    destruct (stuck_elem Slot) as (r & Hw & Hr & Hall); [lia|].
    destruct (waiting_elem _ _ _ Hw Hr) as (i & HMi & _).
    specialize (Hall _ HMi). rewrite stuck_made in Hall. lia. }
  rewrite (inv_wg _ _ HI), HS. unfold running.
  assert (¬ 0 < count_if watching (r_subs w)).
  { intros (i & p & Hs & Hp)%count_if_pos. by rewrite (stuck_no_watcher i p Hs) in Hp. }
  assert (¬ 0 < count_if receiving (r_subs w)).
  { intros (i & p & Hs & Hp)%count_if_pos. by rewrite (stuck_no_receiver i p Hs) in Hp. }
  lia.
Qed.

Lemma redis_stuck_returned : returned ps.
Proof.
  intros i Hlt. pose proof (Forall3_length_lm _ _ _ _ HF). pose proof (Forall3_length_lr _ _ _ _ HF).
  unfold holders in *. rewrite !length_app, !length_imap in *.
  destruct (lookup_lt_is_Some_2 rs i) as [r Hi]; [lia|].
  destruct (pool_owned_stuck _ _ _ _ _ _ _ _ HF HI Hst Hi) as [[_ Hp]|Hw]; [done|exfalso].
  destruct (Forall3_lookup_r _ _ _ _ _ _ HF Hi) as (K & p & HK & Hp & Hok).
  rewrite lookup_app_l, list_lookup_imap in HK by (rewrite length_imap; lia).
  apply fmap_Some in HK as (c & _ & ->). apply owned_K in Hok.
  destruct Hw as [(j & -> & _)|[(j & k & -> & _)|[(j & -> & _)|
    [(j & k & -> & _)|[(j & -> & _)|(-> & Hw)]]]]].
  1-4: specialize (Hok j); revert Hok; eval_tokens; lia.
  - assert (0 < m (Made j) (held rs)); [|rewrite stuck_made in *; lia].
    rewrite <-elem_of_multiplicity. eapply elem_of_held_2; [done|]. multiset_solver.
  - by rewrite stuck_idle in Hw.
Qed.
End Stuck.

(** ** Properties *)

(** C17: the [WaitGroup] of the Redis adapter is used as it must be: its counter
    is never negative, and it counts the slots reserved for a start that is
    under way and the goroutines that run.  Once [Close] has returned from its
    wait, the counter is zero for good, no goroutine of the adapter runs, and
    no handler is ever called again. *)
Theorem redis_quiet_after_close ps w :
  pool_reach (pool, new_redis) (ps, w) ->
  (0 <= r_wg w)%Z /\
  (WaitDone ∈ r_events w ->
    r_closed w = true /\ r_wg w = 0%Z /\
    ∀ i p, r_subs w !! i = Some p -> watching p = false /\ receiving p = false) /\
  (∀ later earlier, r_events w = later ++ WaitDone :: earlier ->
    ∀ i am d e, Handled i am ∉ later /\ BadPayload i d e ∉ later).
Proof.
  intros (rs & _ & HI)%redis_reach_owned. simpl in HI. pose proof (inv_wg _ _ HI) as Hw. split; [lia|]. split.
  - intros He. destruct (inv_wait _ _ HI He) as [Hc Hz]. split; [done|]. split; [done|].
    intros i p Hs. unfold running in Hw. split.
    + destruct (watching p) eqn:Hp; [|done]. assert (0 < count_if watching (r_subs w)); [|lia].
      apply count_if_pos. eauto.
    + destruct (receiving p) eqn:Hp; [|done]. assert (0 < count_if receiving (r_subs w)); [|lia].
      apply count_if_pos. eauto.
  - intros later earlier He i am d e. pose proof (inv_quiet _ _ HI) as Hq. rewrite He in Hq.
    by apply (quiet_app later earlier).
Qed.

(** a closed Redis adapter leaks nothing: once every call has returned, the
    counter is zero, every subscription ever made has been closed, and none
    of its goroutines runs, also for calls of [Subscribe] that overlapped
    [Close] or one another, or whose subscription failed. *)
Theorem redis_closed_no_leak ps w :
  pool_reach (pool, new_redis) (ps, w) -> returned ps -> r_closed w = true ->
  r_wg w = 0%Z /\
  ∀ i p, r_subs w !! i = Some p ->
    ps_closed p = true /\ ps_watch p <> Started /\ ps_recv p <> Started.
Proof.
  intros (rs & HF & HI)%redis_reach_owned Hret Hcl. simpl in *.
  assert (∀ t, ¬ of_goroutine t -> m t (held rs) = 0) as H0 by (intros; by eapply redis_returned_tokens).
  destruct (inv_closed _ _ HI Hcl) as [Hs|Hd]; [rewrite H0 in Hs by (by intros []); lia|].
  destruct (inv_wait _ _ HI Hd) as [_ Hz]. split; [done|]. intros i p Hs.
  pose proof (inv_wg _ _ HI) as Hw. unfold running in Hw.
  assert (ps_watch p <> Started) as Hnw.
  { intros Hp. assert (0 < count_if watching (r_subs w)); [|lia]. apply count_if_pos.
    exists i, p. split; [done|]. by apply bool_decide_eq_true. }
  assert (ps_recv p <> Started) as Hnr.
  { intros Hp. assert (0 < count_if receiving (r_subs w)); [|lia]. apply count_if_pos.
    exists i, p. split; [done|]. by apply bool_decide_eq_true. }
  split; [|done]. pose proof (inv_sub _ _ HI i) as Hi. rewrite Hs in Hi. unfold sub_ok in Hi.
  rewrite (H0 (Made i)) in Hi by (by intros []).
  destruct (ps_watch p), (ps_recv p), (ps_closed p); simpl in Hi; try done; exfalso; lia.
Qed.

End Pool.

(** ** A pool at work *)

(** A subscription receives a message, and the adapter is closed. *)
Definition relay_calls : list redis_call := [RSubscribe Background; RDeliver 0 []; RClose].

Definition relayed : AdapterMessage := mkAdapterMessage "node" AdapterBroadcast "" "" "" [] 1 [].

(** Redis confirms the subscription, and answers when the context is done. *)
Definition confirms (_ : nat) (done : bool) : option (option error) :=
  Some (if done then Some ErrContext else None).

Lemma confirms_done i : confirms i true <> None.
Proof. done. Qed.

Definition relay_pool : list (rprg unit) :=
  redis_pool confirms "wshub:messages"
    (fun _ _ _ => None) (fun _ => inl ErrContext) (fun _ => inr relayed) relay_calls.

Lemma relay_reaches :
  ∃ ps w, pool_reach (relay_pool, new_redis) (ps, w) /\ returned relay_calls ps /\
    r_closed w = true /\ r_events w = [WaitDone; Handled 0 relayed].
Proof.
  destruct (replay [0; 0; 0; 0; 0; 3; 6; 1; 6; 6; 2; 2; 3; 3; 3; 6; 6; 2] (relay_pool, new_redis)
    (fun ps w => forallb has_returned (take 3 ps) && bool_decide (3 <= length ps) && r_closed w &&
       match r_events w with [WaitDone; Handled 0 am] => bool_decide (am = relayed) | _ => false end))
    as (ps & w & Hr & Ho); [by vm_compute|].
  apply andb_prop in Ho as [Ho Hd]. apply andb_prop in Ho as [Ho Hc]. apply andb_prop in Ho as [Ho Hl].
  apply bool_decide_eq_true in Hl. exists ps, w. split; [done|]. split; [|split; [done|]].
  - intros i Hi. destruct (lookup_lt_is_Some_2 ps i) as [p Hp]; [simpl in Hi; lia|].
    rewrite forallb_forall in Ho. rewrite Hp. f_equal. apply has_returned_ret, Ho.
    apply list_elem_of_In. apply list_elem_of_lookup. exists i. by rewrite lookup_take_lt.
  - destruct (r_events w) as [|[] [|[[|?] am| | |] [|]]]; try done. apply bool_decide_eq_true in Hd. by subst.
Qed.

Lemma redis_quiet_after_close_witness :
  ∃ ps w, pool_reach (relay_pool, new_redis) (ps, w) /\ r_events w = [WaitDone; Handled 0 relayed] /\
    (0 <= r_wg w)%Z.
Proof.
  destruct relay_reaches as (ps & w & Hr & Hret & Hc & He). exists ps, w. split; [done|]. split; [done|].
  apply (redis_quiet_after_close confirms "wshub:messages"
    (fun _ _ _ => None) (fun _ => inl ErrContext) (fun _ => inr relayed) relay_calls confirms_done ps w Hr).
Defined.

Lemma redis_closed_no_leak_witness :
  ∃ ps w, pool_reach (relay_pool, new_redis) (ps, w) /\ r_events w = [WaitDone; Handled 0 relayed] /\
    r_wg w = 0%Z.
Proof.
  destruct relay_reaches as (ps & w & Hr & Hret & Hc & He). exists ps, w. split; [done|]. split; [done|].
  apply (redis_closed_no_leak confirms "wshub:messages"
    (fun _ _ _ => None) (fun _ => inl ErrContext) (fun _ => inr relayed) relay_calls confirms_done ps w Hr Hret Hc).
Defined.

