(* ===== verification/System.v ===== *)
(** * System: a whole hub under any schedule

    Every goroutine of the package and every call of its interface, running
    together: whatever the scheduler does, the invariant [wf] holds between
    any two critical sections. *)

From S2P Require Import Prelude Prog Types Config World Invariant Send Client Rooms Registry Pool.
From S2P Require Import Broadcast Pump Presence Cluster Origin Lifecycle.

(** A call whose result nobody reads. *)
Definition ignore {A : Type} (p : prg A) : prg unit := _ ← p ; mret tt.

Lemma keeps_ignore {A} I (p : prg A) : keeps I p -> keeps I (ignore p).
Proof. intros H. apply keeps_bind; [done|]. intros ?. apply keeps_ret. Qed.

Section System.
Context {RT : Runtime} (lim : Limits) (env : HubEnv) (Hlim : limits env = lim)
  (Hh : hooks_keep lim env).

(** The code outside the package that its goroutines run: gorilla's upgrade and
    read, and the JSON codec of the presence messages. *)
Context (Upgrade : (Request -> prg bool) -> Request -> prg (option error)).
Context (ReadMessage : prg (option error) -> cref -> prg (error + (Z * bytes))).
Context (unexpected : error -> list Z -> bool) (error_text : error -> string).
Context (json_Marshal : nodePresence -> error + bytes) (json_Unmarshal : bytes -> error + nodePresence).

Inductive hub_call : prg unit -> Prop :=
  (* the hub's own goroutines *)
  | go_Run drain fuel : hub_call (Run env drain fuel)
  | go_runDrainReaper fuel : hub_call (runDrainReaper env fuel)
  | go_runPresence fuel : hub_call (runPresence env json_Marshal fuel)
  | go_runWorker fuel : hub_call (runWorker env fuel)
  | go_writePump fuel c : hub_call (writePump fuel c)
  | go_readPump fuel c : hub_call (readPump env unexpected ReadMessage fuel c)
  | go_read_watcher c : hub_call (read_watcher c)
  (* the adapter's subscription *)
  | on_adapter_message m : hub_call (handleAdapterMessage env json_Unmarshal m)
  (* the application's calls on the hub *)
  | do_HandleHTTP r : hub_call (HandleHTTP env Upgrade error_text r)
  | do_Drain ctx : hub_call (ignore (Drain env ctx))
  | do_Shutdown ctx : hub_call (ignore (Shutdown env ctx))
  | do_Broadcast d : hub_call (Broadcast env d)
  | do_BroadcastBinary d : hub_call (BroadcastBinary env d)
  | do_BroadcastWithContext ctx d : hub_call (ignore (BroadcastWithContext env ctx d))
  | do_BroadcastExcept d mt except : hub_call (broadcastExceptWithType env d mt except)
  | do_BroadcastToRoom n d mt : hub_call (ignore (broadcastToRoomWithType env n d mt))
  | do_BroadcastToRoomWithContext ctx n d : hub_call (ignore (BroadcastToRoomWithContext env ctx n d))
  | do_BroadcastToRoomExcept n d mt l : hub_call (ignore (broadcastToRoomExceptWithType env n d mt l))
  | do_SendToUser u d mt : hub_call (sendToUserWithType env u d mt)
  | do_SendToUserWithContext ctx u d : hub_call (ignore (SendToUserWithContext env ctx u d))
  | do_SendToClient i d mt : hub_call (ignore (sendToClientWithType env i d mt))
  | do_SendToClientWithContext ctx i d : hub_call (ignore (SendToClientWithContext env ctx i d))
  | do_JoinRoom c n : hub_call (ignore (JoinRoom env c n))
  | do_LeaveRoom c n : hub_call (ignore (LeaveRoom env c n))
  | do_LeaveAllRooms c : hub_call (LeaveAllRooms env c)
  (* the application's calls on a client *)
  | do_SendMessage c mt d : hub_call (ignore (SendMessage env c mt d))
  | do_SendMessageWithContext ctx c mt d : hub_call (ignore (SendMessageWithContext ctx c mt d))
  | do_SetUserID c u : hub_call (ignore (SetUserID env c u))
  | do_SetMetadata c k v : hub_call (SetMetadata c k v)
  | do_DeleteMetadata c k : hub_call (DeleteMetadata c k)
  | do_CloseWithCode c code reason : hub_call (ignore (CloseWithCode c code reason)).

Context (Hup : ∀ check r, (∀ r, keeps (wf lim) (check r)) -> keeps (wf lim) (Upgrade check r)).
Context (Hread : ∀ pong c, keeps (wf lim) pong -> keeps (wf lim) (ReadMessage pong c)).

Lemma hub_call_keeps p : hub_call p -> keeps (wf lim) p.
Proof. destruct 1; try apply keeps_ignore; eauto with keeps. Qed.
End System.

(** C1: The invariant of a hub.  Start from a state where [wf] holds and run
    any number of the hub's goroutines and of calls of its interface under any
    schedule: in every state they reach, at every point where another
    goroutine can look, every client queue is within its channel's capacity,
    no client is in more rooms, no room has more clients and no user more
    connections than the limits allow, every room's published snapshot lists
    exactly its members, no two room names share a room, the user index has
    no empty entries, and the rooms gauge equals the number of rooms. *)
Theorem system_invariant {RT : Runtime} (env : HubEnv)
    (Upgrade : (Request -> prg bool) -> Request -> prg (option error))
    (ReadMessage : prg (option error) -> cref -> prg (error + (Z * bytes))) (unexpected : error -> list Z -> bool)
    (error_text : error -> string) (enc : nodePresence -> error + bytes)
    (dec : bytes -> error + nodePresence) (calls ps' : list (prg unit)) (w w' : world)
    (Hh : hooks_keep (limits env) env)
    (Hup : ∀ check r, (∀ r, keeps (wf (limits env)) (check r)) ->
                      keeps (wf (limits env)) (Upgrade check r))
    (Hread : ∀ pong c, keeps (wf (limits env)) pong -> keeps (wf (limits env)) (ReadMessage pong c))
    (Hcalls : Forall (hub_call env Upgrade ReadMessage unexpected error_text enc dec) calls)
    (Hw : wf (limits env) w)
    (Hreach : pool_reach (calls, w) (ps', w')) :
  wf (limits env) w'.
Proof.
  refine (proj2 (keeps_pool (wf (limits env)) calls w ps' w' _ Hw Hreach)).
  eapply Forall_impl; [exact Hcalls|]. intros p. by apply hub_call_keeps.
Qed.
