(* ===== verification/Demo.v ===== *)
(** * Demo: a small concrete hub

    Two registered clients, one room and one user, on which the theorems are
    instantiated and the races are replayed.  The hub has no hooks and no
    adapter, small limits, and the calm runtime of [World]. *)

From S2P Require Import Prelude Float64 Prog Types Config World Invariant Send Client Rooms RoomSpec.
From S2P Require Import Registry RegistrySpec.
From Stdlib.Floats Require Import SpecFloat.

Definition demo_limits : Limits := mkLimits 3 2 2 2 0.

Definition demo_env : HubEnv := {|
  config := DefaultConfig parse_https;
  limits := demo_limits;
  hooks := no_hooks;
  onMessage := None;
  clientCallback := fun _ _ _ => mret tt;
  errorCallback := fun _ _ _ => mret tt;
  drainTimeout := dur_mul 30 Second;
  parallelBatchSize := 100;
  useParallel := false;
  poolSize := 4;
  dropPolicy := DropOldest;
  skipHandlerLatency := false;
  adapter := None;
  nodeID := "node-a";
  hookTimeout := dur_mul 5 Second;
  presenceInterval := 0;
  presenceTTL := 0
|}.

Definition demo_request : Request := mkRequest "https://example.com" "example.com" "10.0.0.1:1".

(** A connected client with a queue of two messages. *)
Definition demo_client (id user : string) (rooms : gset string) (q : list sendItem) : Client := {|
  c_ID := id; c_send := q; c_config := DefaultConfig parse_https; c_userID := user;
  c_metadata := None; c_rooms := rooms; c_closed := false; c_connectedAt := 0; c_closedAt := None;
  c_request := demo_request; c_tokens := f64_of_Z 1; c_lastRefill := 0; c_closeCode := 0;
  c_closeReason := ""; c_graceful := false; c_connClosed := false; c_done := false;
  c_sendMu := false; c_readDone := false; c_onMessage := None; c_onClose := None;
  c_onError := None
|}.

Definition hello : sendItem := mkSendItem TextMessage [Byte.x68; Byte.x69].

Definition demo_hub : Hub := {|
  h_clients := {[1; 2]}; h_clientIndex := {["a" := 1; "b" := 2]};
  h_clientsSnapshot := Some (mkHubSnapshot {[1; 2]} [1; 2]);
  h_clientCount := 2; h_rooms := {["r" := 0]}; h_roomVersion := 1;
  h_userIndex := {["u" := {[1]}]}; h_register := []; h_results := ∅; h_unregister := [];
  h_state := StateRunning; h_alive := true; h_startedAt := Some 0%Z; h_ctxDone := false;
  h_drainDone := false; h_originRejectLog := 0; h_upgradeFailLog := 0; h_presenceCache := None;
  h_wg := 5
|}.

(** Client 1 is user "u"; client 2 is alone in room "r". *)
Definition demo_world : world :=
  mkWorld demo_hub
    {[1 := demo_client "a" "u" ∅ [hello; hello]; 2 := demo_client "b" "" {["r"]} []]}
    {[0 := mkRoom {[2]} (Some [2])]}
    [EvMetric IncrementRooms; EvMetric IncrementConnections; EvMetric IncrementConnections]
    1000 0 (mkPar false false [] false false 0 ∅ ∅ ∅).

Definition demo_known : gset cref := {[1; 2]}.
Definition demo_id (c : cref) : string := c_ID (client demo_world c).
Definition demo_members : membership := {[("r", 2)]}.

(** ** It is well formed *)
Lemma demo_client_cases (P : cref -> Client -> Prop) :
  P 1 (demo_client "a" "u" ∅ [hello; hello]) -> P 2 (demo_client "b" "" {["r"]} []) ->
  (∀ c, c <> 1 -> c <> 2 -> P c zero_client) -> ∀ c, P c (client demo_world c).
Proof.
  intros H1 H2 H3 c. destruct (decide (c = 1)) as [->|Hn1]; [exact H1|].
  destruct (decide (c = 2)) as [->|Hn2]; [exact H2|].
  assert (client demo_world c = zero_client) as ->; [|by apply H3].
  unfold client, demo_world. cbn [w_clients]. 
  by rewrite lookup_total_alt, lookup_insert_ne, lookup_singleton_ne by done.
Qed.

Lemma demo_room_cases (P : Room -> Prop) :
  P (mkRoom {[2]} (Some [2])) -> P (mkRoom ∅ None) -> ∀ r, P (room demo_world r).
Proof.
  intros H1 H2 r. destruct (decide (r = 0)) as [->|Hn]; [exact H1|].
  assert (room demo_world r = mkRoom ∅ None) as ->; [|exact H2].
  unfold room, demo_world. cbn [w_rooms]. by rewrite lookup_total_alt, lookup_singleton_ne by done.
Qed.

Lemma demo_rooms_lookup n r : h_rooms (w_hub demo_world) !! n = Some r -> n = "r" /\ r = 0.
Proof. cbn [w_hub demo_world h_rooms demo_hub]. by intros [<- <-]%lookup_singleton_Some. Qed.

Lemma demo_wf : wf demo_limits demo_world.
Proof.
  split.
  - apply (demo_client_cases (fun _ cl => client_ok demo_limits cl)).
    + split; [unfold queue_ok; cbn; lia|]. unfold within. vm_compute. intros _ [=].
    + split; [unfold queue_ok; cbn; lia|]. unfold within. vm_compute. intros _ [=].
    + intros c _ _. split; [unfold queue_ok; cbn; lia|apply within_0].
  - apply (demo_room_cases (fun ro => room_ok demo_limits ro)).
    + split; [|unfold within; vm_compute; intros _ [=]].
      unfold snapshot_ok, enumerates. cbn. by rewrite elements_singleton.
    + split; [done|apply within_0].
  - intros n r [-> ->]%demo_rooms_lookup. by eexists.
  - intros n1 n2 r [-> _]%demo_rooms_lookup [-> _]%demo_rooms_lookup. done.
  - cbn [w_hub demo_world h_userIndex demo_hub]. intros u s [<- <-]%lookup_singleton_Some.
    split; [done|]. split; [set_solver|]. unfold within. vm_compute. intros _ [=].
  - done.
Qed.

Lemma demo_rep : rep demo_limits demo_known demo_id demo_members demo_members None demo_world.
Proof.
  split; [apply demo_wf|done|done|..].
  - intros n c. unfold demo_members. rewrite elem_of_singleton. split.
    + intros [= -> ->]. exists 0. split; [done|]. change (2 ∈ ({[2]} : gset cref)). set_solver.
    + intros (r & [-> ->]%demo_rooms_lookup & Hc). change (c ∈ ({[2]} : gset cref)) in Hc.
      apply elem_of_singleton in Hc. by subst.
  - apply (demo_client_cases (fun c cl => c_rooms cl = client_rooms demo_members c)).
    + cbn. apply set_eq. intros n. rewrite elem_of_client_rooms. unfold demo_members. set_solver.
    + cbn. apply set_eq. intros n. rewrite elem_of_client_rooms. unfold demo_members. set_solver.
    + intros c H1 H2. cbn. apply set_eq. intros n. rewrite elem_of_client_rooms.
      unfold demo_members. set_solver.
  - intros n r [-> ->]%demo_rooms_lookup _. change (({[2]} : gset cref) ≠ ∅). set_solver.
Qed.

Lemma demo_index i c :
  h_clientIndex (w_hub demo_world) !! i = Some c <-> i = "a" /\ c = 1 \/ i = "b" /\ c = 2.
Proof.
  change (h_clientIndex _) with ({["a" := 1; "b" := 2]} : gmap string cref).
  rewrite lookup_insert_Some, lookup_singleton_Some. naive_solver.
Qed.

Lemma demo_users u c :
  c ∈ user_conns (h_userIndex (w_hub demo_world)) u <-> u = "u" /\ c = 1.
Proof.
  change (h_userIndex _) with ({["u" := {[1]}]} : gmap string (gset cref)). unfold user_conns.
  destruct (decide (u = "u")) as [->|Hu].
  - rewrite lookup_singleton_eq. cbn [default]. set_solver.
  - rewrite lookup_singleton_ne by done. cbn [default]. set_solver.
Qed.

Lemma demo_registry : registry demo_limits ∅ demo_world.
Proof.
  split.
  - done.
  - done.
  - intros i c. rewrite demo_index. split.
    + intros [[-> ->]|[-> ->]]; (split; [change (h_clients _) with demo_known; set_solver|done]).
    + intros [Hc <-]. change (c ∈ demo_known) in Hc. unfold demo_known in Hc.
      assert (c = 1 \/ c = 2) as [-> | ->] by set_solver; [by left|by right].
  - intros u c. rewrite demo_users. split.
    + intros [-> ->]. split; [change (h_clients _) with demo_known; set_solver|]. split; [set_solver|done].
    + intros (Hc & _ & <- & Hu). change (c ∈ demo_known) in Hc. unfold demo_known in Hc.
      assert (c = 1 \/ c = 2) as [-> | ->] by set_solver; done.
  - unfold within. vm_compute. intros _ [=].
Qed.
