(* ===== verification/DemoCluster.v ===== *)
(** * DemoCluster: two concrete nodes

    Two nodes with one client each, in the same room and of the same user, a
    wire format that reads back, and the theorems of [Network] and [Gossip]
    on them. *)

From S2P Require Import Nats.
From S2P Require Import Prelude Prog Types Config World Invariant Send Client Rooms RoomSpec.
From S2P Require Import Registry RegistrySpec Pool Broadcast BroadcastSpec DeliverySpec Presence.
From S2P Require Import PresenceSpec Cluster ClusterSpec Options Demo Network Gossip.
From Stdlib.Strings Require Import Byte.

(** ** A wire format: one byte per bit of a value's code *)
Fixpoint bits_of (p : positive) : bytes :=
  match p with xH => [x01] | xO q => x00 :: bits_of q | xI q => x02 :: bits_of q end.

Fixpoint of_bits (l : bytes) : option positive :=
  match l with
  | [x01] => Some xH
  | x00 :: l' => xO <$> of_bits l'
  | x02 :: l' => xI <$> of_bits l'
  | _ => None
  end.

Lemma of_bits_of p : of_bits (bits_of p) = Some p.
Proof. induction p as [p IH|p IH|]; [..|done]; cbn; rewrite IH; by destruct (bits_of p). Qed.

Definition to_wire {A} `{Countable A} (a : A) : error + bytes := inr (bits_of (encode a)).
Definition of_wire {A} `{Countable A} (d : bytes) : error + A :=
  match of_bits d ≫= decode with Some a => inr a | None => inl (ErrExternal 1) end.

Lemma of_to_wire {A} `{Countable A} (a : A) d : to_wire a = inr d -> of_wire d = inr a /\ d <> [].
Proof.
  unfold to_wire, of_wire. intros [= <-]. rewrite of_bits_of.
  change (Some ?p ≫= ?f) with (f p). rewrite decode_encode. split; [done|]. by destruct (encode a).
Qed.

#[local] Instance byte_countable : Countable byte.
Proof.
  refine (inj_countable Byte.to_N Byte.of_N _).
  apply Byte.of_to_N.
Defined.

#[local] Instance AdapterType_countable : Countable AdapterType.
Proof.
  refine (inj_countable
    (fun t => match t with
              | AdapterBroadcast => (0, "") | AdapterBroadcastExcept => (1, "")
              | AdapterRoom => (2, "") | AdapterRoomExcept => (3, "") | AdapterUser => (4, "")
              | AdapterClient => (5, "") | AdapterPresence => (6, "") | AdapterUnknown s => (7, s)
              end)
    (fun p => Some match p.1 with
              | 0 => AdapterBroadcast | 1 => AdapterBroadcastExcept | 2 => AdapterRoom
              | 3 => AdapterRoomExcept | 4 => AdapterUser | 5 => AdapterClient
              | 6 => AdapterPresence | _ => AdapterUnknown p.2
              end) _).
  by intros [].
Defined.

#[local] Instance AdapterMessage_countable : Countable AdapterMessage.
Proof.
  refine (inj_countable
    (fun m => (am_NodeID m, am_Type m, am_Room m, am_UserID m, am_ClientID m,
               am_ExceptClientIDs m, am_MsgType m, am_Data m))
    (fun '(n, t, r, u, c, e, mt, d) => Some (mkAdapterMessage n t r u c e mt d)) _).
  by intros [].
Defined.

#[local] Instance nodePresence_eq_dec : EqDecision nodePresence.
Proof. solve_decision. Defined.

#[local] Instance nodePresence_countable : Countable nodePresence.
Proof.
  refine (inj_countable (fun p => (np_NodeID p, np_ClientCount p, np_Rooms p, np_Timestamp p))
    (fun '(n, c, r, t) => Some (mkNodePresence n c r t)) _).
  by intros [].
Defined.

(** ** A node with one client *)
Definition one_env (k : string) : HubEnv :=
  WithNodeID k (WithAdapter (Some (mkAdapter (mret None) (fun _ => mret None) (mret None))) demo_env).

Definition one_hub (id : string) : Hub := {|
  h_clients := {[1]}; h_clientIndex := {[id := 1]};
  h_clientsSnapshot := Some (mkHubSnapshot {[1]} [1]);
  h_clientCount := 1; h_rooms := {["r" := 0]}; h_roomVersion := 1;
  h_userIndex := {["u" := {[1]}]}; h_register := []; h_results := ∅; h_unregister := [];
  h_state := StateRunning; h_alive := true; h_startedAt := Some 0%Z; h_ctxDone := false;
  h_drainDone := false; h_originRejectLog := 0; h_upgradeFailLog := 0;
  h_presenceCache := Some ∅; h_wg := 5
|}.

Definition one_world (id : string) : world :=
  mkWorld (one_hub id) {[1 := demo_client id "u" {["r"]} []]} {[0 := mkRoom {[1]} (Some [1])]}
    [EvMetric IncrementRooms; EvMetric IncrementConnections] 1000 0
    (mkPar false false [] false false 0 ∅ ∅ ∅).

Definition one_node (k id : string) : node :=
  mkNode (one_env k) (New []) (one_world id) [].

Definition two_nodes : gmap string node :=
  {["node-a" := one_node "node-a" "a"; "node-b" := one_node "node-b" "b"]}.

Lemma one_client_cases id (P : cref -> Client -> Prop) :
  P 1 (demo_client id "u" {["r"]} []) -> (∀ c, c <> 1 -> P c zero_client) ->
  ∀ c, P c (client (one_world id) c).
Proof.
  intros H1 H2 c. destruct (decide (c = 1)) as [->|Hn]; [exact H1|].
  assert (client (one_world id) c = zero_client) as ->; [|by apply H2].
  unfold client, one_world. cbn [w_clients].
  by rewrite lookup_total_alt, lookup_singleton_ne by done.
Qed.

Lemma one_room_cases id (P : Room -> Prop) :
  P (mkRoom {[1]} (Some [1])) -> P (mkRoom ∅ None) -> ∀ r, P (room (one_world id) r).
Proof.
  intros H1 H2 r. destruct (decide (r = 0)) as [->|Hn]; [exact H1|].
  assert (room (one_world id) r = mkRoom ∅ None) as ->; [|exact H2].
  unfold room, one_world. cbn [w_rooms]. by rewrite lookup_total_alt, lookup_singleton_ne by done.
Qed.

Lemma one_rooms_lookup id n r : h_rooms (w_hub (one_world id)) !! n = Some r -> n = "r" /\ r = 0.
Proof. cbn [w_hub one_world h_rooms one_hub]. by intros [<- <-]%lookup_singleton_Some. Qed.

Lemma one_clients id c : c ∈ h_clients (w_hub (one_world id)) <-> c = 1.
Proof. change (c ∈ ({[1]} : gset cref) <-> c = 1). apply elem_of_singleton. Qed.

Lemma one_wf id : wf demo_limits (one_world id).
Proof.
  split.
  - apply (one_client_cases id (fun _ cl => client_ok demo_limits cl)).
    + split; [unfold queue_ok; cbn; lia|]. unfold within. vm_compute. intros _ [=].
    + intros c _. split; [unfold queue_ok; cbn; lia|apply within_0].
  - apply (one_room_cases id (fun ro => room_ok demo_limits ro)).
    + split; [|unfold within; vm_compute; intros _ [=]].
      unfold snapshot_ok, enumerates. cbn. by rewrite elements_singleton.
    + split; [done|apply within_0].
  - intros n r [-> ->]%one_rooms_lookup. by eexists.
  - intros n1 n2 r [-> _]%one_rooms_lookup [-> _]%one_rooms_lookup. done.
  - cbn [w_hub one_world h_userIndex one_hub]. intros u s [<- <-]%lookup_singleton_Some.
    split; [done|]. split; [set_solver|]. unfold within. vm_compute. intros _ [=].
  - done.
Qed.

Lemma one_rep id :
  rep demo_limits (h_clients (w_hub (one_world id))) (fun c => c_ID (client (one_world id) c))
    {[("r", 1)]} {[("r", 1)]} None (one_world id).
Proof.
  split; [apply one_wf|done|done|..].
  - intros n c. rewrite elem_of_singleton. split.
    + intros [= -> ->]. exists 0. split; [done|]. change (1 ∈ ({[1]} : gset cref)). set_solver.
    + intros (r & [-> ->]%one_rooms_lookup & Hc). change (c ∈ ({[1]} : gset cref)) in Hc.
      apply elem_of_singleton in Hc. by subst.
  - apply (one_client_cases id (fun c cl => c_rooms cl = client_rooms {[("r", 1)]} c)).
    + cbn. apply set_eq. intros n. rewrite elem_of_client_rooms. set_solver.
    + intros c H1. cbn. apply set_eq. intros n. rewrite elem_of_client_rooms. set_solver.
  - intros n r [-> ->]%one_rooms_lookup _. change (({[1]} : gset cref) ≠ ∅). set_solver.
Qed.

Lemma one_registry id : registry demo_limits ∅ (one_world id).
Proof.
  split; [done|done|..].
  - intros i c. rewrite one_clients. change (h_clientIndex _) with ({[id := 1]} : gmap string cref).
    rewrite lookup_singleton_Some. split; [intros [-> <-]; done|intros [-> <-]; done].
  - intros u c. rewrite one_clients. unfold user_conns.
    change (h_userIndex _) with ({["u" := {[1]}]} : gmap string (gset cref)).
    destruct (decide (u = "u")) as [->|Hu].
    + rewrite lookup_singleton_eq. cbn [default]. split; [|set_solver].
      intros Hc. assert (c = 1) as -> by set_solver. split; [done|]. split; [set_solver|done].
    + rewrite lookup_singleton_ne by done. cbn [default]. split; [set_solver|].
      intros (-> & _ & <- & _). by destruct Hu.
  - unfold within. vm_compute. intros _ [=].
Qed.

Lemma one_nodeID k : k <> "" -> nodeID (one_env k) = k.
Proof. intros Hk. cbn. by rewrite bool_decide_eq_false_2. Qed.

Lemma one_healthy k id : k <> "" -> healthy k (one_node k id).
Proof.
  intros Hk. split; try done.
  - by apply one_nodeID.
  - intros m w. by exists None.
  - exact (one_registry id).
  - exists {[("r", 1)]}. exact (one_rep id).
  - intros name r [_ ->]%one_rooms_lookup. done.
  - apply NoDup_singleton.
  - intros c ->%one_clients. split; [by eexists|split; [done|by apply Nat.leb_le; vm_compute]].
Qed.

Lemma two_nodes_lookup j n :
  two_nodes !! j = Some n ->
  j = "node-a" /\ n = one_node "node-a" "a" \/ j = "node-b" /\ n = one_node "node-b" "b".
Proof. unfold two_nodes. rewrite lookup_insert_Some, lookup_singleton_Some. naive_solver. Qed.

(** Node A sends to everyone but its own client. *)
Lemma cluster_cast_delivers_witness :
  ∃ w', run (cast (one_env "node-a") (Everyone [1]) [x68] TextMessage) (one_world "a") = Some (tt, w').
Proof.
  destruct (cluster_cast_delivers to_wire of_wire of_wire two_nodes "node-a" (one_node "node-a" "a")
    (Everyone [1]) [x68] TextMessage) as (w' & Hr & _).
  - intros j n [[-> ->]|[-> ->]]%two_nodes_lookup; (split; [by apply one_healthy|done]).
  - intros j1 j2 n1 n2 c1 c2 [[-> ->]|[-> ->]]%two_nodes_lookup [[-> ->]|[-> ->]]%two_nodes_lookup
      ->%one_clients ->%one_clients; done.
  - done.
  - split; [done|]. intros c c' ->%one_clients Hc'. by apply list_elem_of_singleton in Hc' as ->.
  - eexists. cbn zeta. split; [reflexivity|]. by apply of_to_wire.
  - exists w'. exact Hr.
Defined.

(** Both nodes tick once. *)
Definition one_states : gmap string presenceState :=
  {["node-a" := initialPresenceState; "node-b" := initialPresenceState]}.

