(* ===== verification/LoadtestDemo.v ===== *)
(** * LoadtestDemo: the load test's theorems at concrete inputs *)

From stdpp Require Import sorting.
From S2P Require Import Prelude Prog Types Config World Invariant Send Rooms RoomSpec Registry.
From S2P Require Import Broadcast BroadcastSpec Options Demo Loadtest LoadtestSpec LoadtestRooms LoadtestPool.

(** ** Two messages, then the connection is closed *)
Definition demo_payload (t : Z) : bytes := default [] (makePayload t 8).

#[local] Instance demo_peer : Peer := {|
  pr_read n _ := match n with
                 | 0 => Some (3, inr (demo_payload 990))
                 | 1 => Some (5, inr (demo_payload 1001))
                 | _ => Some (0, inl ErrClientNotFound)
                 end;
  pr_write _ _ := None;
  pr_dial i := if decide (i = 1) then None else Some (10 + i)
|}.

Definition demo_load : load :=
  mkLoad 1000 0 false (mkLatencyCollector []) 0 0 0 0 0 0 [] [] [].

Definition demo_arrivals : list arrival :=
  [mkArrival 3 990 (demo_payload 990); mkArrival 5 1001 (demo_payload 1001)].

Lemma demo_stamped : Forall stamped demo_arrivals.
Proof.
  apply Forall_forall. intros a Ha. unfold demo_arrivals in Ha. set_unfold in Ha.
  destruct_or? Ha; subst a; (split; [split; by vm_compute|]);
    exists (replicate 8 Byte.x00); by vm_compute.
Qed.

Lemma reported_latencies_witness :
  Forall stamped demo_arrivals /\
  ∃ w' lc, run (readLoop 3 7) demo_load = Some (tt, w') /\
    percentiles (l_latencies w') = Some ((13, 13, 13, 13)%Z, lc) /\ samples lc = [7; 13]%Z.
Proof.
  split; [apply demo_stamped|].
  destruct (reported_latencies demo_arrivals 7 demo_load) as (w' & p50 & p95 & p99 & pm & lc & Hr & _ & Hp & _);
    [|apply demo_stamped|repeat constructor; by vm_compute|by vm_compute|].
  - split; [|by exists 0, ErrClientNotFound].
    intros [|[|k]] a Ha; [apply (inj Some) in Ha; subst a; reflexivity..|].
    unfold demo_arrivals in Ha. by destruct k.
  - exists w', lc. split; [exact Hr|].
    assert ((fun p => l_latencies p.2) <$> run (readLoop 3 7) demo_load =
            Some (mkLatencyCollector [13; 7]%Z)) as Hl by by vm_compute.
    rewrite (Hr : run (readLoop 3 7) demo_load = _) in Hl. apply (inj Some) in Hl. cbn [snd] in Hl.
    rewrite Hl in Hp |- *. revert Hp. vm_compute. by intros [= <- <- <- <- <-].
Defined.

(** ** Three dials, of which the second fails *)
Lemma connectN_connects_witness :
  (Z.of_nat 3 < 2 ^ 63)%Z /\ failures 3 = 1 /\
  Acc (fun s' s => pool_step s s') (connect_pool 3 [4], no_dials 1000).
Proof.
  split; [done|]. split; [done|]. apply (connectN_connects 3 ltac:(done) [4] 1000).
Defined.

(** ** Three clients dealt over two rooms *)
Definition lt_env : HubEnv :=
  (NewHub parse_https 4 (fun _ _ _ => mret tt) (fun _ _ _ => mret tt) (newServer_options 0) 0).1.

Definition lt_known : gset cref := {[1; 2; 3]}.

Definition lt_hub : Hub := {|
  h_clients := lt_known; h_clientIndex := {["a" := 1; "b" := 2; "c" := 3]};
  h_clientsSnapshot := Some (mkHubSnapshot lt_known (elements lt_known));
  h_clientCount := 3; h_rooms := ∅; h_roomVersion := 0;
  h_userIndex := ∅; h_register := []; h_results := ∅; h_unregister := [];
  h_state := StateRunning; h_alive := true; h_startedAt := Some 0%Z; h_ctxDone := false;
  h_drainDone := false; h_originRejectLog := 0; h_upgradeFailLog := 0; h_presenceCache := None;
  h_wg := 7
|}.

Definition lt_world : world :=
  mkWorld lt_hub
    {[1 := demo_client "a" "" ∅ []; 2 := demo_client "b" "" ∅ []; 3 := demo_client "c" "" ∅ []]} ∅
    (replicate 3 (EvMetric IncrementConnections)) 1000 0 (mkPar false false [] false false 0 ∅ ∅ ∅).

Definition lt_id (c : cref) : string := c_ID (client lt_world c).

Lemma lt_client_cases (P : Client -> Prop) :
  (∀ i, P (demo_client i "" ∅ [])) -> P zero_client -> ∀ c, P (client lt_world c).
Proof.
  intros H1 H2 c. unfold client, lt_world. cbn [w_clients]. rewrite lookup_total_alt.
  destruct ({[1 := _; 2 := _; 3 := _]} !! c) as [cl|] eqn:Hc; [|exact H2].
  rewrite !lookup_insert_Some, lookup_singleton_Some in Hc.
  destruct Hc as [[_ <-]|[_ [[_ <-]|[_ [_ <-]]]]]; apply H1.
Qed.

Lemma lt_rep : rep (limits lt_env) lt_known lt_id ∅ ∅ None lt_world.
Proof.
  split; try done.
  - split; try done.
    apply (lt_client_cases (client_ok (limits lt_env))).
    + intros i. split; [unfold queue_ok; cbn; lia|apply within_0].
    + split; [unfold queue_ok; cbn; lia|apply within_0].
  - intros n c. split; [by intros ?%elem_of_empty|]. by intros (r & Hl & _).
  - intros c. rewrite (lt_client_cases (fun cl => c_rooms cl = ∅)) by done.
    apply set_eq. intros n. rewrite elem_of_client_rooms. set_solver.
Qed.

Lemma rooms_scenario_witness :
  ∃ d w', run (assignRooms lt_env 2) lt_world = Some ((d, 3), w') /\
    rep (limits lt_env) lt_known lt_id (assigned 2 (elements lt_known)) (assigned 2 (elements lt_known)) None w' /\
    room_members (assigned 2 (elements lt_known)) (room_label 0 2) <> ∅.
Proof.
  destruct (rooms_scenario lt_env lt_known lt_id) with (r := 2) (l := elements lt_known) (w := lt_world)
    as [(d & w' & Hrun & Hrep) Hm]; [done|done|done|done|done|done|lia|done|done|exact lt_rep|].
  exists d, w'. split; [exact Hrun|]. split; [exact Hrep|].
  assert (elements lt_known !! 0 = Some 2) as H2 by by vm_compute.
  specialize (Hm 0 2 H2). cbv zeta in Hm.
  apply proj2, proj1 in Hm. intros He.
  assert (2 ∈ (∅ : gset cref)) as Hin; [|by apply elem_of_empty in Hin]. rewrite <-He. apply (proj2 (Hm 2)).
  exists 0. split; [exact H2|done].
Defined.
