(* ===== verification/Sha256.v ===== *)
(** * Sha256: HMAC-SHA256

    What the authentication example uses of Go's [crypto/hmac] (RFC 2104) and
    [crypto/sha256] (FIPS 180-4), as executable functions on bytes, with the
    test vectors of the standards. *)

From S2P Require Import Prelude Types.
#[local] Open Scope Z_scope.

(** ** Bytes *)
(** [n] bytes of [z], most significant first. *)
Fixpoint be_bytes (n : nat) (z : Z) : bytes :=
  match n with
  | O => []
  | S n => be_bytes n (z / 256) ++ [byte_of z]
  end.

Definition be_word (l : bytes) : Z := foldl (fun acc b => acc * 256 + byte_val b) 0 l.

(** ** SHA-256 on 32-bit words *)
Definition w32 (z : Z) : Z := z mod 2 ^ 32.
Definition rotr (n x : Z) : Z := Z.lor (Z.shiftr x n) (w32 (Z.shiftl x (32 - n))).
Definition Ch (x y z : Z) : Z := Z.lxor (Z.land x y) (Z.land (Z.lxor x (2 ^ 32 - 1)) z).
Definition Maj (x y z : Z) : Z := Z.lxor (Z.lxor (Z.land x y) (Z.land x z)) (Z.land y z).
Definition Sigma0 (x : Z) : Z := Z.lxor (Z.lxor (rotr 2 x) (rotr 13 x)) (rotr 22 x).
Definition Sigma1 (x : Z) : Z := Z.lxor (Z.lxor (rotr 6 x) (rotr 11 x)) (rotr 25 x).
Definition sigma0 (x : Z) : Z := Z.lxor (Z.lxor (rotr 7 x) (rotr 18 x)) (Z.shiftr x 3).
Definition sigma1 (x : Z) : Z := Z.lxor (Z.lxor (rotr 17 x) (rotr 19 x)) (Z.shiftr x 10).

(** The constants, by their definition: the first 32 bits of the fractional
    parts of the cube roots of the first 64 primes, and of the square roots of
    the first eight. *)
Definition prime_numbers : list Z :=
  filter (fun p => Forall (fun d => p mod d <> 0) (seqZ 2 (p - 2))) (seqZ 2 310).

(** The largest [r] below [2 ^ n] with [r ^ k <= z], bit by bit from [r]. *)
Fixpoint root (k : Z) (n : nat) (r z : Z) : Z :=
  match n with
  | O => r
  | S n =>
      let r' := r + 2 ^ Z.of_nat n in
      root k n (if r' ^ k <=? z then r' else r) z
  end.

Definition root_fraction (k p : Z) : Z := w32 (root k 40 0 (p * 2 ^ (32 * k))).

Definition sha_K : list Z := Eval vm_compute in map (root_fraction 3) prime_numbers.
Definition sha_H0 : list Z := Eval vm_compute in map (root_fraction 2) (take 8 prime_numbers).

(** The message schedule: the last sixteen words, newest first, extended. *)
Fixpoint schedule (n : nat) (w : list Z) : list Z :=
  match n with
  | O => w
  | S n =>
      let x := w32 (sigma1 (nth 1 w 0) + nth 6 w 0 + sigma0 (nth 14 w 0) + nth 15 w 0) in
      schedule n (x :: w)
  end.

Definition sha_round (h : list Z) (kw : Z * Z) : list Z :=
  match h with
  | [a; b; c; d; e; f; g; hh] =>
      let t1 := hh + Sigma1 e + Ch e f g + kw.1 + kw.2 in
      let t2 := Sigma0 a + Maj a b c in
      [w32 (t1 + t2); a; b; c; w32 (d + t1); e; f; g]
  | _ => h
  end.

Fixpoint words (n : nat) (l : bytes) : list Z :=
  match n with O => [] | S n => be_word (take 4 l) :: words n (drop 4 l) end.

Definition sha_block (h : list Z) (block : bytes) : list Z :=
  let w := reverse (schedule 48 (reverse (words 16 block))) in
  zip_with (fun x y => w32 (x + y)) h (foldl sha_round h (zip sha_K w)).

Fixpoint sha_blocks (n : nat) (h : list Z) (l : bytes) : list Z :=
  match n with O => h | S n => sha_blocks n (sha_block h (take 64 l)) (drop 64 l) end.

(** The padded message is a whole number of 64-byte blocks. *)
Definition sha_pad (l : bytes) : bytes :=
  let len := Z.of_nat (length l) in
  l ++ [Byte.x80] ++ replicate (Z.to_nat ((55 - len) mod 64)) Byte.x00 ++ be_bytes 8 (8 * len).

Definition Sum256 (l : bytes) : bytes :=
  let p := sha_pad l in
  concat (map (be_bytes 4) (sha_blocks (length p / 64) sha_H0 p)).

(** ** HMAC *)
Definition hmac_key (key : bytes) : bytes :=
  let k := if bool_decide (64 < length key)%nat then Sum256 key else key in
  k ++ replicate (64 - length k) Byte.x00.

Definition xor_byte (v : Z) (b : Byte.byte) : Byte.byte := byte_of (Z.lxor (byte_val b) v).

Definition hmac_sha256 (key msg : bytes) : bytes :=
  let k := hmac_key key in
  Sum256 (map (xor_byte 0x5c) k ++ Sum256 (map (xor_byte 0x36) k ++ msg)).

(** The test vectors of FIPS 180-4 and RFC 4231 (case 2). *)
Example Sum256_abc :
  be_word (Sum256 (String.list_byte_of_string "abc")) =
  0xba7816bf8f01cfea414140de5dae2223b00361a396177a9cb410ff61f20015ad.
Proof. by vm_compute. Qed.

Example Sum256_two_blocks :
  be_word (Sum256 (String.list_byte_of_string "abcdbcdecdefdefgefghfghighijhijkijkljklmklmnlmnomnopnopq")) =
  0x248d6a61d20638b8e5c026930c3e6039a33ce45964ff2167f6ecedd419db06c1.
Proof. by vm_compute. Qed.

Example hmac_rfc4231 :
  be_word (hmac_sha256 (String.list_byte_of_string "Jefe")
             (String.list_byte_of_string "what do ya want for nothing?")) =
  0x5bdcc146bf60754e6a042426089575c75a003f089d2739839dec58b964ec3843.
Proof. by vm_compute. Qed.
