(* ===== verification/Base64.v ===== *)
(** * Base64: [encoding/base64]'s [RawURLEncoding]

    The unpadded base64url codec that the authentication example signs and
    verifies, as [EncodeToString] and [DecodeString] compute it on bytes:
    three bytes are four digits, a rest of one or two bytes is two or three;
    decoding skips line breaks, accepts any trailing bits and rejects every
    other byte. *)

From S2P Require Import Prelude Types Sha256.
#[local] Open Scope Z_scope.

(** ** Digits: ["A-Z"], ["a-z"], ["0-9"], ["-"] and ["_"] *)
Definition b64_digit (v : Z) : Byte.byte :=
  byte_of (if v <? 26 then 65 + v else if v <? 52 then 71 + v else if v <? 62 then v - 4
           else if v =? 62 then 45 else 95).

Definition b64_value (b : Byte.byte) : option Z :=
  let v := byte_val b in
  if (65 <=? v) && (v <=? 90) then Some (v - 65)
  else if (97 <=? v) && (v <=? 122) then Some (v - 71)
  else if (48 <=? v) && (v <=? 57) then Some (v + 4)
  else if v =? 45 then Some 62 else if v =? 95 then Some 63 else None.

(** The sextets of [v], [n] of them, most significant first. *)
Fixpoint sextets_of (n : nat) (v : Z) : list Z :=
  match n with O => [] | S n => sextets_of n (v / 64) ++ [v mod 64] end.

Fixpoint sextets (l : bytes) : list Z :=
  match l with
  | a :: b :: c :: l' => sextets_of 4 (be_word [a; b; c]) ++ sextets l'
  | [a; b] => sextets_of 3 (be_word [a; b] * 4)
  | [a] => sextets_of 2 (be_word [a] * 16)
  | [] => []
  end.

Definition EncodeToString (l : bytes) : bytes := map b64_digit (sextets l).

Definition b64_word (ds : list Z) : Z := foldl (fun acc d => acc * 64 + d) 0 ds.

Fixpoint decode_digits (l : list Z) : option bytes :=
  match l with
  | a :: b :: c :: d :: l' => app (be_bytes 3 (b64_word [a; b; c; d])) <$> decode_digits l'
  | [a; b; c] => Some (be_bytes 2 (b64_word [a; b; c] / 4))
  | [a; b] => Some (be_bytes 1 (b64_word [a; b] / 16))
  | [_] => None
  | [] => Some []
  end.

Definition line_break (b : Byte.byte) : Prop := b = Byte.x0a \/ b = Byte.x0d.
#[export] Instance line_break_dec b : Decision (line_break b) := _.

Definition DecodeString (l : bytes) : option bytes :=
  mapM b64_value (filter (fun b => ~ line_break b) l) ≫= decode_digits.

(** The examples of RFC 4648, and one with both special digits. *)
Example encode_foobar :
  map (fun s => String.string_of_list_byte (EncodeToString (String.list_byte_of_string s)))
    ["f"; "fo"; "foo"; "foob"; "fooba"; "foobar"]%string =
  ["Zg"; "Zm8"; "Zm9v"; "Zm9vYg"; "Zm9vYmE"; "Zm9vYmFy"]%string.
Proof. by vm_compute. Qed.

Example encode_specials : EncodeToString [Byte.xfb; Byte.xff] = String.list_byte_of_string "-_8".
Proof. by vm_compute. Qed.

(** ** Decoding what was encoded *)
Definition plain_digit (v : Z) : Prop :=
  b64_value (b64_digit v) = Some v /\ ~ line_break (b64_digit v) /\ b64_digit v <> Byte.x2e.

Lemma digits_plain : Forall plain_digit (seqZ 0 64).
Proof.
  assert (forallb (fun v => bool_decide (b64_value (b64_digit v) = Some v /\ ~ line_break (b64_digit v) /\
    b64_digit v <> Byte.x2e)) (seqZ 0 64) = true) as H by by vm_compute.
  rewrite forallb_forall in H. apply Forall_forall. intros v Hv.
  by eapply bool_decide_eq_true_1, H, list_elem_of_In.
Qed.

Lemma sextets_of_range n v : Forall plain_digit (sextets_of n v).
Proof.
  revert v. induction n as [|n IH]; intros v; simpl; [done|].
  apply Forall_app. split; [done|]. apply Forall_singleton.
  eapply Forall_forall; [apply digits_plain|]. apply elem_of_seqZ.
  pose proof (Z.mod_pos_bound v 64). lia.
Qed.

(** Induction by three. *)
Lemma bytes_ind3 (P : bytes -> Prop) :
  P [] -> (∀ a, P [a]) -> (∀ a b, P [a; b]) -> (∀ a b c l, P l -> P (a :: b :: c :: l)) -> ∀ l, P l.
Proof.
  intros H0 H1 H2 H3 l. enough (P l /\ (∀ a, P (a :: l)) /\ ∀ a b, P (a :: b :: l)) by tauto.
  induction l as [|c l (IH0 & IH1 & IH2)]; [done|]. split; [done|]. split; [intros a; apply IH2|].
  intros a b. by apply H3.
Qed.

Lemma sextets_range l : Forall plain_digit (sextets l).
Proof.
  induction l as [|a|a b|a b c l IH] using bytes_ind3; [done|apply sextets_of_range..|].
  cbn [sextets]. apply Forall_app. split; [apply sextets_of_range|done].
Qed.

Lemma b64_word_snoc l d : b64_word (l ++ [d]) = b64_word l * 64 + d.
Proof. unfold b64_word. by rewrite foldl_app. Qed.

Lemma b64_word_sextets n v : b64_word (sextets_of n v) = v mod 64 ^ Z.of_nat n.
Proof.
  revert v. induction n as [|n IH]; intros v; [by rewrite Z.mod_1_r|].
  cbn [sextets_of]. rewrite b64_word_snoc, IH, Nat2Z.inj_succ, Z.pow_succ_r by lia.
  rewrite Z.rem_mul_r by lia. lia.
Qed.

Lemma be_word_snoc l b : be_word (l ++ [b]) = be_word l * 256 + byte_val b.
Proof. unfold be_word. by rewrite foldl_app. Qed.

Lemma be_word_range l : 0 <= be_word l < 256 ^ Z.of_nat (length l).
Proof.
  induction l as [|b l IH] using rev_ind; [done|].
  rewrite be_word_snoc, length_app, Nat.add_comm. cbn [length Nat.add].
  rewrite Nat2Z.inj_succ, Z.pow_succ_r by lia. pose proof (byte_val_range b). lia.
Qed.

Lemma be_bytes_word l : be_bytes (length l) (be_word l) = l.
Proof.
  induction l as [|b l IH] using rev_ind; [done|].
  rewrite be_word_snoc, length_app, Nat.add_comm. cbn [length Nat.add be_bytes].
  pose proof (byte_val_range b). rewrite Z.div_add_l, (Z.div_small (byte_val b) 256), Z.add_0_r, IH by lia.
  do 2 f_equal. rewrite <-(byte_of_val b) at 2. unfold byte_of.
  by rewrite Z.add_comm, Z.mod_add by lia.
Qed.

(** The sextets of a group, shifted left to fill the last one, give it back. *)
Lemma decode_group n l s :
  0 < s -> 256 ^ Z.of_nat (length l) * s <= 64 ^ Z.of_nat n ->
  be_bytes (length l) (b64_word (sextets_of n (be_word l * s)) / s) = l.
Proof.
  intros Hs Hn. rewrite b64_word_sextets. pose proof (be_word_range l).
  rewrite Z.mod_small by nia. by rewrite Z.div_mul, be_bytes_word by lia.
Qed.

Lemma decode_sextets l : decode_digits (sextets l) = Some l.
Proof.
  induction l as [|a|a b|a b c l IH] using bytes_ind3; [done|..].
  - exact (f_equal Some (decode_group 2 [a] 16 ltac:(lia) ltac:(done))).
  - exact (f_equal Some (decode_group 3 [a; b] 4 ltac:(lia) ltac:(done))).
  - pose proof (decode_group 4 [a; b; c] 1 ltac:(lia) ltac:(done)) as H.
    rewrite Z.mul_1_r, Z.div_1_r in H.
    change (sextets (a :: b :: c :: l)) with (sextets_of 4 (be_word [a; b; c]) ++ sextets l).
    remember (sextets_of 4 (be_word [a; b; c])) as q eqn:Hq.
    destruct q as [|x [|y [|z [|t [|]]]]]; try (exfalso; by inversion Hq).
    change (length [a; b; c]) with 3%nat in H.
    cbn [app decode_digits]. by rewrite IH, H.
Qed.

Lemma DecodeString_EncodeToString l : DecodeString (EncodeToString l) = Some l.
Proof.
  unfold DecodeString, EncodeToString. pose proof (sextets_range l) as Hr.
  rewrite <-(decode_sextets l). revert Hr. generalize (sextets l) as q. intros q Hr.
  assert (filter (fun b => ~ line_break b) (map b64_digit q) = map b64_digit q) as ->.
  { clear -Hr. induction Hr as [|v q (_ & Hv & _) _ IH]; [done|].
    cbn [map]. by rewrite filter_cons_True, IH. }
  assert (mapM b64_value (map b64_digit q) = Some q) as ->; [|done].
  apply mapM_Some. induction Hr as [|v q (Hv & _) _ IH]; by constructor.
Qed.

(** No dot is a digit. *)
Lemma dot_not_encoded l : Byte.x2e ∉ EncodeToString l.
Proof.
  unfold EncodeToString. intros (v & Hv & Hin)%list_elem_of_fmap.
  by pose proof (proj1 (Forall_forall _ _) (sextets_range l) v Hin) as (_ & _ & ?).
Qed.
