(* ===== verification/Auth.v ===== *)
(** * Auth: token authentication (examples/auth/main.go)

    The example signs tokens with HMAC-SHA256, checks them in the
    [BeforeConnect] hook, sets the user of a connection in [AfterConnect] and
    rejects the messages of connections without one.  [json.Marshal] and
    [json.Unmarshal] at [claims] are parameters, and so is the query string of
    a request, which [Request] leaves out.  What goes to Go's standard logger
    is not recorded. *)

From S2P Require Import Prelude Prog Types Config World Invariant Send Client RoomSpec.
From S2P Require Import Registry RegistrySpec Broadcast BroadcastSpec DeliverySpec Options Handlers Origin.
From S2P Require Import Sha256 Base64.

(** ** Strings *)
Definition dot : Byte.byte := Byte.x2e.

(** The bytes before and after the first [sep]. *)
Fixpoint cut (sep : Byte.byte) (l : bytes) : option (bytes * bytes) :=
  match l with
  | [] => None
  | b :: l' =>
      if bool_decide (b = sep) then Some ([], l')
      else prod_map (cons b) id <$> cut sep l'
  end.

(** [strings.SplitN] for a positive number of parts and a separator of one
    byte: the last part is the rest. *)
Fixpoint SplitN (n : nat) (sep : Byte.byte) (l : bytes) : list bytes :=
  match n with
  | 0 => []
  | S O => [l]
  | S n => match cut sep l with Some (a, r) => a :: SplitN n sep r | None => [l] end
  end.

(** [t.Unix()]. *)
Definition Unix (t : Z) : Z := (t / Second)%Z.
Definition Hour : Z := (3600 * Second)%Z.

(** ** Tokens *)
Definition jwtSecret : bytes := String.list_byte_of_string "super-secret-key-change-me".

Record claims := mkClaims { Sub : string; Exp : Z }.

Inductive token_error :=
  | MalformedToken | InvalidSignature | DecodePayload | UnmarshalPayload (e : error) | TokenExpired.

(** The signature of the first two parts: [mac.Sum(nil)], encoded. *)
Definition signature (signed : bytes) : bytes := EncodeToString (hmac_sha256 jwtSecret signed).

Section Auth.
Context {RT : Runtime} (marshal : claims -> bytes) (unmarshal : bytes -> error + claims).
Context (query : Request -> string -> string).

Definition validateToken (tokenStr : string) : prg (token_error + claims) :=
  match SplitN 3 dot (String.list_byte_of_string tokenStr) with
  | [part0; part1; part2] =>
      if negb (bool_decide (part2 = signature (part0 ++ [dot] ++ part1)))
      then mret (inl InvalidSignature)
      else match DecodeString part1 with
      | None => mret (inl DecodePayload)
      | Some payload =>
          match unmarshal payload with
          | inl e => mret (inl (UnmarshalPayload e))
          | inr c =>
              now ← time_Now ;
              mret (if bool_decide (Exp c < Unix now)%Z then inl TokenExpired else inr c)
          end
      end
  | _ => mret (inl MalformedToken)
  end.

(** The literal of the header, its quotes as bytes. *)
Definition quoted (s : string) : bytes :=
  Byte.x22 :: String.list_byte_of_string s ++ [Byte.x22].

Definition token_header : bytes :=
  EncodeToString
    (Byte.x7b :: quoted "alg" ++ Byte.x3a :: quoted "HS256" ++ Byte.x2c
      :: quoted "typ" ++ Byte.x3a :: quoted "JWT" ++ [Byte.x7d]).

Definition generateToken (userID : string) : prg string :=
  now ← time_Now ;
  let c := mkClaims userID (Unix (now + Hour)) in
  let encodedPayload := EncodeToString (marshal c) in
  let sig := signature (token_header ++ [dot] ++ encodedPayload) in
  mret (String.string_of_list_byte (token_header ++ [dot] ++ encodedPayload ++ [dot] ++ sig)).

(** ** The hooks *)
Definition auth_BeforeConnect (r : Request) : prg (option error) :=
  let token := query r "token" in
  if bool_decide (token = "") then mret (Some ErrAuthenticationFailed) else
  res ← validateToken token ;
  match res with
  | inl _ => mret (Some ErrAuthenticationFailed)
  | inr _ => mret None
  end.

Definition auth_AfterConnect (env : HubEnv) (client : cref) : prg unit :=
  r ← GetRequest client ;
  res ← validateToken (query r "token") ;
  match res with
  | inr c => _ ← SetUserID env client (Sub c) ; mret tt
  | inl _ => mret tt
  end.

(** ** The message handler *)
Definition authMiddleware : Middleware := fun next client msg =>
  userID ← GetUserID client ;
  if bool_decide (userID = "") then mret (Returned (Some ErrUnauthorized)) else
  next client msg.

(** [fmt.Sprintf("[%s]: %s", who, what)]. *)
Definition said (who what : string) : string := "[" +:+ who +:+ "]: " +:+ what.

Definition auth_say (env : HubEnv) : HandlerFunc := fun client msg =>
  _ ← GetUserID client ;
  userID ← GetUserID client ;
  BroadcastText env (said userID (Text msg)) ;;
  mret (Returned None).

Definition auth_chain (env : HubEnv) : MiddlewareChain :=
  Build (Use authMiddleware (NewMiddlewareChain (auth_say env))).

Definition auth_options (env : HubEnv) : list Option_ :=
  [WithHooks (mkHooks (Some auth_BeforeConnect) (Some (auth_AfterConnect env))
     None None None None None None None None None None);
   WithMessageHandler (Some (serve (auth_chain env)))].

(** ** Splitting and joining *)
Lemma cut_None sep l : cut sep l = None <-> sep ∉ l.
Proof.
  induction l as [|b l IH]; simpl; [split; [set_solver|done]|].
  case_bool_decide as Hb; [subst; split; [done|set_solver]|].
  rewrite fmap_None, IH, not_elem_of_cons. naive_solver.
Qed.

Lemma cut_Some sep l a r : cut sep l = Some (a, r) <-> l = a ++ sep :: r /\ sep ∉ a.
Proof.
  revert a. induction l as [|b l IH]; intros a; simpl.
  { split; [done|]. intros [H _]. by destruct a. }
  case_bool_decide as Hb; [subst; split|].
  - intros [= <- <-]. split; [done|set_solver].
  - intros [H Ha]. destruct a as [|b' a]; simplify_eq/=; [done|set_solver].
  - rewrite fmap_Some. split.
    + intros ([a' r'] & H & [= -> ->]). apply IH in H as [-> Ha]. split; [done|].
      by apply not_elem_of_cons.
    + intros [H Ha]. destruct a as [|b' a]; simplify_eq/=.
      apply not_elem_of_cons in Ha as [_ Ha]. exists (a, r). split; [|done]. by apply IH.
Qed.

(** Three parts are what two dots separate, the last one free. *)
Lemma SplitN_three l a b c :
  SplitN 3 dot l = [a; b; c] <-> l = a ++ dot :: b ++ dot :: c /\ dot ∉ a /\ dot ∉ b.
Proof.
  unfold SplitN. split.
  - destruct (cut dot l) as [[a' r]|] eqn:H1; [|done].
    destruct (cut dot r) as [[b' r']|] eqn:H2; [|done]. intros [= -> -> ->].
    apply cut_Some in H1 as [-> ?], H2 as [-> ?]. done.
  - intros (-> & Ha & Hb).
    assert (cut dot (a ++ dot :: b ++ dot :: c) = Some (a, b ++ dot :: c)) as -> by by apply cut_Some.
    by assert (cut dot (b ++ dot :: c) = Some (b, c)) as -> by by apply cut_Some.
Qed.

Lemma SplitN_three_or l :
  (∃ a b c, SplitN 3 dot l = [a; b; c]) \/ (∀ a b c, SplitN 3 dot l <> [a; b; c]).
Proof. destruct (SplitN 3 dot l) as [|a [|b [|c [|]]]]; try (by right); left; eauto. Qed.

(** ** Which tokens are accepted *)

(** A token for [c] that is good at time [t]: two dot-free parts signed with
    the secret, the second one an encoding of [c], which has not expired. *)
Definition good_token (t : Z) (token : string) (c : claims) : Prop :=
  ∃ part0 part1 payload,
    String.list_byte_of_string token =
      part0 ++ dot :: part1 ++ dot :: signature (part0 ++ [dot] ++ part1) /\
    dot ∉ part0 /\ dot ∉ part1 /\
    DecodeString part1 = Some payload /\ unmarshal payload = inr c /\ (Unix t <= Exp c)%Z.

Lemma run_validateToken token w :
  ∃ res, run (validateToken token) w = Some (res, w) /\
    ∀ c, res = inr c <-> good_token (w_now w) token c.
Proof.
  unfold validateToken, good_token.
  set (l := String.list_byte_of_string token).
  destruct (SplitN_three_or l) as [(a & b & s & Hs)|Hno].
  2:{ exists (inl MalformedToken). split.
      - destruct (SplitN 3 dot l) as [|a [|b [|c [|]]]]; try done. by destruct (Hno a b c).
      - intros c. split; [done|]. intros (a & b & p & Hl & Ha & Hb & _).
        by destruct (Hno a b (signature (a ++ [dot] ++ b))); apply SplitN_three. }
  rewrite Hs. apply SplitN_three in Hs as (Hl & Ha & Hb).
  assert (∀ a' b' s', l = a' ++ dot :: b' ++ dot :: s' -> dot ∉ a' -> dot ∉ b' ->
    a' = a /\ b' = b /\ s' = s) as Huniq.
  { intros a' b' s' Hl' Ha' Hb'. assert (SplitN 3 dot l = [a'; b'; s']) as H1 by by apply SplitN_three.
    assert (SplitN 3 dot l = [a; b; s]) as H2 by by apply SplitN_three.
    rewrite H1 in H2. by simplify_eq. }
  case_bool_decide as Hsig; simpl.
  2:{ eexists. split; [done|]. intros c. split; [done|].
      intros (a' & b' & p & Hl' & Ha' & Hb' & _). by destruct (Huniq _ _ _ Hl' Ha' Hb') as (-> & -> & <-). }
  destruct (DecodeString b) as [payload|] eqn:Hp.
  2:{ eexists. split; [done|]. intros c. split; [done|].
      intros (a' & b' & p & Hl' & Ha' & Hb' & Hd & _).
      destruct (Huniq _ _ _ Hl' Ha' Hb') as (-> & -> & _). congruence. }
  destruct (unmarshal payload) as [e|c0] eqn:Hu.
  { eexists. split; [done|]. intros c. split; [done|].
    intros (a' & b' & p & Hl' & Ha' & Hb' & Hd & Hc & _).
    destruct (Huniq _ _ _ Hl' Ha' Hb') as (-> & -> & _). congruence. }
  unfold time_Now. run_simpl. eexists. split; [done|]. intros c. split.
  - case_bool_decide as Ht; intros [= ->]. exists a, b, payload. subst s. split_and!; (done || lia).
  - intros (a' & b' & p & Hl' & Ha' & Hb' & Hd & Hc & Ht).
    destruct (Huniq _ _ _ Hl' Ha' Hb') as (-> & -> & _).
    rewrite bool_decide_eq_false_2; [congruence|]. assert (c = c0) by congruence. subst. lia.
Qed.

Lemma run_validateToken_parts a b w :
  dot ∉ a -> dot ∉ b ->
  run (validateToken (String.string_of_list_byte
         (a ++ [dot] ++ b ++ [dot] ++ signature (a ++ [dot] ++ b)))) w =
    Some (match DecodeString b with
          | None => inl DecodePayload
          | Some payload =>
              match unmarshal payload with
              | inl e => inl (UnmarshalPayload e)
              | inr c => if bool_decide (Exp c < Unix (w_now w))%Z then inl TokenExpired else inr c
              end
          end, w).
Proof.
  intros Ha Hb. unfold validateToken. rewrite String.list_byte_of_string_of_list_byte.
  assert (SplitN 3 dot (a ++ [dot] ++ b ++ [dot] ++ signature (a ++ [dot] ++ b)) =
          [a; b; signature (a ++ [dot] ++ b)]) as -> by by apply SplitN_three.
  rewrite bool_decide_eq_true_2 by done. cbn [negb]. unfold time_Now.
  destruct (DecodeString b); [|done]. by destruct (unmarshal _).
Qed.

(** The two functions of the codec the tokens rely on: what was encoded, a
    text in UTF-8 and a 64-bit integer, decodes to itself. *)
Context (Hcodec : ∀ c, valid_utf8 (String.list_byte_of_string (Sub c)) -> in_int64 (Exp c) ->
  unmarshal (marshal c) = inr c).

(** A generated token names its user until an hour later, and is expired from
    then on. *)
Lemma run_generateToken (userID : string) (w : world)
    (Hutf8 : valid_utf8 (String.list_byte_of_string userID)) (Ht : in_int64 (Unix (w_now w + Hour))) :
  ∃ token, run (generateToken userID) w = Some (token, w) /\
    ∀ w', run (validateToken token) w' =
      Some (if bool_decide (Unix (w_now w') <= Unix (w_now w + Hour))%Z
            then inr (mkClaims userID (Unix (w_now w + Hour))) else inl TokenExpired, w').
Proof.
  unfold generateToken, time_Now. run_simpl. eexists. split; [done|]. intros w'.
  rewrite run_validateToken_parts by apply dot_not_encoded.
  rewrite DecodeString_EncodeToString, Hcodec by done. cbn [Exp].
  do 2 case_bool_decide; (done || lia).
Qed.

(** ** Who gets in, and under which name *)
Lemma run_BeforeConnect r w :
  ∃ e, run (auth_BeforeConnect r) w = Some (e, w) /\
    (e = None <-> ∃ c, good_token (w_now w) (query r "token") c) /\
    (e = None \/ e = Some ErrAuthenticationFailed).
Proof.
  unfold auth_BeforeConnect. case_bool_decide as Hq.
  - eexists. split; [done|]. split; [|by right]. split; [done|].
    intros (c & a & b & p & Hl & _). rewrite Hq in Hl. by destruct a.
  - destruct (run_validateToken (query r "token") w) as (res & Hr & Hg). run_simpl. rewrite Hr.
    destruct res as [e|c]; run_simpl; eexists; (split; [done|]).
    + split; [|by right]. split; [done|]. intros [c Hc%Hg]. done.
    + split; [|by left]. split; [|done]. intros _. exists c. by apply Hg.
Qed.

(** Connecting calls [AfterConnect] once [BeforeConnect] has passed.  The user
    set is the one the token names; a token that has expired in between, or a
    user at the connection limit, leaves the client without one. *)
Lemma run_AfterConnect env c w :
  registry (limits env) ∅ w -> c ∈ h_clients (w_hub w) ->
  ∃ w', run (auth_AfterConnect env c) w = Some (tt, w') /\ registry (limits env) ∅ w' /\
    (c_userID (client w' c) = c_userID (client w c) \/
     ∃ cl, good_token (w_now w) (query (c_request (client w c)) "token") cl /\
       c_userID (client w' c) = Sub cl).
Proof.
  intros Hreg Hc. unfold auth_AfterConnect, GetRequest. run_simpl.
  destruct (run_validateToken (query (c_request (client w c)) "token") w) as (res & Hr & Hg). rewrite Hr.
  destruct res as [e|cl]; run_simpl; [exists w; auto|].
  destruct (run_SetUserID env c (Sub cl) w Hreg Hc) as (e & w' & Hs & Hreg' & He). rewrite Hs. run_simpl.
  exists w'. split; [done|]. split; [done|]. destruct e as [e|].
  - destruct He as (_ & -> & _). by left.
  - destruct He as (He & _). right. exists cl. split; [by apply Hg|done].
Qed.

(** ** Messages *)
Lemma run_auth_handler env c msg w :
  silent_drop_hook env -> useParallel env = false -> adapter_answers env ->
  NoDup (snapshot_slice w) -> (∀ c', c' ∈ snapshot_slice w -> ready w c') ->
  let u := c_userID (client w c) in
  let d := String.list_byte_of_string (said u (Text msg)) in
  ∃ w', run (serve (auth_chain env) c msg) w =
      Some (if bool_decide (u = "") then Some ErrUnauthorized else None, w') /\
    if bool_decide (u = "") then w' = w
    else delivered env (mkSendItem TextMessage d) (list_to_set (snapshot_slice w))
           (publishes env (adapter_msg AdapterBroadcast TextMessage d)) w w'.
Proof.
  intros Hhook Hpar Ha Hnd Hr. cbn zeta.
  change (serve (auth_chain env) c msg) with
    (authMiddleware (auth_say env) c msg ≫= fun out =>
     match out with Returned e => mret e | Panicked _ => out_of_fuel end).
  unfold authMiddleware, auth_say, GetUserID. run_simpl.
  case_bool_decide as Hu; [by exists w|]. unfold BroadcastText. run_simpl.
  destruct (run_Broadcast env Hhook Hpar Ha
              (String.list_byte_of_string (said (c_userID (client w c)) (Text msg))) w Hnd Hr)
    as (w' & Hb & Hd).
  rewrite Hb. run_simpl. by exists w'.
Qed.

(** C33: Who gets in, and as whom.  [BeforeConnect] lets a request in exactly
    when its token is good at that moment: two dot-free parts, signed with
    HMAC-SHA256 under the secret, encoding claims that have not expired; any
    other request is refused with [ErrAuthenticationFailed], and nothing
    changes.  A token generated for a user is good until an hour later, and a
    client connected with it becomes that user's, whatever the state of the
    hub, when users have no connection limit. *)
Theorem auth_admits (userID : string) (w : world)
    (Hutf8 : valid_utf8 (String.list_byte_of_string userID)) (Ht : in_int64 (Unix (w_now w + Hour))) :
  (∀ r w', ∃ e, run (auth_BeforeConnect r) w' = Some (e, w') /\
     (e = None <-> ∃ c, good_token (w_now w') (query r "token") c) /\
     (e = None \/ e = Some ErrAuthenticationFailed)) /\
  ∃ token, run (generateToken userID) w = Some (token, w) /\
    ∀ w', let good := bool_decide (Unix (w_now w') <= Unix (w_now w + Hour))%Z in
      (∀ r, query r "token" = token ->
         run (auth_BeforeConnect r) w' =
           Some (if good then None else Some ErrAuthenticationFailed, w')) /\
      ∀ env c, query (c_request (client w' c)) "token" = token -> good = true ->
        registry (limits env) ∅ w' -> c ∈ h_clients (w_hub w') ->
        (MaxConnectionsPerUser (limits env) <= 0)%Z ->
        ∃ w2, run (auth_AfterConnect env c) w' = Some (tt, w2) /\
          registry (limits env) ∅ w2 /\ c_userID (client w2 c) = userID.
Proof.
  split; [apply run_BeforeConnect|].
  destruct (run_generateToken userID w Hutf8 Ht) as (token & Hg & Hv). exists token. split; [done|].
  intros w' good. split.
  - intros r Hr. unfold auth_BeforeConnect. rewrite Hr. case_bool_decide as He.
    + specialize (Hv w'). rewrite He in Hv. unfold validateToken in Hv. run_simpl.
      simpl in Hv. by injection Hv; destruct (bool_decide _).
    + rewrite run_bind, Hv. fold good. by destruct good.
  - intros env c Hq Hgood Hreg Hc Hlim. unfold auth_AfterConnect, GetRequest. run_simpl.
    rewrite Hq, Hv. fold good. rewrite Hgood.
    destruct (run_SetUserID env c userID w' Hreg Hc) as (e & w2 & Hs & Hreg2 & He).
    cbn [Sub]. run_simpl. rewrite Hs. run_simpl. exists w2. split; [done|]. split; [done|].
    destruct e as [e|]; [|by destruct He as (-> & _)].
    destruct He as (_ & _ & _ & _ & Hfull). by rewrite limit_off in Hfull.
Qed.
End Auth.
