(* ===== verification/Notify.v ===== *)
(** * Notify: pushing notifications to users (examples/notifications/main.go)

    The server addresses users, not connections: an HTTP endpoint and a
    background job hand a payload to [SendToUser].  JSON is a parameter, and so
    are the query string of a request and the rendering of the clock.  An HTTP
    handler answers a value;
    what goes to Go's standard logger is not recorded. *)

From S2P Require Import Prelude Prog Types Config World Invariant Send Client RoomSpec.
From S2P Require Import Registry RegistrySpec Broadcast BroadcastSpec DeliverySpec Options MetricsString LifecycleSpec.

Record Notification := mkNotification { Level : string; Title : string; Body : string; At : string }.

Record notifyRequest := mkNotifyRequest {
  rq_User : string; rq_Level : string; rq_Title : string; rq_Body : string
}.

(** [clientCommand] is its one field, the type. *)
Definition jobDelay : Z := dur_mul 3 Second.
Definition maxNotifyBody : nat := 4096.

(** Why [Decode] failed on the limited body. *)
Inductive body_error := BodyTooLarge | BodyInvalid.

(** What an HTTP handler writes: [http.Error], or the object given to
    [writeJSON]. *)
Inductive reply :=
  | HTTPError (status : Z) (msg : string)
  | Delivered (delivered : string) (clients : Z)
  | Online (users : gmap string Z) (connections : Z).

Section Notify.
Context {RT : Runtime} (env : HubEnv).
Context (marshal : Notification -> error + bytes).
Context (unmarshal_command : bytes -> option string).
Context (decode_request : nat -> bytes -> body_error + notifyRequest).
Context (query : Request -> string -> string) (clock : Z -> string).

(** ** Sending *)
Definition encode_notification (n : Notification) : prg (error + bytes) :=
  n ← (if bool_decide (At n = "") then
         now ← time_Now ; mret (mkNotification (Level n) (Title n) (Body n) (clock now))
       else mret n) ;
  let n := if bool_decide (Level n = "") then mkNotification "info" (Title n) (Body n) (At n) else n in
  mret (marshal n).

Definition notifyUser (userID : string) (n : Notification) : prg unit :=
  data ← encode_notification n ;
  match data with
  | inl _ => mret tt
  | inr data => SendToUser env userID data
  end.

Definition notifyClient (client : cref) (n : Notification) : prg unit :=
  data ← encode_notification n ;
  match data with
  | inl _ => mret tt
  | inr data => _ ← SendRaw env client data ; mret tt
  end.

Definition notifyAll (n : Notification) : prg unit :=
  data ← encode_notification n ;
  match data with
  | inl _ => mret tt
  | inr data => Broadcast env data
  end.

(** ** Messages *)
Definition job_queued : Notification :=
  mkNotification "info" "Job queued" "Export started. Close this tab if you like — the result follows you." "".

Definition export_ready : Notification :=
  mkNotification "success" "Export ready" "report.csv finished processing and is ready to download." "".

(** The background job: [time.Sleep], then the result to the user. *)
Definition job (userID : string) : prg unit :=
  start ← time_Now ;
  await (fun w => if bool_decide (start + jobDelay <= w_now w)%Z then Some (tt, w) else None) ;;
  notifyUser userID export_ready.

(** With the goroutines it starts. *)
Definition handleMessage (client : cref) (msg : Message) : prg (option error * list (prg unit)) :=
  match unmarshal_command (Data msg) with
  | None => mret (Some ErrInvalidMessage, [])
  | Some type =>
      if negb (bool_decide (type = "startJob")) then mret (Some ErrInvalidMessage, []) else
      userID ← GetUserID client ;
      notifyClient client job_queued ;;
      mret (None, [job userID])
  end.

(** ** The HTTP handlers *)
Definition handleNotify (method : string) (body : bytes) : prg reply :=
  if negb (bool_decide (method = "POST")) then mret (HTTPError 405 "POST only") else
  match decode_request maxNotifyBody body with
  | inl BodyTooLarge => mret (HTTPError 413 "body too large")
  | inl BodyInvalid => mret (HTTPError 400 "invalid JSON body")
  | inr req =>
      if bool_decide (rq_Title req = "") then mret (HTTPError 400 "title is required") else
      let n := mkNotification (rq_Level req) (rq_Title req) (rq_Body req) "" in
      if bool_decide (rq_User req = "") then
        notifyAll n ;;
        _ ← ClientCount ;
        clients ← ClientCount ;
        mret (Delivered "broadcast" clients)
      else
        conns ← GetClientsByUserID (rq_User req) ;
        notifyUser (rq_User req) n ;;
        mret (Delivered (rq_User req) (Z.of_nat (length conns)))
  end.

(** [counts[userID]++] for the clients that carry a user ID. *)
Fixpoint count_users (counts : gmap string Z) (l : list cref) : prg (gmap string Z) :=
  match l with
  | [] => mret counts
  | client :: l =>
      userID ← GetUserID client ;
      count_users
        (if bool_decide (userID = "") then counts
         else <[userID := (default 0 (counts !! userID) + 1)%Z]> counts) l
  end.

Definition handleOnline : prg reply :=
  clients ← Clients ;
  counts ← count_users ∅ clients ;
  connections ← ClientCount ;
  mret (Online counts connections).

(** ** The hub *)
Definition notify_BeforeConnect (r : Request) : prg (option error) :=
  mret (if bool_decide (query r "user" = "") then Some ErrAuthenticationFailed else None).

Definition welcome (userID : string) (open : Z) : Notification :=
  mkNotification "success" "Connected"
    ("Signed in as " +:+ userID +:+ " — " +:+ fmt_d open +:+ " tab(s) open. Anything sent to "
     +:+ userID +:+ " arrives in all of them.") "".

Definition notify_AfterConnect (client : cref) : prg unit :=
  r ← GetRequest client ;
  let userID := query r "user" in
  err ← SetUserID env client userID ;
  match err with
  | Some _ => _ ← Close client ; mret tt
  | None =>
      conns ← GetClientsByUserID userID ;
      notifyClient client (welcome userID (Z.of_nat (length conns)))
  end.

Definition notify_AfterDisconnect (client : cref) : prg unit :=
  _ ← GetUserID client ; mret tt.

Definition notify_OnError (client : cref) (e : error) : prg unit := mret tt.

(** The message handler of the hub; the goroutines are added to the program's
    by whoever interleaves it. *)
Definition notify_onMessage (client : cref) (msg : Message) : prg (option error) :=
  res ← handleMessage client msg ; mret res.1.

Definition newServer : list Option_ :=
  [WithLimits (WithMaxConnectionsPerUser DefaultLimits 10);
   WithHooks (mkHooks (Some notify_BeforeConnect) (Some notify_AfterConnect) None
     (Some notify_AfterDisconnect) None None (Some notify_OnError) None None None None None);
   WithMessageHandler (Some notify_onMessage)].

(** ** Properties *)

(** The payload after its defaults. *)
Definition prepared (t : Z) (n : Notification) : Notification :=
  mkNotification (if bool_decide (Level n = "") then "info" else Level n) (Title n) (Body n)
    (if bool_decide (At n = "") then clock t else At n).

Lemma run_encode_notification n w :
  run (encode_notification n) w = Some (marshal (prepared (w_now w) n), w).
Proof.
  unfold encode_notification, prepared, time_Now. destruct n as [level title body at_]. cbn [At Level].
  case_bool_decide as Hat; run_simpl; cbn [Level Title Body At]; by case_bool_decide as Hl; subst.
Qed.

Context (Hhook : silent_drop_hook env) (Hpar : useParallel env = false) (Ha : adapter_answers env).

(** Who is connected, consistently, and able to receive. *)
Definition connected_ok (w : world) : Prop :=
  registry (limits env) ∅ w /\ snapshot_current w /\ ∀ c, c ∈ h_clients (w_hub w) -> ready w c.

Lemma snapshot_clients w :
  snapshot_current w -> NoDup (snapshot_slice w) /\
    (∀ c, c ∈ snapshot_slice w <-> c ∈ h_clients (w_hub w)) /\
    list_to_set (snapshot_slice w) = h_clients (w_hub w).
Proof.
  intros (l & Hs & Hl). unfold snapshot_slice. rewrite Hs. cbn [default hs_slice].
  split; [by eapply NoDup_perm_elements|]. split; [intros c; by apply elem_of_perm_elements|].
  by apply list_to_set_elements_perm.
Qed.

Lemma run_notifyUser u n w d :
  connected_ok w -> marshal (prepared (w_now w) n) = inr d ->
  ∃ w', run (notifyUser u n) w = Some (tt, w') /\
    delivered env (mkSendItem TextMessage d) (clients_of u w)
      (publishes env (adapter_msg_user TextMessage d u)) w w'.
Proof.
  intros (Hreg & _ & Hr) Hd. unfold notifyUser. rewrite run_bind, run_encode_notification, Hd.
  by apply (sendToUser_delivers env Hhook Ha u d TextMessage w).
Qed.

Lemma run_notifyAll n w d :
  connected_ok w -> marshal (prepared (w_now w) n) = inr d ->
  ∃ w', run (notifyAll n) w = Some (tt, w') /\
    delivered env (mkSendItem TextMessage d) (h_clients (w_hub w))
      (publishes env (adapter_msg AdapterBroadcast TextMessage d)) w w'.
Proof.
  intros (Hreg & Hs & Hr) Hd. unfold notifyAll. rewrite run_bind, run_encode_notification, Hd.
  destruct (snapshot_clients w Hs) as (Hnd & Hin & <-).
  apply (run_Broadcast env Hhook Hpar Ha d w Hnd). intros c Hc. by apply Hr, Hin.
Qed.

Lemma run_notifyClient c n w d :
  ready w c -> marshal (prepared (w_now w) n) = inr d ->
  ∃ w', run (notifyClient c n) w = Some (tt, w') /\
    delivered env (mkSendItem TextMessage d) {[c]} [] w w'.
Proof.
  intros Hr Hd. unfold notifyClient. rewrite run_bind, run_encode_notification, Hd. cbn beta iota.
  unfold SendRaw. destruct (run_SendMessage_deliver env Hhook c TextMessage d w Hr) as (r & evs & H & Hp).
  rewrite run_bind, H. cbn beta iota. rewrite run_ret. eexists. split; [done|].
  apply (delivered_intro env _ [c] {[c]} evs [] w); [apply NoDup_singleton|set_solver|done].
Qed.

(** What [POST /notify] promises: a request it refuses changes nothing; one
    it accepts is delivered exactly once to every connection of the named
    user, or to every client when no user is named, and to nobody else, and
    the number it answers is the number of these connections. *)
Theorem handleNotify_delivers (method : string) (body : bytes) (w : world)
    (Hok : connected_ok w) (Hm : ∀ n, ∃ d, marshal n = inr d)
    (Hint : in_int64 (Z.of_nat (size (h_clients (w_hub w))))) :
  ∃ r w', run (handleNotify method body) w = Some (r, w') /\
    match r with
    | HTTPError _ _ =>
        w' = w /\ (method <> "POST" \/ ∀ req, decode_request maxNotifyBody body = inr req ->
                     rq_Title req = "")
    | Delivered who k =>
        ∃ req d, method = "POST" /\ decode_request maxNotifyBody body = inr req /\
          marshal (prepared (w_now w) (mkNotification (rq_Level req) (rq_Title req) (rq_Body req) ""))
            = inr d /\ rq_Title req <> "" /\
          let everyone := bool_decide (rq_User req = "") in
          let T := if everyone then h_clients (w_hub w) else clients_of (rq_User req) w in
          who = (if everyone then "broadcast" else rq_User req) /\
          k = Z.of_nat (size T) /\
          delivered env (mkSendItem TextMessage d) T
            (publishes env (if everyone then adapter_msg AdapterBroadcast TextMessage d
                            else adapter_msg_user TextMessage d (rq_User req))) w w'
    | Online _ _ => False
    end.
Proof.
  unfold handleNotify. case_bool_decide as Hpost; cbn [negb];
    [|eexists _, w; split; [done|]; split; [done|by left]].
  destruct (decode_request maxNotifyBody body) as [[]|req] eqn:Hreq;
    [eexists _, w; split; [done|]; split; [done|]; right; by intros ? ?..|].
  case_bool_decide as Ht.
  { eexists _, w. split; [done|]. split; [done|]. right. by intros ? [= <-]. }
  set (n := mkNotification _ _ _ _). destruct (Hm (prepared (w_now w) n)) as [d Hd].
  case_bool_decide as Hu.
  - destruct (run_notifyAll n w d Hok Hd) as (w' & Hrun & Hdel).
    rewrite run_bind, Hrun. unfold ClientCount. run_simpl. eexists _, w'. split; [done|].
    exists req, d. rewrite bool_decide_eq_true_2 by done. split_and!; try done.
    destruct Hdel as (_ & -> & _), Hok as (Hreg & _).
    rewrite (rg_count _ _ _ Hreg). by apply wrap64_small.
  - unfold GetClientsByUserID. run_simpl.
    destruct (run_notifyUser (rq_User req) n (bump w) d) as (w' & Hrun & Hdel); [|done|].
    { destruct Hok as (Hreg & ?). split; [by apply registry_bump|done]. }
    rewrite Hrun. run_simpl. eexists _, w'. split; [done|]. exists req, d.
    rewrite bool_decide_eq_false_2 by done. split_and!; try done.
    rewrite length_range. do 2 f_equal. apply set_eq. intros c. destruct Hok as (Hreg & _).
    rewrite (rg_users _ _ _ Hreg). unfold clients_of. rewrite bool_decide_eq_false_2 by done.
    rewrite elem_of_filter. set_solver.
Qed.

(** A job is acknowledged to the connection that asked for it, and to no
    other; its result is addressed to the user of that connection, whoever is
    connected by then.  Any other message is refused and changes nothing. *)
Theorem handleMessage_spec (c : cref) (msg : Message) (w : world)
    (Hr : ready w c) (Hm : ∀ n, ∃ d, marshal n = inr d) :
  ∃ res w', run (handleMessage c msg) w = Some (res, w') /\
    if bool_decide (unmarshal_command (Data msg) = Some "startJob") then
      res = (None, [job (c_userID (client w c))]) /\
      ∃ d, marshal (prepared (w_now w) job_queued) = inr d /\
        delivered env (mkSendItem TextMessage d) {[c]} [] w w'
    else res = (Some ErrInvalidMessage, []) /\ w' = w.
Proof.
  unfold handleMessage. destruct (unmarshal_command (Data msg)) as [type|];
    [|by eexists _, w; rewrite bool_decide_eq_false_2].
  case_bool_decide as Ht; cbn [negb];
    [subst; rewrite bool_decide_eq_true_2 by done|eexists _, w; rewrite bool_decide_eq_false_2 by congruence; done].
  destruct (Hm (prepared (w_now w) job_queued)) as [d Hd].
  unfold GetUserID. run_simpl. destruct (run_notifyClient c job_queued w d Hr Hd) as (w' & H & Hdel).
  rewrite H. run_simpl. by eexists _, w'; eauto.
Qed.

Lemma run_count_users l m w :
  ∃ m', run (count_users m l) w = Some (m', w) /\
    ∀ u, m' !! u =
      let k := length (base.filter (fun c => c_userID (client w c) = u) l) in
      if bool_decide (u = "" \/ k = 0) then m !! u
      else Some (default 0 (m !! u) + Z.of_nat k)%Z.
Proof.
  revert m. induction l as [|c l IH]; intros m; cbn [count_users].
  { exists m. split; [done|]. intros u. simpl. by rewrite bool_decide_eq_true_2 by auto. }
  unfold GetUserID. run_simpl. set (v := c_userID (client w c)).
  destruct (IH (if bool_decide (v = "") then m else <[v := (default 0 (m !! v) + 1)%Z]> m)) as (m' & Hr & Hm').
  exists m'. split; [done|]. intros u. rewrite Hm'. clear Hm' IH Hr. cbn zeta.
  rewrite filter_cons. fold v. destruct (decide (v = u)) as [->|Hne].
  - destruct (decide (u = "")) as [->|Hu]; [by rewrite !bool_decide_eq_true_2 by auto|].
    rewrite (bool_decide_eq_false_2 (u = "")), lookup_insert_eq by done.
    rewrite (bool_decide_eq_false_2 (_ \/ length (c :: _) = 0)) by (intros [?|?]; done).
    cbn [length]. case_bool_decide as Hk; [destruct Hk as [?|Hk]; [done|rewrite Hk]|];
      cbn [default]; f_equal; unfold id; lia.
  - destruct (bool_decide (v = "")); by rewrite ?lookup_insert_ne by done.
Qed.

(** [GET /online]: each user with a connection, with the number of its
    connections, and the number of all connections. *)
Theorem handleOnline_counts (w : world) (Hok : connected_ok w)
    (Hint : in_int64 (Z.of_nat (size (h_clients (w_hub w))))) :
  ∃ counts, run handleOnline w = Some (Online counts (Z.of_nat (size (h_clients (w_hub w)))), w) /\
    ∀ u, counts !! u =
      if bool_decide (clients_of u w = ∅) then None else Some (Z.of_nat (size (clients_of u w))).
Proof using.
  destruct Hok as (Hreg & Hs & _). destruct (snapshot_clients w Hs) as (Hnd & Hin & Hset).
  unfold handleOnline, Clients, loadSnapshot, ClientCount. run_simpl. fold (snapshot_slice w).
  destruct (run_count_users (snapshot_slice w) ∅ w) as (m & Hr & Hm). rewrite Hr. run_simpl.
  exists m. split.
  { rewrite (rg_count _ _ _ Hreg). by rewrite wrap64_small. }
  intros u. rewrite Hm, lookup_empty. cbn zeta.
  assert (u <> "" -> list_to_set (base.filter (fun c => c_userID (client w c) = u) (snapshot_slice w))
    = clients_of u w) as Hcl.
  { intros Hu. apply set_eq. intros c. unfold clients_of. rewrite bool_decide_eq_false_2 by done.
    by rewrite elem_of_list_to_set, list_elem_of_filter, elem_of_filter, Hin. }
  assert (u <> "" -> size (clients_of u w) =
    length (base.filter (fun c => c_userID (client w c) = u) (snapshot_slice w))) as Hsz.
  { intros Hu. rewrite <-Hcl by done. apply size_list_to_set. by apply NoDup_filter. }
  destruct (decide (u = "")) as [->|Hu].
  { rewrite bool_decide_eq_true_2 by auto. unfold clients_of.
    by rewrite (bool_decide_eq_true_2 ("" = "")), (bool_decide_eq_true_2 (∅ = ∅)). }
  rewrite <-Hsz by done. case_bool_decide as Hk.
  - rewrite bool_decide_eq_true_2; [done|]. destruct Hk as [?|Hk]; [done|].
    by apply leibniz_equiv, size_empty_inv.
  - rewrite bool_decide_eq_false_2; [done|]. intros He. apply Hk. right. by rewrite He, size_empty.
Qed.
End Notify.
