(* ===== verification/Chat.v ===== *)
(** * Chat: a chat server over rooms (examples/chat/main.go)

    The server keeps a map from client IDs to user names, under a mutex of its
    own, beside its hub.  Its handlers and hooks are programs over both, and
    calls of the hub act on the hub's part ([on_hub]).  JSON is a parameter:
    [marshal] and [unmarshal] at [ChatMessage], and what the router's extractor
    reads of an envelope.  A hook the hub launches in a goroutine is the
    program [chat_hook] gives for the call. *)

From S2P Require Import Prelude Prog Types Config World Invariant Send Client Rooms RoomSpec.
From S2P Require Import Registry RegistrySpec UnregisterSpec Broadcast BroadcastSpec DeliverySpec.
From S2P Require Import Options LifecycleSpec Handlers.

(** ** A hub inside a larger state *)
Section Around.
Context {S : Type}.

Fixpoint on_hub {A : Type} (p : prg A) : prog (world * S) A :=
  match p with
  | Ret a => Ret a
  | Atomic f k =>
      Atomic (fun ws => match f ws.1 with
                            | Some (x, w') => Some (x, (w', ws.2))
                            | None => None
                            end) (fun x => on_hub (k x))
  end.

#[export] Instance embed_around : Embeds (world * S) := fun A p => on_hub p.

Lemma run_Atomic {W A X} (f : W -> option (X * W)) (k : X -> prog W A) w :
  run (Atomic f k) w = match f w with Some (x, w') => run (k x) w' | None => None end.
Proof. done. Qed.

Lemma run_on_hub {A} (p : prg A) w s :
  run (on_hub p) (w, s) = match run p w with Some (a, w') => Some (a, (w', s)) | None => None end.
Proof.
  revert w. induction p as [a|X f k IH]; intros w; [done|].
  cbn [on_hub]. rewrite !run_Atomic. cbn [fst snd]. destruct (f w) as [[x w']|]; [apply IH|done].
Qed.

Lemma run_on_hub_bind {A B} (p : prg A) (k : A -> prog (world * S) B) w s :
  run (on_hub p ≫= k) (w, s) = match run p w with Some (a, w') => run (k a) (w', s) | None => None end.
Proof. rewrite run_bind, run_on_hub. by destruct (run p w) as [[??]|]. Qed.
End Around.

(** ** The wire format *)
Record ChatUser := mkChatUser { u_ID : string; u_Username : string }.
Record ChatRoom := mkChatRoom { cr_Name : string; cr_UserCount : Z }.

Record ChatMessage := mkChatMessage {
  m_Type : string;
  m_Room : string;
  m_From : string;
  m_Message : string;
  m_Users : list ChatUser;
  m_Rooms : list ChatRoom
}.

Definition MsgTypeChat : string := "chat".
Definition MsgTypeJoin : string := "join".
Definition MsgTypeLeave : string := "leave".
Definition MsgTypeRooms : string := "rooms".
Definition MsgTypeUserList : string := "users".

(** A literal that sets the type, the room and the text. *)
Definition chat_text (type room message : string) : ChatMessage :=
  mkChatMessage type room "" message [] [].

(** ** The server *)
Abbreviation usernames := (gmap string string).
Abbreviation chat := (world * usernames)%type.

Section Chat.
Context {RT : Runtime} (env : HubEnv).
Context (marshal : ChatMessage -> bytes) (unmarshal : bytes -> option ChatMessage).
Context (event_type : bytes -> string) (as_any : string -> any).

(** [s.usernames[client.ID]] under the read lock. *)
Definition username_of (c : cref) : prog chat string :=
  gets (fun ws => default "" (ws.2 !! c_ID (client ws.1 c))).

Definition send_chat (c : cref) (m : ChatMessage) : prog chat (option error) :=
  on_hub (SendRaw env c (marshal m)).

Definition handleSetUsername (c : cref) (msg : ChatMessage) : prog chat (option error) :=
  modify (fun ws => (ws.1, <[c_ID (client ws.1 c) := m_Message msg]> ws.2)) ;;
  on_hub (SetMetadata c "username" (as_any (m_Message msg))) ;;
  send_chat c (chat_text "usernameSet" "" (m_Message msg)).

Definition handleJoinRoom (c : cref) (msg : ChatMessage) : prog chat (option error) :=
  err ← on_hub (JoinRoom env c (m_Room msg)) ;
  match err with
  | Some e => mret (Some e)
  | None => send_chat c (chat_text "joined" (m_Room msg) ("Joined room: " +:+ m_Room msg))
  end.

Definition handleLeaveRoom (c : cref) (msg : ChatMessage) : prog chat (option error) :=
  err ← on_hub (LeaveRoom env c (m_Room msg)) ;
  match err with
  | Some e => mret (Some e)
  | None => send_chat c (chat_text "left" (m_Room msg) ("Left room: " +:+ m_Room msg))
  end.

Definition chat_broadcast (username : string) (msg : ChatMessage) : ChatMessage :=
  mkChatMessage MsgTypeChat (m_Room msg) username (m_Message msg) [] [].

Definition handleChatMessage (c : cref) (msg : ChatMessage) : prog chat (option error) :=
  username ← username_of c ;
  let data := marshal (chat_broadcast username msg) in
  if negb (bool_decide (m_Room msg = "")) then on_hub (BroadcastToRoom env (m_Room msg) data)
  else on_hub (Broadcast env data) ;; mret None.

Definition handleGetRooms (c : cref) : prog chat (option error) :=
  roomNames ← on_hub RoomNames ;
  rooms ← for_collect roomNames (fun name =>
    n ← on_hub (RoomCount name) ; mret (Some (mkChatRoom name (Z.of_nat n)))) ;
  send_chat c (mkChatMessage MsgTypeRooms "" "" "" [] rooms).

Definition notifyRoomUsers (room message : string) : prog chat unit :=
  _ ← on_hub (BroadcastToRoom env room (marshal (chat_text "notification" room message))) ;
  mret tt.

(** The names are read under one hold of the read lock. *)
Definition users_of (clients : list cref) (ws : chat) : list ChatUser :=
  map (fun c => let id := c_ID (client ws.1 c) in mkChatUser id (default "" (ws.2 !! id))) clients.

Definition sendRoomUsers (c : cref) (room : string) : prog chat unit :=
  clients ← on_hub (RoomClients room) ;
  users ← gets (users_of clients) ;
  _ ← send_chat c (mkChatMessage MsgTypeUserList room "" "" users []) ;
  mret tt.

(** ** The hooks *)
Definition chat_AfterConnect (c : cref) : prog chat unit :=
  _ ← send_chat c (chat_text "welcome" "" "Welcome to the chat server!") ; mret tt.

(** Name and entry are read and deleted under one hold of the lock. *)
Definition chat_AfterDisconnect (c : cref) : prog chat unit :=
  username ← atomically (fun ws : chat =>
    let id := c_ID (client ws.1 c) in (default "" (ws.2 !! id), (ws.1, delete id ws.2))) ;
  rooms ← on_hub (Client_Rooms c) ;
  for_each rooms (fun room => notifyRoomUsers room (username +:+ " left the room")).

Definition chat_AfterRoomJoin (c : cref) (room : string) : prog chat unit :=
  username ← username_of c ;
  notifyRoomUsers room (username +:+ " joined the room") ;;
  sendRoomUsers c room.

Definition chat_AfterRoomLeave (c : cref) (room : string) : prog chat unit :=
  username ← username_of c ;
  notifyRoomUsers room (username +:+ " left the room").

(** What runs for a call the hub launches with [go]. *)
Definition chat_hook (h : hook_call) : option (prog chat unit) :=
  match h with
  | HAfterConnect c => Some (chat_AfterConnect c)
  | HAfterDisconnect c => Some (chat_AfterDisconnect c)
  | HAfterRoomJoin c room => Some (chat_AfterRoomJoin c room)
  | HAfterRoomLeave c room => Some (chat_AfterRoomLeave c room)
  | _ => None
  end.

(** ** The router *)
Definition decode (fn : cref -> ChatMessage -> prog chat (option error)) : HandlerFunc :=
  fun c msg =>
    match unmarshal (Data msg) with
    | None => mret (Returned (Some ErrInvalidMessage))
    | Some chatMsg => err ← fn c chatMsg ; mret (Returned err)
    end.

Definition chat_routes : list route :=
  [ROn "setUsername" (decode handleSetUsername);
   ROn MsgTypeJoin (decode handleJoinRoom);
   ROn MsgTypeLeave (decode handleLeaveRoom);
   ROn MsgTypeChat (decode handleChatMessage);
   ROn MsgTypeRooms (fun c _ => err ← handleGetRooms c ; mret (Returned err))].

Definition chat_router : Router :=
  configure (NewRouter (fun msg => event_type (Data msg))) chat_routes.

(** *** [SimpleLogger]: its arguments as [%v] renders them. *)
Fixpoint log_parts (args : list string) : list string :=
  match args with
  | key :: value :: args => (key +:+ "=" +:+ value) :: log_parts args
  | _ => args
  end.

Definition formatLogArgs (args : list string) : string :=
  match args with [] => "" | _ => String.concat " " (log_parts args) end.

Definition log_line (level msg : string) (args : list string) : string :=
  "[" +:+ level +:+ "] " +:+ msg +:+ " " +:+ formatLogArgs args.

Example log_line_odd :
  log_line "WARN" "slow" ["client"; "c1"; "took"; "3s"; "twice"] =
  "[WARN] slow client=c1 took=3s twice"%string.
Proof. done. Qed.

(** The middlewares log through it; the calls are recorded like the hub's. *)
Definition buildRouter : cref -> Message -> prog chat (option error) :=
  serve (Build (Use LoggingMiddleware (Use RecoveryMiddleware (NewMiddlewareChain (Handle chat_router))))).

(** ** The hub's configuration *)
Definition chat_BeforeConnect (r : Request) : prg (option error) := mret None.

Definition chat_config (url_Parse : string -> option string) : Config :=
  WithCompression (WithMaxMessageSize (DefaultConfig url_Parse) (1024 * 1024)) true.

Definition chat_limits : Limits :=
  WithMaxClientsPerRoom (WithMaxRoomsPerClient
    (WithMaxConnectionsPerUser (WithMaxConnections DefaultLimits 10000) 5) 10) 100.

(** ** Properties *)
Context (Hhook : silent_drop_hook env) (Hpar : useParallel env = false) (Ha : adapter_answers env).
Context (known : gset cref) (id : cref -> string).
Abbreviation holds M := (rep (limits env) known id M M None).
Abbreviation payload m := (mkSendItem TextMessage (marshal m)).

(** *** Clients stay ready *)
Lemma ready_upd c c' f w :
  (∀ cl, c_sendMu (f cl) = c_sendMu cl /\ c_send (f cl) = c_send cl /\ c_config (f cl) = c_config cl) ->
  ready w c' -> ready (upd_client c f w) c'.
Proof.
  intros Hf (Hal & Hm & Hq). split.
  { unfold allocated, upd_client. cbn [w_clients]. apply lookup_insert_is_Some.
    destruct (decide (c = c')); auto. }
  rewrite client_upd_client. case_decide; [subst|done]. destruct (Hf (client w c')) as (-> & -> & Hc).
  split; [done|]. unfold cap in *. by rewrite Hc.
Qed.

Lemma ready_deliver_all x evs l w c : ready w c -> ready (emits evs (deliver_all env x l w)) c.
Proof.
  intros Hr. enough (ready (deliver_all env x l w) c) by done. unfold deliver_all.
  revert w Hr. induction l as [|d l IH]; intros w Hr; simpl; [done|]. by apply IH, ready_deliver.
Qed.

Lemma preserves_ready_JoinRoom c' c n :
  BeforeRoomJoin (hooks env) = None -> preserves (fun w => ready w c') (JoinRoom env c n).
Proof using.
  intros Hb. unfold JoinRoom, call_veto, get_or_create_room, join_section. rewrite Hb.
  case_bool_decide; [apply preserves_ret|]. apply preserves_bind; [apply preserves_gets|]. intros [|];
    [|apply preserves_ret]. cbn [negb fmap option_fmap option_map].
  apply preserves_bind; [apply preserves_ret|]. intros [e|]; [apply preserves_ret|].
  apply preserves_bind; [apply preserves_atomically; intros w Hw; by case_match|]. intros [r b].
  apply preserves_bind.
  { apply preserves_atomically. intros w Hw. repeat (case_match; [done|]). by apply ready_upd. }
  intros [size|e cl].
  - apply preserves_bind; [by apply preserves_modify|]. intros [].
    apply preserves_bind; [by apply preserves_modify|]. intros [].
    apply preserves_bind; [by apply preserves_modify|]. intros [].
    apply preserves_bind; [|intros; apply preserves_ret].
    destruct (AfterRoomJoin (hooks env)); [by apply preserves_modify|apply preserves_ret].
  - apply preserves_bind; [|intros; apply preserves_ret]. destruct cl; [|apply preserves_ret].
    apply preserves_modify. intros w Hw. by case_match.
Qed.

(** *** Sending *)
Lemma run_send_chat c m w s :
  ready w c ->
  ∃ r w', run (send_chat c m) (w, s) = Some (r, (w', s)) /\ delivered env (payload m) {[c]} [] w w'.
Proof.
  intros Hr. unfold send_chat. rewrite run_on_hub. unfold SendRaw.
  destruct (run_SendMessage_deliver env Hhook c TextMessage (marshal m) w Hr) as (r & evs & -> & Hp).
  eexists r, _. split; [done|].
  apply (delivered_intro env _ [c] {[c]} evs [] w); [apply NoDup_singleton|set_solver|done].
Qed.

Lemma run_notifyRoomUsers M n message w s :
  holds M w -> n <> "" -> (∀ c, c ∈ room_members M n -> ready w c) ->
  let m := chat_text "notification" n message in
  ∃ l evs, enumerates l (room_members M n) /\
    run (notifyRoomUsers n message) (w, s) =
      Some (tt, (emits evs (deliver_all env (payload m) l w), s)) /\
    delivered env (payload m) (room_members M n)
      (publishes env (adapter_msg_room TextMessage (marshal m) n)) w
      (emits evs (deliver_all env (payload m) l w)).
Proof.
  intros Hrep Hn Hr m. unfold notifyRoomUsers, BroadcastToRoom. fold m.
  destruct (run_room_members env Hhook Hpar Ha known id M n (marshal m) TextMessage w Hrep Hn Hr)
    as (l & evs & Hl & H & Hp).
  exists l, evs. split; [done|]. split.
  - by rewrite run_on_hub_bind, H.
  - apply delivered_intro; [by eapply NoDup_perm_elements| |done]. intros c. by apply elem_of_perm_elements.
Qed.

Lemma run_RoomClients M n w w1 :
  holds M w -> w_hub w1 = w_hub w -> w_rooms w1 = w_rooms w ->
  ∃ l, run (RoomClients n) w1 = Some (l, w1) /\ enumerates l (room_members M n).
Proof using.
  intros Hrep Hh Hrm. unfold RoomClients, lookup_room. run_simpl. rewrite Hh.
  destruct (h_rooms (w_hub w) !! n) as [r|] eqn:Hn; run_simpl; (eexists; split; [done|]).
  - rewrite <-(rep_room_clients _ _ _ _ _ _ _ _ _ Hrep Hn).
    assert (room w1 r = room w r) as -> by (unfold room; by rewrite Hrm).
    apply enumerates_snapshot. by destruct (wf_room _ _ (rep_wf _ _ _ _ _ _ _ Hrep) r).
  - rewrite (rep_no_room _ _ _ _ _ _ _ _ Hrep Hn). apply enumerates_nil.
Qed.

(** *** The router *)

(** A message goes to the handler of its type; a refusal is logged and passed
    on, and a panic of the handler becomes a refusal. *)
Theorem buildRouter_dispatches c msg (w w1 : world) (s s1 : usernames) (out : outcome)
    (H : run (Handle chat_router c msg) (emit (EvLog Debug "Message received") w, s) =
         Some (out, (w1, s1))) :
  run (buildRouter c msg) (w, s) =
    Some match out with
         | Returned None => (None, (w1, s1))
         | Returned (Some e) => (Some e, (emit (EvLog Error "Message handling failed") w1, s1))
         | Panicked _ => (Some ErrInvalidMessage,
                          (emit (EvLog Error "Panic recovered in message handler") w1, s1))
         end.
Proof using.
  assert (buildRouter c msg =
    (RecoveryMiddleware (LoggingMiddleware (Handle chat_router)) c msg ≫= fun out =>
     match out with Returned e => mret e | Panicked _ => out_of_fuel end)) as -> by done.
  unfold RecoveryMiddleware, LoggingMiddleware, embed, embed_around, GetUserID, logger.
  rewrite !run_bind, run_on_hub, run_gets. cbn beta iota.
  rewrite !run_bind, run_on_hub, run_modify. cbn beta iota. rewrite !run_bind, H.
  destruct out as [[e|]|v]; cbn beta iota; rewrite ?run_bind, ?run_on_hub, ?run_modify; cbn beta iota;
    rewrite ?run_ret; cbn beta iota; rewrite ?run_bind, ?run_ret, ?run_on_hub, ?run_modify; done.
Qed.

(** *** What clients say *)

(** A chat message that names a room is delivered exactly once to the members
    of that room, one that names none to every client; it carries the name
    its sender has chosen, and the sender need not be a member. *)
Theorem handleChatMessage_reaches M c (msg : ChatMessage) (w : world) (s : usernames)
    (Hrep : holds M w) (Hs : snapshot_current w)
    (Hr : ∀ c', c' ∈ known \/ c' ∈ room_members M (m_Room msg) -> ready w c') :
  let m := chat_broadcast (default "" (s !! id c)) msg in
  let n := m_Room msg in
  ∃ r w', run (handleChatMessage c msg) (w, s) = Some (r, (w', s)) /\
    if bool_decide (n = "") then
      r = None /\ delivered env (payload m) known
                    (publishes env (adapter_msg AdapterBroadcast TextMessage (marshal m))) w w'
    else
      (r = None \/ r = Some ErrRoomNotFound /\ adapter env = None /\ room_members M n = ∅) /\
      delivered env (payload m) (room_members M n)
        (publishes env (adapter_msg_room TextMessage (marshal m) n)) w w'.
Proof.
  cbn zeta. unfold handleChatMessage, username_of. run_simpl. cbn [fst snd].
  rewrite (rep_id _ _ _ _ _ _ _ Hrep). set (m := chat_broadcast _ msg).
  case_bool_decide as Hn; cbn [negb].
  - destruct Hs as (l & Hl & Hen). assert (snapshot_slice w = l) as Hsl by (unfold snapshot_slice; by rewrite Hl).
    rewrite <-(rep_known _ _ _ _ _ _ _ Hrep).
    destruct (run_Broadcast env Hhook Hpar Ha (marshal m) w) as (w' & H & Hd); [rewrite Hsl; by eapply NoDup_perm_elements|..].
    { intros c' Hc'. apply Hr. left. rewrite <-(rep_known _ _ _ _ _ _ _ Hrep). rewrite Hsl in Hc'.
      by eapply elem_of_perm_elements. }
    rewrite run_on_hub_bind, H. run_simpl. eexists _, w'. split; [done|]. split; [done|].
    by rewrite Hsl, (list_to_set_elements_perm l (h_clients (w_hub w))) in Hd.
  - destruct (run_broadcastToRoom env Hhook Hpar Ha known id M (m_Room msg) (marshal m) TextMessage w Hrep Hn)
      as (w' & H & Hd); [by auto|].
    unfold BroadcastToRoom. rewrite run_on_hub, H. eexists _, w'. split; [done|]. split; [|done].
    destruct (adapter env); [by left|]. case_bool_decide; auto.
Qed.

(** Joining answers what the hub's rules say; a client that gets in is told
    so, alone, and its chosen name is untouched. *)
Theorem handleJoinRoom_joins M c (msg : ChatMessage) (w : world) (s : usernames)
    (Hb : BeforeRoomJoin (hooks env) = None) (Hrep : holds M w) (Hr : ready w c) :
  let '(e, M') := abs_join (limits env) known id (fun _ _ => None) M c (m_Room msg) in
  ∃ r w1 w', run (handleJoinRoom c msg) (w, s) = Some (r, (w', s)) /\ holds M' w1 /\
    match e with
    | Some err => r = Some err /\ w' = w1
    | None => delivered env (payload (chat_text "joined" (m_Room msg) ("Joined room: " +:+ m_Room msg)))
                {[c]} [] w1 w'
    end.
Proof.
  assert (join_hook_policy env (fun _ _ => None)) as Hv by (unfold join_hook_policy; by rewrite Hb).
  destruct (total_preserves _ (fun w => ready w c) _ _
    (total_JoinRoom env known id (fun _ _ => None) M c (m_Room msg) Hv)
    (preserves_ready_JoinRoom c c (m_Room msg) Hb) w (conj Hrep Hr)) as (e & w1 & Hj & HM & Hr1).
  destruct (abs_join _ _ _ _ M c (m_Room msg)) as [e' M']. destruct HM as [-> Hrep1].
  unfold handleJoinRoom. rewrite run_on_hub_bind, Hj. destruct e' as [err|].
  - by exists (Some err), w1, w1.
  - destruct (run_send_chat c (chat_text "joined" (m_Room msg) ("Joined room: " +:+ m_Room msg)) w1 s Hr1)
      as (r & w' & H & Hd). by exists r, w1, w'.
Qed.

(** The hook of a join: every member, the new one included, reads the
    announcement once; then the new member alone gets the list of exactly the
    members, each with its chosen name. *)
Theorem join_announced M c n (w : world) (s : usernames)
    (Hrep : holds M w) (Hn : n <> "") (Hc : (n, c) ∈ M)
    (Hr : ∀ c', c' ∈ room_members M n -> ready w c') :
  let m := chat_text "notification" n (default "" (s !! id c) +:+ " joined the room") in
  ∃ l w1 w', run (chat_AfterRoomJoin c n) (w, s) = Some (tt, (w', s)) /\
    delivered env (payload m) (room_members M n)
      (publishes env (adapter_msg_room TextMessage (marshal m) n)) w w1 /\
    enumerates l (room_members M n) /\
    delivered env (payload (mkChatMessage MsgTypeUserList n "" ""
        (map (fun c' => mkChatUser (id c') (default "" (s !! id c'))) l) [])) {[c]} [] w1 w'.
Proof.
  cbn zeta. unfold chat_AfterRoomJoin, username_of. run_simpl. cbn [fst snd].
  rewrite (rep_id _ _ _ _ _ _ _ Hrep).
  destruct (run_notifyRoomUsers M n (default "" (s !! id c) +:+ " joined the room") w s Hrep Hn Hr)
    as (l0 & evs & _ & H1 & Hd1).
  rewrite H1. set (w1 := emits evs _) in *.
  destruct Hd1 as (Hcl & Hh & Hrm & Hp).
  destruct (run_RoomClients M n w w1 Hrep Hh Hrm) as (l & Hl & Hen).
  unfold sendRoomUsers. rewrite run_on_hub_bind, Hl. run_simpl.
  assert (users_of l (w1, s) = map (fun c' => mkChatUser (id c') (default "" (s !! id c'))) l) as ->.
  { unfold users_of. apply map_ext. intros c'. cbn [fst snd]. subst w1.
    by rewrite c_ID_deliver_all, (rep_id _ _ _ _ _ _ _ Hrep). }
  destruct (run_send_chat c (mkChatMessage MsgTypeUserList n "" ""
    (map (fun c' => mkChatUser (id c') (default "" (s !! id c'))) l) []) w1 s) as (r & w' & H2 & Hd2).
  { apply ready_deliver_all, Hr. by apply elem_of_room_members. }
  rewrite H2. run_simpl. exists l, w1, w'. split; [done|]. split; [done|]. by split.
Qed.

(** The hook of a leave announces the name the client has at that moment. *)
Lemma run_AfterRoomLeave M c n w s :
  holds M w -> n <> "" -> (∀ c', c' ∈ room_members M n -> ready w c') ->
  let m := chat_text "notification" n (default "" (s !! c_ID (client w c)) +:+ " left the room") in
  ∃ w', run (chat_AfterRoomLeave c n) (w, s) = Some (tt, (w', s)) /\
    delivered env (payload m) (room_members M n)
      (publishes env (adapter_msg_room TextMessage (marshal m) n)) w w'.
Proof.
  intros Hrep Hn Hr m. unfold chat_AfterRoomLeave, username_of. run_simpl. cbn [fst snd].
  destruct (run_notifyRoomUsers M n (default "" (s !! c_ID (client w c)) +:+ " left the room") w s Hrep Hn Hr)
    as (l & evs & _ & H & Hd).
  rewrite H. by eexists.
Qed.
End Chat.

(** What is left of the memberships once a client has left every room. *)
Lemma room_members_left M c n : room_members (abs_leave_all M c) n = room_members M n ∖ {[c]}.
Proof.
  apply set_eq. intros c'. rewrite elem_of_difference, !elem_of_room_members, elem_of_singleton.
  unfold abs_leave_all. rewrite elem_of_filter. naive_solver.
Qed.

Lemma client_rooms_left M c : client_rooms (abs_leave_all M c) c = ∅.
Proof.
  apply set_eq. intros n. rewrite elem_of_client_rooms. unfold abs_leave_all.
  rewrite elem_of_filter. set_solver.
Qed.

(** The departure of a connected client.  When the hub launches
    [AfterDisconnect] it has already taken the client out of its rooms, so the
    hook's own loop over them announces nothing and only the name is
    forgotten.  The rooms hear of it through the [AfterRoomLeave] hooks, which
    run beside it: one that comes after it announces a client without a
    name. *)
Theorem disconnect_forgets_name {RT : Runtime} (env : HubEnv) (marshal : ChatMessage -> bytes)
    (known : gset cref) (id : cref -> string) (M : membership) (c : cref) (w : world) (s : usernames)
    (Hhook : silent_drop_hook env) (Hpar : useParallel env = false) (Ha : adapter_answers env)
    (Hrep : rep (limits env) known id M M None w) (Hreg : registry (limits env) ∅ w) (Hc : c ∈ known)
    (Hd : disconnect_hook_observes env) (Hl : leave_hook_observes env) :
  ∃ w1, run (handleUnregister env c) w = Some (tt, w1) /\
    run (chat_AfterDisconnect env marshal c) (w1, s) = Some (tt, (bump w1, delete (id c) s)) /\
    ∀ n, n <> "" -> (∀ c', c' ∈ room_members M n ∖ {[c]} -> ready w1 c') ->
      let m := chat_text "notification" n " left the room" in
      ∃ w2, run (chat_AfterRoomLeave env marshal c n) (bump w1, delete (id c) s) =
          Some (tt, (w2, delete (id c) s)) /\
        delivered env (mkSendItem TextMessage (marshal m)) (room_members M n ∖ {[c]})
          (publishes env (adapter_msg_room TextMessage (marshal m) n)) (bump w1) w2.
Proof.
  destruct (handleUnregister_outcome env known id M c w Hrep Hreg Hc Hd Hl)
    as (w1 & Hrun & _ & Hrep1 & _).
  exists w1. split; [done|].
  split.
  - unfold chat_AfterDisconnect, Client_Rooms. rewrite run_bind, run_atomically. cbn [fst snd].
    rewrite (rep_id _ _ _ _ _ _ _ Hrep1), run_on_hub_bind, run_atomically.
    by rewrite (rep_client _ _ _ _ _ _ _ Hrep1), client_rooms_left, range_empty.
  - intros n Hn Hr.
    destruct (run_AfterRoomLeave env marshal Hhook Hpar Ha (known ∖ {[c]}) id (abs_leave_all M c) c n
      (bump w1) (delete (id c) s) (rep_bump _ _ _ _ _ _ _ Hrep1) Hn) as (w2 & H & Hdel);
      rewrite ?room_members_left; [exact Hr|].
    rewrite client_bump, (rep_id _ _ _ _ _ _ _ Hrep1), lookup_delete_eq, room_members_left in Hdel.
    by exists w2.
Qed.
