(* ===== verification/Examples.v ===== *)
(** * Examples: the small servers (examples/simple, metrics and multinode)

    Each of them echoes what a client says to everyone; the metrics example
    serves the collector's numbers, the multi-node one runs hubs joined by an
    adapter.  The pages they serve and their start and end are not modelled. *)

From S2P Require Import Prelude Float64 Prog Types Config World Invariant Send Client Registry Broadcast.
From S2P Require Import BroadcastSpec DeliverySpec Presence Options Metrics MetricsString Loadtest.
From stdpp Require Import strings.
#[local] Open Scope string_scope.

Section Handlers.
Context {RT : Runtime} (env : HubEnv).

(** ** examples/simple *)
Definition simple_handler (c : cref) (msg : Message) : prg (option error) :=
  Broadcast env (Data msg) ;;
  mret None.

(** [client.ID[:8]], which panics on a shorter ID: outside every recover, the
    end of the process. *)
Definition id_prefix (c : cref) : prg string :=
  id ← gets (fun w => c_ID (client w c)) ;
  if bool_decide (String.length id < 8) then crash else mret (String.substring 0 8 id).

(** ** examples/metrics *)
Definition metrics_handler (c : cref) (msg : Message) : prg (option error) :=
  id ← id_prefix c ;
  BroadcastText env ("[" +:+ id +:+ "]: " +:+ Text msg) ;;
  mret None.

Definition dquote : string := String (Ascii.ascii_of_nat 34) "".

Definition json_field (name value : string) : string := dquote +:+ name +:+ dquote +:+ ":" +:+ value.

(** The object served at [/metrics/json]. *)
Definition metrics_json (s : DebugStats) : string :=
  "{" +:+ String.concat ","
    [json_field "active_connections" (fmt_d (ActiveConnections s));
     json_field "total_connections" (fmt_d (TotalConnections s));
     json_field "messages_recv" (fmt_d (TotalMessagesRecv s));
     json_field "messages_sent" (fmt_d (TotalMessagesSent s));
     json_field "messages_dropped" (fmt_d (TotalDropped s));
     json_field "total_bytes" (fmt_d (TotalMessageBytes s));
     json_field "active_rooms" (fmt_d (ActiveRooms s));
     json_field "room_joins" (fmt_d (TotalRoomJoins s));
     json_field "room_leaves" (fmt_d (TotalRoomLeaves s));
     json_field "avg_latency_ns" (fmt_d (AvgLatency s));
     json_field "avg_broadcast_ns" (fmt_d (AvgBroadcast s));
     json_field "uptime_s" (fmt_0f (dur_Seconds (StatsUptime s)))] +:+ "}".

(** ** examples/multinode *)
Definition node_handler (id : string) (c : cref) (msg : Message) : prg (option error) :=
  prefix ← id_prefix c ;
  BroadcastText env ("[" +:+ prefix +:+ "@" +:+ id +:+ "]: " +:+ Text msg) ;;
  mret None.

Definition newNode_options (id : string) (a : Adapter) : list Option_ :=
  [WithAdapter (Some a); WithNodeID id; WithPresence (dur_mul 5 Second);
   WithMessageHandler (Some (node_handler id))].

(** The text served at [/stats]. *)
Definition node_stats : prg string :=
  local ← ClientCount ;
  global ← GlobalClientCount ;
  mret ("node: " +:+ nodeID env +:+ newline +:+ "local clients: " +:+ fmt_d local +:+ newline
        +:+ "global clients: " +:+ fmt_d global +:+ newline).

(** ** Properties *)
Context (Hhook : silent_drop_hook env) (Hpar : useParallel env = false) (Ha : adapter_answers env).

(** Whatever a client of the simple server says is delivered exactly once to
    every client, the sender included, and published for the other nodes. *)
Theorem simple_echoes (c : cref) (msg : Message) (w : world)
    (Hnd : NoDup (snapshot_slice w)) (Hr : ∀ c', c' ∈ snapshot_slice w -> ready w c') :
  ∃ w', run (simple_handler c msg) w = Some (None, w') /\
    delivered env (mkSendItem TextMessage (Data msg)) (list_to_set (snapshot_slice w))
      (publishes env (adapter_msg AdapterBroadcast TextMessage (Data msg))) w w'.
Proof.
  unfold simple_handler. destruct (run_Broadcast env Hhook Hpar Ha (Data msg) w Hnd Hr) as (w' & H & Hd).
  rewrite run_bind, H. run_simpl. by exists w'.
Qed.

(** On a node the text carries the start of the sender's ID and the node's. *)
Theorem node_echoes (id : string) (c : cref) (msg : Message) (w : world)
    (Hid : 8 <= String.length (c_ID (client w c)))
    (Hnd : NoDup (snapshot_slice w)) (Hr : ∀ c', c' ∈ snapshot_slice w -> ready w c') :
  let d := String.list_byte_of_string
             ("[" +:+ String.substring 0 8 (c_ID (client w c)) +:+ "@" +:+ id +:+ "]: " +:+ Text msg) in
  ∃ w', run (node_handler id c msg) w = Some (None, w') /\
    delivered env (mkSendItem TextMessage d) (list_to_set (snapshot_slice w))
      (publishes env (adapter_msg AdapterBroadcast TextMessage d)) w w'.
Proof.
  intros d. unfold node_handler, id_prefix, BroadcastText. run_simpl.
  rewrite bool_decide_eq_false_2 by lia. run_simpl. fold d.
  destruct (run_Broadcast env Hhook Hpar Ha d w Hnd Hr) as (w' & H & Hd).
  rewrite H. run_simpl. by exists w'.
Qed.
End Handlers.

(** The object of an empty collector, 90 seconds after the start. *)
Example metrics_json_new :
  metrics_json (mkDebugStats 1 2 3 4 0 5 6 7 8 9 10 ∅ (90 * Second)) =
  String.concat dquote
    ["{"; "active_connections"; ":1,"; "total_connections"; ":2,"; "messages_recv"; ":3,";
     "messages_sent"; ":4,"; "messages_dropped"; ":0,"; "total_bytes"; ":5,"; "active_rooms"; ":8,";
     "room_joins"; ":6,"; "room_leaves"; ":7,"; "avg_latency_ns"; ":9,"; "avg_broadcast_ns"; ":10,";
     "uptime_s"; ":90}"].
Proof. by vm_compute. Qed.
