(* ===== verification/AuthDemo.v ===== *)
(** * AuthDemo: the admission theorem at a concrete codec

    Claims are encoded as eight bytes of expiry and the bytes of the user, and
    the token of a request is read from its origin. *)

From S2P Require Import Prelude Prog Types Config World Invariant RegistrySpec Origin.
From S2P Require Import Sha256 Base64 Auth Demo.
#[local] Open Scope Z_scope.

Definition demo_marshal (c : claims) : bytes :=
  be_bytes 8 (Exp c + 2 ^ 63) ++ String.list_byte_of_string (Sub c).

Definition demo_unmarshal (l : bytes) : error + claims :=
  inr (mkClaims (String.string_of_list_byte (drop 8 l)) (be_word (take 8 l) - 2 ^ 63)).

Definition demo_query (r : Request) (key : string) : string := req_Origin r.

Lemma be_word_bytes n z : be_word (be_bytes n z) = z mod 256 ^ Z.of_nat n.
Proof.
  revert z. induction n as [|n IH]; intros z; [by rewrite Z.mod_1_r|].
  cbn [be_bytes]. rewrite be_word_snoc, IH, byte_val_of, Nat2Z.inj_succ, Z.pow_succ_r by lia.
  rewrite Z.rem_mul_r by lia. lia.
Qed.

Lemma length_be_bytes n z : length (be_bytes n z) = n.
Proof. revert z. induction n as [|n IH]; intros z; simpl; [done|]. rewrite length_app, IH. simpl. lia. Qed.

Lemma demo_codec c :
  valid_utf8 (String.list_byte_of_string (Sub c)) -> in_int64 (Exp c) ->
  demo_unmarshal (demo_marshal c) = inr c.
Proof.
  intros _ He. unfold demo_unmarshal, demo_marshal.
  rewrite take_app_length', drop_app_length' by (by rewrite length_be_bytes).
  rewrite be_word_bytes, String.string_of_list_byte_of_string.
  unfold in_int64, min_int64, max_int64 in He. change (256 ^ Z.of_nat 8) with (2 ^ 64).
  rewrite Z.mod_small by lia. destruct c as [sub exp]. cbn [Sub Exp] in *. do 2 f_equal. lia.
Qed.

(** Alice's token gets her in at once, and makes client 1 hers. *)
Lemma auth_admits_witness :
  ∃ token, run (generateToken demo_marshal "alice") demo_world = Some (token, demo_world) /\
    run (auth_BeforeConnect demo_unmarshal demo_query (mkRequest token "" "")) demo_world =
      Some (None, demo_world).
Proof.
  destruct (auth_admits demo_marshal demo_unmarshal demo_query demo_codec "alice" demo_world)
    as (_ & token & Hg & Hv).
  - apply (valid_rune 1 [Byte.x61]); [done..|]. apply (valid_rune 1 [Byte.x6c]); [done..|].
    apply (valid_rune 1 [Byte.x69]); [done..|]. apply (valid_rune 1 [Byte.x63]); [done..|].
    apply (valid_rune 1 [Byte.x65]); [done..|]. apply valid_nil.
  - split; by vm_compute.
  - exists token. split; [exact Hg|].
    destruct (Hv demo_world) as [Hb _]. rewrite (Hb (mkRequest token "" "") eq_refl).
    by rewrite bool_decide_eq_true_2 by (by vm_compute).
Defined.
