(* ===== verification/Races.v ===== *)
(** * Races: schedules on which operations defeat each other

    Each operation alone meets its specification, and the invariant [wf] holds
    under every schedule.  What the lock discipline does not give is shown
    here: schedules, found by reading the gaps between critical sections, that
    end in a state no sequential use reaches.  They are replayed on the hub of
    [Demo], block by block. *)

From S2P Require Import Prelude Prog Types Config World Invariant Send Client Rooms Registry Pump.
From S2P Require Import Lifecycle Demo.

(** A call that must return nil: it never gets past another answer. *)
Definition returns_nil (p : prg (option error)) : prg unit :=
  e ← p ; match e with None => mret tt | Some _ => out_of_fuel end.

(** [JoinRoom] looks the room up, and locks it, in two steps.  If the last
    member leaves in between, the room is deleted and the join goes to the
    orphan: both calls return nil, the client believes it is in the room, the
    hub knows no such room, and the client cannot leave it any more. *)
Theorem JoinRoom_joins_orphan :
  ∃ ps' w',
    pool_reach ([returns_nil (JoinRoom demo_env 1 "r"); returns_nil (LeaveRoom demo_env 2 "r")],
                demo_world) (ps', w') /\
    forallb has_returned ps' = true /\
    "r" ∈ c_rooms (client w' 1) /\ h_rooms (w_hub w') !! "r" = None /\
    option_map fst (run (LeaveRoom demo_env 1 "r") w') = Some (Some ErrRoomNotFound).
Proof.
  destruct (replay (replicate 2 0 ++ replicate 6 1 ++ replicate 4 0)
    ([returns_nil (JoinRoom demo_env 1 "r"); returns_nil (LeaveRoom demo_env 2 "r")], demo_world)
    (fun ps w => forallb has_returned ps && bool_decide ("r" ∈ c_rooms (client w 1)) &&
       bool_decide (h_rooms (w_hub w) !! "r" = None) &&
       bool_decide (option_map fst (run (LeaveRoom demo_env 1 "r") w) = Some (Some ErrRoomNotFound))))
    as (ps' & w' & Hr & Ho); [by vm_compute|].
  bool_to_prop. by exists ps', w'.
Qed.

(** [JoinRoom] checks that the client is registered only at its start.  If the
    client disconnects after that, the join goes through, and the room keeps a
    member that is not a client of the hub, and that nothing will remove. *)
Theorem JoinRoom_after_disconnect :
  ∃ ps' w',
    pool_reach ([returns_nil (JoinRoom demo_env 1 "r"); handleUnregister demo_env 1], demo_world)
      (ps', w') /\
    forallb has_returned ps' = true /\
    1 ∉ h_clients (w_hub w') /\ 1 ∈ r_clients (room w' 0) /\ h_rooms (w_hub w') !! "r" = Some 0.
Proof.
  destruct (replay ([0] ++ replicate 17 1 ++ replicate 5 0)
    ([returns_nil (JoinRoom demo_env 1 "r"); handleUnregister demo_env 1], demo_world)
    (fun ps w => forallb has_returned ps && bool_decide (1 ∉ h_clients (w_hub w)) &&
       bool_decide (1 ∈ r_clients (room w 0)) &&
       bool_decide (h_rooms (w_hub w) !! "r" = Some 0)))
    as (ps' & w' & Hr & Ho); [by vm_compute|].
  bool_to_prop. by exists ps', w'.
Qed.

(** ** A client accepted after the drain *)

(** The demo hub without clients. *)
Definition empty_world : world :=
  mkWorld
    (set_h_clients ∅ (set_h_clientIndex ∅ (set_h_rooms ∅ (set_h_userIndex ∅
      (set_h_clientCount 0 demo_hub)))))
    ∅ ∅ [] 1000 0 (mkPar false false [] false false 0 ∅ ∅ ∅).

(** An upgrader that does what the origin check says. *)
Definition plain_upgrade (check : Request -> prg bool) (r : Request) : prg (option error) :=
  ok ← check r ; mret (if (ok : bool) then None else Some (ErrExternal 403)).

Definition accepted (p : prg (error + cref)) : prg unit :=
  r ← p ; match r with inr _ => mret tt | inl _ => out_of_fuel end.

Definition same_origin_request : Request :=
  mkRequest "https://example.com" "example.com" "10.0.0.1:1".

(** The state is checked once, before the handshake.  A drain that begins
    after that check finds no clients and completes; the handshake then goes
    on and its client is registered: [Drain] has returned nil, and a client is
    connected, with its pumps running. *)
Theorem client_accepted_after_Drain :
  ∃ ps' w',
    pool_reach ([returns_nil (Drain demo_env Background); run_loop demo_env 3 3;
                 accepted (UpgradeConnection demo_env plain_upgrade (fun _ => "")
                             same_origin_request [])],
                empty_world) (ps', w') /\
    (has_returned <$> ps' !! 0) = Some true /\ (has_returned <$> ps' !! 2) = Some true /\
    h_state (w_hub w') = StateDraining /\ h_drainDone (w_hub w') = true /\
    h_clientCount (w_hub w') = 1%Z /\ EvSpawn (GReadPump 0) ∈ w_trace w'.
Proof.
  destruct (replay (replicate 2 2 ++ replicate 5 0 ++ replicate 3 2 ++ replicate 10 1 ++ replicate 4 2)
    ([returns_nil (Drain demo_env Background); run_loop demo_env 3 3;
      accepted (UpgradeConnection demo_env plain_upgrade (fun _ => "") same_origin_request [])],
     empty_world)
    (fun ps w => bool_decide ((has_returned <$> ps !! 0) = Some true) &&
       bool_decide ((has_returned <$> ps !! 2) = Some true) &&
       bool_decide (h_state (w_hub w) = StateDraining) && h_drainDone (w_hub w) &&
       bool_decide (h_clientCount (w_hub w) = 1%Z) &&
       match w_trace w with EvSpawn (GReadPump 0) :: _ => true | _ => false end))
    as (ps' & w' & Hr & Ho); [by vm_compute|].
  bool_to_prop. exists ps', w'. repeat (split; [done|]).
  destruct (w_trace w') as [|e t]; [done|]. destruct e as [| | | | | | | | |[[|]| | | | |]]; try done.
  by left.
Qed.

(** [SetUserID] does not ask whether the client is still registered: on a
    client that has gone it puts a dead entry into the user index, which takes
    a place under [MaxConnectionsPerUser] for good. *)
Theorem SetUserID_after_disconnect :
  ∃ w1 w2,
    run (handleUnregister demo_env 1) demo_world = Some (tt, w1) /\
    run (SetUserID demo_env 1 "v") w1 = Some (None, w2) /\
    1 ∉ h_clients (w_hub w2) /\ h_userIndex (w_hub w2) !! "v" = Some {[1]}.
Proof.
  assert (match run (handleUnregister demo_env 1) demo_world with
          | Some (_, w1) => match run (SetUserID demo_env 1 "v") w1 with
             | Some (e, w2) => bool_decide (e = None) && bool_decide (1 ∉ h_clients (w_hub w2)) &&
                 bool_decide (h_userIndex (w_hub w2) !! "v" = Some {[1]})
             | None => false end
          | None => false end = true) as Ho by by vm_compute.
  destruct (run (handleUnregister demo_env 1) demo_world) as [[[] w1]|] eqn:H1; [|done].
  destruct (run (SetUserID demo_env 1 "v") w1) as [[e w2]|] eqn:H2; [|done].
  bool_to_prop. subst e. by exists w1, w2.
Qed.

(** ** A configuration the defaults do not catch *)

(** With a pong wait of one nanosecond [applyConfigDefaults] derives a ping
    period of zero, and [time.NewTicker] panics in every write pump. *)
Theorem tiny_pong_panics (parse : string -> option string) (cfg : Config) (fuel : nat) (c : cref)
    (w : world) :
  PongWait cfg = 1%Z -> c_config (client w c) = applyConfigDefaults parse cfg ->
  run (writePump fuel c) w = None.
Proof.
  intros Hp Hc. unfold writePump. rewrite run_bind, run_gets. cbn beta iota.
  apply run_new_ticker_crash. rewrite Hc, tiny_pong_period by done. done.
Qed.
