(* ===== verification/Witnesses.v ===== *)
(** * Witnesses: the theorems at concrete inputs

    Every property that has hypotheses is applied here to the hub of [Demo],
    to a schedule replayed on it, or to another concrete input, with its
    hypotheses discharged by computation. *)

From S2P Require Import Prelude Prog Types Config World Invariant Send Client Rooms RoomSpec.
From S2P Require Import Registry RegistrySpec UnregisterSpec Pool Broadcast BroadcastSpec.
From S2P Require Import DeliverySpec Pump PumpSpec ReadSpec Presence PresenceSpec Cluster.
From S2P Require Import ClusterSpec Origin Options Lifecycle Watch DrainSpec LifecycleSpec Handlers.
From S2P Require Import Metrics System Demo Races ParallelSpec.
From Stdlib.Strings Require Import Byte.

(** ** The demo hub satisfies what the groups of theorems share *)
Lemma demo_hooks_keep : hooks_keep demo_limits demo_env.
Proof. split; try done; intros; apply keeps_ret. Qed.

Lemma demo_hooks_bystand : hooks_bystand demo_env.
Proof. split; try done; intros; apply calm_ret. Qed.

Lemma demo_hooks_steady : run_hooks_steady demo_env.
Proof. by split. Qed.

Lemma demo_silent : silent_drop_hook demo_env.
Proof. done. Qed.

Lemma demo_ready c : c ∈ demo_known -> ready demo_world c.
Proof.
  intros Hc. assert (c = 1 \/ c = 2) as [-> | ->] by (unfold demo_known in Hc; set_solver);
    (split; [by eexists|split; [done|by apply Nat.leb_le; vm_compute]]).
Qed.

Lemma demo_ready_members n c : c ∈ room_members demo_members n -> ready demo_world c.
Proof.
  intros Hc. apply demo_ready. unfold room_members, demo_members, demo_known in *. set_solver.
Qed.

(** ** System *)
Definition demo_read : prg (option error) -> cref -> prg (error + (Z * bytes)) := 
  fun pong _ => _ ← pong ; mret (inl (ErrExternal 0)).
Definition demo_unexpected : error -> list Z -> bool := fun _ _ => true.
Definition demo_text : error -> string := fun _ => "".
Definition demo_marshal : nodePresence -> error + bytes := fun _ => inr [Byte.x7b].
Definition demo_unmarshal : bytes -> error + nodePresence := fun _ => inl (ErrExternal 1).

Abbreviation demo_calls := [ignore (JoinRoom demo_env 1 "s"); ignore (LeaveRoom demo_env 2 "r")].

Lemma system_invariant_witness :
  ∃ ps' w', pool_reach (demo_calls, demo_world) (ps', w') /\
    forallb has_returned ps' = true /\ wf demo_limits w'.
Proof.
  destruct (replay (concat (replicate 6 [0; 1])) (demo_calls, demo_world)
    (fun ps _ => forallb has_returned ps)) as (ps' & w' & Hr & Ho); [by vm_compute|].
  exists ps', w'. split; [done|]. split; [done|].
  refine (system_invariant demo_env plain_upgrade demo_read demo_unexpected demo_text demo_marshal
    demo_unmarshal demo_calls ps' demo_world w' demo_hooks_keep _ _ _ demo_wf Hr).
  - intros check r Hc. apply keeps_bind; [apply Hc|]. intros []; apply keeps_ret.
  - intros pong c Hp. apply keeps_bind; [done|]. intros ?. apply keeps_ret.
  - repeat constructor.
Defined.

Abbreviation demo_drain := [ignore (Drain demo_env Background)].


Lemma connections_never_exceed_witness :
  ∃ ps' w', pool_reach (Run demo_env 3 3 :: demo_drain, demo_world) (ps', w') /\
    within 3 (size (h_clients (w_hub w'))).
Proof.
  destruct (replay [0; 1; 1] (Run demo_env 3 3 :: demo_drain, demo_world)
    (fun _ w => h_alive (w_hub w))) as (ps' & w' & Hr & Ho); [by vm_compute|].
  exists ps', w'. split; [done|].
  apply (connections_never_exceed demo_env 3 3 demo_drain ps' demo_world w' demo_hooks_bystand);
    [repeat constructor|done|unfold within; vm_compute; intros _ [=]|done].
Defined.

(** ** Rooms *)
Lemma no_veto : join_hook_policy demo_env (fun _ _ => None).
Proof. done. Qed.

Lemma JoinRoom_refines_abs_join_witness :
  ∃ w', run (JoinRoom demo_env 1 "r") demo_world = Some (None, w') /\
    rep demo_limits demo_known demo_id {[("r", 2); ("r", 1)]} {[("r", 2); ("r", 1)]} None w'.
Proof.
  destruct (JoinRoom_refines_abs_join demo_env demo_known demo_id (fun _ _ => None) demo_members
    1 "r" no_veto demo_world demo_rep) as (res & w' & Hr & He).
  exists w'. revert He.
  assert (abs_join (limits demo_env) demo_known demo_id (fun _ _ => None) demo_members 1 "r" =
    (None, {[("r", 2); ("r", 1)]})) as -> by by vm_compute.
  intros [-> Hrep]. split; [exact Hr|exact Hrep].
Defined.

Lemma LeaveRoom_refines_abs_leave_witness :
  ∃ w', run (LeaveRoom demo_env 2 "r") demo_world = Some (None, w') /\
    rep demo_limits demo_known demo_id ∅ ∅ None w'.
Proof.
  destruct (LeaveRoom_refines_abs_leave demo_env demo_known demo_id demo_members 2 "r" I demo_world
    demo_rep) as (res & w' & Hr & He).
  exists w'. revert He.
  assert (abs_leave demo_members 2 "r" = (None, ∅)) as -> by by vm_compute.
  intros [-> Hrep]. split; [exact Hr|exact Hrep].
Defined.

Lemma LeaveAllRooms_refines_abs_leave_all_witness :
  ∃ w', run (LeaveAllRooms demo_env 2) demo_world = Some (tt, w') /\
    rep demo_limits demo_known demo_id ∅ ∅ None w'.
Proof.
  destruct (LeaveAllRooms_refines_abs_leave_all demo_env demo_known demo_id demo_members 2 I demo_world
    demo_rep) as ([] & w' & Hr & He).
  exists w'. revert He. assert (abs_leave_all demo_members 2 = ∅) as -> by by vm_compute.
  intros Hrep. split; [exact Hr|exact Hrep].
Defined.

Lemma room_queries_agree_witness :
  ∃ w', run (RoomCount "r") demo_world = Some (1, w').
Proof.
  destruct (room_queries_agree demo_env demo_known demo_id demo_members "r" 2 demo_world demo_rep)
    as (_ & (w' & Hr) & _).
  exists w'. by vm_compute in Hr.
Defined.

(** ** Registry *)

(** A third connection, not registered yet. *)
Definition arriving_world : world :=
  upd_client 3 (fun _ => demo_client "c" "" ∅ []) demo_world.

Lemma arriving_client c :
  client arriving_world c = if decide (3 = c) then demo_client "c" "" ∅ [] else client demo_world c.
Proof. apply client_upd_client. Qed.

Lemma arriving_registry : registry demo_limits ∅ arriving_world.
Proof.
  destruct demo_registry as [H1 H2 H3 H4 H5]. split; try done.
  - intros i c. rewrite arriving_client. case_decide as Hc; [|apply H3]. subst c.
    change (h_clientIndex _) with (h_clientIndex (w_hub demo_world)). rewrite demo_index.
    split; [naive_solver|]. intros [Hin _]. change (3 ∈ demo_known) in Hin.
    unfold demo_known in Hin. set_solver.
  - intros u c. rewrite arriving_client. case_decide as Hc; [|apply H4]. subst c.
    change (h_userIndex _) with (h_userIndex (w_hub demo_world)). rewrite demo_users.
    split; [naive_solver|]. intros (Hin & _). change (3 ∈ demo_known) in Hin.
    unfold demo_known in Hin. set_solver.
Qed.

Definition arriving_id (c : cref) : string := c_ID (client arriving_world c).

Lemma arriving_rep : rep demo_limits demo_known arriving_id demo_members demo_members None arriving_world.
Proof.
  destruct demo_rep as [Hw Hk Hid Hr Hc Hn]. split; try done.
  - apply wf_upd_client; [done|]. intros _. split; [unfold queue_ok; cbn; lia|apply within_0].
  - intros c. rewrite arriving_client. case_decide as H3; [|apply Hc]. subst c.
    apply set_eq. intros n. rewrite elem_of_client_rooms. unfold demo_members. cbn. set_solver.
Qed.

Lemma handleRegister_spec_witness :
  ∃ w', run (handleRegister demo_env 3) arriving_world = Some (tt, w') /\
    registry demo_limits ∅ w' /\ h_results (w_hub w') !! 3 = Some None.
Proof.
  destruct (handleRegister_spec demo_env demo_known arriving_id demo_members 3 arriving_world
    arriving_rep arriving_registry) as (w' & Hr & Hreg & Hres & _).
  - change (3 ∉ demo_known). unfold demo_known. set_solver.
  - by vm_compute.
  - exists w'. split; [exact Hr|]. split; [exact Hreg|]. etrans; [exact Hres|]. by vm_compute.
Defined.

Lemma handleUnregister_spec_witness :
  ∃ w', run (handleUnregister demo_env 2) demo_world = Some (tt, w') /\
    registry demo_limits ∅ w' /\ c_connClosed (client w' 2) = true /\
    rep demo_limits (demo_known ∖ {[2]}) demo_id ∅ ∅ None w'.
Proof.
  destruct (handleUnregister_spec demo_env demo_known demo_id demo_members 2 demo_world
    demo_rep demo_registry ltac:(unfold demo_known; set_solver) I I)
    as (w' & Hr & Hreg & Hrep & _ & _ & Hcl & _).
  exists w'. split; [exact Hr|]. split; [exact Hreg|]. split; [exact Hcl|]. revert Hrep.
  assert (abs_leave_all demo_members 2 = ∅) as -> by by vm_compute. done.
Defined.

Lemma SetUserID_spec_witness :
  ∃ e w', run (SetUserID demo_env 2 "u") demo_world = Some (e, w') /\ registry demo_limits ∅ w'.
Proof.
  destruct (SetUserID_spec demo_env 2 "u" demo_world demo_registry) as (e & w' & Hr & Hreg & _).
  - change (2 ∈ demo_known). unfold demo_known. set_solver.
  - exists e, w'. split; [exact Hr|exact Hreg].
Defined.

(** ** Sending *)
Lemma trySendErr_refines_bounded_send_witness :
  run (trySendErr demo_env 1 hello) demo_world =
    Some (true, emits [] (upd_client 1 (set_c_send [hello; hello; hello]) demo_world)).
Proof.
  pose proof (trySendErr_refines_bounded_send demo_env demo_silent 1 hello demo_world
    ltac:(by eexists) eq_refl eq_refl ltac:(by apply Nat.leb_le; vm_compute)) as H.
  assert (bounded_send (dropPolicy demo_env) (cap (client demo_world 1)) (c_send (client demo_world 1))
    hello = (true, [hello; hello; hello], [])) as E by by vm_compute.
  rewrite E in H. exact H.
Defined.

Lemma SendMessage_spec_witness :
  ∃ r w', run (SendMessage demo_env 1 TextMessage [Byte.x79]) demo_world = Some (r, w') /\ r = None.
Proof.
  destruct (SendMessage_spec demo_env 1 TextMessage [Byte.x79] demo_world demo_silent
    ltac:(by eexists) eq_refl ltac:(by apply Nat.leb_le; vm_compute)) as (r & w' & Hr & _).
  exists r, w'. split; [exact Hr|].
  assert (option_map fst (run (SendMessage demo_env 1 TextMessage [Byte.x79]) demo_world) = Some None)
    as E by by vm_compute.
  rewrite Hr in E. by injection E.
Defined.

Lemma CloseWithCode_first_wins_witness :
  ∃ w1, run (CloseWithCode 1 CloseGoingAway "bye") demo_world = Some (None, w1) /\
    close_record (client w1 1) = (true, Some 1000%Z, CloseGoingAway, "bye"%string, true).
Proof.
  destruct (CloseWithCode_first_wins 1 CloseGoingAway CloseNormalClosure "bye" "" demo_world eq_refl)
    as (w1 & Hr & Hc & _).
  exists w1. split; [exact Hr|exact Hc].
Defined.

Lemma broadcastToRoom_delivers_witness :
  ∃ w', run (broadcastToRoomWithType demo_env "r" [Byte.x68] TextMessage) demo_world = Some (None, w').
Proof.
  destruct (broadcastToRoom_delivers demo_env demo_silent eq_refl I demo_known demo_id demo_members "r"
    [Byte.x68] TextMessage demo_world demo_rep ltac:(done) (demo_ready_members "r")) as (w' & Hr & _).
  exists w'. rewrite Hr. by vm_compute.
Defined.

(** ** Lifecycle *)
Definition busy_world : world :=
  upd_hub (fun h => set_h_register [3] (set_h_unregister [2] h)) arriving_world.

Lemma drainAndRebuildSnapshot_drains_witness :
  ∃ w', run (drainAndRebuildSnapshot demo_env 3) busy_world = Some (tt, w') /\ snapshot_current w'.
Proof.
  destruct (drainAndRebuildSnapshot_drains demo_env 3 busy_world demo_hooks_steady
    ltac:(by apply Nat.ltb_lt; vm_compute)) as (w' & Hr & _ & _ & _ & Hs).
  exists w'. split; [exact Hr|exact Hs].
Defined.

Definition draining_world : world := upd_hub (set_h_state StateDraining) demo_world.

Lemma UpgradeConnection_turns_away_witness :
  run (UpgradeConnection demo_env plain_upgrade demo_text demo_request []) draining_world =
    Some (inl (ErrWrap "remote" "10.0.0.1:1" ErrHubDraining),
      turned_away "connection_rejected_draining" "Service draining" 503 draining_world).
Proof.
  destruct (UpgradeConnection_turns_away demo_env plain_upgrade demo_text demo_request []
    draining_world) as (_ & H & _).
  exact (H eq_refl ltac:(discriminate)).
Defined.

Definition answered_world : world :=
  upd_hub (set_h_results {[3 := Some ErrMaxConnectionsReached]}) demo_world.

Lemma finish_registration_spec_witness :
  ∃ w', run (finish_registration demo_text 3 demo_request) answered_world =
    Some (inl (ErrWrap "remote" "10.0.0.1:1" ErrMaxConnectionsReached), w').
Proof.
  destruct (finish_registration_spec demo_text 3 demo_request answered_world) as (H & _).
  destruct (H (Some ErrMaxConnectionsReached) eq_refl eq_refl) as (w' & Hr & _).
  exists w'. exact Hr.
Defined.

Definition cancelled_world : world :=
  upd_par (set_p_cancelled {[7]}) (upd_hub (set_h_state StateDraining) demo_world).

Lemma Drain_spec_witness :
  run (Drain demo_env (Ctx 7)) cancelled_world =
    Some (Some ErrContext, emit (EvLog Warn "Hub drain timeout") cancelled_world).
Proof.
  destruct (Drain_spec demo_env (Ctx 7) cancelled_world) as (H & _ & He).
  etrans; [exact H|]. apply He; [by vm_compute|done].
Defined.


Lemma reap_clients_spec_witness :
  ∃ m' w', run (reap_clients demo_env 60000000000 {[2 := 0%Z]} [1; 2]) demo_world = Some (m', w') /\
    c_closed (client w' 2) = true /\ client w' 1 = client demo_world 1.
Proof.
  destruct (reap_clients_spec demo_env 60000000000 {[2 := 0%Z]} [1; 2] demo_world
    ltac:(by apply (bool_decide_eq_true_1 (NoDup [1; 2])); vm_compute)) as (m' & w' & Hr & Hc & _).
  exists m', w'. split; [exact Hr|]. split; [rewrite (Hc 2)|rewrite (Hc 1)]; by vm_compute.
Defined.

(** A minute after the epoch, for the log limiters. *)
Definition late_world : world :=
  mkWorld demo_hub ∅ ∅ [] (dur_mul 2 Minute) 0 (mkPar false false [] false false 0 ∅ ∅ ∅).

(** ** Pumps *)
Lemma drainQueued_in_order_witness :
  ∃ ok w' j, run (drainQueued 1) demo_world = Some (ok, w') /\ (ok = true -> j = 2).
Proof.
  destruct (drainQueued_in_order 1 demo_world) as (ok & w' & j & Hr & _ & Hj).
  exists ok, w', j. split; [exact Hr|exact Hj].
Defined.


(** Client 1 after a graceful close. *)
Definition closed_world : world :=
  upd_client 1 (closed_with 1000 CloseGoingAway "bye") demo_world.


Lemma demo_policy : app_policy demo_env (fun _ _ => (None, None)) (fun _ _ => None).
Proof. by split. Qed.

Lemma processMessage_calls_witness :
  ∃ w', run (processMessage demo_env 1 TextMessage [Byte.x68]) demo_world = Some (tt, w').
Proof.
  destruct (processMessage_calls demo_env _ _ demo_policy 1 TextMessage [Byte.x68] demo_world)
    as (w' & Hr & _).
  exists w'. exact Hr.
Defined.

Lemma read_step_spec_witness :
  ∃ w', run (read_step demo_env demo_unexpected demo_read 1) demo_world = Some (false, w').
Proof.
  destruct (read_step_spec demo_env _ _ demo_policy demo_unexpected demo_read 1
    (inl (ErrExternal 0)) demo_world _ eq_refl) as (w' & Hr & _).
  exists w'. exact Hr.
Defined.

Lemma readPump_unregisters_witness :
  ∃ w', run (readPump demo_env demo_unexpected demo_read 1 1) demo_world = Some (tt, w') /\
    c_connClosed (client w' 1) = true.
Proof.
  destruct (run (readPump demo_env demo_unexpected demo_read 1 1) demo_world) as [[[] w']|] eqn:Hr;
    [|by vm_compute in Hr].
  exists w'. split; [done|].
  exact (proj1 (readPump_unregisters demo_env demo_unexpected demo_read 1 1 demo_world w' Hr)).
Defined.

(** ** Cluster *)
Definition remote_broadcast : AdapterMessage :=
  mkAdapterMessage "node-b" AdapterBroadcast "" "" "" [] TextMessage [Byte.x68].

Lemma adapter_messages_never_republished_witness :
  ∃ ps' w', pool_reach ([handleAdapterMessage demo_env demo_unmarshal remote_broadcast], demo_world)
      (ps', w') /\ forallb has_returned ps' = true /\ published (w_trace w') = [].
Proof.
  destruct (replay (replicate 8 0)
    ([handleAdapterMessage demo_env demo_unmarshal remote_broadcast], demo_world)
    (fun ps _ => forallb has_returned ps)) as (ps' & w' & Hr & Ho); [by vm_compute|].
  exists ps', w'. split; [exact Hr|]. split; [exact Ho|].
  refine (adapter_messages_never_republished demo_env demo_unmarshal remote_broadcast [] [] ps'
    demo_world w' _ (List.Forall_nil _) eq_refl Hr).
  by intros h P c d.
Defined.

Definition gossip_world : world :=
  upd_hub (set_h_presenceCache (Some {["node-b" := mkNodeStats 5 {["r" := 2%Z]} 900]})) demo_world.

Lemma GlobalClientCount_total_witness :
  ∃ w', run GlobalClientCount gossip_world = Some (7%Z, w').
Proof.
  destruct (GlobalClientCount_total gossip_world) as (w' & Hr & _).
  - split; by vm_compute.
  - exists w'. rewrite Hr. by vm_compute.
Defined.

(** The demo hub with an adapter that takes everything. *)
Definition clustered_env : HubEnv :=
  WithAdapter (Some (mkAdapter (mret None) (fun _ => mret None) (mret None))) demo_env.

(** ** The rest *)
Definition limited_env : HubEnv := WithLimits (mkLimits 0 0 0 0 5) demo_env.

Lemma checkRateLimit_spec_witness :
  ∃ ok w', run (checkRateLimit limited_env 1) demo_world = Some (ok, w').
Proof.
  destruct (checkRateLimit_spec limited_env 1 demo_world) as [_ H].
  destruct (H ltac:(by vm_compute)) as (ok & w' & Hr & _).
  exists ok, w'. exact Hr.
Defined.



Lemma chain_executes_all_witness :
  ∃ pcs ch, rtc chain_step (replicate 2 AtRead,
      build_chain (NewMiddlewareChain (fun _ _ => mret (Returned None))) [CUse RecoveryMiddleware])
      (pcs, ch) /\
    ∀ c msg, ∃ ch', Execute ch c msg =
      Some (ch', wrapped [RecoveryMiddleware] (fun _ _ => mret (Returned None)) c msg).
Proof.
  eexists _, _. split; [apply rtc_refl|].
  exact (proj2 (chain_executes_all (fun _ _ => mret (Returned None)) [CUse RecoveryMiddleware] 2 _ _
    (rtc_refl _ _))).
Defined.

Lemma middlewares_spec_witness :
  run (RecoveryMiddleware (fun _ _ => mret (Panicked (PanicString "boom"))) 1
         (mkMessage 1 [] "" 0)) demo_world =
  Some (Returned (Some ErrInvalidMessage),
        emit (EvLog Error "Panic recovered in message handler") demo_world).
Proof.
  exact (proj1 (middlewares_spec (fun _ _ => mret (Panicked (PanicString "boom"))) 1
    (mkMessage 1 [] "" 0) demo_world demo_world (Panicked (PanicString "boom")) eq_refl)).
Defined.


(** ** Parallel delivery *)

(** One client per batch, two workers, the pool already started. *)
Definition parallel_env : HubEnv :=
  WithParallelBroadcastWorkers 2 (WithParallelBroadcast 1 demo_env).

Definition parallel_world : world :=
  upd_par (fun p => set_p_workers 2 (set_p_started true (set_p_once true p))) demo_world.

Definition parallel_sends : list (list cref * sendItem) := [([1; 2], hello)].

Lemma parallel_idle : idle parallel_world 2.
Proof. split; try done. Qed.

Lemma parallel_room : has_room parallel_world [1; 2].
Proof.
  intros c. change (client parallel_world c) with (client demo_world c).
  apply (demo_client_cases (fun c cl => c_closed cl = false ->
    length (c_send cl) + occ c [1; 2] <= cap cl)).
  - intros _. apply Nat.leb_le. by vm_compute.
  - intros _. apply Nat.leb_le. by vm_compute.
  - intros c' H1 H2 _. simpl. rewrite !decide_False by congruence. lia.
Qed.

Lemma parallel_roomy : roomy parallel_world parallel_sends.
Proof. intros c Hc. pose proof (parallel_room c Hc) as Hr. unfold target. simpl in *. lia. Qed.

Lemma parallel_replay :
  ∃ ps w, pool_reach (parallel_pool parallel_env parallel_sends 2 true, parallel_world) (ps, w) /\
    fanouts_returned parallel_sends ps /\ c_send (client w 2) = [hello].
Proof.
  destruct (replay (replicate 8 0 ++ replicate 4 1 ++ replicate 4 2 ++ [0])
    (parallel_pool parallel_env parallel_sends 2 true, parallel_world)
    (fun ps w => forallb has_returned (take 1 ps) && bool_decide (1 <= length ps) &&
       bool_decide (c_send (client w 2) = [hello]))) as (ps & w & Hr & Ho); [by vm_compute|].
  apply andb_prop in Ho as [Ho Hs]. apply andb_prop in Ho as [Ho Hl].
  apply bool_decide_eq_true in Hs, Hl. exists ps, w. split; [done|]. split; [|done].
  intros [|i] Hi; [|simpl in Hi; lia]. destruct ps as [|p ps]; [simpl in Hl; lia|].
  simpl in *. f_equal. apply has_returned_ret. by destruct (has_returned p).
Qed.



